(* ===== verification/_CoqProject ===== *)
-Q . S2P
Prelude.v
Join.v
Util.v
DbRows.v
Db.v
DbProps.v
DslAst.v
DslFunc.v
DslEval.v
DslInv.v
DslEvalInv.v
DslProps.v
Dsl.v
Reconcile.v
Engine.v
MinionEngine.v
Docker.v
DockerClient.v
Scheduler.v
ProviderTables.v
Provider.v
Cluster.v
ClusterProps.v
ClusterRun.v
Foreman.v
ForemanProps.v
Elector.v
Supervisor.v
NetIP.v
Consensus.v
NetStore.v
NetStoreProps.v
NetSync.v
Ovsdb.v
OvsServer.v
OvsdbProps.v
Ovn.v
NetMaster.v
NetMasterProps.v
Regexp.v
Host.v
WorkerRules.v
Worker.v
WorkerHosts.v
WorkerNat.v
WorkerFlow.v
WorkerPorts.v
DslScan.v
DslParse.v
DslTokens.v
DslRoundtrip.v
DslSpec.v
CloudConfig.v
AwsSpot.v
AwsAcl.v
AwsAclProps.v
AwsProps.v
AwsMemory.v
Gce.v
GceProps.v
Vagrant.v
Azure.v
Inspect.v
