(* ===== verification/Prelude.v ===== *)
(** * DI: a verification library for the DI controller and minion

    DI deploys distributed applications. A policy written in a small Lisp-like language
    says which machines and containers there should be, and which of them may talk to
    each other. The controller ([di.go]) boots the machines with cloud providers and sends
    the policy to the minion that runs on each of them; the minions elect a leader,
    start the containers, and build the network between them. Every part follows the same
    pattern: it reads rows of an in-memory database (what should be) and asks the world
    (what is), joins the two lists, and makes the difference disappear. This library
    models these parts as they are written and proves what each of them achieves.

    ** Files and sources

    Shared:
    - [Prelude] (this file): outcomes of Go code (a result, an error, a panic, or not
      enough fuel), the state monad [M] with its loops, slices, 64-bit integers,
      [sort.Strings], [strings.Split] and [Join], the order of loops over maps, triples
      for partial ([hoare]) and total ([returns]) correctness, and the hint base [di].
    - [Join]: [src/join/join.go], the matching that every reconciliation uses.
    - [Util]: [src/util/util.go].
    - [DbRows], [Db], [DbProps]: [src/db], the rows, the tables, transactions and
      triggers; the class [Row] is the interface of the row types. [Reconcile] states
      once what the pattern select, join, remove, insert and commit does to a table.

    The language:
    - [DslAst], [DslFunc], [DslEval]: syntax trees, the heap of contexts, machines,
      containers and tables that the evaluator mutates, all built-in functions and the
      evaluator ([src/dsl/ast.go], [func.go], [eval.go]).
    - [DslInv], [DslEvalInv]: the invariant of that heap. [DslProps]: single built-ins.
    - [Dsl]: imports and queries ([src/dsl/imports.go], [dsl.go], [key.go]).
    - [DslScan]: the scanner of Go's [text/scanner] and the number formats that the
      language uses. [DslParse]: the parser and the printer ([src/dsl/parse.go] and the
      [String] methods of [ast.go]). [DslTokens], [DslRoundtrip]: what is printed is
      read back. [DslSpec]: [New] as a whole, from a text to the text for the minions.

    The controller:
    - [Engine]: [src/engine/engine.go], from a policy to rows.
    - [ProviderTables], [Provider]: [src/provider/provider.go], [constraint.go] and the
      size tables. [CloudConfig]: the boot scripts ([cloud_config.go]).
    - [AwsSpot], [AwsAcl]: [src/provider/awsSpot.go], over the class [EC2]; [AwsAclProps]
      and [AwsProps] are the theorems, over the laws [GroupLaws] and [SpotLaws], and
      [AwsMemory] is an EC2 in memory that obeys them.
    - [Gce], [GceProps]: [src/provider/gce.go], over the class [GCE]. [Azure]:
      [src/provider/azure.go], over [AzureService]. [Vagrant]: [src/provider/vagrant.go] and
      [vagrant_api.go], over [VagrantHost].
    - [Cluster], [ClusterProps], [ClusterRun]: [src/cluster/cluster.go], over the class
      [Cloud] of the cloud providers.
    - [Foreman], [ForemanProps]: [src/cluster/foreman.go], over a network oracle.

    - [Inspect]: [src/inspect], the graph of the connections of a policy.

    The minion:
    - [MinionEngine]: [src/minion/engine.go] and [server.go].
    - [Docker], [DockerClient]: [src/minion/docker/docker.go], over the class [Daemon];
      the rest of the minion uses the class [DockerAPI], whose laws the client refines.
    - [Scheduler]: [src/minion/scheduler]. [Supervisor]: [src/minion/supervisor].
    - [Elector]: [src/minion/elector/elector.go], over the class [LeaderStore].
    - [Consensus]: the store interface and the store in memory of
      [src/minion/consensus].
    - [NetIP], [NetStore], [NetStoreProps], [NetSync]: [src/minion/network/store.go].
    - [Ovsdb]: [src/ovsdb/ovsdb.go], over the class [OvsServer]; [OvsServer]: the laws of
      that server (RFC 7047) with a small server that obeys them; [OvsdbProps] and
      [Ovn]: what the client's operations do to a logical switch.
    - [NetMaster], [NetMasterProps]: [src/minion/network/network.go].
    - [Regexp]: the part of Go's [regexp] that the worker uses. [Host], [WorkerRules],
      [Worker]: [src/minion/network/link.go] and [worker.go], over the class [Host] of
      commands, files and docker. [WorkerHosts], [WorkerNat], [WorkerFlow] and
      [WorkerPorts] are the theorems about them.

    ** How code is modelled

    A Go function is a definition of the same name in [M E S], a function from a state to
    an outcome; the state is the part of the system that it reads and writes, and a panic
    (index out of range, nil map, failed assertion, [panic]) is an outcome of its own. A
    handler that logs errors and goes on returns a unit or, where the theorems need it,
    whether there were errors. Code outside of this repository, the clouds, the network,
    docker, etcd, the Open vSwitch database and the commands of the host, is a class with
    operations over an abstract world; what a theorem needs of it is a second class with
    laws, and each such theorem has a witness with an instance. The order of a loop over
    a map comes from the class [MapRange], a different one for each loop. Random numbers
    are an oracle as well. [int] is [Z] with its wrap-around where it can overflow,
    [float64] is [SpecFloat].

    ** What is shown

    - [Join]: matches are admissible, maximal and prefer low scores.
    - Database: IDs are unique in every reachable database, and no change is lost between
      a transaction and the triggers of its table.
    - Language: evaluation keeps labels, connections, tables, commands and environments
      consistent; queries do not panic; imports terminate; the result does not depend on
      the fuel. Reading a text terminates, and the minions read the program that the
      controller evaluated from the text that it printed, literals apart that [DslSpec]
      lists.
    - Controller and minion engine: after an update the tables hold exactly what the
      policy asks for, and machines and containers that run keep their identity.
    - Cluster: [sync] reaches the wanted instances and then does nothing more; the set of
      cluster objects follows the rows. The foreman sends exactly the outdated minions
      the configuration of their row.
    - Back ends: on Amazon the security groups let in exactly the ranges of the policy, and
      [Boot] makes one request for each machine and sees it listed; on Azure it deploys
      each machine, and Vagrant lists a machine with the size it was made with.
    - Inspect: the search finds exactly the reachable nodes.
    - Scheduler, supervisor and docker client: which containers are booted, kept and
      removed; a container that was started is recognised; the client refines the
      abstract docker.
    - Elector: no two leaders while keys are renewed in time, and a run with two leaders
      when one is late.
    - Network: addresses are unique and in their prefix, the directories of the store
      mirror the containers and reach the workers, OVN gets exactly the wanted ports and
      access control lists, a worker's NAT table and hosts files are exactly the wanted
      ones, and flows are compared up to the order of their fields.
    - Some theorems state that the code does less than it means to: an environment
      variable with an equality sign, the race of [sync], the split brain, duplicate
      access control lists, ports that cannot be corrected, the timeout of the Google back
      end that is never reached, paths of a graph that overwrite each other.

    ** Fuel and bounds

    [evalAst] takes the number of nested calls, because programs need not terminate; more
    fuel never changes a result ([eval_fuel_independent]). Import resolution takes the
    number of modules, which is enough ([resolveImports_terminates]). The scanner and the
    parser take the length of the text, which is enough because every token but the last
    has a character ([parseText_returns]); [wait] and [operationWait] of the Google back end
    take fuel because they need not end ([gceWait_misses_timeout]); printing takes the
    nesting of machines and containers, which is one. [syncLoop] has the eight
    iterations of the source. The loops of [Regexp] take the length of the text,
    which is enough because an iteration consumes a character ([starF_fuel]). Drawing a
    random address takes the 256 attempts of the source.

    ** Limits of the models

    A transaction is atomic, as the lock of the database makes it; goroutines are modelled
    where their interleaving matters (triggers, the two transactions of [sync], elections)
    and otherwise run one after the other. [syncLabels] sorts a slice that it shares with
    a row, which the model does not share. Only one client writes to the Open vSwitch
    database while an operation of the client runs; numbers in its JSON are integers
    below 2^53. Characters are bytes, and the letters of identifiers are those of ASCII.
    The errors of the scanner are one error without its text. [math.Log2], rounded up, is
    [Z.log2_up]. A command is given to [fmt.Sprintf] as a format in the source; the commands of the worker have
    no verbs in them.

    ** Not modelled

    - The client of etcd in [consensus.go], and the calls of Swarm: I/O.
    - The entry points [di.go], [minion/main.go] and [inspect/main.go], and running graphviz;
      logging; the generated protocol code. *)

From stdpp Require Import base gmap sets list strings sorting.
From Stdlib Require Import ZArith Lia.

(** ** Outcomes of Go code

    A Go function either returns, returns an error, or panics; the fourth
    outcome says that the fuel given to a fuel-indexed definition was not
    enough to know which of the three it is. *)

Inductive outcome (E A : Type) : Type :=
| Ok (a : A)
| Err (e : E)
| Panic (why : string)
| OutOfFuel.
Arguments Ok {E A} _.
Arguments Err {E A} _.
Arguments Panic {E A} _.
Arguments OutOfFuel {E A}.

(** State-passing code: [M E S A] reads and writes a state [S]. The state is
    dropped when the code does not return, because no caller in the program
    looks at it again after an error. *)

Definition M (E S A : Type) : Type := S → outcome E (A * S).

#[global] Instance M_ret {E S} : MRet (M E S) := λ A a s, Ok (a, s).
#[global] Instance M_bind {E S} : MBind (M E S) := λ A B k c s,
  match c s with
  | Ok (a, s') => k a s'
  | Err e => Err e
  | Panic w => Panic w
  | OutOfFuel => OutOfFuel
  end.

(** The final state of a run, for closed examples. *)
Definition finalState {E A S} (s0 : S) (o : outcome E (A * S)) : S :=
  match o with Ok (_, s) => s | _ => s0 end.

Section Primitives.
Context {E S : Type}.

Definition fail {A} (e : E) : M E S A := λ _, Err e.
Definition panic {A} (why : string) : M E S A := λ _, Panic why.
Definition outOfFuel {A} : M E S A := λ _, OutOfFuel.
Definition getS : M E S S := λ s, Ok (s, s).
Definition putS (s : S) : M E S unit := λ _, Ok (tt, s).
Definition modifyS (f : S → S) : M E S unit := λ s, Ok (tt, f s).

(** [for _, x := range l { b }] where the body may return an error. *)
Fixpoint forEach {A} (f : A → M E S unit) (l : list A) : M E S unit :=
  match l with
  | [] => mret tt
  | x :: l' => f x ≫= λ _, forEach f l'
  end.

(** The same loop when it appends one result per element. *)
Fixpoint mapEach {A B} (f : A → M E S B) (l : list A) : M E S (list B) :=
  match l with
  | [] => mret []
  | x :: l' => f x ≫= λ y, mapEach f l' ≫= λ ys, mret (y :: ys)
  end.

(** The same loop when it threads an accumulator. *)
Fixpoint foldEach {A B} (f : B → A → M E S B) (acc : B) (l : list A) : M E S B :=
  match l with
  | [] => mret acc
  | x :: l' => f acc x ≫= λ acc', foldEach f acc' l'
  end.

End Primitives.

(** ** Go slices

    A Go slice of type [[]T] may be nil, which [reflect.DeepEqual] tells from
    an empty slice: [None] is the nil slice. *)

Definition slice (A : Type) : Type := option (list A).

Definition elems {A} (s : slice A) : list A :=
  match s with Some l => l | None => [] end.

(** [append(s, l...)]: appending nothing to nil leaves nil. *)
Definition appendSlice {A} (s : slice A) (l : list A) : slice A :=
  match s, l with
  | None, [] => None
  | _, _ => Some (elems s ++ l)
  end.

(** A local [var x []T] filled by appends: nil when nothing was appended. *)
Definition mkSlice {A} (l : list A) : slice A := appendSlice None l.

(** ** Go's [int] is 64 bits wide *)

Definition wrap64 (z : Z) : Z := (z + 2 ^ 63) `mod` 2 ^ 64 - 2 ^ 63.
Definition int64 (z : Z) : Prop := (- 2 ^ 63 ≤ z < 2 ^ 63)%Z.
#[global] Instance int64_dec z : Decision (int64 z).
Proof. unfold int64. apply _. Defined.

(** ** Strings: the order of Go's [<], and [sort.Strings] *)

Definition sortStrings (l : list string) : list string := merge_sort String.le l.

(** [strings.Split] with a separator of one character, and [strings.Join] with one. *)
Fixpoint splitOn (sep : Ascii.ascii) (s : string) : list string :=
  match s with
  | EmptyString => [EmptyString]
  | String c s' =>
      if decide (c = sep) then EmptyString :: splitOn sep s'
      else match splitOn sep s' with
           | [] => [String c EmptyString]
           | w :: ws => String c w :: ws
           end
  end.

Definition joinOn (sep : Ascii.ascii) (l : list string) : string :=
  String.concat (String sep EmptyString) l.

(** The string does not have the separator. *)
Definition noSep (sep : Ascii.ascii) (s : string) : Prop := sep ∉ String.list_ascii_of_string s.

(** ** Iteration over a Go map

    The order of [for k, v := range m] is unspecified and may differ between
    two loops over the same map. It is an oracle: [rangeOrder n m] is the order
    of the [n]-th loop of a run, some permutation of the map's entries. *)

Class MapRange : Type := {
  rangeOrder : ∀ {K : Type} `{Countable K} {V : Type}, nat → gmap K V → list (K * V);
  rangeOrder_perm : ∀ {K : Type} `{Countable K} {V : Type} (n : nat) (m : gmap K V),
    rangeOrder n m ≡ₚ map_to_list m
}.

(** One admissible order, for witnesses: the order of [map_to_list]. *)
Definition mapToListRange : MapRange := {|
  rangeOrder := λ _ _ _ _ _ m, map_to_list m;
  rangeOrder_perm := λ _ _ _ _ _ _, Permutation_refl _
|}.

(** ** Hints and tactics *)

Create HintDb di discriminated.

Lemma Ok_pair_inj {E A S} (a b : A) (s t : S) :
  Ok (E := E) (a, s) = Ok (b, t) → a = b ∧ s = t.
Proof. intros [= -> ->]. done. Qed.

Lemma ret_Ok_inj {E A S} (a b : A) (s t : S) :
  (mret a : M E S A) s = Ok (b, t) → a = b ∧ s = t.
Proof. apply Ok_pair_inj. Qed.

(** Use the hypotheses that say that a computation returned. *)
Ltac inv_ok :=
  repeat match goal with
  | H : Ok (_, _) = Ok (_, _) |- _ => apply Ok_pair_inj in H as [??]; subst
  | H : Ok _ = Ok _ |- _ => injection H as H; subst
  | H : mret _ _ = Ok (_, _) |- _ => apply ret_Ok_inj in H as [??]; subst
  | H : Err _ = Ok _ |- _ => discriminate H
  | H : Panic _ = Ok _ |- _ => discriminate H
  | H : OutOfFuel = Ok _ |- _ => discriminate H
  | H : fail _ _ = Ok _ |- _ => discriminate H
  | H : panic _ _ = Ok _ |- _ => discriminate H
  | H : outOfFuel _ = Ok _ |- _ => discriminate H
  end.

(** ** Lemmas on outcomes *)

Section OutcomeLemmas.
Context {E S : Type}.

Lemma bind_Ok {A B} (c : M E S A) (k : A → M E S B) s b s'' :
  (c ≫= k) s = Ok (b, s'') ↔ ∃ a s', c s = Ok (a, s') ∧ k a s' = Ok (b, s'').
Proof.
  unfold mbind, M_bind. destruct (c s) as [[a s']| | |]; split;
    [eauto 6|intros (?&?&?&?); by simplify_eq|..]; try done;
    intros (?&?&?&?); discriminate.
Qed.

Lemma forEach_app {A} (f : A → M E S unit) l1 l2 s :
  forEach f (l1 ++ l2) s = (forEach f l1 ≫= λ _, forEach f l2) s.
Proof.
  revert s. induction l1 as [|x l1 IH]; intros s; simpl; [done|].
  unfold mbind, M_bind. destruct (f x s) as [[[] s']| | |]; auto.
Qed.

End OutcomeLemmas.

(** ** Hoare triples for partial correctness: if the code returns, the result
    and the final state satisfy the postcondition. *)

Definition hoare {E S A} (P : S → Prop) (c : M E S A) (Q : A → S → Prop) : Prop :=
  ∀ s a s', P s → c s = Ok (a, s') → Q a s'.

Section HoareRules.
Context {E S : Type}.
Implicit Types P : S → Prop.

Lemma hoare_ret {A} P (a : A) (Q : A → S → Prop) :
  (∀ s, P s → Q a s) → hoare (E := E) P (mret a) Q.
Proof. intros H s b s' HP Heq. inv_ok. auto. Qed.

Lemma hoare_bind {A B} P (c : M E S A) (k : A → M E S B) R Q :
  hoare P c R → (∀ a, hoare (R a) (k a) Q) → hoare P (c ≫= k) Q.
Proof. intros Hc Hk s b s'' HP (a & s' & H1 & H2)%bind_Ok. eapply Hk; eauto. Qed.

Lemma hoare_weaken {A} P P' (c : M E S A) (Q Q' : A → S → Prop) :
  hoare P c Q → (∀ s, P' s → P s) → (∀ a s, Q a s → Q' a s) → hoare P' c Q'.
Proof. unfold hoare. eauto. Qed.

Lemma hoare_fail {A} P (e : E) (Q : A → S → Prop) : hoare P (fail e) Q.
Proof. intros s a s' _ Heq. inv_ok. Qed.

Lemma hoare_panic {A} P w (Q : A → S → Prop) : hoare (E := E) P (panic w) Q.
Proof. intros s a s' _ Heq. inv_ok. Qed.

Lemma hoare_fuel {A} P (Q : A → S → Prop) : hoare (E := E) P outOfFuel Q.
Proof. intros s a s' _ Heq. inv_ok. Qed.

Lemma hoare_modify P f (Q : unit → S → Prop) :
  (∀ s, P s → Q tt (f s)) → hoare (E := E) P (modifyS f) Q.
Proof. intros H s [] s' HP Heq. injection Heq as <-. auto. Qed.

Lemma hoare_get P (Q : S → S → Prop) :
  (∀ s, P s → Q s s) → hoare (E := E) P getS Q.
Proof. intros H s a s' HP Heq. injection Heq as <- <-. auto. Qed.

Lemma hoare_forEach {A} P (f : A → M E S unit) l :
  (∀ x, x ∈ l → hoare P (f x) (λ _, P)) → hoare P (forEach f l) (λ _, P).
Proof.
  induction l as [|x l IH]; intros Hf; simpl.
  - by apply hoare_ret.
  - eapply hoare_bind; [apply Hf; set_solver|]. intros []. apply IH. set_solver.
Qed.

End HoareRules.

(** ** Triples for total correctness: the code returns, and the result and the final
    state satisfy the postcondition. *)

Definition returns {E S A} (P : S → Prop) (c : M E S A) (Q : A → S → Prop) : Prop :=
  ∀ s, P s → ∃ a s', c s = Ok (a, s') ∧ Q a s'.

Section ReturnsRules.
Context {E S : Type}.
Implicit Types P : S → Prop.

Lemma returns_ret {A} P (a : A) (Q : A → S → Prop) :
  (∀ s, P s → Q a s) → returns (E := E) P (mret a) Q.
Proof. intros HQ s HP. exists a, s. auto. Qed.

Lemma returns_bind {A B} P (c : M E S A) (k : A → M E S B) R Q :
  returns P c R → (∀ a, returns (R a) (k a) Q) → returns P (c ≫= k) Q.
Proof.
  intros Hc Hk s HP. destruct (Hc s HP) as (a & s1 & H1 & HR).
  destruct (Hk a s1 HR) as (b & s2 & H2 & HQ). exists b, s2. split; [|done].
  unfold mbind, M_bind. by rewrite H1.
Qed.

Lemma returns_weaken {A} P P' (c : M E S A) (Q Q' : A → S → Prop) :
  returns P c Q → (∀ s, P' s → P s) → (∀ a s, Q a s → Q' a s) → returns P' c Q'.
Proof. intros Hc HP HQ s Hs. destruct (Hc s (HP s Hs)) as (a & s' & ? & ?). eauto. Qed.

(** A loop, with an invariant that speaks about the elements that are left. *)
Lemma returns_forEach {A} (I : list A → S → Prop) (f : A → M E S unit) l :
  (∀ x l', x ∈ l → returns (I (x :: l')) (f x) (λ _, I l')) →
  returns (I l) (forEach f l) (λ _, I []).
Proof.
  induction l as [|x l IH]; intros Hf; [by apply returns_ret|]. cbn [forEach].
  eapply returns_bind; [apply Hf; left|]. intros []. apply IH. intros y l' Hy. apply Hf. by right.
Qed.

(** A loop with an accumulator, with an invariant that speaks about the elements done. *)
Lemma foldEach_run {A B} (I : list A → B → S → Prop) (f : B → A → M E S B) l acc s :
  (∀ x seen rest acc s, l = seen ++ x :: rest → I seen acc s →
     ∃ acc' s', f acc x s = Ok (acc', s') ∧ I (seen ++ [x]) acc' s') →
  I [] acc s → ∃ acc' s', foldEach f acc l s = Ok (acc', s') ∧ I l acc' s'.
Proof.
  intros Hf HI. assert (∀ l' seen acc s, l = seen ++ l' → I seen acc s →
    ∃ acc' s', foldEach f acc l' s = Ok (acc', s') ∧ I (seen ++ l') acc' s') as Hgen.
  { clear acc s HI. induction l' as [|x l' IH]; intros seen acc s Hl HI.
    - exists acc, s. by rewrite app_nil_r.
    - destruct (Hf x seen l' acc s Hl HI) as (acc1 & s1 & H1 & HI1).
      destruct (IH (seen ++ [x]) acc1 s1) as (acc2 & s2 & H2 & HI2); [by rewrite <- app_assoc|done|].
      exists acc2, s2. cbn [foldEach]. unfold mbind, M_bind. rewrite H1, H2. by rewrite <- app_assoc in HI2. }
  by apply (Hgen l [] acc s).
Qed.

End ReturnsRules.

(** ** Fuel: computations ordered by how much of the result they know *)

Definition fuelLe {E A} (o1 o2 : outcome E A) : Prop := o1 = OutOfFuel ∨ o1 = o2.

Definition compLe {E S A} (c1 c2 : M E S A) : Prop := ∀ s, fuelLe (c1 s) (c2 s).

#[global] Instance fuelLe_preorder {E A} : PreOrder (@fuelLe E A).
Proof. split; unfold fuelLe; [by right|]. intros x y z [Hx|Hx] Hy; subst; auto. Qed.

#[global] Instance compLe_preorder {E S A} : PreOrder (@compLe E S A).
Proof.
  split; [intros c s; reflexivity|].
  intros c1 c2 c3 H1 H2 s. etransitivity; [apply H1|apply H2].
Qed.

Section FuelRules.
Context {E S : Type}.

Lemma compLe_refl {A} (c : M E S A) : compLe c c.
Proof. reflexivity. Qed.

Lemma compLe_fuel {A} (c : M E S A) : compLe outOfFuel c.
Proof. by left. Qed.

Lemma compLe_bind {A B} (c1 c2 : M E S A) (k1 k2 : A → M E S B) :
  compLe c1 c2 → (∀ a, compLe (k1 a) (k2 a)) → compLe (c1 ≫= k1) (c2 ≫= k2).
Proof.
  intros Hc Hk s. unfold mbind, M_bind.
  destruct (Hc s) as [->| ->]; [by left|].
  destruct (c2 s) as [[a s']| | |]; try by right. apply Hk.
Qed.

Lemma compLe_forEach {A} (f1 f2 : A → M E S unit) l :
  (∀ x, compLe (f1 x) (f2 x)) → compLe (forEach f1 l) (forEach f2 l).
Proof. intros Hf. induction l; simpl; [reflexivity|]. by apply compLe_bind. Qed.

Lemma compLe_mapEach {A B} (f1 f2 : A → M E S B) l :
  (∀ x, compLe (f1 x) (f2 x)) → compLe (mapEach f1 l) (mapEach f2 l).
Proof.
  intros Hf. induction l; simpl; [reflexivity|].
  apply compLe_bind; [done|intros y]. apply compLe_bind; [done|reflexivity].
Qed.

Lemma compLe_foldEach {A B} (f1 f2 : B → A → M E S B) l acc :
  (∀ b x, compLe (f1 b x) (f2 b x)) → compLe (foldEach f1 acc l) (foldEach f2 acc l).
Proof.
  intros Hf. revert acc. induction l; intros acc; simpl; [reflexivity|].
  by apply compLe_bind.
Qed.

End FuelRules.

#[export] Hint Resolve compLe_refl compLe_fuel compLe_forEach compLe_mapEach
  compLe_foldEach : di.

(** ** Lemmas on slices and machine integers *)

Lemma elems_mkSlice {A} (l : list A) : elems (mkSlice l) = l.
Proof. by destruct l. Qed.

Lemma wrap64_id z : int64 z → wrap64 z = z.
Proof. unfold int64, wrap64. intros. rewrite Z.mod_small; lia. Qed.

Lemma wrap64_int64 z : int64 (wrap64 z).
Proof.
  unfold int64, wrap64.
  pose proof (Z.mod_pos_bound (z + 2 ^ 63) (2 ^ 64) ltac:(lia)). lia.
Qed.

#[export] Hint Resolve wrap64_int64 : di.

(** ** Lemmas on strings *)

Lemma string_app_cons c s t : (String c s ++ t)%string = String c (s ++ t).
Proof. done. Qed.

Lemma string_app_assoc (a b c : string) : ((a ++ b) ++ c = a ++ (b ++ c))%string.
Proof. induction a as [|x a IH]; [done|]. by rewrite !string_app_cons, IH. Qed.

Section SplitLemmas.
Context (sep : Ascii.ascii).

Lemma noSep_cons c s : noSep sep (String c s) ↔ c ≠ sep ∧ noSep sep s.
Proof. unfold noSep. cbn [String.list_ascii_of_string]. rewrite not_elem_of_cons. naive_solver. Qed.

Lemma splitOn_cons s : ∃ w ws, splitOn sep s = w :: ws.
Proof.
  induction s as [|c s (w & ws & Heq)]; cbn [splitOn]; [eauto|]. rewrite Heq. case_decide; eauto.
Qed.

Lemma splitOn_noSep s : noSep sep s → splitOn sep s = [s].
Proof.
  induction s as [|c s IH]; [done|]. intros [Hc Hs]%noSep_cons. cbn [splitOn].
  rewrite decide_False by done. by rewrite (IH Hs).
Qed.

Lemma splitOn_prefix p s w ws :
  noSep sep p → splitOn sep s = w :: ws → splitOn sep (p ++ s) = (p ++ w)%string :: ws.
Proof.
  intros Hp Hs. induction p as [|c p IH]; [done|]. apply noSep_cons in Hp as [Hc Hp].
  rewrite !string_app_cons. cbn [splitOn]. rewrite decide_False by done. by rewrite (IH Hp).
Qed.

Lemma splitOn_sep k v : noSep sep k → splitOn sep (k ++ String sep v) = k :: splitOn sep v.
Proof.
  intros Hk. rewrite (splitOn_prefix k (String sep v) "" (splitOn sep v)); [|done|].
  - f_equal. clear Hk. induction k as [|c k IH]; [done|]. by rewrite string_app_cons, IH.
  - cbn [splitOn]. by rewrite decide_True.
Qed.

Lemma joinOn_cons a b l : joinOn sep (a :: b :: l) = (a ++ String sep (joinOn sep (b :: l)))%string.
Proof. done. Qed.

Lemma splitOn_joinOn a l : Forall (noSep sep) (a :: l) → splitOn sep (joinOn sep (a :: l)) = a :: l.
Proof.
  revert a. induction l as [|b l IH]; intros a [Ha Hl]%Forall_cons; [by apply splitOn_noSep|].
  rewrite joinOn_cons, splitOn_sep by done. by rewrite IH.
Qed.

Lemma splitOn_app x y : splitOn sep (x ++ String sep y) = (splitOn sep x ++ splitOn sep y)%list.
Proof.
  induction x as [|c x IH].
  { change (splitOn sep (String sep y) = ("" :: splitOn sep y)%list). cbn [splitOn]. by rewrite decide_True. }
  rewrite string_app_cons. cbn [splitOn]. rewrite IH.
  destruct (splitOn_cons x) as (w & ws & ->). by case_decide.
Qed.

Lemma joinOn_inj l1 l2 :
  l1 ≠ [] → l2 ≠ [] → Forall (noSep sep) l1 → Forall (noSep sep) l2 → joinOn sep l1 = joinOn sep l2 → l1 = l2.
Proof.
  intros Hn1 Hn2 H1 H2 Heq. destruct l1 as [|a l1]; [done|]. destruct l2 as [|b l2]; [done|].
  by rewrite <- (splitOn_joinOn a l1), <- (splitOn_joinOn b l2), Heq.
Qed.

Lemma joinOn_splitOn s : joinOn sep (splitOn sep s) = s.
Proof.
  induction s as [|c s IH]; [done|]. cbn [splitOn]. destruct (splitOn_cons s) as (w & ws & Heq). rewrite Heq in *.
  case_decide as Hc; [subst c; rewrite joinOn_cons, IH; done|].
  destruct ws as [|w' ws]; [cbn in *; by subst|]. rewrite joinOn_cons in *. by rewrite string_app_cons, IH.
Qed.

End SplitLemmas.

(** ** Lemmas on lists, maps and sorting *)

Lemma sortStrings_perm l : sortStrings l ≡ₚ l.
Proof. apply merge_sort_Permutation. Qed.

Lemma sortStrings_sorted l : StronglySorted String.le (sortStrings l).
Proof. apply StronglySorted_merge_sort; apply _. Qed.

(** [sort.Strings] is a function of the multiset of its argument. *)
Lemma sortStrings_proper l1 l2 : l1 ≡ₚ l2 → sortStrings l1 = sortStrings l2.
Proof.
  intros Hp. apply (StronglySorted_unique String.le); [apply sortStrings_sorted..|].
  by rewrite !sortStrings_perm.
Qed.

#[global] Instance sortStrings_Proper : Proper ((≡ₚ) ==> (=)) sortStrings.
Proof. intros l1 l2. apply sortStrings_proper. Qed.

Lemma list_filter_id {A} (P : A → Prop) `{∀ x, Decision (P x)} (l : list A) :
  (∀ x, x ∈ l → P x) → base.filter P l = l.
Proof.
  induction l as [|x l IH]; intros HP; [done|].
  rewrite filter_cons_True by (apply HP; constructor). f_equal. apply IH.
  intros y Hy. apply HP. by constructor.
Qed.

Lemma list_filter_none {A} (P : A → Prop) `{∀ x, Decision (P x)} (l : list A) :
  (∀ x, x ∈ l → ¬ P x) → base.filter P l = [].
Proof.
  induction l as [|x l IH]; intros HP; [done|].
  rewrite filter_cons_False by (apply HP; constructor). apply IH.
  intros y Hy. apply HP. by constructor.
Qed.

(** Elements of two kinds, told apart again. *)
Lemma filter_app_kinds {A} (f : A → bool) (l1 l2 : list A) :
  (∀ x, x ∈ l1 → f x = true) →
  base.filter (λ x, f x = true) (l1 ++ base.filter (λ x, f x = false) l2) = l1 ∧
  base.filter (λ x, f x = false) (l1 ++ base.filter (λ x, f x = false) l2) =
    base.filter (λ x, f x = false) l2.
Proof.
  intros Hl1. rewrite !filter_app. split.
  - rewrite (list_filter_id _ l1 Hl1), list_filter_none; [apply app_nil_r|].
    intros x [-> _]%list_elem_of_filter. discriminate.
  - rewrite (list_filter_none _ l1) by (intros x ->%Hl1; discriminate). apply list_filter_id.
    by intros x [? _]%list_elem_of_filter.
Qed.

Lemma elem_of_values `{Countable K} {V} (m : gmap K V) v :
  v ∈ (map_to_list m).*2 ↔ ∃ k, m !! k = Some v.
Proof.
  rewrite list_elem_of_fmap. split.
  - intros ([k w] & -> & Hk%elem_of_map_to_list). eauto.
  - intros [k Hk%elem_of_map_to_list]. by exists (k, v).
Qed.

Section RangeLemmas.
Context `{MapRange} {K V : Type} `{Countable K}.

Lemma elem_of_range n (m : gmap K V) k v : (k, v) ∈ rangeOrder n m ↔ m !! k = Some v.
Proof. rewrite rangeOrder_perm. apply elem_of_map_to_list. Qed.

Lemma range_values_insert n (m : gmap K V) k v :
  m !! k = None → (rangeOrder n (<[k:=v]> m)).*2 ≡ₚ v :: (map_to_list m).*2.
Proof. intros Hk. rewrite rangeOrder_perm, map_to_list_insert; auto. Qed.

End RangeLemmas.

(** ** Loops over the entries of a map that update the map

    Each step decides on its own key; [R] relates the states before and after any
    number of steps, and [P] what one step does. *)

Section FoldEntries.
Context {E S K V : Type} `{Countable K}.
Context (step : gmap K V → K * V → M E S (gmap K V)).
Context (R : relation S) `{!PreOrder R} (P : K → V → option V → S → S → Prop).

Lemma foldEntries_run (entries : list (K * V)) m s :
  (∀ m k v s, (k, v) ∈ entries → ∃ o s', step m (k, v) s = Ok (partial_alter (λ _, o) k m, s') ∧
     P k v o s s' ∧ R s s') →
  NoDup entries.*1 →
  ∃ m' s', foldEach step m entries s = Ok (m', s') ∧ R s s' ∧
    (∀ k, k ∉ entries.*1 → m' !! k = m !! k) ∧
    (∀ k v, (k, v) ∈ entries → ∃ s1 s2, P k v (m' !! k) s1 s2 ∧ R s s1 ∧ R s1 s2 ∧ R s2 s').
Proof.
  revert m s. induction entries as [|[k v] entries IH]; intros m s Hstep Hnd.
  { exists m, s. split_and!; [done|reflexivity|done|]. intros k v Hin. by apply not_elem_of_nil in Hin. }
  rewrite fmap_cons in Hnd. apply NoDup_cons in Hnd as [Hk Hnd].
  destruct (Hstep m k v s) as (o & s1 & Hrun & HP & HR); [left|].
  destruct (IH (partial_alter (λ _, o) k m) s1) as (m' & s' & Hrun' & HR' & Hout & Hin); [|done|].
  { intros m0 k0 v0 s0 Hin0. apply Hstep. by right. }
  exists m', s'. cbn [foldEach]. unfold mbind, M_bind. rewrite Hrun. split_and!.
  - done.
  - by etransitivity.
  - intros k' Hk'. rewrite fmap_cons in Hk'. apply not_elem_of_cons in Hk' as [Hne Hk'].
    rewrite (Hout k' Hk'). by apply lookup_partial_alter_ne.
  - intros k' v' [[= -> ->]|Hin']%elem_of_cons.
    + exists s, s1. rewrite (Hout k Hk), lookup_partial_alter_eq. split_and!; [done|reflexivity|done|done].
    + destruct (Hin k' v' Hin') as (t1 & t2 & ? & ? & ? & ?). exists t1, t2.
      split_and!; [done|by etransitivity|done|done].
Qed.

End FoldEntries.
