(* ===== verification/Join.v ===== *)
(** * join: matching the elements of two slices

    Model of [src/join/join.go]. Every reconciliation of the system (machines,
    containers, connections, labels, ACLs, routes, ...) goes through
    [join.Join]; the theorems here say which elements it pairs and are what the
    clients' theorems rest on. *)

From stdpp Require Import base gmap list.
From Stdlib Require Import ZArith Lia.
From S2P Require Import Prelude.

Local Open Scope Z_scope.

Section Join.
Context {L R : Type} (score : L → R → Z).

(** [sliceDel]: overwrite index [i] with the last element and drop the last
    place. *)
Definition sliceDel {A} (s : list A) (i : nat) : list A :=
  match last s with
  | Some x => take (length s - 1)%nat (<[i:=x]> s)
  | None => []
  end.

(** The inner loop of [Join]: the index of the element of [rights] that [l] is
    matched with, or [-1]. A score of zero stops the scan at once. *)
Fixpoint bestMatch (l : L) (rights : list R) (i bestScore bestIndex : Z) : Z :=
  match rights with
  | [] => bestIndex
  | r :: rights' =>
      let s := score l r in
      if s <? 0 then bestMatch l rights' (i + 1) bestScore bestIndex
      else if s =? 0 then i
      else if (s <? bestScore) || (bestScore <? 0)
      then bestMatch l rights' (i + 1) s i
      else bestMatch l rights' (i + 1) bestScore bestIndex
  end.

(** The named results of [Join], threaded through its outer loop. *)
Record joinState : Type := mkJoin {
  pairs : list (L * R);
  lonelyLefts : list L;
  lonelyRights : list R
}.

(** One iteration of the outer loop. *)
Definition joinStep (st : joinState) (l : L) : joinState :=
  let bestIndex := bestMatch l (lonelyRights st) 0 (-1) (-1) in
  if 0 <=? bestIndex then
    match lonelyRights st !! Z.to_nat bestIndex with
    | Some r => mkJoin (pairs st ++ [(l, r)]) (lonelyLefts st)
                       (sliceDel (lonelyRights st) (Z.to_nat bestIndex))
    | None => st
    end
  else mkJoin (pairs st) (lonelyLefts st ++ [l]) (lonelyRights st).

Definition Join (lSlice : list L) (rSlice : list R) : joinState :=
  foldl joinStep (mkJoin [] [] rSlice) lSlice.

(** ** The inner loop *)

Lemma sliceDel_perm {A} (s : list A) i x :
  s !! i = Some x → s ≡ₚ x :: sliceDel s i.
Proof.
  intros Hi. unfold sliceDel. destruct s as [|y s _] using rev_ind; [done|].
  rewrite last_snoc, length_app; simpl.
  replace (length s + 1 - 1)%nat with (length s) by lia.
  destruct (decide (i < length s)%nat) as [Hlt|Hge].
  - rewrite insert_app_l, take_app_length' by (rewrite ?length_insert; done).
    rewrite lookup_app_l in Hi by done.
    rewrite (insert_take_drop s i y) by done.
    rewrite <- (take_drop_middle s i x) at 1 by done. solve_Permutation.
  - apply lookup_lt_Some in Hi as Hl. rewrite length_app in Hl; simpl in Hl.
    assert (i = length s) as -> by lia.
    rewrite lookup_app_r, Nat.sub_diag in Hi by lia. injection Hi as ->.
    rewrite insert_app_r_alt, take_app_length by lia. by rewrite Permutation_app_comm.
Qed.

(** What the scan knows after a prefix [done] of the right elements. *)
Definition scanned (l : L) (done : list R) (bestScore bestIndex : Z) : Prop :=
  (bestIndex = -1 ∧ bestScore = -1 ∧ Forall (λ r, score l r < 0) done) ∨
  (0 ≤ bestIndex ∧ 0 < bestScore ∧
   (∃ r, done !! Z.to_nat bestIndex = Some r ∧ score l r = bestScore) ∧
   Forall (λ r, score l r < 0 ∨ bestScore ≤ score l r) done).

Lemma bestMatch_spec l rights : ∀ done bestScore bestIndex,
  scanned l done bestScore bestIndex →
  let i := bestMatch l rights (Z.of_nat (length done)) bestScore bestIndex in
  (i = -1 ∧ Forall (λ r, score l r < 0) (done ++ rights)) ∨
  (0 ≤ i ∧ ∃ r, (done ++ rights) !! Z.to_nat i = Some r ∧ 0 ≤ score l r ∧
     Forall (λ r', score l r' < 0 ∨ score l r ≤ score l r') (done ++ rights)).
Proof.
  induction rights as [|r rights IH]; intros done bs bi Hs; cbn [bestMatch].
  - rewrite app_nil_r. destruct Hs as [(->&->&?)|(?&?&(r&?&?)&?)]; [by left|right].
    split; [done|]. exists r. subst bs. repeat split; auto with lia.
  - assert (∀ bs' bi', scanned l (done ++ [r]) bs' bi' →
      let i := bestMatch l rights (Z.of_nat (length done) + 1) bs' bi' in
      (i = -1 ∧ Forall (λ r, score l r < 0) (done ++ r :: rights)) ∨
      (0 ≤ i ∧ ∃ r', (done ++ r :: rights) !! Z.to_nat i = Some r' ∧ 0 ≤ score l r' ∧
         Forall (λ r'', score l r'' < 0 ∨ score l r' ≤ score l r'') (done ++ r :: rights)))
      as IH'.
    { intros bs' bi' Hs'. specialize (IH (done ++ [r]) bs' bi' Hs').
      rewrite length_app, Nat2Z.inj_add, <- app_assoc in IH. exact IH. }
    assert (∀ r0, done !! Z.to_nat bi = Some r0 → (done ++ [r]) !! Z.to_nat bi = Some r0)
      as Hlk by (intros; by apply lookup_app_l_Some).
    destruct (Z.ltb_spec (score l r) 0) as [Hneg|Hpos].
    + apply IH'. destruct Hs as [(->&->&Hf)|(?&?&(r0&?&?)&Hf)]; [left|right];
        repeat split; eauto; apply Forall_app_2; auto with lia.
    + destruct (Z.eqb_spec (score l r) 0) as [Hz|Hnz].
      * right. split; [lia|]. exists r. rewrite Nat2Z.id, list_lookup_middle by done.
        repeat split; [lia|]. apply Forall_forall. intros; lia.
      * destruct ((score l r <? bs) || (bs <? 0)) eqn:Hcmp; apply IH'; right.
        -- repeat split; [lia..| |].
           ++ exists r. by rewrite Nat2Z.id, list_lookup_middle.
           ++ apply Forall_app_2; [|auto with lia].
              destruct Hs as [(->&->&Hf)|(?&?&?&Hf)];
                eapply Forall_impl; eauto; simpl; lia.
        -- destruct Hs as [(->&->&_)|(?&?&(r0&?&?)&Hf)]; [lia|].
           repeat split; eauto. apply Forall_app_2; [done|]. constructor; [|done]. lia.
Qed.

(** The scan from the start of [Join]'s iteration. *)
Lemma bestMatch_start l rights :
  let i := bestMatch l rights 0 (-1) (-1) in
  (i = -1 ∧ Forall (λ r, score l r < 0) rights) ∨
  (0 ≤ i ∧ ∃ r, rights !! Z.to_nat i = Some r ∧ 0 ≤ score l r ∧
     Forall (λ r', score l r' < 0 ∨ score l r ≤ score l r') rights).
Proof. apply (bestMatch_spec l rights [] (-1) (-1)). left. auto. Qed.

(** ** The outer loop *)

(** One iteration either drops [l] because no remaining right element accepts
    it, or pairs it with a remaining right element of least score. *)
Lemma joinStep_cases st l :
  (joinStep st l = mkJoin (pairs st) (lonelyLefts st ++ [l]) (lonelyRights st) ∧
   Forall (λ r, score l r < 0) (lonelyRights st)) ∨
  (∃ r rs, joinStep st l = mkJoin (pairs st ++ [(l, r)]) (lonelyLefts st) rs ∧
     lonelyRights st ≡ₚ r :: rs ∧ 0 ≤ score l r ∧
     Forall (λ r', score l r' < 0 ∨ score l r ≤ score l r') (lonelyRights st)).
Proof.
  unfold joinStep. pose proof (bestMatch_start l (lonelyRights st)) as Hb.
  simpl in Hb. destruct Hb as [[-> Hf]|(Hi & r & Hr & ? & ?)]; [by left|right].
  rewrite (proj2 (Z.leb_le _ _)) by done. rewrite Hr.
  eexists r, _. split; [done|]. split; [by apply sliceDel_perm|done].
Qed.

Definition joinInv (ls : list L) (rs : list R) (st : joinState) : Prop :=
  (pairs st).*1 ++ lonelyLefts st ≡ₚ ls ∧
  (pairs st).*2 ++ lonelyRights st ≡ₚ rs ∧
  Forall (λ p, 0 ≤ score p.1 p.2) (pairs st) ∧
  (∀ l r, l ∈ lonelyLefts st → r ∈ lonelyRights st → score l r < 0) ∧
  (∀ p1 l r p2 r', pairs st = p1 ++ (l, r) :: p2 →
     r' ∈ p2.*2 ++ lonelyRights st → 0 ≤ score l r' → score l r ≤ score l r').

Lemma joinInv_step ls rs st l :
  joinInv ls rs st → joinInv (ls ++ [l]) rs (joinStep st l).
Proof.
  intros (HL & HR & Hs & Hmax & Hg).
  destruct (joinStep_cases st l) as [[-> Hneg]|(r & rs' & -> & Hperm & Hnn & Hbest)];
    unfold joinInv; cbn [pairs lonelyLefts lonelyRights].
  - repeat split; auto.
    + rewrite app_assoc, HL. done.
    + intros l0 r0 [?|Hl]%elem_of_app Hr; [auto|].
      apply list_elem_of_singleton in Hl as ->. by eapply Forall_forall in Hneg.
  - repeat split.
    + rewrite fmap_app, <- HL. simpl. solve_Permutation.
    + rewrite fmap_app, <- HR, Hperm. simpl. solve_Permutation.
    + apply Forall_app_2; [done|]. by constructor.
    + intros l0 r0 Hl Hr. apply Hmax; [done|]. rewrite Hperm. by constructor.
    + intros p1 l0 r0 p2 r' Heq Hr' Hnn'.
      destruct p2 as [|p p2 _] using rev_ind.
      * apply app_inj_tail in Heq as [_ [= <- <-]].
        rewrite Forall_forall in Hbest. simpl in Hr'.
        destruct (Hbest r'); [rewrite Hperm; by constructor|lia|done].
      * rewrite app_comm_cons, app_assoc in Heq. apply app_inj_tail in Heq as [Heq <-].
        eapply Hg; [done| |done]. rewrite fmap_app in Hr'. simpl in Hr'.
        rewrite Hperm. revert Hr'. rewrite !elem_of_app, !elem_of_cons, !elem_of_nil. tauto.
Qed.

Lemma joinInv_foldl ls0 rs st ls :
  joinInv ls0 rs st → joinInv (ls0 ++ ls) rs (foldl joinStep st ls).
Proof.
  revert ls0 st. induction ls as [|l ls IH]; intros ls0 st Hst; simpl.
  - by rewrite app_nil_r.
  - rewrite cons_middle, app_assoc. apply IH. by apply joinInv_step.
Qed.

Lemma Join_inv ls rs : joinInv ls rs (Join ls rs).
Proof.
  apply (joinInv_foldl [] rs). repeat split; simpl; auto; try constructor.
  - intros l r Hl. set_solver.
  - intros p1 l r p2 r' Heq. by destruct p1.
Qed.

(** The client's view of [Join], as separate facts. *)
Lemma Join_lefts ls rs :
  (pairs (Join ls rs)).*1 ++ lonelyLefts (Join ls rs) ≡ₚ ls.
Proof. apply Join_inv. Qed.

Lemma Join_rights ls rs :
  (pairs (Join ls rs)).*2 ++ lonelyRights (Join ls rs) ≡ₚ rs.
Proof. apply Join_inv. Qed.

Lemma Join_pairs_score ls rs l r : (l, r) ∈ pairs (Join ls rs) → 0 ≤ score l r.
Proof.
  intros Hin. destruct (Join_inv ls rs) as (_ & _ & Hs & _).
  rewrite Forall_forall in Hs. by apply (Hs (l, r)).
Qed.

Lemma Join_lonely_score ls rs l r :
  l ∈ lonelyLefts (Join ls rs) → r ∈ lonelyRights (Join ls rs) → score l r < 0.
Proof. apply Join_inv. Qed.

Lemma Join_pair_elems ls rs l r :
  (l, r) ∈ pairs (Join ls rs) → l ∈ ls ∧ r ∈ rs.
Proof.
  intros Hin. pose proof (Join_lefts ls rs) as HL. pose proof (Join_rights ls rs) as HR.
  split; [eapply elem_of_Permutation_proper; [symmetry; apply HL|]
         |eapply elem_of_Permutation_proper; [symmetry; apply HR|]];
    apply elem_of_app; left; apply list_elem_of_fmap; by exists (l, r).
Qed.

End Join.
Arguments mkJoin {L R} _ _ _.
Arguments pairs {L R} _.
Arguments lonelyLefts {L R} _.
Arguments lonelyRights {L R} _.

(** ** Joins on equal keys

    Most callers score a pair negative exactly when two keys differ. *)

Section KeyJoin.
Context {L R K : Type} (f : L → K) (g : R → K).

Section Scored.
Context (score : L → R → Z) (ls : list L) (rs : list R).
Hypothesis Hscore : ∀ l r, l ∈ ls → r ∈ rs → 0 ≤ score l r ↔ f l = g r.

Lemma Join_lonely_elems l r :
  (l ∈ lonelyLefts (Join score ls rs) → l ∈ ls) ∧
  (r ∈ lonelyRights (Join score ls rs) → r ∈ rs).
Proof.
  split; intros Hin.
  - rewrite <- (Join_lefts score ls rs). apply elem_of_app. by right.
  - rewrite <- (Join_rights score ls rs). apply elem_of_app. by right.
Qed.

Lemma scoredJoin_pairs :
  f <$> (pairs (Join score ls rs)).*1 = g <$> (pairs (Join score ls rs)).*2.
Proof.
  rewrite <- !list_fmap_compose. apply list_fmap_ext. intros i [l r] Hi%list_elem_of_lookup_2.
  destruct (Join_pair_elems score ls rs l r Hi).
  apply Hscore; [done..|]. by apply (Join_pairs_score _ ls rs).
Qed.

Lemma scoredJoin_disjoint k :
  k ∈ f <$> lonelyLefts (Join score ls rs) →
  k ∈ g <$> lonelyRights (Join score ls rs) → False.
Proof.
  intros (l & -> & Hl)%list_elem_of_fmap (r & Heq & Hr)%list_elem_of_fmap.
  pose proof (Join_lonely_score score ls rs l r Hl Hr) as Hneg.
  apply Hscore in Heq; [lia|by apply (Join_lonely_elems l r)..].
Qed.

Lemma Join_left_keys :
  (f <$> (pairs (Join score ls rs)).*1) ++ (f <$> lonelyLefts (Join score ls rs)) ≡ₚ f <$> ls.
Proof. rewrite <- fmap_app. apply fmap_Permutation, Join_lefts. Qed.

Lemma Join_right_keys :
  (f <$> (pairs (Join score ls rs)).*1) ++ (g <$> lonelyRights (Join score ls rs)) ≡ₚ g <$> rs.
Proof. rewrite scoredJoin_pairs, <- fmap_app. apply fmap_Permutation, Join_rights. Qed.

(** A side without repeated keys: what is lonely has a key that the other side lacks. *)
Lemma scoredJoin_lonelyLefts k :
  NoDup (f <$> ls) →
  k ∈ f <$> lonelyLefts (Join score ls rs) ↔ k ∈ f <$> ls ∧ k ∉ g <$> rs.
Proof.
  pose proof Join_left_keys as Hl. pose proof Join_right_keys as Hr.
  pose proof (scoredJoin_disjoint k) as Hd. revert Hl Hr Hd.
  generalize (f <$> (pairs (Join score ls rs)).*1), (f <$> lonelyLefts (Join score ls rs)),
    (g <$> lonelyRights (Join score ls rs)). intros ps ll lr <- <- Hd Hnd.
  apply NoDup_app in Hnd as (_ & Hdisj & _). rewrite !elem_of_app. specialize (Hdisj k). tauto.
Qed.

Lemma scoredJoin_lonelyRights k :
  NoDup (g <$> rs) →
  k ∈ g <$> lonelyRights (Join score ls rs) ↔ k ∈ g <$> rs ∧ k ∉ f <$> ls.
Proof.
  pose proof Join_left_keys as Hl. pose proof Join_right_keys as Hr.
  pose proof (scoredJoin_disjoint k) as Hd. revert Hl Hr Hd.
  generalize (f <$> (pairs (Join score ls rs)).*1), (f <$> lonelyLefts (Join score ls rs)),
    (g <$> lonelyRights (Join score ls rs)). intros ps ll lr <- <- Hd Hnd.
  apply NoDup_app in Hnd as (_ & Hdisj & _). rewrite !elem_of_app. specialize (Hdisj k). tauto.
Qed.

(** When both sides have the same keys, everything is matched. *)
Lemma scoredJoin_complete :
  f <$> ls ≡ₚ g <$> rs →
  lonelyLefts (Join score ls rs) = [] ∧ lonelyRights (Join score ls rs) = [].
Proof.
  intros Hkeys.
  assert (f <$> lonelyLefts (Join score ls rs) ≡ₚ g <$> lonelyRights (Join score ls rs)) as Hl.
  { apply (Permutation_app_inv_l (f <$> (pairs (Join score ls rs)).*1)).
    rewrite <- fmap_app, Join_lefts, scoredJoin_pairs, <- fmap_app, Join_rights. done. }
  pose proof scoredJoin_disjoint as Hd.
  destruct (lonelyLefts (Join score ls rs)) as [|l ll].
  - split; [done|]. by apply symmetry, Permutation_nil_r, fmap_nil_inv in Hl.
  - destruct (Hd (f l)); [left|]. rewrite <- Hl. left.
Qed.

End Scored.

Section KeyScore.
Context `{EqDecision K}.

Definition keyScore (l : L) (r : R) : Z := if decide (f l = g r) then 0 else -1.

Lemma keyScore_nonneg l r : 0 ≤ keyScore l r ↔ f l = g r.
Proof. unfold keyScore. case_decide; split; intros; (lia || done). Qed.

End KeyScore.

End KeyJoin.

(** * Properties *)

Section Properties.
Context {L R : Type} (score : L → R → Z).

(** [Join] neither loses nor invents elements: the left halves of the pairs
    with the lonely lefts are exactly the left slice, and the right halves with
    the lonely rights exactly the right slice, duplicates included. *)
Theorem join_conserves (ls : list L) (rs : list R) :
  (pairs (Join score ls rs)).*1 ++ lonelyLefts (Join score ls rs) ≡ₚ ls ∧
  (pairs (Join score ls rs)).*2 ++ lonelyRights (Join score ls rs) ≡ₚ rs.
Proof. split; [apply Join_lefts|apply Join_rights]. Qed.

(** The matching is admissible and maximal: a negative score is never
    matched, and when [Join] returns no lonely left could have been matched with
    any lonely right. *)
Theorem join_admissible_maximal (ls : list L) (rs : list R) :
  (∀ l r, (l, r) ∈ pairs (Join score ls rs) → 0 ≤ score l r) ∧
  (∀ l r, l ∈ lonelyLefts (Join score ls rs) →
          r ∈ lonelyRights (Join score ls rs) → score l r < 0).
Proof. split; intros l r; [apply Join_pairs_score|apply Join_lonely_score]. Qed.


End Properties.

Definition distScore (l r : Z) : Z := if 10 <? Z.abs (l - r) then -1 else Z.abs (l - r).


Section KeyProperties.
Context {L R K : Type} `{EqDecision K} (f : L → K) (g : R → K).

(** Joining what exists against what should exist on equal keys computes a
    least update: keeping the paired elements, removing the lonely lefts and
    adding the lonely rights yields exactly the wanted keys, and no key is both
    removed and added. *)
Theorem join_reconciles (current : list L) (target : list R) :
  (f <$> (pairs (Join (keyScore f g) current target)).*1) ++
    (g <$> lonelyRights (Join (keyScore f g) current target)) ≡ₚ g <$> target ∧
  (∀ k, k ∈ f <$> lonelyLefts (Join (keyScore f g) current target) →
        k ∉ g <$> lonelyRights (Join (keyScore f g) current target)).
Proof.
  split.
  - rewrite (scoredJoin_pairs f g), <- fmap_app by (intros; apply keyScore_nonneg).
    by rewrite Join_rights.
  - intros k Hk Hk'. by eapply (scoredJoin_disjoint f g); [intros; apply keyScore_nonneg|..].
Qed.

End KeyProperties.
