(* ===== verification/Util.v ===== *)
(** * util: edit distance and short identifiers

    Model of the pure functions of [src/util/util.go]. *)

From stdpp Require Import base gmap fin_sets list strings.
From Stdlib Require Import ZArith Lia.
From S2P Require Import Prelude.

Local Open Scope Z_scope.

Definition ShortUUID (uuid : string) : string :=
  if (String.length uuid <? 12)%nat then uuid else String.substring 0 12 uuid.

(** The loop of [EditDistance] over [b]: labels found in [amap] are deleted from
    it, the others counted. *)
Definition editStep (st : gset string * Z) (label : string) : gset string * Z :=
  let '(amap, ed) := st in
  if decide (label ∈ amap) then (amap ∖ {[label]}, ed) else (amap, ed + 1).

Definition EditDistance (a b : list string) : Z :=
  let '(amap, ed) := foldl editStep (list_to_set a, 0) b in
  ed + Z.of_nat (size amap).

(** ** Lemmas *)

Lemma editStep_fold b : ∀ amap ed,
  foldl editStep (amap, ed) b =
  (amap ∖ list_to_set b,
   ed + Z.of_nat (length b) - Z.of_nat (size (amap ∩ list_to_set b : gset string))).
Proof.
  induction b as [|x b IH]; intros amap ed; simpl.
  - f_equal; [set_solver|]. rewrite intersection_empty_r_L, size_empty. lia.
  - case_decide as Hx; rewrite IH; f_equal.
    + set_solver.
    + replace (amap ∩ ({[x]} ∪ list_to_set b))
        with ({[x]} ∪ (amap ∖ {[x]} ∩ list_to_set b)) by (apply set_eq; intros y;
        destruct (decide (x = y)); set_solver).
      rewrite (size_union {[x]}), size_singleton by set_solver. lia.
    + set_solver.
    + replace (amap ∩ ({[x]} ∪ list_to_set b)) with (amap ∩ list_to_set b)
        by set_solver. lia.
Qed.

Lemma EditDistance_formula a b :
  EditDistance a b =
  Z.of_nat (size (list_to_set a ∖ list_to_set b : gset string)) +
  (Z.of_nat (length b) - Z.of_nat (size (list_to_set a ∩ list_to_set b : gset string))).
Proof. unfold EditDistance. rewrite editStep_fold. lia. Qed.

Lemma size_list_to_set_cons x (b : list string) :
  size (list_to_set (x :: b) : gset string) =
  if decide (x ∈ b) then size (list_to_set b : gset string)
  else S (size (list_to_set b : gset string)).
Proof.
  simpl. case_decide as Hx.
  - f_equal. set_solver.
  - rewrite size_union, size_singleton by set_solver. done.
Qed.

(** A list is no shorter than the set of its elements, and as long only without
    repetition. *)
Lemma size_list_to_set_le (b : list string) :
  (size (list_to_set b : gset string) ≤ length b)%nat ∧
  (size (list_to_set b : gset string) = length b ↔ NoDup b).
Proof.
  induction b as [|x b [IHle IHeq]].
  - rewrite list_to_set_nil, size_empty. simpl. split; [lia|]. split; [by constructor|done].
  - rewrite size_list_to_set_cons, NoDup_cons. case_decide; simpl; split; try lia;
      split; try lia; naive_solver lia.
Qed.

(** The shared strings and the strings of [b] alone make up [b]. *)
Lemma size_inter_diff (X Y : gset string) :
  size Y = (size (X ∩ Y) + size (Y ∖ X))%nat.
Proof.
  rewrite <- (size_union (X ∩ Y) (Y ∖ X)) by set_solver. f_equal.
  apply set_eq. intros y. destruct (decide (y ∈ X)); set_solver.
Qed.

Lemma EditDistance_same a b : (∀ x, x ∈ a ↔ x ∈ b) → NoDup b → EditDistance a b = 0.
Proof.
  intros Hsame Hlen%size_list_to_set_le. rewrite EditDistance_formula.
  assert (list_to_set a = (list_to_set b : gset string)) as -> by set_solver.
  rewrite difference_diag_L, size_empty, intersection_idemp_L. lia.
Qed.

(** * Properties *)

(** [EditDistance] counts exactly what its comment says, the strings that are
    in exclusively [a] or [b], provided [b] lists each string once; it is then
    the size of the symmetric difference. *)
Theorem editDistance_symmetric_difference (a b : list string) :
  NoDup b →
  EditDistance a b =
  Z.of_nat (size (list_to_set a ∖ list_to_set b : gset string)) +
  Z.of_nat (size (list_to_set b ∖ list_to_set a : gset string)).
Proof.
  intros Hb%size_list_to_set_le. rewrite EditDistance_formula, <- Hb.
  rewrite (size_inter_diff (list_to_set a) (list_to_set b)) at 1. lia.
Qed.

Lemma editDistance_symmetric_difference_witness :
  NoDup ["b"; "c"] ∧ EditDistance ["a"; "b"] ["b"; "c"] = 2.
Proof.
  assert (NoDup ["b"; "c"]) as H by (repeat constructor; set_solver).
  split; [exact H|]. rewrite (editDistance_symmetric_difference ["a"; "b"] ["b"; "c"] H).
  vm_compute. reflexivity.
Defined.

(** A distance of zero is agreement: [EditDistance a b] is never negative, and
    is zero exactly when both lists hold the same strings and [b] has no
    repetition. A repetition in [b] counts, although none of its strings is
    exclusive to [a] or [b]. *)
Theorem editDistance_zero (a b : list string) :
  0 ≤ EditDistance a b ∧
  (EditDistance a b = 0 ↔ (∀ x, x ∈ a ↔ x ∈ b) ∧ NoDup b).
Proof.
  destruct (size_list_to_set_le b) as [Hle Hdup]. rewrite EditDistance_formula.
  pose proof (size_inter_diff (list_to_set a) (list_to_set b)) as Hsplit.
  split; [lia|]. split.
  - rewrite <- Hdup. intros H0.
    assert (list_to_set a ∖ list_to_set b ≡ (∅ : gset string)) as Ha
      by (apply size_empty_inv; lia).
    assert (list_to_set b ∖ list_to_set a ≡ (∅ : gset string)) as Hb
      by (apply size_empty_inv; lia).
    split; [clear -Ha Hb|lia]. intros x.
    specialize (Ha x). specialize (Hb x). revert Ha Hb.
    rewrite !elem_of_difference, !elem_of_list_to_set, !elem_of_empty.
    destruct (decide (x ∈ a)), (decide (x ∈ b)); tauto.
  - intros [Hsame Hnd]. rewrite <- EditDistance_formula. by apply EditDistance_same.
Qed.
