(* ===== verification/DbRows.v ===== *)
(** * db: the rows of the database

    The row types of [src/db] with their [less] orders, and the constants of
    [src/db/constants.go]. Slices are [slice]s and maps may be nil, because
    [Commit] compares rows with [reflect.DeepEqual]. *)

From stdpp Require Import base gmap list strings sorting.
From Stdlib Require Import ZArith Lia.
From S2P Require Import Prelude.

Local Open Scope Z_scope.

(** ** Roles and providers *)

Inductive Role : Type := RoleNone | Worker | Master.

#[global] Instance Role_eq_dec : EqDecision Role.
Proof. solve_decision. Defined.

(** The [iota] numbering of the role constants. *)
Definition roleNum (r : Role) : Z :=
  match r with RoleNone => 0 | Worker => 1 | Master => 2 end.

Definition roleString (r : Role) : string :=
  match r with RoleNone => "" | Worker => "Worker" | Master => "Master" end.

(** The role enumeration of the protobuf messages. *)
Inductive pbRole : Type := MinionConfig_NONE | MinionConfig_WORKER | MinionConfig_MASTER.

#[global] Instance pbRole_eq_dec : EqDecision pbRole.
Proof. solve_decision. Defined.

Definition RoleToPB (r : Role) : pbRole :=
  match r with
  | RoleNone => MinionConfig_NONE
  | Worker => MinionConfig_WORKER
  | Master => MinionConfig_MASTER
  end.

Definition PBToRole (p : pbRole) : Role :=
  match p with
  | MinionConfig_NONE => RoleNone
  | MinionConfig_WORKER => Worker
  | MinionConfig_MASTER => Master
  end.

Definition ParseRole (role : string) : outcome string Role :=
  if decide (role = "Master") then Ok Master
  else if decide (role = "Worker") then Ok Worker
  else if decide (role = "") then Ok RoleNone
  else Err "unknown role".

Definition ParseProvider (name : string) : outcome string string :=
  if decide (name ∈ ["AmazonSpot"; "Google"; "Vagrant"; "Azure"]) then Ok name
  else Err "unknown provider".

(** ** Row types *)

Record Cluster : Type := mkCluster {
  clusterID : Z;
  clusterNamespace : string;
  clusterSpec : string;
  clusterACLs : slice string
}.

Record Machine : Type := mkMachine {
  machineID : Z;
  machineClusterID : Z;
  machineRole : Role;
  machineProvider : string;
  machineRegion : string;
  machineSize : string;
  machineDiskSize : Z;
  machineSSHKeys : slice string;
  machineCloudID : string;
  machinePublicIP : string;
  machinePrivateIP : string
}.

Record Container : Type := mkContainer {
  containerID : Z;
  containerPid : Z;
  containerIP : string;
  containerMac : string;
  containerSchedID : string;
  containerImage : string;
  containerCommand : slice string;
  containerLabels : slice string;
  containerEnv : option (gmap string string);
  containerExclusive : option (gset (string * string))
}.

Record Connection : Type := mkConnection {
  connectionID : Z;
  connectionFrom : string;
  connectionTo : string;
  connectionMinPort : Z;
  connectionMaxPort : Z
}.

Record Label : Type := mkLabel {
  labelID : Z;
  labelLabel : string;
  labelIP : string;
  labelMultiHost : bool
}.

Record Etcd : Type := mkEtcd {
  etcdID : Z;
  etcdEtcdIPs : slice string;
  etcdLeader : bool;
  etcdLeaderIP : string
}.

Record Minion : Type := mkMinion {
  minionID : Z;
  minionMinionID : string;
  minionRole : Role;
  minionPrivateIP : string
}.

#[global] Instance Cluster_eq_dec : EqDecision Cluster.
Proof. solve_decision. Defined.
#[global] Instance Machine_eq_dec : EqDecision Machine.
Proof. solve_decision. Defined.
#[global] Instance Container_eq_dec : EqDecision Container.
Proof. solve_decision. Defined.
#[global] Instance Connection_eq_dec : EqDecision Connection.
Proof. solve_decision. Defined.
#[global] Instance Label_eq_dec : EqDecision Label.
Proof. solve_decision. Defined.
#[global] Instance Etcd_eq_dec : EqDecision Etcd.
Proof. solve_decision. Defined.
#[global] Instance Minion_eq_dec : EqDecision Minion.
Proof. solve_decision. Defined.

(** ** The [less] methods *)

Definition clusterLess (c r : Cluster) : bool := clusterID c <? clusterID r.
Definition containerLess (c r : Container) : bool := containerID c <? containerID r.
Definition minionLess (m r : Minion) : bool := minionID m <? minionID r.

Definition labelLess (r r2 : Label) : bool :=
  if decide (labelLabel r ≠ labelLabel r2)
  then String.ltb (labelLabel r) (labelLabel r2)
  else labelID r <? labelID r2.

(** The last comparison tests [c.MinPort != o.MaxPort]. *)
Definition connectionLess (c o : Connection) : bool :=
  if decide (connectionFrom c ≠ connectionFrom o)
  then String.ltb (connectionFrom c) (connectionFrom o)
  else if decide (connectionTo c ≠ connectionTo o)
  then String.ltb (connectionTo c) (connectionTo o)
  else if decide (connectionMaxPort c ≠ connectionMaxPort o)
  then connectionMaxPort c <? connectionMaxPort o
  else if decide (connectionMinPort c ≠ connectionMaxPort o)
  then connectionMinPort c <? connectionMinPort o
  else connectionID c <? connectionID o.

Definition machineUp (m : Machine) : bool :=
  bool_decide (machinePublicIP m ≠ "") && bool_decide (machinePrivateIP m ≠ "").
Definition machineDown (m : Machine) : bool :=
  bool_decide (machinePublicIP m = "") && bool_decide (machinePrivateIP m = "").

Definition machineLess (l r : Machine) : bool :=
  if decide (machineRole l ≠ machineRole r)
  then roleNum (machineRole r) <? roleNum (machineRole l)
  else if decide (machineUp l ≠ machineUp r) then machineUp l
  else if decide (machineDown l ≠ machineDown r) then negb (machineDown l)
  else if decide (machineCloudID l ≠ machineCloudID r)
  then String.ltb (machineCloudID l) (machineCloudID r)
  else machineID l <? machineID r.

(** The rows as one interface value, as the [less] methods and [logTable] see
    them. *)
Inductive row : Type :=
| rowCluster (c : Cluster) | rowMachine (m : Machine) | rowContainer (c : Container)
| rowMinion (m : Minion) | rowConnection (c : Connection) | rowLabel (l : Label)
| rowEtcd (e : Etcd).

(** [row.less]: each method asserts the type of its argument, and panics when the
    assertion fails. [Etcd.less] asserts that its argument is a [Minion]. *)
Definition rowLess (a b : row) : outcome string bool :=
  match a, b with
  | rowCluster c, rowCluster r => Ok (clusterLess c r)
  | rowMachine l, rowMachine r => Ok (machineLess l r)
  | rowContainer c, rowContainer r => Ok (containerLess c r)
  | rowMinion m, rowMinion r => Ok (minionLess m r)
  | rowConnection c, rowConnection o => Ok (connectionLess c o)
  | rowLabel r, rowLabel r2 => Ok (labelLess r r2)
  | rowEtcd e, rowMinion m => Ok (etcdID e <? minionID m)
  | _, _ => Panic "interface conversion"
  end.

(** [SortMachines]: [sort.Sort] by [Machine.less]. The order is total on machines
    of distinct IDs, so every sorting algorithm gives this result. *)
Definition machineLe (l r : Machine) : Prop := machineLess r l = false.
#[global] Instance machineLe_dec l r : Decision (machineLe l r).
Proof. unfold machineLe. apply _. Defined.

Definition SortMachines (machines : list Machine) : list Machine :=
  merge_sort machineLe machines.

(** ** [Machine.less] is a strict order *)

Lemma stringLtb_irrefl s : String.ltb s s = false.
Proof.
  unfold String.ltb. pose proof (String.compare_antisym s s) as H.
  destruct (String.compare s s); done.
Qed.

Lemma stringLtb_le s1 s2 : String.ltb s1 s2 = true ↔ String.le s1 s2 ∧ s1 ≠ s2.
Proof.
  unfold String.ltb, String.le, String.leb. split.
  - destruct (String.compare s1 s2) eqn:Hc; intros; try done. split; [done|].
    intros ->. pose proof (stringLtb_irrefl s2) as Hi. unfold String.ltb in Hi.
    by rewrite Hc in Hi.
  - intros [Hle Hne]. destruct (String.compare s1 s2) eqn:Hc; try done.
    by apply String.compare_eq_iff in Hc.
Qed.

Lemma stringLtb_trans s1 s2 s3 :
  String.ltb s1 s2 = true → String.ltb s2 s3 = true → String.ltb s1 s3 = true.
Proof.
  rewrite !stringLtb_le. intros [H1 N1] [H2 N2]. split; [by etransitivity|].
  intros ->. apply N1. by apply (anti_symm String.le).
Qed.

Lemma stringLtb_total s1 s2 :
  s1 ≠ s2 → String.ltb s1 s2 = true ∨ String.ltb s2 s1 = true.
Proof.
  intros Hne. destruct (total String.le s1 s2); [left|right]; apply stringLtb_le; auto.
Qed.

Lemma machineLess_irrefl m : machineLess m m = false.
Proof. unfold machineLess. repeat case_decide; try done. apply Z.ltb_irrefl. Qed.

Lemma roleNum_inj r1 r2 : roleNum r1 = roleNum r2 → r1 = r2.
Proof. by destruct r1, r2. Qed.

(** One level of a comparison by several fields: decide by this field when it
    differs, else by the rest. *)
Lemma lex_trans {A} `{EqDecision A} (lt : A → A → bool) a b c r12 r23 r13 :
  (∀ x y z, lt x y = true → lt y z = true → lt x z = true) →
  (∀ x y, lt x y = true → lt y x = true → x = y) →
  (r12 = true → r23 = true → r13 = true) →
  (if decide (a ≠ b) then lt a b else r12) = true →
  (if decide (b ≠ c) then lt b c else r23) = true →
  (if decide (a ≠ c) then lt a c else r13) = true.
Proof.
  intros Htrans Hasym Hrest H1 H2.
  destruct (decide (a = b)) as [->|Hab], (decide (b = c)) as [->|Hbc];
    repeat case_decide; simplify_eq; try done; eauto; exfalso; auto.
Qed.

Lemma machineLess_trans m1 m2 m3 :
  machineLess m1 m2 = true → machineLess m2 m3 = true → machineLess m1 m3 = true.
Proof.
  unfold machineLess.
  apply (lex_trans (λ x y, roleNum y <? roleNum x)).
  { intros x y z. rewrite !Z.ltb_lt. lia. } { intros x y. rewrite !Z.ltb_lt. lia. }
  apply (lex_trans (λ x _ : bool, x)); [done|by intros [] []|].
  apply (lex_trans (λ x _, negb x)); [done|by intros [] []|].
  apply (lex_trans String.ltb); [apply stringLtb_trans| |rewrite !Z.ltb_lt; lia].
  intros x y [H1 ?]%stringLtb_le [H2 _]%stringLtb_le. by apply (anti_symm String.le).
Qed.

Lemma machineLess_total m1 m2 :
  machineID m1 ≠ machineID m2 → machineLess m1 m2 = true ∨ machineLess m2 m1 = true.
Proof.
  intros Hid. unfold machineLess. repeat case_decide; try congruence.
  - assert (roleNum (machineRole m1) ≠ roleNum (machineRole m2))
      by (intros ?%roleNum_inj; congruence). rewrite !Z.ltb_lt. lia.
  - destruct (machineUp m1), (machineUp m2); auto.
  - destruct (machineDown m1), (machineDown m2); auto.
  - by apply stringLtb_total.
  - rewrite !Z.ltb_lt. lia.
Qed.

Lemma lex_weak {A} `{EqDecision A} (lt : A → A → bool) a b c rab rbc rac :
  (∀ x y z, lt x y = true → lt y z = true → lt x z = true) →
  (∀ x y, x ≠ y → lt x y = true ∨ lt y x = true) →
  (rac = true → rab = true ∨ rbc = true) →
  (if decide (a ≠ c) then lt a c else rac) = true →
  (if decide (a ≠ b) then lt a b else rab) = true ∨
  (if decide (b ≠ c) then lt b c else rbc) = true.
Proof.
  intros Htrans Htot Hrest.
  destruct (decide (a = b)) as [->|Hab], (decide (b = c)) as [->|Hbc];
    repeat case_decide; simplify_eq; try done; eauto.
  intros Hac. destruct (Htot a b Hab) as [|Hba]; [by left|right]. eauto.
Qed.

(** Not being less is transitive: the order is a strict weak order. *)
Lemma machineLess_weak a b c :
  machineLess a c = true → machineLess a b = true ∨ machineLess b c = true.
Proof.
  unfold machineLess.
  apply (lex_weak (λ x y, roleNum y <? roleNum x)).
  { intros x y z. rewrite !Z.ltb_lt. lia. }
  { intros x y Hne. rewrite !Z.ltb_lt. 
    assert (roleNum x ≠ roleNum y) by (intros ?%roleNum_inj; congruence). lia. }
  apply (lex_weak (λ x _ : bool, x)); [done|intros [] []; auto; done|].
  apply (lex_weak (λ x _, negb x)); [done|intros [] []; auto; done|].
  apply (lex_weak String.ltb); [apply stringLtb_trans|apply stringLtb_total|].
  rewrite !Z.ltb_lt. lia.
Qed.

#[global] Instance machineLe_trans : Transitive machineLe.
Proof.
  intros a b c Hab Hbc. unfold machineLe in *.
  destruct (machineLess c a) eqn:Hca; [|done].
  destruct (machineLess_weak c b a Hca); congruence.
Qed.

#[global] Instance machineLe_total : Total machineLe.
Proof.
  intros a b. unfold machineLe. destruct (machineLess b a) eqn:Hba; [|by left].
  right. destruct (machineLess a b) eqn:Hab; [|done].
  pose proof (machineLess_trans _ _ _ Hab Hba). by rewrite machineLess_irrefl in *.
Qed.

(** * Properties *)

(** [SortMachines] is a sort: its result has the same machines, and no machine
    of it is less than one placed before it. Machines of the database have
    distinct IDs; the result then depends on the set of machines only, not on the
    order in which the database returned them. *)
Theorem sortMachines_sorts (l : list Machine) :
  NoDup (machineID <$> l) →
  SortMachines l ≡ₚ l ∧
  StronglySorted (λ a b, machineLess b a = false) (SortMachines l) ∧
  (∀ l', l' ≡ₚ l → SortMachines l' = SortMachines l).
Proof.
  intros Hnd. split; [apply merge_sort_Permutation|].
  split; [apply StronglySorted_merge_sort; apply _|].
  intros l' Hl'. apply (StronglySorted_unique_strong machineLe).
  - intros m1 m2 H1 H2 Hle1 Hle2. unfold SortMachines in H1, H2.
    rewrite merge_sort_Permutation in H1, H2. rewrite Hl' in H1.
    destruct (decide (machineID m1 = machineID m2)) as [Heq|Hne].
    + apply list_elem_of_lookup in H1 as [i Hi], H2 as [j Hj].
      assert (i = j) as ->; [|congruence].
      apply (NoDup_lookup _ i j (machineID m1) Hnd);
        rewrite list_lookup_fmap, ?Hi, ?Hj; simpl; congruence.
    + unfold machineLe in *. destruct (machineLess_total m1 m2 Hne); congruence.
  - apply StronglySorted_merge_sort; apply _.
  - apply StronglySorted_merge_sort; apply _.
  - unfold SortMachines. rewrite !merge_sort_Permutation. done.
Qed.

Definition machineA : Machine :=
  mkMachine 1 1 Worker "Google" "" "n1-standard-1" 0 None "c1" "1.2.3.4" "10.0.0.2".
Definition machineB : Machine :=
  mkMachine 2 1 Master "Google" "" "n1-standard-1" 0 None "" "" "".

Lemma sortMachines_sorts_witness :
  NoDup (machineID <$> [machineA; machineB]) ∧
  SortMachines [machineA; machineB] = SortMachines [machineB; machineA].
Proof.
  assert (NoDup (machineID <$> [machineA; machineB])) as Hnd
    by (repeat constructor; set_solver).
  split; [exact Hnd|].
  symmetry. apply (sortMachines_sorts [machineA; machineB] Hnd). apply perm_swap.
Defined.

(** [Connection.less] is not an order: because its last test reads
    [c.MinPort != o.MaxPort], two connections of the table can each be less than
    the other. *)
Theorem connectionLess_not_asymmetric :
  ∃ c o : Connection, connectionLess c o = true ∧ connectionLess o c = true.
Proof.
  exists (mkConnection 1 "a" "b" 80 80), (mkConnection 2 "a" "b" 70 80). done.
Qed.

(** Comparing two rows of the etcd table panics: [Etcd.less] asserts that the
    other row is a [Minion]. *)
Lemma etcdLess_panics (e1 e2 : Etcd) :
  rowLess (rowEtcd e1) (rowEtcd e2) = Panic "interface conversion".
Proof. done. Qed.
