(* ===== verification/Db.v ===== *)
(** * db: the database, its transactions and its triggers

    Model of [src/db/db.go], [src/db/table.go] and the per-table
    [Insert]/[SelectFrom] methods. A database is a map of typed tables with one
    ID allocator; a transaction is a computation over it. The [Row] class is the
    interface between the generic operations and the seven row types. *)

From stdpp Require Import base gmap list strings.
From Stdlib Require Import ZArith Lia.
From S2P Require Import Prelude DbRows.

Local Open Scope Z_scope.

(** ** Tables and triggers *)

(** A trigger is a channel [C] of capacity one and a [stop] channel: what matters
    of them is whether a notification is queued and whether [stop] is closed. *)
Record Trigger : Type := mkTrigger {
  queued : bool;
  stopped : bool
}.

Record table (R : Type) : Type := mkTable {
  rows : gmap Z R;
  triggers : gset nat;
  trigSeq : Z;
  seq : Z
}.
Arguments mkTable {R} _ _ _ _.
Arguments rows {R} _.
Arguments triggers {R} _.
Arguments trigSeq {R} _.
Arguments seq {R} _.

Definition newTable {R} : table R := mkTable ∅ ∅ 0 0.

(** The database. [trigs] is the heap of triggers, shared between the tables and
    the holders of the channels; [loops] counts the map iterations so far and
    feeds the order oracle. *)
Record Database : Type := mkDb {
  ClusterTable : table Cluster;
  MachineTable : table Machine;
  ContainerTable : table Container;
  MinionTable : table Minion;
  ConnectionTable : table Connection;
  LabelTable : table Label;
  EtcdTable : table Etcd;
  idAlloc : Z;
  trigs : gmap nat Trigger;
  nextTrig : nat;
  loops : nat
}.

Definition newDatabase : Database :=
  mkDb newTable newTable newTable newTable newTable newTable newTable 0 ∅ 0 0.

(** Code that runs inside a transaction. A Go error such code returns is an
    ordinary value of it, since an error does not undo what was done. *)
Abbreviation DB := (M Empty_set Database).

(** ** The row interface *)

Class Row (R : Type) : Type := {
  row_eq_dec :: EqDecision R;
  getID : R → Z;
  zeroRow : Z → R;
  getTable : Database → table R;
  setTable : table R → Database → Database
}.


Definition setIdAlloc (i : Z) (db : Database) : Database :=
  mkDb (ClusterTable db) (MachineTable db) (ContainerTable db) (MinionTable db)
       (ConnectionTable db) (LabelTable db) (EtcdTable db) i (trigs db) (nextTrig db)
       (loops db).

Definition setTrigs (ts : gmap nat Trigger) (db : Database) : Database :=
  mkDb (ClusterTable db) (MachineTable db) (ContainerTable db) (MinionTable db)
       (ConnectionTable db) (LabelTable db) (EtcdTable db) (idAlloc db) ts (nextTrig db)
       (loops db).

Definition setNextTrig (n : nat) (db : Database) : Database :=
  mkDb (ClusterTable db) (MachineTable db) (ContainerTable db) (MinionTable db)
       (ConnectionTable db) (LabelTable db) (EtcdTable db) (idAlloc db) (trigs db) n
       (loops db).

Definition countLoop (db : Database) : Database :=
  mkDb (ClusterTable db) (MachineTable db) (ContainerTable db) (MinionTable db)
       (ConnectionTable db) (LabelTable db) (EtcdTable db) (idAlloc db) (trigs db)
       (nextTrig db) (S (loops db)).

(** What the generic operations need of an instance. *)
Class RowLaws (R : Type) `{Row R} : Prop := {
  getID_zeroRow : ∀ i, getID (zeroRow i) = i;
  getTable_setTable : ∀ t db, getTable (setTable t db) = t;
  getTable_setIdAlloc : ∀ i db, getTable (setIdAlloc i db) = getTable db;
  getTable_setTrigs : ∀ ts db, getTable (setTrigs ts db) = getTable db;
  getTable_setNextTrig : ∀ i db, getTable (setNextTrig i db) = getTable db;
  getTable_countLoop : ∀ db, getTable (countLoop db) = getTable db;
  setTable_idAlloc : ∀ t db, idAlloc (setTable t db) = idAlloc db;
  setTable_trigs : ∀ t db, trigs (setTable t db) = trigs db;
  setTable_loops : ∀ t db, loops (setTable t db) = loops db
}.

#[global] Instance Cluster_row : Row Cluster := {|
  getID := clusterID;
  zeroRow := λ i, mkCluster i "" "" None;
  getTable := ClusterTable;
  setTable := λ t db, mkDb t (MachineTable db) (ContainerTable db) (MinionTable db)
    (ConnectionTable db) (LabelTable db) (EtcdTable db) (idAlloc db) (trigs db)
    (nextTrig db) (loops db)
|}.

#[global] Instance Machine_row : Row Machine := {|
  getID := machineID;
  zeroRow := λ i, mkMachine i 0 RoleNone "" "" "" 0 None "" "" "";
  getTable := MachineTable;
  setTable := λ t db, mkDb (ClusterTable db) t (ContainerTable db) (MinionTable db)
    (ConnectionTable db) (LabelTable db) (EtcdTable db) (idAlloc db) (trigs db)
    (nextTrig db) (loops db)
|}.

#[global] Instance Container_row : Row Container := {|
  getID := containerID;
  zeroRow := λ i, mkContainer i 0 "" "" "" "" None None None None;
  getTable := ContainerTable;
  setTable := λ t db, mkDb (ClusterTable db) (MachineTable db) t (MinionTable db)
    (ConnectionTable db) (LabelTable db) (EtcdTable db) (idAlloc db) (trigs db)
    (nextTrig db) (loops db)
|}.

#[global] Instance Minion_row : Row Minion := {|
  getID := minionID;
  zeroRow := λ i, mkMinion i "" RoleNone "";
  getTable := MinionTable;
  setTable := λ t db, mkDb (ClusterTable db) (MachineTable db) (ContainerTable db) t
    (ConnectionTable db) (LabelTable db) (EtcdTable db) (idAlloc db) (trigs db)
    (nextTrig db) (loops db)
|}.

#[global] Instance Connection_row : Row Connection := {|
  getID := connectionID;
  zeroRow := λ i, mkConnection i "" "" 0 0;
  getTable := ConnectionTable;
  setTable := λ t db, mkDb (ClusterTable db) (MachineTable db) (ContainerTable db)
    (MinionTable db) t (LabelTable db) (EtcdTable db) (idAlloc db) (trigs db)
    (nextTrig db) (loops db)
|}.

#[global] Instance Label_row : Row Label := {|
  getID := labelID;
  zeroRow := λ i, mkLabel i "" "" false;
  getTable := LabelTable;
  setTable := λ t db, mkDb (ClusterTable db) (MachineTable db) (ContainerTable db)
    (MinionTable db) (ConnectionTable db) t (EtcdTable db) (idAlloc db) (trigs db)
    (nextTrig db) (loops db)
|}.

#[global] Instance Etcd_row : Row Etcd := {|
  getID := etcdID;
  zeroRow := λ i, mkEtcd i None false "";
  getTable := EtcdTable;
  setTable := λ t db, mkDb (ClusterTable db) (MachineTable db) (ContainerTable db)
    (MinionTable db) (ConnectionTable db) (LabelTable db) t (idAlloc db) (trigs db)
    (nextTrig db) (loops db)
|}.

#[global] Instance Cluster_laws : RowLaws Cluster. Proof. by split. Qed.
#[global] Instance Machine_laws : RowLaws Machine. Proof. by split. Qed.
#[global] Instance Container_laws : RowLaws Container. Proof. by split. Qed.
#[global] Instance Minion_laws : RowLaws Minion. Proof. by split. Qed.
#[global] Instance Connection_laws : RowLaws Connection. Proof. by split. Qed.
#[global] Instance Label_laws : RowLaws Label. Proof. by split. Qed.
#[global] Instance Etcd_laws : RowLaws Etcd. Proof. by split. Qed.

(** ** Operations of a transaction *)

Definition nextID : DB Z := λ db,
  let i := wrap64 (idAlloc db + 1) in Ok (i, setIdAlloc i db).

Section Operations.
Context {R : Type} `{Row R}.

(** [table.seq++] and a new row map. *)
Definition changeTable (rs : gmap Z R) (t : table R) : table R :=
  mkTable rs (triggers t) (trigSeq t) (wrap64 (seq t + 1)).

Definition insert (r : R) : DB unit :=
  modifyS (λ db, setTable (changeTable (<[getID r:=r]> (rows (getTable db))) (getTable db)) db).

(** [InsertCluster], [InsertMachine], ...: a row that is zero but for its ID. *)
Definition Insert : DB R :=
  i ← nextID; _ ← insert (zeroRow i); mret (zeroRow i).

(** [Commit] panics when there is no row with this ID, because the type of the
    nil row it finds is not the type of [r]. *)
Definition Commit (r : R) : DB unit := λ db,
  match rows (getTable db) !! getID r with
  | None => Panic "Type Error"
  | Some old =>
      if decide (old = r) then Ok (tt, db)
      else Ok (tt, setTable (changeTable (<[getID r:=r]> (rows (getTable db))) (getTable db)) db)
  end.

Definition Remove (r : R) : DB unit :=
  modifyS (λ db, setTable (changeTable (delete (getID r) (rows (getTable db))) (getTable db)) db).

(** [SelectFromCluster], [SelectFromMachine], ...: the rows that satisfy [check],
    in the order of one loop over the table's map; [None] is the nil check. *)
Definition SelectFrom `{MapRange} (check : option (R → bool)) : DB (list R) := λ db,
  let all := (rangeOrder (loops db) (rows (getTable db))).*2 in
  Ok (match check with
      | None => all
      | Some f => base.filter (λ r, f r = true) all
      end, countLoop db).

End Operations.

(** ** Notifications *)

Definition isStopped (ts : gmap nat Trigger) (i : nat) : bool :=
  match ts !! i with Some tr => stopped tr | None => false end.

Section Alert.
Context {R : Type}.

(** [table.alert]: a stopped trigger is forgotten, but is still sent a last
    notification; a trigger with a notification queued drops the new one. *)
Definition alert (t : table R) (ts : gmap nat Trigger) : table R * gmap nat Trigger :=
  if decide (seq t = trigSeq t) then (t, ts)
  else
    (mkTable (rows t)
             (base.filter (λ i, isStopped ts i = false) (triggers t))
             (seq t) (seq t),
     map_imap (λ i tr, Some (if decide (i ∈ triggers t)
                             then mkTrigger true (stopped tr) else tr)) ts).

End Alert.

Definition alertTable {R} `{Row R} (db : Database) : Database :=
  let '(t, ts) := alert (getTable db) (trigs db) in setTrigs ts (setTable t db).

(** The alerts after a transaction, over every table. *)
Definition alertAll (db : Database) : Database :=
  alertTable (R := Cluster) $ alertTable (R := Machine) $ alertTable (R := Container) $
  alertTable (R := Minion) $ alertTable (R := Connection) $ alertTable (R := Label) $
  alertTable (R := Etcd) db.

(** One round of [Conn.run]: execute the closure, then alert. *)
Definition Transact {A} (do : DB A) : DB A :=
  a ← do; _ ← modifyS alertAll; mret a.

Definition addTrigger {R} `{Row R} (i : nat) (db : Database) : Database :=
  let t := getTable (R := R) db in
  setTable (mkTable (rows t) ({[i]} ∪ triggers t) (trigSeq t) (seq t)) db.

(** [Conn.Trigger] for one table: a fresh trigger registered on it. *)
Definition newTrigger {R} `{Row R} : DB nat := λ db,
  let i := nextTrig db in
  Ok (i, addTrigger (R := R) i (setNextTrig (S i) (setTrigs (<[i:=mkTrigger false false]> (trigs db)) db))).

(** [Conn.Trigger] for any number of tables. *)
Inductive TableType : Type :=
| tClusterTable | tMachineTable | tContainerTable | tMinionTable | tConnectionTable
| tLabelTable | tEtcdTable.

Definition registerTrigger (i : nat) (t : TableType) : Database → Database :=
  match t with
  | tClusterTable => addTrigger (R := Cluster) i
  | tMachineTable => addTrigger (R := Machine) i
  | tContainerTable => addTrigger (R := Container) i
  | tMinionTable => addTrigger (R := Minion) i
  | tConnectionTable => addTrigger (R := Connection) i
  | tLabelTable => addTrigger (R := Label) i
  | tEtcdTable => addTrigger (R := Etcd) i
  end.

Definition ConnTrigger (tt : list TableType) : DB nat := λ db,
  let i := nextTrig db in
  Ok (i, foldl (flip (registerTrigger i))
           (setNextTrig (S i) (setTrigs (<[i:=mkTrigger false false]> (trigs db)) db)) tt).

(** The holder of a trigger stops it, or receives from its channel; the goroutine
    of [TriggerTick] sends to it. *)
Definition alterTrigger (f : Trigger → Trigger) (i : nat) (db : Database) : Database :=
  setTrigs (alter f i (trigs db)) db.
Definition Stop : nat → Database → Database := alterTrigger (λ t, mkTrigger (queued t) true).
Definition receive : nat → Database → Database := alterTrigger (λ t, mkTrigger false (stopped t)).
Definition tick : nat → Database → Database := alterTrigger (λ t, mkTrigger true (stopped t)).

(** [Conn.TriggerTick], whose goroutine begins with a tick. *)
Definition TriggerTick (tt : list TableType) : DB nat :=
  i ← ConnTrigger tt; _ ← modifyS (tick i); mret i.

(** ** Code that runs transactions and acts on a world outside the database *)

Section Outside.
Context {W : Type}.
Abbreviation Out := (M Empty_set (Database * W)).

Definition onDb {A} (c : DB A) : Out A := λ s,
  match c s.1 with
  | Ok (a, db) => Ok (a, (db, s.2))
  | Err e => Err e
  | Panic w => Panic w
  | OutOfFuel => OutOfFuel
  end.

Definition onWorld {A} (f : W → A * W) : Out A := λ s,
  let '(a, w) := f s.2 in Ok (a, (s.1, w)).

Definition inWorld {A} (c : M Empty_set W A) : Out A := λ s,
  match c s.2 with
  | Ok (a, w) => Ok (a, (s.1, w))
  | Err e => Err e
  | Panic w => Panic w
  | OutOfFuel => OutOfFuel
  end.

(** The entries of a map, in the order of the next loop over a map. *)
Definition rangeOf `{MapRange} {K V} `{Countable K} (m : gmap K V) : Out (list (K * V)) := λ s,
  Ok (rangeOrder (loops s.1) m, (countLoop s.1, s.2)).

End Outside.
