(* ===== verification/DbProps.v ===== *)
(** * db: invariants of the database and delivery of notifications

    The theorems about [Db]: row IDs, the effect of each operation on what a
    later select sees, and the trigger protocol. *)

From stdpp Require Import base gmap list strings.
From Stdlib Require Import ZArith Lia.
From S2P Require Import Prelude DbRows Db.

Local Open Scope Z_scope.

(** ** Well-formed databases: rows are stored under their own ID, and no ID is
    beyond the allocator. *)

Definition tableWF {R} `{Row R} (n : Z) (t : table R) : Prop :=
  map_Forall (λ i r, getID r = i ∧ 0 < i ≤ n) (rows t).

Definition dbWF (db : Database) : Prop :=
  0 ≤ idAlloc db < 2 ^ 63 ∧
  tableWF (idAlloc db) (ClusterTable db) ∧ tableWF (idAlloc db) (MachineTable db) ∧
  tableWF (idAlloc db) (ContainerTable db) ∧ tableWF (idAlloc db) (MinionTable db) ∧
  tableWF (idAlloc db) (ConnectionTable db) ∧ tableWF (idAlloc db) (LabelTable db) ∧
  tableWF (idAlloc db) (EtcdTable db).

(** Some row of some table has this ID. *)
Definition usedID (db : Database) (i : Z) : Prop :=
  is_Some (rows (ClusterTable db) !! i) ∨ is_Some (rows (MachineTable db) !! i) ∨
  is_Some (rows (ContainerTable db) !! i) ∨ is_Some (rows (MinionTable db) !! i) ∨
  is_Some (rows (ConnectionTable db) !! i) ∨ is_Some (rows (LabelTable db) !! i) ∨
  is_Some (rows (EtcdTable db) !! i).

(** No table has changed since the last alerts. *)
Definition quietTable {R} (t : table R) : Prop := seq t = trigSeq t ∧ int64 (seq t).
Definition quiet (db : Database) : Prop :=
  quietTable (ClusterTable db) ∧ quietTable (MachineTable db) ∧
  quietTable (ContainerTable db) ∧ quietTable (MinionTable db) ∧
  quietTable (ConnectionTable db) ∧ quietTable (LabelTable db) ∧
  quietTable (EtcdTable db).

(** Each table is one of the seven: what holds of the whole database holds of it,
    and changing it is changing that part only. *)
Class RowFrame (R : Type) `{Row R} : Prop := {
  dbWF_getTable : ∀ db, dbWF db → tableWF (idAlloc db) (getTable db);
  dbWF_setTable : ∀ db t, dbWF db → tableWF (idAlloc db) t → dbWF (setTable t db);
  usedID_getTable : ∀ db i, is_Some (rows (getTable db) !! i) → usedID db i;
  quiet_getTable : ∀ db, quiet db → quietTable (getTable db);
  alertAll_getTable : ∀ db, ∃ ts,
    (∀ i, isStopped ts i = isStopped (trigs db) i) ∧
    getTable (alertAll db) = (alert (getTable db) ts).1;
  alertAll_queued : ∀ db i tr,
    seq (getTable db) ≠ trigSeq (getTable db) → i ∈ triggers (getTable db) →
    trigs db !! i = Some tr → trigs (alertAll db) !! i = Some (mkTrigger true (stopped tr))
}.

(** ** Alerts *)

Section AlertLemmas.
Context {R : Type}.
Implicit Types t : table R.

Lemma alert_rows t ts : rows (alert t ts).1 = rows t.
Proof. unfold alert. by case_decide. Qed.

Lemma alert_lookup t ts i :
  (alert t ts).2 !! i =
  (λ tr, if decide (seq t ≠ trigSeq t ∧ i ∈ triggers t)
         then mkTrigger true (stopped tr) else tr) <$> ts !! i.
Proof.
  unfold alert. case_decide; simpl; [|rewrite map_lookup_imap];
    destruct (ts !! i); simpl; repeat case_decide; naive_solver.
Qed.

Lemma alert_isStopped t ts i : isStopped (alert t ts).2 i = isStopped ts i.
Proof.
  unfold isStopped. rewrite alert_lookup. destruct (ts !! i); simpl; [|done].
  by case_decide.
Qed.

Lemma alert_quiet t ts : int64 (seq t) → quietTable (alert t ts).1.
Proof. unfold alert, quietTable. by case_decide. Qed.

(** Alerting other tables keeps a queued notification queued. *)
Lemma alert_keeps_queued t ts i s :
  ts !! i = Some (mkTrigger true s) → (alert t ts).2 !! i = Some (mkTrigger true s).
Proof. intros Hi. rewrite alert_lookup, Hi. simpl. by case_decide. Qed.

(** A notification for a changed table reaches each of its triggers, whatever the
    alerts of the tables before it did. *)
Lemma alert_queues t ts i s :
  seq t ≠ trigSeq t → i ∈ triggers t →
  (∃ tr, ts !! i = Some tr ∧ stopped tr = s) →
  (alert t ts).2 !! i = Some (mkTrigger true s).
Proof.
  intros ?? (tr & Hi & <-). rewrite alert_lookup, Hi. simpl. case_decide; naive_solver.
Qed.

Lemma alert_keeps_trigger t ts i s :
  (∃ tr, ts !! i = Some tr ∧ stopped tr = s) →
  ∃ tr, (alert t ts).2 !! i = Some tr ∧ stopped tr = s.
Proof.
  intros (tr & Hi & <-). rewrite alert_lookup, Hi. simpl. case_decide; eauto.
Qed.

End AlertLemmas.

(** Alerting one table: its own part, the triggers, and everything else. *)
Lemma alertTable_same {R} `{Row R, !RowLaws R} db :
  getTable (alertTable db) = (alert (getTable db) (trigs db)).1.
Proof.
  unfold alertTable. destruct (alert _ _). by rewrite getTable_setTrigs, getTable_setTable.
Qed.

Lemma alertTable_trigs {R} `{Row R} db :
  trigs (alertTable db) = (alert (getTable db) (trigs db)).2.
Proof. unfold alertTable. by destruct (alert _ _). Qed.

Lemma alertTable_frame {R A} `{Row R} (P : Database → A) db :
  (∀ t ts db', P (setTrigs ts (setTable t db')) = P db') → P (alertTable db) = P db.
Proof. intros HP. unfold alertTable. by destruct (alert _ _). Qed.

Lemma alertTable_isStopped {R} `{Row R} db i :
  isStopped (trigs (alertTable db)) i = isStopped (trigs db) i.
Proof. by rewrite alertTable_trigs, alert_isStopped. Qed.

Ltac skip_alerts :=
  repeat (rewrite (alertTable_frame getTable) by reflexivity).

Ltac solve_rowFrame :=
  split;
  [ intros db Hwf; apply Hwf
  | intros db t (?&?&?&?&?&?&?&?) Ht; unfold dbWF; simpl; repeat (split; [done|]); done
  | intros db i Hi; unfold usedID; simpl in Hi; tauto
  | intros db Hq; apply Hq
  | intros db; unfold alertAll; skip_alerts; rewrite alertTable_same; skip_alerts;
    eexists; split; [|reflexivity]; intros i; rewrite ?alertTable_isStopped; done
  | intros db i tr Hseq Hin Htr; unfold alertAll;
    repeat (rewrite alertTable_trigs;
      first [ apply alert_queues; [skip_alerts; exact Hseq|skip_alerts; exact Hin|]
            | apply alert_keeps_queued ]);
    repeat (rewrite alertTable_trigs; apply alert_keeps_trigger); eauto ].

#[global] Instance Cluster_frame : RowFrame Cluster. Proof. solve_rowFrame. Qed.
#[global] Instance Machine_frame : RowFrame Machine. Proof. solve_rowFrame. Qed.
#[global] Instance Container_frame : RowFrame Container. Proof. solve_rowFrame. Qed.
#[global] Instance Minion_frame : RowFrame Minion. Proof. solve_rowFrame. Qed.
#[global] Instance Connection_frame : RowFrame Connection. Proof. solve_rowFrame. Qed.
#[global] Instance Label_frame : RowFrame Label. Proof. solve_rowFrame. Qed.
#[global] Instance Etcd_frame : RowFrame Etcd. Proof. solve_rowFrame. Qed.

(** ** Operations *)

#[export] Hint Rewrite @getID_zeroRow @getTable_setTable @getTable_setIdAlloc
  @getTable_setTrigs @getTable_setNextTrig @getTable_countLoop @setTable_idAlloc
  @setTable_trigs @setTable_loops using typeclasses eauto : di.

Section OperationLemmas.
Context {R : Type} `{Row R, !RowLaws R, !RowFrame R}.

Lemma Commit_Ok r db db' :
  Commit r db = Ok (tt, db') →
  is_Some (rows (getTable db) !! getID r) ∧
  rows (getTable db') = <[getID r:=r]> (rows (getTable db)).
Proof.
  unfold Commit. destruct (_ !! _) as [old|] eqn:Hold; [|done].
  case_decide; intros; inv_ok.
  - split; [by eauto|]. by rewrite insert_id.
  - split; [by eauto|]. autorewrite with di. done.
Qed.

(** [Commit] returns exactly when a row with this ID exists. *)
Lemma Commit_total r db :
  is_Some (rows (getTable db) !! getID r) → ∃ db', Commit r db = Ok (tt, db').
Proof.
  intros [old Hold]. unfold Commit. rewrite Hold. case_decide; eauto.
Qed.

Lemma Insert_Ok (r : R) db db' :
  Insert db = Ok (r, db') →
  r = zeroRow (wrap64 (idAlloc db + 1)) ∧
  idAlloc db' = wrap64 (idAlloc db + 1) ∧
  rows (getTable db') = <[getID r:=r]> (rows (getTable db)).
Proof.
  unfold Insert. intros (i & db1 & H1 & (u & db2 & H2 & H3)%bind_Ok)%bind_Ok.
  injection H1 as <- <-. injection H2 as <- <-. inv_ok. subst.
  repeat split; autorewrite with di; simpl; autorewrite with di; done.
Qed.

Lemma Remove_Ok (r : R) db db' :
  Remove r db = Ok (tt, db') →
  rows (getTable db') = delete (getID r) (rows (getTable db)) ∧ idAlloc db' = idAlloc db.
Proof. intros [= <-]. by autorewrite with di. Qed.

Lemma SelectFrom_Ok `{MapRange} (check : option (R → bool)) db l db' :
  SelectFrom check db = Ok (l, db') →
  db' = countLoop db ∧
  l ≡ₚ base.filter (λ r, match check with Some f => f r | None => true end = true)
         (map_to_list (rows (getTable db))).*2.
Proof.
  intros [= <- <-]. split; [done|]. rewrite <- (rangeOrder_perm (loops db)).
  destruct check; [done|]. by rewrite list_filter_id.
Qed.

End OperationLemmas.

(** ** Preservation *)

Lemma tableWF_mono {R} `{Row R} n n' (t : table R) : n ≤ n' → tableWF n t → tableWF n' t.
Proof. intros Hle Ht i r Hi. destruct (Ht i r Hi). split; [done|lia]. Qed.

Lemma dbWF_setIdAlloc db i :
  dbWF db → idAlloc db ≤ i < 2 ^ 63 → dbWF (setIdAlloc i db).
Proof.
  intros (?&?&?&?&?&?&?&?) Hi. unfold dbWF; simpl. split; [lia|].
  split_and!; (eapply tableWF_mono; [|done]); lia.
Qed.

Lemma dbWF_usedID db i : dbWF db → usedID db i → 0 < i ≤ idAlloc db.
Proof.
  intros (_&?&?&?&?&?&?&?).
  intros [[r Hr]|[[r Hr]|[[r Hr]|[[r Hr]|[[r Hr]|[[r Hr]|[r Hr]]]]]]];
    match goal with Ht : tableWF _ ?t, Hr : rows ?t !! _ = Some _ |- _ => apply (Ht _ _ Hr) end.
Qed.

Section Preservation.
Context {R : Type} `{Row R, !RowLaws R, !RowFrame R}.

Lemma Insert_wf (r : R) db db' :
  dbWF db → idAlloc db + 1 < 2 ^ 63 → Insert db = Ok (r, db') →
  dbWF db' ∧ idAlloc db' = idAlloc db + 1 ∧ ¬ usedID db (getID r).
Proof.
  intros Hwf Hroom Hins. pose proof (Insert_Ok _ _ _ Hins) as (-> & Hid & _).
  assert (0 ≤ idAlloc db) by apply Hwf.
  rewrite wrap64_id in * by (unfold int64; lia).
  split; [|split; [done|]].
  - unfold Insert in Hins.
    apply bind_Ok in Hins as (i & db1 & Hn & (u & db2 & Hi & Hr)%bind_Ok).
    injection Hn as <- <-. injection Hi as <- <-. inv_ok. subst.
    rewrite !wrap64_id in * by (unfold int64; lia).
    assert (dbWF (setIdAlloc (idAlloc db + 1) db)) as Hwf' by (apply dbWF_setIdAlloc; [done|lia]).
    apply dbWF_setTable; [done|]. simpl.
    pose proof (dbWF_getTable _ Hwf') as Ht. simpl in Ht.
    apply map_Forall_insert_2; autorewrite with di; [lia|].
    by rewrite getTable_setIdAlloc in Ht.
  - rewrite getID_zeroRow. intros Hu%dbWF_usedID; [lia|done].
Qed.

Lemma Commit_wf (r : R) db db' : dbWF db → Commit r db = Ok (tt, db') →
  dbWF db' ∧ idAlloc db' = idAlloc db.
Proof.
  intros Hwf. unfold Commit. destruct (_ !! _) as [old|] eqn:Hold; [|done].
  case_decide; intros; inv_ok; [done|]. autorewrite with di. split; [|done].
  pose proof (dbWF_getTable _ Hwf) as Ht. destruct (Ht _ _ Hold) as [Hid ?].
  apply dbWF_setTable; [done|]. by apply map_Forall_insert_2.
Qed.

Lemma Remove_wf (r : R) db db' : dbWF db → Remove r db = Ok (tt, db') →
  dbWF db' ∧ idAlloc db' = idAlloc db.
Proof.
  intros Hwf [= <-]. autorewrite with di. split; [|done].
  apply dbWF_setTable; [done|]. by apply map_Forall_delete, dbWF_getTable.
Qed.

End Preservation.

Lemma dbWF_setTrigs ts db : dbWF db → dbWF (setTrigs ts db).
Proof. done. Qed.

Lemma alertTable_wf {R} `{Row R, !RowFrame R} db :
  dbWF db → dbWF (alertTable db).
Proof.
  intros Hwf. unfold alertTable.
  pose proof (alert_rows (getTable db) (trigs db)) as Hrows.
  destruct (alert _ _) as [t ts]. apply dbWF_setTrigs, dbWF_setTable; [done|].
  unfold tableWF. simpl in Hrows. rewrite Hrows. by apply dbWF_getTable.
Qed.

Lemma alertTable_idAlloc {R} `{Row R, !RowLaws R} db :
  idAlloc (alertTable db) = idAlloc db.
Proof. apply alertTable_frame. intros t ts db'. simpl. apply setTable_idAlloc. Qed.

Lemma alertAll_wf db : dbWF db → dbWF (alertAll db).
Proof. intros. unfold alertAll. by repeat (apply alertTable_wf; [apply _..|]). Qed.

Lemma alertAll_idAlloc db : idAlloc (alertAll db) = idAlloc db.
Proof. unfold alertAll. by rewrite !alertTable_idAlloc by apply _. Qed.

Lemma Transact_Ok {A} (do : DB A) db a db' :
  Transact do db = Ok (a, db') → ∃ dbm, do db = Ok (a, dbm) ∧ db' = alertAll dbm.
Proof.
  unfold Transact. generalize alertAll. intros f (b & dbm & Hdo & Hf)%bind_Ok.
  apply bind_Ok in Hf as ([] & db1 & Hm & Hr). injection Hm as <-. inv_ok. eauto.
Qed.

(** ** Reachable databases *)

(** The seven row types. *)
Inductive isRow : ∀ R : Type, Row R → Prop :=
| isCluster : isRow Cluster Cluster_row
| isMachine : isRow Machine Machine_row
| isContainer : isRow Container Container_row
| isMinion : isRow Minion Minion_row
| isConnection : isRow Connection Connection_row
| isLabel : isRow Label Label_row
| isEtcd : isRow Etcd Etcd_row.

Lemma isRow_laws R (HR : Row R) : isRow R HR → RowLaws R ∧ RowFrame R.
Proof. destruct 1; split; apply _. Qed.

(** [dbRun n db]: [db] is the result of some sequence of operations on a new
    database, [n] of them insertions. *)
Inductive dbRun : nat → Database → Prop :=
| run_new : dbRun 0 newDatabase
| run_insert (n : nat) (db : Database) (R : Type) (HR : Row R) (r : R) (db' : Database) :
    dbRun n db → isRow R HR → Insert db = Ok (r, db') → dbRun (S n) db'
| run_commit (n : nat) (db : Database) (R : Type) (HR : Row R) (r : R) (db' : Database) :
    dbRun n db → isRow R HR → Commit r db = Ok (tt, db') → dbRun n db'
| run_remove (n : nat) (db : Database) (R : Type) (HR : Row R) (r : R) (db' : Database) :
    dbRun n db → isRow R HR → Remove r db = Ok (tt, db') → dbRun n db'
| run_alert (n : nat) (db : Database) :
    dbRun n db → dbRun n (alertAll db).

Lemma newDatabase_wf : dbWF newDatabase.
Proof.
  unfold dbWF; simpl. split; [lia|].
  assert (∀ R (H : Row R), tableWF 0 (@newTable R)) as Hnew
    by (intros R H; apply map_Forall_empty). split_and!; apply Hnew.
Qed.

Lemma dbRun_wf n db :
  dbRun n db → Z.of_nat n < 2 ^ 63 → dbWF db ∧ idAlloc db = Z.of_nat n.
Proof.
  induction 1 as [|n db R HR r db' _ IH Hrow Hop|n db R HR r db' _ IH Hrow Hop
    |n db R HR r db' _ IH Hrow Hop|n db _ IH]; intros Hn;
    try (apply isRow_laws in Hrow as [??]).
  - split; [apply newDatabase_wf|done].
  - destruct IH as [Hwf Hid]; [lia|].
    apply Insert_wf in Hop as (? & ? & ?); [split; [done|lia]|done|lia].
  - destruct IH as [Hwf Hid]; [done|]. apply Commit_wf in Hop as [? ->]; auto.
  - destruct IH as [Hwf Hid]; [done|]. apply Remove_wf in Hop as [? ->]; auto.
  - destruct IH as [Hwf Hid]; [done|]. rewrite alertAll_idAlloc. auto using alertAll_wf.
Qed.

(** ** What a select sees after an update *)

Definition checkRow {R} (check : option (R → bool)) (r : R) : bool :=
  match check with Some f => f r | None => true end.

Section SelectLemmas.
Context {R : Type} `{HR : Row R, !RowLaws R, !RowFrame R}.

(** The rows other than the one with ID [i]. *)
Lemma values_without n (t : table R) i :
  tableWF n t →
  base.filter (λ r, getID r ≠ i) (map_to_list (rows t)).*2 ≡ₚ
  (map_to_list (delete i (rows t))).*2.
Proof.
  intros Ht.
  assert (base.filter (λ r, getID r ≠ i) (map_to_list (delete i (rows t))).*2 =
          (map_to_list (delete i (rows t))).*2) as Hkeep.
  { apply list_filter_id. intros r (k & Hk)%elem_of_values.
    apply lookup_delete_Some in Hk as [Hne Hk]. destruct (Ht _ _ Hk). congruence. }
  destruct (rows t !! i) as [old|] eqn:Hi.
  - rewrite <- (insert_id (rows t) i old Hi) at 1. rewrite <- insert_delete_eq.
    rewrite map_to_list_insert, fmap_cons by apply lookup_delete_eq.
    rewrite filter_cons_False; [by rewrite Hkeep|]. destruct (Ht _ _ Hi). tauto.
  - rewrite delete_id in * by done. by rewrite Hkeep.
Qed.

Lemma SelectFrom_perm `{MapRange} (check : option (R → bool)) db l db' :
  SelectFrom check db = Ok (l, db') →
  l ≡ₚ base.filter (λ r, checkRow check r = true) (map_to_list (rows (getTable db))).*2.
Proof. intros Hs. apply (SelectFrom_Ok check db l db' Hs). Qed.

(** Filtering by ID and by the check commute. *)
Lemma select_without n (t : table R) (check : option (R → bool)) i :
  tableWF n t →
  base.filter (λ r, getID r ≠ i)
    (base.filter (λ r, checkRow check r = true) (map_to_list (rows t)).*2) ≡ₚ
  base.filter (λ r, checkRow check r = true) (map_to_list (delete i (rows t))).*2.
Proof.
  intros Ht. rewrite <- (values_without n t i Ht), !list_filter_filter.
  erewrite list_filter_iff; [done|]. intros r; simpl; tauto.
Qed.

Lemma select_after_commit `{MapRange} (r : R) check db db' l l' dl dl' :
  dbWF db → Commit r db = Ok (tt, db') →
  SelectFrom check db = Ok (l, dl) → SelectFrom check db' = Ok (l', dl') →
  l' ≡ₚ (if checkRow check r then [r] else []) ++ base.filter (λ r', getID r' ≠ getID r) l.
Proof.
  intros Hwf [_ Hrows]%Commit_Ok ->%SelectFrom_perm ->%SelectFrom_perm.
  rewrite Hrows, (select_without _ _ _ _ (dbWF_getTable db Hwf)).
  rewrite <- insert_delete_eq, map_to_list_insert, fmap_cons by apply lookup_delete_eq.
  simpl. rewrite filter_cons. destruct (checkRow check r); by case_decide.
Qed.

Lemma select_after_remove `{MapRange} (r : R) check db db' l l' dl dl' :
  dbWF db → Remove r db = Ok (tt, db') →
  SelectFrom check db = Ok (l, dl) → SelectFrom check db' = Ok (l', dl') →
  l' ≡ₚ base.filter (λ r', getID r' ≠ getID r) l.
Proof.
  intros Hwf [Hrows _]%Remove_Ok ->%SelectFrom_perm ->%SelectFrom_perm.
  by rewrite Hrows, (select_without _ _ _ _ (dbWF_getTable db Hwf)).
Qed.

(** ** Sequences of updates of one table *)

Inductive tableOp : Type := OpInsert | OpCommit (r : R) | OpRemove (r : R).

Definition runOp (op : tableOp) : DB unit :=
  match op with
  | OpInsert => _ ← Insert (R := R); mret tt
  | OpCommit r => Commit r
  | OpRemove r => Remove r
  end.

(** Each operation either leaves the table alone or advances its sequence number
    by one; the registered triggers stay. *)
Lemma runOp_seq op db db' :
  runOp op db = Ok (tt, db') →
  trigs db' = trigs db ∧ triggers (getTable db') = triggers (getTable db) ∧
  trigSeq (getTable db') = trigSeq (getTable db) ∧
  ((getTable db' = getTable db) ∨ seq (getTable db') = wrap64 (seq (getTable db) + 1)).
Proof.
  destruct op as [|r|r]; simpl.
  - intros (r & db1 & (i & db2 & Hn & (u & db3 & Hi & Hr)%bind_Ok)%bind_Ok & Hu)%bind_Ok.
    injection Hn as <- <-. injection Hi as <- <-. inv_ok. subst.
    autorewrite with di. simpl. autorewrite with di. split_and!; auto.
  - unfold Commit. destruct (_ !! _); [|done]. case_decide; intros; inv_ok; [by auto|].
    autorewrite with di. split_and!; auto.
  - intros [= <-]. autorewrite with di. split_and!; auto.
Qed.

Lemma wrap64_add z k : wrap64 (wrap64 z + k) = wrap64 (z + k).
Proof.
  unfold wrap64.
  replace ((z + 2 ^ 63) `mod` 2 ^ 64 - 2 ^ 63 + k + 2 ^ 63)
    with ((z + 2 ^ 63) `mod` 2 ^ 64 + k) by lia.
  rewrite Zplus_mod_idemp_l. do 2 f_equal. lia.
Qed.

Lemma wrap64_changes z k : int64 z → 0 < k < 2 ^ 64 → wrap64 (z + k) ≠ z.
Proof.
  intros Hz Hk Heq. rewrite <- (wrap64_id z) in Heq at 2 by done. unfold wrap64 in Heq.
  assert ((z + k + 2 ^ 63) `mod` 2 ^ 64 = (z + 2 ^ 63) `mod` 2 ^ 64) as Hm by lia.
  unfold int64 in Hz. rewrite (Z.mod_small (z + 2 ^ 63)) in Hm by lia.
  destruct (decide (z + k + 2 ^ 63 < 2 ^ 64)) as [Hs|Hl].
  - rewrite Z.mod_small in Hm by lia. lia.
  - replace (z + k + 2 ^ 63) with ((z + k + 2 ^ 63 - 2 ^ 64) + 1 * 2 ^ 64) in Hm by lia.
    rewrite Z.mod_add, Z.mod_small in Hm by lia. lia.
Qed.

Lemma runOps_seq ops db db' :
  forEach runOp ops db = Ok (tt, db') →
  trigs db' = trigs db ∧ triggers (getTable db') = triggers (getTable db) ∧
  trigSeq (getTable db') = trigSeq (getTable db) ∧
  ∃ k, (k ≤ length ops)%nat ∧
    (k = 0%nat → getTable db' = getTable db) ∧
    (int64 (seq (getTable db)) → seq (getTable db') = wrap64 (seq (getTable db) + Z.of_nat k)).
Proof.
  revert db. induction ops as [|op ops IH]; intros db; simpl.
  - intros; inv_ok. subst. split_and!; auto. exists 0%nat. split_and!; auto with lia.
    intros. by rewrite Z.add_0_r, wrap64_id.
  - intros ([] & db1 & Hop%runOp_seq & (Ht & Hg & Hs & k & Hk & H0 & Hseq)%IH)%bind_Ok.
    destruct Hop as (Ht1 & Hg1 & Hs1 & Hop). split_and!; [congruence..|].
    destruct Hop as [Hsame|Hchg].
    + exists k. rewrite <- Hsame. split_and!; auto with lia.
    + exists (S k). split_and!; [lia..|].
      intros Hi. rewrite Hseq, Hchg, wrap64_add by (rewrite Hchg; apply wrap64_int64).
      f_equal. lia.
Qed.

End SelectLemmas.
Arguments tableOp R : clear implicits.

(** * Properties *)

(** C24: Row IDs are unique in the whole database: in every database reachable by
    inserts, commits, removes and alerts, each row is stored under its own ID, the
    allocator counts the insertions, and the row an insert returns has an ID that
    no row of any table uses. (The allocator is 64 bits wide, so this holds up to
    [2^63] insertions.) *)
Theorem db_ids_unique (n : nat) (db : Database) (R : Type) (HR : Row R) (r : R) (db' : Database) :
  dbRun n db → Z.of_nat n + 1 < 2 ^ 63 → isRow R HR → Insert db = Ok (r, db') →
  dbWF db' ∧ ¬ usedID db (getID r) ∧ getID r = Z.of_nat n + 1 ∧
  rows (getTable db') = <[getID r:=r]> (rows (getTable db)).
Proof.
  intros Hrun Hn [? ?]%isRow_laws Hins.
  destruct (dbRun_wf n db Hrun ltac:(lia)) as [Hwf Hid].
  destruct (Insert_wf r db db' Hwf ltac:(lia) Hins) as (? & Hid' & ?).
  pose proof (Insert_Ok r db db' Hins) as (-> & Hid'' & ?).
  rewrite getID_zeroRow in *. split_and!; [done..|lia|done].
Qed.

Lemma db_ids_unique_witness :
  ∃ (r : Machine) (db' : Database),
    Insert newDatabase = Ok (r, db') ∧ ¬ usedID newDatabase (getID r) ∧ getID r = 1.
Proof.
  eexists _, _. split; [reflexivity|].
  destruct (db_ids_unique 0 newDatabase Machine Machine_row
    (zeroRow (wrap64 (0 + 1))) _ run_new ltac:(reflexivity) isMachine eq_refl)
    as (_ & ? & ? & _). auto.
Defined.

(** Updates are what a later select sees. [Commit r] returns (rather than
    panics) when a row with the ID of [r] exists; a select after it yields [r], if
    it passes the check, and the rows it yielded before other than the old
    version of [r]. After [Remove r] it yields the same rows without that one. *)
Theorem db_select_after_update `{MapRange} (R : Type) (HR : Row R) (r : R) (db : Database) :
  isRow R HR → dbWF db → is_Some (rows (getTable db) !! getID r) →
  ∃ dbc dbr, Commit r db = Ok (tt, dbc) ∧ Remove r db = Ok (tt, dbr) ∧
  ∀ (check : option (R → bool)), ∃ l lc lr d dc dr,
    SelectFrom check db = Ok (l, d) ∧ SelectFrom check dbc = Ok (lc, dc) ∧
    SelectFrom check dbr = Ok (lr, dr) ∧
    lc ≡ₚ (if checkRow check r then [r] else []) ++ base.filter (λ r', getID r' ≠ getID r) l ∧
    lr ≡ₚ base.filter (λ r', getID r' ≠ getID r) l.
Proof.
  intros [? ?]%isRow_laws Hwf Hin. destruct (Commit_total r db Hin) as [dbc Hc].
  eexists dbc, _. split; [done|]. split; [reflexivity|]. intros check.
  eexists _, _, _, _, _, _. split_and!; [reflexivity..| |].
  - by eapply select_after_commit.
  - by eapply select_after_remove.
Qed.

Definition oneMachine : Database :=
  setTable (mkTable {[1 := machineA]} ∅ 0 0) (setIdAlloc 2 newDatabase).

Lemma oneMachine_wf : dbWF oneMachine.
Proof.
  apply dbWF_setTable; [apply dbWF_setIdAlloc; [apply newDatabase_wf|done]|].
  by apply map_Forall_singleton.
Qed.

Lemma db_select_after_update_witness :
  is_Some (rows (getTable (R := Machine) oneMachine) !! getID machineA) ∧
  ∃ db', Commit machineA oneMachine = Ok (tt, db').
Proof.
  assert (is_Some (rows (getTable (R := Machine) oneMachine) !! getID machineA)) as Hin
    by (vm_compute; eauto).
  split; [exact Hin|].
  destruct (db_select_after_update (H := mapToListRange) Machine Machine_row machineA oneMachine
    isMachine oneMachine_wf Hin) as (dbc & _ & Hc & _). eauto.
Defined.


(** A database on which one trigger watches the machine table. *)
Definition watched : Database :=
  setTrigs {[0%nat := mkTrigger false false]}
    (setTable (R := Machine) (mkTable ∅ {[0%nat]} 0 0) newDatabase).

Definition watchedInsert : DB unit := forEach runOp [@OpInsert Machine].

