(* ===== verification/DslAst.v ===== *)
(** * dsl: syntax trees, contexts and the heap of the evaluator

    Model of the types of [src/dsl/ast.go] and [src/dsl/eval.go]. The evaluator
    mutates shared objects: contexts (captured by closures), the global tables of
    labels and connections (shared by the copies of a context), and the
    containers and machines (shared by labels and variables). They live in an
    explicit heap and a pointer is an index in it. *)

From stdpp Require Import base gmap list strings.
From Stdlib Require Import ZArith Lia SpecFloat.
From S2P Require Import Prelude.

Local Open Scope Z_scope.

(** ** float64 *)

Definition float64 : Type := spec_float.

#[global] Instance float64_eq_dec : EqDecision float64.
Proof. unfold float64. solve_decision. Defined.

(** Conversion of an [int], rounding to nearest even. *)
Definition floatOfInt (z : Z) : float64 := binary_normalize 53 1024 z 0 false.
Definition floatZero : float64 := S754_zero false.
Definition floatLe (x y : float64) : bool := SFleb x y.
Definition floatLt (x y : float64) : bool := SFltb x y.
Definition floatEq (x y : float64) : bool := SFeqb x y.

(** ** Source positions and errors *)

Record position : Type := mkPos {
  posFilename : string;
  posOffset : Z;
  posLine : Z;
  posColumn : Z
}.
#[global] Instance position_eq_dec : EqDecision position.
Proof. solve_decision. Defined.

(** The position of a generated S-expression. *)
Definition noPos : position := mkPos "" 0 0 0.

(** A pointer to a machine or to a container: what implements [atom]. *)
Inductive atom : Type := atomMachine (p : nat) | atomContainer (p : nat).
#[global] Instance atom_eq_dec : EqDecision atom.
Proof. solve_decision. Defined.

(** ** Syntax trees, which are also the values

    [astList] records whether the slice is nil, which [reflect.DeepEqual] sees.
    [astHmap] lists the entries of the map, in no particular order. *)

Inductive ast : Type :=
| astIdent (s : string)
| astString (s : string)
| astFloat (x : float64)
| astInt (x : Z)
| astBool (b : bool)
| astGithubKey (s : string)
| astPlaintextKey (s : string)
| astSize (s : string)
| astProvider (s : string)
| astRole (s : string)
| astRegion (s : string)
| astDiskSize (x : Z)
| astRange (ident : string) (min max : float64)
| astList (isNil : bool) (l : list ast)
| astHmap (m : list (ast * ast))
| astSexp (sexp : list ast) (pos : position)
| astLabel (ident : string) (elems : list atom)
| astRoot (l : list ast)
| astModule (moduleName : string) (body : list ast)
| astLambda (argNames : list string) (do : list ast) (ctx : nat)
| astMachine (p : nat)
| astContainer (p : nat).

(** An error: a format string with its arguments, not rendered, or a [dslError]
    that adds a position to another error. *)
Inductive goError : Type :=
| Errorf (format : string) (args : list ast)
| DslError (pos : position) (err : goError).

(** [astList{}] and the nil slice. *)
Definition emptyList : ast := astList false [].
(** A list built by appending to a nil slice. *)
Definition appendedList (l : list ast) : ast :=
  astList (match l with [] => true | _ => false end) l.

(** ** Objects *)

Record machineObj : Type := mkMachineObj {
  mProvider : string;
  mRole : string;
  mSize : string;
  mRegion : string;
  mCpu : string * float64 * float64;
  mRam : string * float64 * float64;
  mDiskSize : Z;
  mSshKeys : list ast;
  mLabels : list string
}.

Record containerObj : Type := mkContainerObj {
  cImage : string;
  cCommand : list ast;
  cEnv : list (ast * ast);
  cExclusive : gset (string * string);
  cLabels : list string
}.

(** [Connection] of [dsl.go]. *)
Record dslConnection : Type := mkConn {
  connFrom : string;
  connTo : string;
  connMinPort : Z;
  connMaxPort : Z
}.
#[global] Instance dslConnection_eq_dec : EqDecision dslConnection.
Proof. solve_decision. Defined.
#[global] Program Instance dslConnection_countable : Countable dslConnection :=
  inj_countable' (λ c, (connFrom c, connTo c, connMinPort c, connMaxPort c))
    (λ '(f, t, mn, mx), mkConn f t mn mx) _.
Next Obligation. by intros []. Qed.

(** ** Contexts

    An [evalCtx] has four global tables that are created together by
    [newEvalCtx] and copied together, by reference, by [deepCopy]: they are one
    heap object here. *)

Record globals : Type := mkGlobals {
  labels : gmap string (string * list atom);
  connections : gset dslConnection;
  machines : list nat;
  containers : list nat
}.

Record evalCtx : Type := mkCtx {
  binds : gmap string ast;
  glob : nat;
  parent : option nat
}.

Record dslState : Type := mkSt {
  ctxs : list evalCtx;
  globs : list globals;
  machineHeap : list machineObj;
  containerHeap : list containerObj;
  logged : list (string * string);
  hmapLoops : nat
}.

Definition emptyState : dslState := mkSt [] [] [] [] [] 0.

(** Code of the evaluator. *)
Abbreviation D := (M goError dslState).

(** ** Parameters: functions that the evaluator uses and that are not modelled. *)

Class DslParams : Type := {
  (** [fmt.Sprintf] on evaluated arguments; it may print objects of the heap. *)
  fmtSprintf : dslState → string → list ast → string;
  (** [unicode.IsUpper] of the first rune, for names that begin outside ASCII. *)
  nonAsciiUpper : string → bool;
  (** [strings.ToLower], for strings with a byte outside ASCII. *)
  nonAsciiLower : string → string;
  (** The order of a loop over an hmap. *)
  hmapOrder : nat → list (ast * ast) → list (ast * ast);
  hmapOrder_perm : ∀ n m, hmapOrder n m ≡ₚ m
}.

(** Parameters for closed examples. *)
Definition demoParams : DslParams := {|
  fmtSprintf := λ _ f _, f;
  nonAsciiUpper := λ _, false;
  nonAsciiLower := λ s, s;
  hmapOrder := λ _ m, m;
  hmapOrder_perm := λ _ _, Permutation_refl _
|}.

(** ** Access to the heap *)

Definition setCtxs (l : list evalCtx) (s : dslState) : dslState :=
  mkSt l (globs s) (machineHeap s) (containerHeap s) (logged s) (hmapLoops s).
Definition setGlobs (l : list globals) (s : dslState) : dslState :=
  mkSt (ctxs s) l (machineHeap s) (containerHeap s) (logged s) (hmapLoops s).
Definition setMachineHeap (l : list machineObj) (s : dslState) : dslState :=
  mkSt (ctxs s) (globs s) l (containerHeap s) (logged s) (hmapLoops s).
Definition setContainerHeap (l : list containerObj) (s : dslState) : dslState :=
  mkSt (ctxs s) (globs s) (machineHeap s) l (logged s) (hmapLoops s).
Definition addLog (level msg : string) (s : dslState) : dslState :=
  mkSt (ctxs s) (globs s) (machineHeap s) (containerHeap s)
       (logged s ++ [(level, msg)]) (hmapLoops s).
Definition countHmapLoop (s : dslState) : dslState :=
  mkSt (ctxs s) (globs s) (machineHeap s) (containerHeap s) (logged s) (S (hmapLoops s)).

(** A dereference; the code never follows a dangling pointer, see [DslInv]. *)
Definition deref {A} (heap : dslState → list A) (p : nat) : D A := λ s,
  match heap s !! p with Some x => Ok (x, s) | None => Panic "nil pointer" end.

Definition getCtx : nat → D evalCtx := deref ctxs.
Definition getGlob : nat → D globals := deref globs.
Definition getMachine : nat → D machineObj := deref machineHeap.
Definition getContainer : nat → D containerObj := deref containerHeap.

Definition putCtx (p : nat) (c : evalCtx) : D unit :=
  modifyS (λ s, setCtxs (<[p:=c]> (ctxs s)) s).
Definition putGlob (p : nat) (g : globals) : D unit :=
  modifyS (λ s, setGlobs (<[p:=g]> (globs s)) s).
Definition putMachine (p : nat) (m : machineObj) : D unit :=
  modifyS (λ s, setMachineHeap (<[p:=m]> (machineHeap s)) s).
Definition putContainer (p : nat) (c : containerObj) : D unit :=
  modifyS (λ s, setContainerHeap (<[p:=c]> (containerHeap s)) s).

Definition allocCtx (c : evalCtx) : D nat := λ s,
  Ok (length (ctxs s), setCtxs (ctxs s ++ [c]) s).
Definition allocGlob (g : globals) : D nat := λ s,
  Ok (length (globs s), setGlobs (globs s ++ [g]) s).
Definition allocMachine (m : machineObj) : D nat := λ s,
  Ok (length (machineHeap s), setMachineHeap (machineHeap s ++ [m]) s).
Definition allocContainer (c : containerObj) : D nat := λ s,
  Ok (length (containerHeap s), setContainerHeap (containerHeap s ++ [c]) s).

Definition bindVar (p : nat) (name : string) (v : ast) : D unit :=
  c ← getCtx p; putCtx p (mkCtx (<[name:=v]> (binds c)) (glob c) (parent c)).

(** ** Contexts: creation, copying and lookup

    The functions that walk up the parents take as fuel the address of the
    context: a parent is allocated before its children, so the walk is shorter
    than that. *)

Definition newEvalCtx (par : option nat) : D nat :=
  g ← allocGlob (mkGlobals ∅ ∅ [] []); allocCtx (mkCtx ∅ g par).

Fixpoint globalCtxF (fuel : nat) (p : nat) : D nat :=
  match fuel with
  | O => outOfFuel
  | S n => c ← getCtx p;
      match parent c with
      | None => mret p
      | Some q => globalCtxF n q
      end
  end.
Definition globalCtx (p : nat) : D nat := globalCtxF (S p) p.

(** The global tables that [ctx.globalCtx()] gives access to, with their address. *)
Definition globalTables (p : nat) : D (nat * globals) :=
  gctx ← globalCtx p;
  c ← getCtx gctx;
  g ← getGlob (glob c);
  mret (glob c, g).

(** [deepCopy] copies the bindings of the context and of its parents, and shares
    the global tables. *)
Fixpoint deepCopyF (fuel : nat) (p : nat) : D nat :=
  match fuel with
  | O => outOfFuel
  | S n => c ← getCtx p;
      parentCopy ← match parent c with
                   | None => mret None
                   | Some q => q' ← deepCopyF n q; mret (Some q')
                   end;
      allocCtx (mkCtx (binds c) (glob c) parentCopy)
  end.
Definition deepCopy (p : nat) : D nat := deepCopyF (S p) p.

Definition PublicInternetLabel : string := "public".

(** [resolveLabel]: the label a string or label value refers to. *)
Fixpoint resolveLabelF (fuel : nat) (p : nat) (labelRef : ast) : D (option (string * list atom)) :=
  match fuel with
  | O => outOfFuel
  | S n =>
      c ← getCtx p;
      g ← getGlob (glob c);
      let up := match parent c with
                | Some q => resolveLabelF n q labelRef
                | None => mret None
                end in
      match labelRef with
      | astString s =>
          if decide (s = PublicInternetLabel) then mret (Some (s, []))
          else match labels g !! s with
               | Some l => mret (Some l)
               | None => up
               end
      | astLabel i es => mret (Some (i, es))
      | _ => up
      end
  end.
Definition resolveLabel (p : nat) (labelRef : ast) : D (option (string * list atom)) :=
  resolveLabelF (S p) p labelRef.

(** ** Go's [==] on interface values, for map keys *)

(** Values of a slice, map or slice-holding struct type cannot be map keys. *)
Definition hashable (a : ast) : bool :=
  match a with
  | astList _ _ | astHmap _ | astSexp _ _ | astLabel _ _ | astRoot _ | astModule _ _
  | astLambda _ _ _ => false
  | _ => true
  end.

Definition keyEq (a b : ast) : bool :=
  match a, b with
  | astIdent s, astIdent t | astString s, astString t | astGithubKey s, astGithubKey t
  | astPlaintextKey s, astPlaintextKey t | astSize s, astSize t | astProvider s, astProvider t
  | astRole s, astRole t | astRegion s, astRegion t => bool_decide (s = t)
  | astInt x, astInt y | astDiskSize x, astDiskSize y => x =? y
  | astBool x, astBool y => eqb x y
  | astFloat x, astFloat y => floatEq x y
  | astRange i mn mx, astRange i' mn' mx' =>
      bool_decide (i = i') && floatEq mn mn' && floatEq mx mx'
  | astMachine p, astMachine q | astContainer p, astContainer q => (p =? q)%nat
  | _, _ => false
  end.

Fixpoint hmapLookup (m : list (ast * ast)) (k : ast) : option ast :=
  match m with
  | [] => None
  | (k', v) :: m' => if keyEq k' k then Some v else hmapLookup m' k
  end.

(** [m[k] = v]: replace the value of an equal key, or add an entry. *)
Fixpoint hmapInsert (m : list (ast * ast)) (k v : ast) : list (ast * ast) :=
  match m with
  | [] => [(k, v)]
  | (k', v') :: m' => if keyEq k' k then (k', v) :: m' else (k', v') :: hmapInsert m' k v
  end.
