(* ===== verification/DslFunc.v ===== *)
(** * dsl: the built-in functions

    Model of [src/dsl/func.go]. Every built-in has the type
    [nat → list ast → D ast] of [func( *evalCtx, []ast) (ast, error)]. The
    built-ins that evaluate their arguments take the evaluator as the parameter
    [ev]; [DslEval] ties the knot. An index out of range and a failed type
    assertion are Go panics. *)

From stdpp Require Import base gmap list strings.
From Stdlib Require Import ZArith Lia.
From S2P Require Import Prelude DslAst.

Local Open Scope Z_scope.

Definition errorf {A} (format : string) (args : list ast) : D A := fail (Errorf format args).

(** [args[i]]. *)
Definition argAt (args : list ast) (i : nat) : D ast :=
  match args !! i with
  | Some a => mret a
  | None => panic "index out of range"
  end.

(** [x.(astString)] without a second result. *)
Definition assertString (a : ast) : D string :=
  match a with astString s => mret s | _ => panic "interface conversion" end.

(** ** Flattening *)

Fixpoint flattenAst (a : ast) : list ast :=
  match a with
  | astList _ l => flat_map flattenAst l
  | _ => [a]
  end.
Definition flatten (lst : list ast) : list ast := flat_map flattenAst lst.

Definition flattenString (lst : list ast) : D (list string) :=
  mapEach (λ elem,
    match elem with
    | astString s => mret s
    | _ => errorf "expected string, found: %v" [elem]
    end) (flatten lst).

Definition flattenLabel (ctx : nat) (lst : list ast) : D (list (string * list atom)) :=
  mapEach (λ elem,
    label ← resolveLabel ctx elem;
    match label with
    | Some l => mret l
    | None => errorf "expected label, found: %v" [elem]
    end) (flatten lst).

Definition astFunc (ident : string) (args : list ast) : ast :=
  astSexp (astIdent ident :: args) noPos.

(** ** Arithmetic and comparison *)

Definition toInts (args : list ast) : D (list Z) :=
  mapEach (λ arg,
    match arg with
    | astInt x => mret x
    | _ => errorf "bad arithmetic argument: %s" [arg]
    end) args.

(** [do] may panic: a division by zero does. *)
Definition arithFun (do : Z → Z → option Z) (ctx : nat) (args : list ast) : D ast :=
  ints ← toInts args;
  match ints with
  | [] => panic "index out of range"
  | x :: rest =>
      total ← foldEach (λ total x,
        match do total x with
        | Some z => mret (wrap64 z)
        | None => panic "integer divide by zero"
        end) x rest;
      mret (astInt total)
  end.

Definition goMod (a b : Z) : option Z := if b =? 0 then None else Some (Z.rem a b).
Definition goDiv (a b : Z) : option Z := if b =? 0 then None else Some (Z.quot a b).
Definition goMul (a b : Z) : option Z := Some (a * b).
Definition goSub (a b : Z) : option Z := Some (a - b).
Definition goAdd (a b : Z) : option Z := Some (a + b).

Definition plusImpl (ctx : nat) (args : list ast) : D ast :=
  a0 ← argAt args 0;
  match a0 with
  | astString _ =>
      strs ← mapEach (λ arg,
        match arg with
        | astString s => mret s
        | _ => errorf "bad string concatenation argument: %s" [arg]
        end) args;
      mret (astString (String.concat "" strs))
  | _ => arithFun goAdd ctx args
  end.

Definition compareFun (do : Z → Z → bool) (ctx : nat) (args : list ast) : D ast :=
  ints ← toInts args;
  match ints with
  | a :: b :: _ => mret (astBool (do a b))
  | _ => panic "index out of range"
  end.

(** ** [reflect.DeepEqual] on the values of the language

    It follows pointers, so it compares nodes of three kinds; [None] is a lack
    of fuel. *)

Inductive node : Type := nodeAst (a : ast) | nodeCtx (p : nat) | nodeGlob (p : nat).

Fixpoint allPairs {A B} (f : A → B → option bool) (l : list A) (k : list B) : option bool :=
  match l, k with
  | [], [] => Some true
  | x :: l', y :: k' => b ← f x y; if b : bool then allPairs f l' k' else Some false
  | _, _ => Some false
  end.

Fixpoint allTrue (l : list (option bool)) : option bool :=
  match l with
  | [] => Some true
  | x :: l' => b ← x; if b : bool then allTrue l' else Some false
  end.

Definition atomAst (a : atom) : ast :=
  match a with atomMachine p => astMachine p | atomContainer p => astContainer p end.

Definition rangeEq (r1 r2 : string * float64 * float64) : bool :=
  let '(i, mn, mx) := r1 in let '(i', mn', mx') := r2 in
  bool_decide (i = i') && floatEq mn mn' && floatEq mx mx'.

Definition hmapEq (f : ast → ast → option bool) (m1 m2 : list (ast * ast)) : option bool :=
  if (length m1 =? length m2)%nat then
    allTrue ((λ '(k, v), match hmapLookup m2 k with
                         | Some w => f v w
                         | None => Some false
                         end) <$> m1)
  else Some false.

Definition labelEq (f : ast → ast → option bool) (l1 l2 : string * list atom) : option bool :=
  if decide (l1.1 = l2.1)
  then allPairs (λ a b, f (atomAst a) (atomAst b)) l1.2 l2.2 else Some false.

Fixpoint deepEqualF (fuel : nat) (s : dslState) (x y : node) {struct fuel} : option bool :=
  match fuel with
  | O => None
  | S n =>
      let eqA a b := deepEqualF n s (nodeAst a) (nodeAst b) in
      let eqL := allPairs eqA in
      match x, y with
      | nodeAst a, nodeAst b =>
          match a, b with
          | astList nil1 l1, astList nil2 l2 => if eqb nil1 nil2 then eqL l1 l2 else Some false
          | astHmap m1, astHmap m2 => hmapEq eqA m1 m2
          | astSexp l1 p1, astSexp l2 p2 => if decide (p1 = p2) then eqL l1 l2 else Some false
          | astLabel i1 e1, astLabel i2 e2 => labelEq eqA (i1, e1) (i2, e2)
          | astRoot l1, astRoot l2 => eqL l1 l2
          | astModule n1 l1, astModule n2 l2 => if decide (n1 = n2) then eqL l1 l2 else Some false
          | astLambda ns1 d1 c1, astLambda ns2 d2 c2 =>
              if decide (ns1 = ns2)
              then allTrue [eqL d1 d2; deepEqualF n s (nodeCtx c1) (nodeCtx c2)]
              else Some false
          | astMachine p, astMachine q =>
              if (p =? q)%nat then Some true else
              match machineHeap s !! p, machineHeap s !! q with
              | Some m1, Some m2 =>
                  if bool_decide (mProvider m1 = mProvider m2 ∧ mRole m1 = mRole m2 ∧
                       mSize m1 = mSize m2 ∧ mRegion m1 = mRegion m2 ∧
                       mDiskSize m1 = mDiskSize m2 ∧ mLabels m1 = mLabels m2) &&
                     rangeEq (mCpu m1) (mCpu m2) && rangeEq (mRam m1) (mRam m2)
                  then eqL (mSshKeys m1) (mSshKeys m2) else Some false
              | _, _ => Some false
              end
          | astContainer p, astContainer q =>
              if (p =? q)%nat then Some true else
              match containerHeap s !! p, containerHeap s !! q with
              | Some c1, Some c2 =>
                  if bool_decide (cImage c1 = cImage c2 ∧ cExclusive c1 = cExclusive c2 ∧
                       cLabels c1 = cLabels c2)
                  then allTrue [eqL (cCommand c1) (cCommand c2); hmapEq eqA (cEnv c1) (cEnv c2)]
                  else Some false
              | _, _ => Some false
              end
          | _, _ => Some (keyEq a b)
          end
      | nodeCtx p, nodeCtx q =>
          if (p =? q)%nat then Some true else
          match ctxs s !! p, ctxs s !! q with
          | Some c1, Some c2 =>
              if decide (dom (binds c1) = dom (binds c2)) then
                allTrue [
                  allTrue ((λ '(k, v), match binds c2 !! k with
                                       | Some w => eqA v w
                                       | None => Some false
                                       end) <$> map_to_list (binds c1));
                  deepEqualF n s (nodeGlob (glob c1)) (nodeGlob (glob c2));
                  match parent c1, parent c2 with
                  | None, None => Some true
                  | Some p', Some q' => deepEqualF n s (nodeCtx p') (nodeCtx q')
                  | _, _ => Some false
                  end]
              else Some false
          | _, _ => Some false
          end
      | nodeGlob p, nodeGlob q =>
          if (p =? q)%nat then Some true else
          match globs s !! p, globs s !! q with
          | Some g1, Some g2 =>
              if decide (dom (labels g1) = dom (labels g2) ∧ connections g1 = connections g2) then
                allTrue [
                  allTrue ((λ '(k, v), match labels g2 !! k with
                                       | Some w => labelEq eqA v w
                                       | None => Some false
                                       end) <$> map_to_list (labels g1));
                  allPairs (λ a b, eqA (astMachine a) (astMachine b)) (machines g1) (machines g2);
                  allPairs (λ a b, eqA (astContainer a) (astContainer b))
                    (containers g1) (containers g2)]
              else Some false
          | _, _ => Some false
          end
      | _, _ => Some false
      end
  end.

Definition eqImpl (fuel : nat) (ctx : nat) (args : list ast) : D ast :=
  a ← argAt args 0;
  b ← argAt args 1;
  s ← getS;
  match deepEqualF fuel s (nodeAst a) (nodeAst b) with
  | Some r => mret (astBool r)
  | None => outOfFuel
  end.

(** ** Containers *)

Definition dockerImpl (ctx : nat) (evalArgs : list ast) : D ast :=
  args ← flattenString evalArgs;
  match args with
  | [] => panic "index out of range"
  | image :: command =>
      p ← allocContainer (mkContainerObj image (astString <$> command) [] ∅ []);
      '(a, g) ← globalTables ctx;
      _ ← putGlob a
        (mkGlobals (labels g) (connections g) (machines g) (containers g ++ [p]));
      mret (astContainer p)
  end.

Definition setEnvHelper (container key value : ast) : D unit :=
  match container with
  | astContainer p =>
      match key, value with
      | astString _, astString _ =>
          c ← getContainer p;
          putContainer p (mkContainerObj (cImage c) (cCommand c)
            (hmapInsert (cEnv c) key value) (cExclusive c) (cLabels c))
      | astString _, _ => errorf "setEnv value must be a string: %s" [value]
      | _, _ => errorf "setEnv key must be a string: %s" [key]
      end
  | _ => errorf "cannot setEnv on non-container: %s" []
  end.

Definition setEnvImpl (ctx : nat) (args : list ast) : D ast :=
  let setEnv c := key ← argAt args 1; value ← argAt args 2; setEnvHelper c key value in
  a0 ← argAt args 0;
  _ ← forEach (λ arg,
    match arg with
    | astString _ | astLabel _ _ =>
        label ← resolveLabel ctx arg;
        match label with
        | None => errorf "cannot setEnv on invalid label: %s" [arg]
        | Some (_, es) => forEach (λ c, setEnv (atomAst c)) es
        end
    | astContainer _ => setEnv arg
    | _ => errorf "setEnv target must be either a label or container: %s" [arg]
    end) (flatten [a0]);
  mret emptyList.

(** The pair under which a placement rule stores two label names. *)
Definition orderedPair (a b : string) : string * string :=
  if String.ltb a b then (a, b) else (b, a).

(** The pairs [(i, j)] with [i < j] of the list. *)
Fixpoint placementPairs (names : list string) : gset (string * string) :=
  match names with
  | [] => ∅
  | i :: rest => list_to_set (orderedPair i <$> rest) ∪ placementPairs rest
  end.

Definition placementImpl (ctx : nat) (args : list ast) : D ast :=
  a0 ← argAt args 0;
  match a0 with
  | astString ptype =>
      ls ← flattenLabel ctx (tail args);
      if (length ls <? 2)%nat then errorf "placment requires at least 2 labels." []
      else if decide (ptype = "exclusive"%string) then
        let parsedLabels := placementPairs ls.*1 in
        _ ← forEach (λ label : string * list atom,
          forEach (λ c,
            match c with
            | atomContainer p =>
                o ← getContainer p;
                putContainer p (mkContainerObj (cImage o) (cCommand o) (cEnv o)
                  (cExclusive o ∪ parsedLabels) (cLabels o))
            | _ => errorf "placement labels must contain containers: %s"
                     [astLabel label.1 label.2]
            end) label.2) ls;
        mret (astFunc "placement" args)
      else errorf "not a valid placement type: %s" [astString ptype]
  | _ => errorf "placement type must be a string, found: %s" [a0]
  end.

(** ** Keys and machines *)

Definition githubKeyImpl (ctx : nat) (args : list ast) : D ast :=
  a0 ← argAt args 0;
  match a0 with
  | astString s => mret (astGithubKey s)
  | _ => errorf "github username must be a string: %s" [a0]
  end.

Definition plaintextKeyImpl (ctx : nat) (args : list ast) : D ast :=
  a0 ← argAt args 0;
  match a0 with
  | astString s => mret (astPlaintextKey s)
  | _ => errorf "key must be a string: %s" [a0]
  end.

(** One iteration of the loop of [setMachineAttributes]. *)
Definition setMachineAttribute (m : machineObj) (arg : ast) : D machineObj :=
  let '(mkMachineObj pr ro si re cp ra di ks ls) := m in
  match arg with
  | astProvider v => mret (mkMachineObj v ro si re cp ra di ks ls)
  | astRegion v => mret (mkMachineObj pr ro si v cp ra di ks ls)
  | astSize v => mret (mkMachineObj pr ro v re cp ra di ks ls)
  | astDiskSize v => mret (mkMachineObj pr ro si re cp ra v ks ls)
  | astRole v => mret (mkMachineObj pr v si re cp ra di ks ls)
  | astRange i mn mx =>
      if decide (i = "ram"%string) then mret (mkMachineObj pr ro si re cp (i, mn, mx) di ks ls)
      else if decide (i = "cpu"%string) then mret (mkMachineObj pr ro si re (i, mn, mx) ra di ks ls)
      else errorf "unrecognized argument to machine definition: %s" [arg]
  | astGithubKey _ | astPlaintextKey _ => mret (mkMachineObj pr ro si re cp ra di (ks ++ [arg]) ls)
  | _ => errorf "unrecognized argument to machine definition: %s" [arg]
  end.

Definition setMachineAttributes (p : nat) (args : list ast) : D unit :=
  forEach (λ arg, m ← getMachine p; m' ← setMachineAttribute m arg; putMachine p m')
    (flatten args).

Definition noRange : string * float64 * float64 := (""%string, floatZero, floatZero).
Definition newMachineObj : machineObj := mkMachineObj "" "" "" "" noRange noRange 0 [] [].

Definition machineImpl (ctx : nat) (args : list ast) : D ast :=
  p ← allocMachine newMachineObj;
  _ ← setMachineAttributes p args;
  '(a, g) ← globalTables ctx;
  _ ← putGlob a
    (mkGlobals (labels g) (connections g) (machines g ++ [p]) (containers g));
  mret (astMachine p).

Definition machineAttributeImpl (ctx : nat) (args : list ast) : D ast :=
  a0 ← argAt args 0;
  processedMachines ← mapEach (λ m,
    match m with
    | astMachine p => _ ← setMachineAttributes p (tail args); mret m
    | _ => errorf "bad type, cannot change machine attributes: %s" [m]
    end) (flatten [a0]);
  mret (appendedList processedMachines).

Definition providerImpl (ctx : nat) (args : list ast) : D ast :=
  a0 ← argAt args 0; s ← assertString a0; mret (astProvider s).

Definition roleImpl (ctx : nat) (args : list ast) : D ast :=
  a0 ← argAt args 0;
  match a0 with
  | astString s => mret (astRole s)
  | _ => errorf "role must be a string: %s" [a0]
  end.

Definition regionImpl (ctx : nat) (args : list ast) : D ast :=
  a0 ← argAt args 0;
  match a0 with
  | astString s => mret (astRegion s)
  | _ => errorf "region must be a string: %s" [a0]
  end.

Definition sizeImpl (ctx : nat) (args : list ast) : D ast :=
  a0 ← argAt args 0; s ← assertString a0; mret (astSize s).

Definition diskSizeImpl (ctx : nat) (args : list ast) : D ast :=
  a0 ← argAt args 0;
  match a0 with
  | astInt x => mret (astDiskSize x)
  | _ => errorf "diskSize must be an int: %s" [a0]
  end.

Definition toFloat (x : ast) : option float64 :=
  match x with
  | astInt z => Some (floatOfInt z)
  | astFloat f => Some f
  | _ => None
  end.

Definition rangeTypeImpl (rangeType : string) (ctx : nat) (args : list ast) : D ast :=
  a0 ← argAt args 0;
  let max := match args !! 1%nat with Some a1 => toFloat a1 | None => Some floatZero end in
  match toFloat a0, max with
  | Some mn, Some mx => mret (astRange rangeType mn mx)
  | _, _ => errorf "range arguments must be convertable to floats: %v" args
  end.

(** ** Connections *)

(** The port range of the first argument of [connect]. *)
Definition portRange (a : ast) : D (Z * Z) :=
  match a with
  | astInt t => mret (t, t)
  | astList _ [astInt mn; astInt mx] => mret (mn, mx)
  | astList _ _ => errorf "port range must have two ints: %s" [a]
  | _ => errorf "port range must be an int or a list of ints: %s" [a]
  end.

Definition connectPair (ctx : nat) (min max : Z) (from to : string) : D unit :=
  if decide ((from = PublicInternetLabel ∨ to = PublicInternetLabel) ∧ min ≠ max) then
    errorf "Public Internet cannot connect on port ranges" []
  else if decide (from = PublicInternetLabel ∧ to = PublicInternetLabel) then
    errorf "cannot connect Public Internet to itself" []
  else
    '(a, g) ← globalTables ctx;
    putGlob a
      (mkGlobals (labels g) ({[mkConn from to min max]} ∪ connections g) (machines g)
         (containers g)).

Definition connectImpl (ctx : nat) (args : list ast) : D ast :=
  a0 ← argAt args 0;
  ports ← portRange a0;
  let '(min, max) := ports in
  if (min <? 0) || (65535 <? max) then
    errorf "invalid port range: [%d, %d]" [astInt min; astInt max]
  else if max <? min then
    errorf "invalid port range: [%d, %d]" [astInt min; astInt max]
  else
    a1 ← argAt args 1;
    fromLabels ← flattenLabel ctx [a1];
    toLabels ← flattenLabel ctx (drop 2 args);
    _ ← forEach (λ from : string * list atom,
      forEach (λ to : string * list atom,
        connectPair ctx min max from.1 to.1) toLabels) fromLabels;
    mret emptyList.

(** ** Labels *)

(** [a.Labels()] and [a.SetLabels()]. *)
Definition atomLabels (a : atom) : D (list string) :=
  match a with
  | atomMachine p => m ← getMachine p; mret (mLabels m)
  | atomContainer p => c ← getContainer p; mret (cLabels c)
  end.

Definition setAtomLabels (a : atom) (ls : list string) : D unit :=
  match a with
  | atomMachine p =>
      m ← getMachine p;
      putMachine p (mkMachineObj (mProvider m) (mRole m) (mSize m) (mRegion m) (mCpu m) (mRam m)
        (mDiskSize m) (mSshKeys m) ls)
  | atomContainer p =>
      c ← getContainer p;
      putContainer p (mkContainerObj (cImage c) (cCommand c) (cEnv c) (cExclusive c) ls)
  end.

(** Add a label to an atom unless it is the label added last. *)
Definition addLabel (label : string) (a : atom) : D unit :=
  ls ← atomLabels a;
  if decide (last ls = Some label) then mret tt
  else setAtomLabels a (ls ++ [label]).

(** The atoms an element of the argument list of [label] stands for. *)
Definition labelAtoms (ctx : nat) (elem : ast) : D (list atom) :=
  match elem with
  | astMachine p => mret [atomMachine p]
  | astContainer p => mret [atomContainer p]
  | astString _ | astLabel _ _ =>
      l ← resolveLabel ctx elem;
      match l with
      | Some (_, es) => mret es
      | None => errorf "undefined label: %s" [elem]
      end
  | _ => errorf "label must apply to atoms or other labels, found: %s" [elem]
  end.

Definition isAscii (c : Ascii.ascii) : bool := (Ascii.N_of_ascii c <? 128)%N.
Definition asciiLower (c : Ascii.ascii) : Ascii.ascii :=
  let n := Ascii.N_of_ascii c in
  if (65 <=? n)%N && (n <=? 90)%N then Ascii.ascii_of_N (n + 32) else c.

Section WithParams.
Context `{DslParams}.

Definition stringsToLower (s : string) : string :=
  if forallb isAscii (String.list_ascii_of_string s)
  then String.string_of_list_ascii (asciiLower <$> String.list_ascii_of_string s)
  else nonAsciiLower s.

Definition labelImpl (ctx : nat) (args : list ast) : D ast :=
  a0 ← argAt args 0;
  match a0 with
  | astString label =>
      _ ← (if decide (label = stringsToLower label) then mret tt
           else modifyS (addLog "error" "Labels must be lowercase, sorry! https://github.com/docker/swarm/issues/1795"));
      if decide (label = PublicInternetLabel) then
        errorf "the public label is reserved for the public internet" []
      else
        existing ← resolveLabel ctx a0;
        match existing with
        | Some _ => errorf "attempt to redefine label: %s" [a0]
        | None =>
            atomss ← mapEach (labelAtoms ctx) (flatten (tail args));
            let atoms := concat atomss in
            _ ← forEach (addLabel label) atoms;
            '(a, g) ← globalTables ctx;
            _ ← putGlob a
              (mkGlobals (<[label := (label, atoms)]> (labels g)) (connections g) (machines g)
                 (containers g));
            mret (astLabel label atoms)
        end
  | _ => errorf "label must be a string, found: %s" [a0]
  end.

Definition labelNameImpl (ctx : nat) (args : list ast) : D ast :=
  a0 ← argAt args 0;
  label ← resolveLabel ctx a0;
  match label with
  | Some (ident, _) => mret (astString ident)
  | None => errorf "labelName applies to labels: %s" [a0]
  end.

Definition labelHostImpl (ctx : nat) (args : list ast) : D ast :=
  a0 ← argAt args 0;
  label ← resolveLabel ctx a0;
  match label with
  | Some (ident, _) => mret (astString (ident ++ ".di"))
  | None => errorf "labelHost applies to labels: %s" [a0]
  end.

(** ** Lists and hash maps *)

Definition listImpl (ctx : nat) (args : list ast) : D ast := mret (appendedList args).

(** A map operation on a key that cannot be hashed panics. *)
Definition checkKey (k : ast) : D unit :=
  if hashable k then mret tt else panic "hash of unhashable type".

Definition toHmap (a : ast) : D (list (ast * ast)) :=
  match a with astHmap m => mret m | _ => errorf "%s must be a hmap" [a] end.

Definition hmapSetImpl (ctx : nat) (args : list ast) : D ast :=
  a0 ← argAt args 0;
  m ← toHmap a0;
  k ← argAt args 1;
  v ← argAt args 2;
  _ ← checkKey k;
  mret (astHmap (hmapInsert m k v)).

Definition hmapGetImpl (ctx : nat) (args : list ast) : D ast :=
  a0 ← argAt args 0;
  m ← toHmap a0;
  k ← argAt args 1;
  _ ← checkKey k;
  match hmapLookup m k with
  | Some v => mret v
  | None => errorf "undefined key: %s" [k]
  end.

Definition hmapContainsImpl (ctx : nat) (args : list ast) : D ast :=
  a0 ← argAt args 0;
  m ← toHmap a0;
  k ← argAt args 1;
  _ ← checkKey k;
  mret (astBool (match hmapLookup m k with Some _ => true | None => false end)).

(** A loop over an hmap, in the order of the oracle. *)
Definition hmapRange (m : list (ast * ast)) : D (list (ast * ast)) :=
  s ← getS; _ ← modifyS countHmapLoop; mret (hmapOrder (hmapLoops s) m).

Definition hmapKeysImpl (ctx : nat) (args : list ast) : D ast :=
  a0 ← argAt args 0;
  m ← toHmap a0;
  entries ← hmapRange m;
  mret (appendedList entries.*1).

Definition hmapValuesImpl (ctx : nat) (args : list ast) : D ast :=
  a0 ← argAt args 0;
  m ← toHmap a0;
  entries ← hmapRange m;
  mret (appendedList entries.*2).

(** ** Strings and logging *)

Definition sprintfImpl (ctx : nat) (args : list ast) : D ast :=
  a0 ← argAt args 0;
  match a0 with
  | astString format => s ← getS; mret (astString (fmtSprintf s format (tail args)))
  | _ => errorf "sprintf format must be a string: %s" [a0]
  end.

Definition logLevels : list string := ["print"; "debug"; "info"; "warn"; "error"]%string.

Definition logImpl (ctx : nat) (args : list ast) : D ast :=
  a0 ← argAt args 0;
  match a0 with
  | astString level =>
      a1 ← argAt args 1;
      match a1 with
      | astString msg =>
          if decide (level ∈ logLevels) then _ ← modifyS (addLog level msg); mret emptyList
          else errorf "log level must be one of [print, info, debug, warn, error]: %s" [a0]
      | _ => errorf "log message must be a string: %s" [a1]
      end
  | _ => errorf "log level must be a string: %s" [astString ""]
  end.

(** On a message that is not a string, the error is built from [args[1]]. *)
Definition panicImpl (ctx : nat) (args : list ast) : D ast :=
  a0 ← argAt args 0;
  match a0 with
  | astString msg => errorf "panic: runtime error: %s" [a0]
  | _ => a1 ← argAt args 1; errorf "panic message must be a string: %s" [a1]
  end.

(** ** Truth, lists and ranges *)

(** An element is false if it is the empty list, the empty string, 0 or false. *)
Definition toBool (arg : ast) : bool :=
  match arg with
  | astList _ l => negb (bool_decide (l = []))
  | astString s => negb (bool_decide (s = ""%string))
  | astInt x => negb (x =? 0)
  | astBool b => b
  | _ => true
  end.

Definition boolImpl (ctx : nat) (args : list ast) : D ast :=
  a0 ← argAt args 0; mret (astBool (toBool a0)).

Definition importImpl (ctx : nat) (args : list ast) : D ast :=
  errorf "import must be begin the module" [].

Definition prognImpl (ctx : nat) (args : list ast) : D ast :=
  match last args with Some a => mret a | None => panic "index out of range" end.

Definition lenImpl (ctx : nat) (args : list ast) : D ast :=
  a0 ← argAt args 0;
  match a0 with
  | astList _ l => mret (astInt (Z.of_nat (length l)))
  | _ => errorf "len applies to lists: %s" [a0]
  end.

Definition carImpl (ctx : nat) (args : list ast) : D ast :=
  a0 ← argAt args 0;
  match a0 with
  | astList _ (x :: _) => mret x
  | _ => errorf "car applies to populated lists: %s" [a0]
  end.

(** The tail of a slice is not nil, even when it is empty. *)
Definition cdrImpl (ctx : nat) (args : list ast) : D ast :=
  a0 ← argAt args 0;
  match a0 with
  | astList _ (_ :: l) => mret (astList false l)
  | _ => errorf "cdr applies to populated lists: %s" [a0]
  end.

Definition consImpl (ctx : nat) (args : list ast) : D ast :=
  a1 ← argAt args 1;
  a0 ← argAt args 0;
  match a1 with
  | astList _ l => mret (astList false (a0 :: l))
  | _ => errorf "cons applies to lists: %s" [a0]
  end.

Definition nthImpl (ctx : nat) (args : list ast) : D ast :=
  a0 ← argAt args 0;
  match a0 with
  | astInt index =>
      a1 ← argAt args 1;
      match a1 with
      | astList _ l =>
          if (index <? 0) || (Z.of_nat (length l) <=? index) then
            errorf "array index out of bounds: %d" [a0]
          else argAt l (Z.to_nat index)
      | _ => errorf "nth applies to lists: %s" [a1]
      end
  | _ => errorf "nth list index must be an int: %s" [a0]
  end.

(** [for i := start; i < stop; i += step]; the addition wraps around. *)
Fixpoint rangeLoop (fuel : nat) (i stop step : Z) : D (list ast) :=
  match fuel with
  | O => outOfFuel
  | S n =>
      if i <? stop then rest ← rangeLoop n (wrap64 (i + step)) stop step; mret (astInt i :: rest)
      else mret []
  end.

(** An iteration that does not wrap around moves [i] by [step]. *)
Definition rangeFuel (start stop step : Z) : nat := S (Z.to_nat ((stop - start) / step + 1)).

Definition rangeImpl (ctx : nat) (args : list ast) : D ast :=
  ints ← mapEach (λ arg,
    match arg with
    | astInt x => mret x
    | _ => errorf "range arguments must be integers: %v" [arg]
    end) args;
  let loop start stop step :=
    if step <=? 0 then errorf "step must be greater than zero" []
    else asts ← rangeLoop (rangeFuel start stop step) start stop step;
         mret (appendedList asts) in
  match ints with
  | [stop] => loop 0 stop 1
  | [start; stop] => loop start stop 1
  | [start; stop; step] => loop start stop step
  | _ => errorf "range expects 1, 2 or 3 arguments, found: %d"
           [astInt (Z.of_nat (length args))]
  end.

(** [unicode.IsUpper] of the first rune of a name. *)
Definition shouldExport (name : string) : bool :=
  match name with
  | EmptyString => false
  | String c _ =>
      let n := Ascii.N_of_ascii c in
      if isAscii c then (65 <=? n)%N && (n <=? 90)%N else nonAsciiUpper name
  end.

(** ** Functions that evaluate *)

Section Eval.
Variable ev : nat → ast → D ast.

Definition makeListImpl (ctx : nat) (args : list ast) : D ast :=
  a0 ← argAt args 0;
  c ← ev ctx a0;
  match c with
  | astInt count =>
      if count <? 0 then errorf "makeList must begin with a positive integer, found: %s" [a0]
      else
        result ← mapEach (λ _, a1 ← argAt args 1; ev ctx a1) (replicate (Z.to_nat count) tt);
        mret (appendedList result)
  | _ => errorf "makeList must begin with a positive integer, found: %s" [a0]
  end.

Definition parseBindings (bindings : list ast) : D (list (ast * ast)) :=
  mapEach (λ astBinding,
    match astBinding with
    | astSexp [k; v] _ => mret (k, v)
    | _ => errorf "binds must be exactly 2 arguments: %s" [astBinding]
    end) bindings.

Definition hmapImpl (ctx : nat) (args : list ast) : D ast :=
  bindings ← parseBindings args;
  m ← foldEach (λ m '(k, v),
    key ← ev ctx k;
    val ← ev ctx v;
    _ ← checkKey key;
    mret (hmapInsert m key val)) [] bindings;
  mret (astHmap m).

Definition lambdaImpl (ctx : nat) (args : list ast) : D ast :=
  a0 ← argAt args 0;
  match a0 with
  | astSexp rawArgNames _ =>
      argNames ← mapEach (λ argName,
        match argName with
        | astIdent s => mret s
        | _ => errorf "lambda argument names must be idents" []
        end) rawArgNames;
      copy ← deepCopy ctx;
      mret (astLambda argNames (tail args) copy)
  | _ => errorf "lambda functions must define an argument list" []
  end.

Definition defineImpl (ctx : nat) (args : list ast) : D ast :=
  a0 ← argAt args 0;
  def ← match a0 with
    | astSexp [] _ => errorf "define function must begin with a name" []
    | astSexp (astIdent ident :: names) _ =>
        value ← lambdaImpl ctx (astSexp names noPos :: tail args);
        mret (ident, value)
    | astSexp (a :: _) _ => errorf "define name must be an ident: %v" [a]
    | astIdent ident =>
        if (2 <? length args)%nat then errorf "not enough arguments: %s" [a0]
        else a1 ← argAt args 1; value ← ev ctx a1; mret (ident, value)
    | _ => errorf "define name must be an ident: %v" [a0]
    end;
  let '(ident, value) := def : string * ast in
  c ← getCtx ctx;
  match binds c !! ident with
  | Some _ => errorf "attempt to redefine: %s" [astIdent ident]
  | None => _ ← bindVar ctx ident value; mret emptyList
  end.

Definition letImpl (ctx : nat) (args : list ast) : D ast :=
  a0 ← argAt args 0;
  match a0 with
  | astSexp bindingsRaw _ =>
      bindings ← parseBindings bindingsRaw;
      bindCtx ← newEvalCtx (Some ctx);
      pairs ← mapEach (λ '(k, v),
        match k with
        | astIdent key =>
            val ← ev bindCtx v;
            _ ← bindVar bindCtx key val;
            mret (key, val)
        | _ => errorf "bind name must be an ident: %s" [k]
        end) bindings;
      let body := match tail args with [] => [emptyList] | b => b end in
      let lambda := astLambda pairs.*1 body ctx in
      ev ctx (astSexp (lambda :: pairs.*2) noPos)
  | _ => errorf "let binds must be defined in an S-expression" []
  end.

Definition ifImpl (ctx : nat) (args : list ast) : D ast :=
  a0 ← argAt args 0;
  predAst ← ev ctx a0;
  if toBool predAst then a1 ← argAt args 1; ev ctx a1
  else if (length args =? 2)%nat then mret emptyList
  else a2 ← argAt args 2; ev ctx a2.

Fixpoint andImpl (ctx : nat) (args : list ast) : D ast :=
  match args with
  | [] => mret (astBool true)
  | arg :: rest =>
      predAst ← ev ctx arg;
      if toBool predAst then andImpl ctx rest else mret (astBool false)
  end.

Fixpoint orImpl (ctx : nat) (args : list ast) : D ast :=
  match args with
  | [] => mret (astBool false)
  | arg :: rest =>
      predAst ← ev ctx arg;
      if toBool predAst then mret (astBool true) else orImpl ctx rest
  end.

Definition notImpl (ctx : nat) (args : list ast) : D ast :=
  a0 ← argAt args 0;
  predAst ← ev ctx a0;
  mret (astBool (negb (toBool predAst))).

Definition applyImpl (ctx : nat) (args : list ast) : D ast :=
  a1 ← argAt args 1;
  match a1 with
  | astList _ l => a0 ← argAt args 0; ev ctx (astSexp (a0 :: l) noPos)
  | _ => errorf "apply requires a lists: %s" [a1]
  end.

Definition moduleImpl (ctx : nat) (args : list ast) : D ast :=
  a0 ← argAt args 0;
  moduleName ← ev ctx a0;
  match moduleName with
  | astString name => ev ctx (astModule name (tail args))
  | _ => errorf "module name must be a string: %s" [moduleName]
  end.

(** The arguments of the [i]-th call of [map]. *)
Definition column (lists : list (list ast)) (i : nat) : D (list ast) :=
  mapEach (λ l, argAt l i) lists.

Definition mapImpl (ctx : nat) (args : list ast) : D ast :=
  lists ← mapEach (λ a,
    match a with
    | astList _ l => mret l
    | _ => errorf "map applies to list: %s" [a]
    end) (tail args);
  match lists with
  | [] => panic "index out of range"
  | l0 :: rest =>
      if forallb (λ l : list ast, (length l =? length l0)%nat) rest then
        mapped ← mapEach (λ i,
          a0 ← argAt args 0;
          elems ← column lists i;
          ev ctx (astSexp (a0 :: elems) noPos)) (seq 0 (length l0));
        mret (appendedList mapped)
      else errorf "unbalanced lists" []
  end.

Definition reduceImpl (ctx : nat) (args : list ast) : D ast :=
  a1 ← argAt args 1;
  match a1 with
  | astList _ (first :: (_ :: _) as items) =>
      a0 ← argAt args 0;
      foldEach (λ res item, ev ctx (astSexp [a0; res; item] noPos)) first items
  | astList _ _ => errorf "not enough elements to reduce: %s" [a1]
  | _ => errorf "reduce applies to lists: %s" [a1]
  end.

(** ** The table of built-ins *)

Record funcImpl : Type := mkFunc {
  do : nat → list ast → D ast;
  minArgs : nat;
  lazy : bool
}.

Definition funcImplList (fuel : nat) : list (string * funcImpl) :=
  [
    ("!", mkFunc notImpl 1 false);
    ("%", mkFunc (arithFun goMod) 2 false);
    ("*", mkFunc (arithFun goMul) 2 false);
    ("+", mkFunc plusImpl 2 false);
    ("-", mkFunc (arithFun goSub) 2 false);
    ("/", mkFunc (arithFun goDiv) 2 false);
    ("<", mkFunc (compareFun Z.ltb) 2 false);
    ("=", mkFunc (eqImpl fuel) 2 false);
    (">", mkFunc (compareFun Z.gtb) 2 false);
    ("and", mkFunc andImpl 1 true);
    ("apply", mkFunc applyImpl 2 false);
    ("bool", mkFunc boolImpl 1 false);
    ("car", mkFunc carImpl 1 false);
    ("cdr", mkFunc cdrImpl 1 false);
    ("connect", mkFunc connectImpl 3 false);
    ("cons", mkFunc consImpl 2 false);
    ("cpu", mkFunc (rangeTypeImpl "cpu") 1 false);
    ("define", mkFunc defineImpl 2 true);
    ("diskSize", mkFunc diskSizeImpl 1 false);
    ("docker", mkFunc dockerImpl 1 false);
    ("githubKey", mkFunc githubKeyImpl 1 false);
    ("hmap", mkFunc hmapImpl 0 true);
    ("hmapGet", mkFunc hmapGetImpl 2 false);
    ("hmapContains", mkFunc hmapContainsImpl 2 false);
    ("hmapSet", mkFunc hmapSetImpl 3 false);
    ("hmapKeys", mkFunc hmapKeysImpl 1 false);
    ("hmapValues", mkFunc hmapValuesImpl 1 false);
    ("if", mkFunc ifImpl 2 true);
    ("import", mkFunc importImpl 1 true);
    ("label", mkFunc labelImpl 2 false);
    ("labelName", mkFunc labelNameImpl 1 false);
    ("labelHost", mkFunc labelHostImpl 1 false);
    ("lambda", mkFunc lambdaImpl 2 true);
    ("let", mkFunc letImpl 1 true);
    ("len", mkFunc lenImpl 1 false);
    ("log", mkFunc logImpl 2 false);
    ("list", mkFunc listImpl 0 false);
    ("machine", mkFunc machineImpl 0 false);
    ("machineAttribute", mkFunc machineAttributeImpl 2 false);
    ("makeList", mkFunc makeListImpl 2 true);
    ("map", mkFunc mapImpl 2 false);
    ("module", mkFunc moduleImpl 2 true);
    ("nth", mkFunc nthImpl 2 false);
    ("or", mkFunc orImpl 1 true);
    ("placement", mkFunc placementImpl 2 false);
    ("plaintextKey", mkFunc plaintextKeyImpl 1 false);
    ("panic", mkFunc panicImpl 1 false);
    ("progn", mkFunc prognImpl 1 false);
    ("provider", mkFunc providerImpl 1 false);
    ("reduce", mkFunc reduceImpl 2 false);
    ("region", mkFunc regionImpl 1 false);
    ("ram", mkFunc (rangeTypeImpl "ram") 1 false);
    ("range", mkFunc rangeImpl 1 false);
    ("role", mkFunc roleImpl 1 false);
    ("setEnv", mkFunc setEnvImpl 3 false);
    ("size", mkFunc sizeImpl 1 false);
    ("sprintf", mkFunc sprintfImpl 1 false)
  ]%string.

Definition funcImplMap (fuel : nat) : gmap string funcImpl := list_to_map (funcImplList fuel).

End Eval.

End WithParams.
