(* ===== verification/DslEval.v ===== *)
(** * dsl: the evaluator

    Model of [src/dsl/eval.go]. [evalAst n ctx a] is [a.eval(ctx)] with at most
    [n] nested calls: programs of the language need not terminate. More fuel
    never changes a result ([evalAst_mono]). *)

From stdpp Require Import base gmap list strings.
From Stdlib Require Import ZArith Lia.
From S2P Require Import Prelude DslAst DslFunc.

Local Open Scope Z_scope.

(** [dslError{pos, err}] around the error of a computation. *)
Definition wrapErr {A} (pos : position) (c : D A) : D A := λ s,
  match c s with Err e => Err (DslError pos e) | o => o end.

(** Replace the error of a computation. *)
Definition orErr {A} (e : goError) (c : D A) : D A := λ s,
  match c s with Err _ => Err e | o => o end.

Section Eval.
Context `{DslParams}.

(** [evalList]. *)
Definition evalList (ev : nat → ast → D ast) (ctx : nat) (args : list ast) : D (list ast) :=
  mapEach (ev ctx) args.

Definition evalLambda (ev : nat → ast → D ast) (argNames : list string) (body : list ast)
    (parentCtx : nat) (funcArgs : list ast) : D ast :=
  if (length argNames =? length funcArgs)%nat then
    fnCtx ← newEvalCtx (Some parentCtx);
    _ ← forEach (λ '(ident, arg), fnArg ← ev parentCtx arg; bindVar fnCtx ident fnArg)
      (zip argNames funcArgs);
    result ← evalList ev fnCtx body;
    match last result with
    | Some r => mret r
    | None => panic "index out of range"
    end
  else errorf "bad number of arguments: %s %s" ((astIdent <$> argNames) ++ funcArgs).

Definition evalSexp (ev : nat → ast → D ast) (fuel : nat) (ctx : nat) (sexp : list ast)
    (pos : position) : D ast :=
  match sexp with
  | [] => fail (DslError pos (Errorf "S-expressions must start with a function call: %s"
             [astSexp sexp pos]))
  | head :: rest =>
      first ← match head with
              | astIdent _ => orErr (DslError pos (Errorf "unknown function: %s" [head])) (ev ctx head)
              | _ => ev ctx head
              end;
      match first with
      | astIdent fn =>
          match funcImplMap ev fuel !! fn with
          | Some impl =>
              if (length rest <? minArgs impl)%nat then
                fail (DslError pos (Errorf "not enough arguments: %s" [first]))
              else wrapErr pos (
                args ← (if lazy impl then mret rest else evalList ev ctx rest);
                do impl ctx args)
          | None => wrapErr pos (_ ← evalList ev ctx rest; panic "nil function")
          end
      | astLambda argNames body fnCtx => wrapErr pos (
          args ← evalList ev ctx rest;
          evalLambda ev argNames body fnCtx args)
      | _ => fail (DslError pos (Errorf "S-expressions must start with a function call: %s" [first]))
      end
  end.

(** A variable is looked up in the context and then in its parents. *)
Fixpoint lookupVar (fuel : nat) (ctx : nat) (ident : string) : D ast :=
  match fuel with
  | O => outOfFuel
  | S n =>
      c ← getCtx ctx;
      match binds c !! ident with
      | Some val => mret val
      | None =>
          match parent c with
          | None => errorf "unassigned variable: %s" [astIdent ident]
          | Some p => lookupVar n p ident
          end
      end
  end.

Definition evalIdent (ev : nat → ast → D ast) (fuel : nat) (ctx : nat) (ident : string) : D ast :=
  match funcImplMap ev fuel !! ident with
  | Some _ => mret (astIdent ident)
  | None => lookupVar (S ctx) ctx ident
  end.

(** The bindings of the module's context have distinct names, so the order of
    the loop that exports them does not matter. *)
Definition evalModule (ev : nat → ast → D ast) (ctx : nat) (moduleName : string)
    (body : list ast) : D ast :=
  gctx ← globalCtx ctx;
  copy ← deepCopy gctx;
  c ← getCtx copy;
  _ ← putCtx copy (mkCtx ∅ (glob c) (parent c));
  importCtx ← newEvalCtx (Some copy);
  res ← mapEach (ev importCtx) body;
  ic ← getCtx importCtx;
  _ ← forEach (λ '(k, v),
    if shouldExport k then bindVar ctx (moduleName ++ "." ++ k)%string v else mret tt)
    (map_to_list (binds ic));
  mret (astModule moduleName res).

(** [a.eval(ctx)]: the values that are not listed evaluate to themselves. *)
Fixpoint evalAst (fuel : nat) (ctx : nat) (a : ast) : D ast :=
  match fuel with
  | O => outOfFuel
  | S n =>
      match a with
      | astRoot l => results ← mapEach (evalAst n ctx) l; mret (astRoot results)
      | astList _ l => results ← mapEach (evalAst n ctx) l; mret (astList false results)
      | astSexp sexp pos => evalSexp (evalAst n) n ctx sexp pos
      | astIdent ident => evalIdent (evalAst n) n ctx ident
      | astModule moduleName body => evalModule (evalAst n) ctx moduleName body
      | _ => mret a
      end
  end.

(** [eval(parsed)]: evaluate in a new global context, at address 0. *)
Definition evalProgram (fuel : nat) (parsed : ast) : D (ast * nat) :=
  gctx ← newEvalCtx None;
  evaluated ← evalAst fuel gctx parsed;
  mret (evaluated, gctx).

End Eval.

(** ** Fuel *)

Section WrapLe.

Lemma compLe_wrapErr {A} pos (c1 c2 : D A) :
  compLe c1 c2 → compLe (wrapErr pos c1) (wrapErr pos c2).
Proof. intros Hc s. unfold wrapErr. destruct (Hc s) as [->| ->]; [by left|by right]. Qed.

Lemma compLe_orErr {A} e (c1 c2 : D A) : compLe c1 c2 → compLe (orErr e c1) (orErr e c2).
Proof. intros Hc s. unfold orErr. destruct (Hc s) as [->| ->]; [by left|by right]. Qed.

End WrapLe.

(** Walk through two computations of the same shape. *)
Ltac solve_le :=
  repeat (first
    [ reflexivity
    | assumption
    | apply compLe_fuel
    | apply compLe_wrapErr
    | apply compLe_orErr
    | apply compLe_bind; [|intros ?]
    | apply compLe_mapEach; intros ?
    | apply compLe_forEach; intros ?
    | apply compLe_foldEach; intros ? ?
    | progress intros
    | match goal with
      | |- compLe (match ?x with _ => _ end) _ => destruct x
      | H : ∀ _ _, compLe _ _ |- _ => apply H
      end ]).

(** [deepEqualF] with more fuel knows at least as much. *)
Definition knows (x y : option bool) : Prop := x = None ∨ x = y.

Lemma knows_bind (x y : option bool) (f g : bool → option bool) :
  knows x y → (∀ b, knows (f b) (g b)) → knows (x ≫= f) (y ≫= g).
Proof. intros [->| ->] Hf; [by left|]. destruct y as [b|]; [apply Hf|by left]. Qed.

Lemma knows_allPairs {A B} (f g : A → B → option bool) l k :
  (∀ x y, knows (f x y) (g x y)) → knows (allPairs f l k) (allPairs g l k).
Proof.
  intros Hf. revert k. induction l as [|x l IH]; intros [|y k]; simpl; try by right.
  apply knows_bind; [apply Hf|]. intros []; [apply IH|by right].
Qed.

Lemma knows_allTrue l k : Forall2 knows l k → knows (allTrue l) (allTrue k).
Proof.
  induction 1; simpl; [by right|]. apply knows_bind; [done|]. intros []; [done|by right].
Qed.

Lemma knows_allTrue_fmap {A} (f g : A → option bool) l :
  (∀ x, knows (f x) (g x)) → knows (allTrue (f <$> l)) (allTrue (g <$> l)).
Proof. intros Hf. apply knows_allTrue. induction l; constructor; auto. Qed.

Lemma knows_hmapEq f g m1 m2 :
  (∀ x y, knows (f x y) (g x y)) → knows (hmapEq f m1 m2) (hmapEq g m1 m2).
Proof.
  intros Hf. unfold hmapEq. destruct (_ =? _)%nat; [|by right].
  apply knows_allTrue_fmap. intros [k v]. destruct (hmapLookup m2 k); [apply Hf|by right].
Qed.

Lemma knows_labelEq f g l1 l2 :
  (∀ x y, knows (f x y) (g x y)) → knows (labelEq f l1 l2) (labelEq g l1 l2).
Proof.
  intros Hf. unfold labelEq. destruct (decide _); [|by right].
  apply knows_allPairs. intros; apply Hf.
Qed.

(** Walk through two comparisons of the same shape, given [Hk] for the calls. *)
Ltac solve_knows Hk :=
  repeat (first
    [ apply Hk
    | apply knows_hmapEq | apply knows_labelEq | apply knows_allPairs
    | apply knows_allTrue_fmap; intros [??]
    | apply knows_bind
    | progress cbn [allTrue]
    | progress intros
    | match goal with |- knows (match ?c with _ => _ end) _ => destruct c end
    | by right ]).

Lemma deepEqualF_mono n s x y : knows (deepEqualF n s x y) (deepEqualF (S n) s x y).
Proof.
  revert x y. induction n as [|n IH]; intros x y; [by left|].
  remember (S n) as m eqn:Hm. simpl. rewrite Hm at 1. simpl.
  assert (∀ a b, knows (deepEqualF n s a b) (deepEqualF m s a b)) as Hk
    by (subst m; apply IH).
  destruct x as [a|p|p], y as [b|q|q]; try by right.
  - destruct a, b; solve_knows Hk.
  - solve_knows Hk.
  - solve_knows Hk.
Qed.

Section Mono.
Context `{DslParams}.

(** Two entries of the table that differ in what their evaluators know. *)
Definition funcLe (f1 f2 : funcImpl) : Prop :=
  minArgs f1 = minArgs f2 ∧ lazy f1 = lazy f2 ∧
  ∀ ctx args, compLe (do f1 ctx args) (do f2 ctx args).

Lemma list_to_map_Forall2 {A B} (R : A → B → Prop) (l1 : list (string * A)) l2 k :
  Forall2 (λ p q, p.1 = q.1 ∧ R p.2 q.2) l1 l2 →
  option_Forall2 R ((list_to_map l1 : gmap string A) !! k) ((list_to_map l2 : gmap string B) !! k).
Proof.
  induction 1 as [|[i x] [j y] l1 l2 [Hk HR] _ IH]; simpl; [constructor|].
  simpl in Hk. subst j. destruct (decide (i = k)) as [->|Hne].
  - rewrite !lookup_insert_eq. by constructor.
  - by rewrite !lookup_insert_ne.
Qed.

Context (ev1 ev2 : nat → ast → D ast) (Hev : ∀ ctx a, compLe (ev1 ctx a) (ev2 ctx a)).

Lemma andImpl_le ctx args : compLe (andImpl ev1 ctx args) (andImpl ev2 ctx args).
Proof. induction args; simpl; solve_le. Qed.

Lemma orImpl_le ctx args : compLe (orImpl ev1 ctx args) (orImpl ev2 ctx args).
Proof. induction args; simpl; solve_le. Qed.

Lemma eqImpl_le n ctx args : compLe (eqImpl n ctx args) (eqImpl (S n) ctx args).
Proof.
  unfold eqImpl. do 3 (apply compLe_bind; [reflexivity|intros ?]).
  destruct (deepEqualF_mono n a1 (nodeAst a) (nodeAst a0)) as [->| ->]; solve_le.
Qed.

Lemma funcImplMap_le n fn :
  option_Forall2 funcLe (funcImplMap ev1 n !! fn) (funcImplMap ev2 (S n) !! fn).
Proof.
  apply list_to_map_Forall2. unfold funcImplList.
  repeat (apply Forall2_cons; split); [..|by apply Forall2_nil];
    (split; [reflexivity|split; [reflexivity|split; [reflexivity|intros ctx args]]]); simpl;
    auto using andImpl_le, orImpl_le, eqImpl_le, compLe_refl;
    unfold notImpl, applyImpl, defineImpl, hmapImpl, ifImpl, letImpl, makeListImpl, mapImpl,
      moduleImpl, reduceImpl; solve_le.
Qed.

Lemma evalLambda_le names body p args :
  compLe (evalLambda ev1 names body p args) (evalLambda ev2 names body p args).
Proof. unfold evalLambda, evalList. solve_le. Qed.

Lemma evalSexp_le n ctx sexp pos :
  compLe (evalSexp ev1 n ctx sexp pos) (evalSexp ev2 (S n) ctx sexp pos).
Proof.
  unfold evalSexp. destruct sexp as [|head rest]; [reflexivity|].
  apply compLe_bind; [destruct head; solve_le|intros first].
  destruct first; try reflexivity.
  - destruct (funcImplMap_le n s) as [f1 f2 (Hm & Hl & Hd)|].
    + rewrite Hm, Hl. destruct (_ <? _)%nat; [reflexivity|]. unfold evalList.
      apply compLe_wrapErr, compLe_bind; [solve_le|auto].
    + unfold evalList. solve_le.
  - unfold evalList. apply compLe_wrapErr, compLe_bind; [solve_le|]. apply evalLambda_le.
Qed.

Lemma evalIdent_le n ctx ident :
  compLe (evalIdent ev1 n ctx ident) (evalIdent ev2 (S n) ctx ident).
Proof. unfold evalIdent. destruct (funcImplMap_le n ident); reflexivity. Qed.

Lemma evalModule_le ctx name body :
  compLe (evalModule ev1 ctx name body) (evalModule ev2 ctx name body).
Proof. unfold evalModule. solve_le. Qed.

End Mono.

Section FuelIndependence.
Context `{DslParams}.

Lemma evalAst_step n ctx a : compLe (evalAst n ctx a) (evalAst (S n) ctx a).
Proof.
  revert ctx a. induction n as [|n IH]; intros ctx a; [apply compLe_fuel|].
  destruct a; cbn [evalAst]; try reflexivity.
  - by apply evalIdent_le.
  - solve_le.
  - by apply evalSexp_le.
  - solve_le.
  - by apply evalModule_le.
Qed.

Lemma evalAst_mono n m ctx a : (n ≤ m)%nat → compLe (evalAst n ctx a) (evalAst m ctx a).
Proof. induction 1; [reflexivity|]. etransitivity; [done|]. apply evalAst_step. Qed.

Lemma evalProgram_mono n m a : (n ≤ m)%nat → compLe (evalProgram n a) (evalProgram m a).
Proof.
  intros Hnm. unfold evalProgram. apply compLe_bind; [reflexivity|intros g].
  apply compLe_bind; [by apply evalAst_mono|reflexivity].
Qed.


End FuelIndependence.

(** ** Examples *)

Module Demo.

Definition sexp (l : list ast) : ast := astSexp l noPos.
Definition ident (s : string) : ast := astIdent s.
Definition str (s : string) : ast := astString s.

(** [(define (Twice f x) (f (f x))) (Twice (lambda (y) ( * y 3)) 7)] *)
Definition twice : ast := astRoot [
  sexp [ident "define"; sexp [ident "Twice"; ident "f"; ident "x"];
        sexp [ident "f"; sexp [ident "f"; ident "x"]]];
  sexp [ident "Twice";
        sexp [ident "lambda"; sexp [ident "y"]; sexp [ident "*"; ident "y"; astInt 3]];
        astInt 7]].

(** [(label "web" (makeList 2 (docker "nginx" "-q")))
    (label "db" (docker "postgres"))
    (connect 80 "public" "web") (connect (list 5000 5010) "web" "db")
    (setEnv "db" "MODE" "fast") (placement "exclusive" "web" "db")
    (machine (provider "AmazonSpot") (role "Master") (githubKey "me"))] *)
Definition policy : ast := astRoot [
  sexp [ident "label"; str "web";
        sexp [ident "makeList"; astInt 2; sexp [ident "docker"; str "nginx"; str "-q"]]];
  sexp [ident "label"; str "db"; sexp [ident "docker"; str "postgres"]];
  sexp [ident "connect"; astInt 80; str "public"; str "web"];
  sexp [ident "connect"; sexp [ident "list"; astInt 5000; astInt 5010]; str "web"; str "db"];
  sexp [ident "setEnv"; str "db"; str "MODE"; str "fast"];
  sexp [ident "placement"; str "exclusive"; str "web"; str "db"];
  sexp [ident "machine"; sexp [ident "provider"; str "AmazonSpot"];
        sexp [ident "role"; str "Master"]; sexp [ident "githubKey"; str "me"]]].

End Demo.

Definition evalDemo (fuel : nat) (a : ast) : outcome goError (ast * nat * dslState) :=
  evalProgram (H := demoParams) fuel a emptyState.

Example evalDemo_twice :
  match evalDemo 10 Demo.twice with
  | Ok (astRoot [_; r], _, _) => r = astInt 63
  | _ => False
  end.
Proof. vm_compute. reflexivity. Qed.


(** An infinite recursion has no result with any amount of fuel tried: the
    program [((lambda (f) (f f)) (lambda (f) (f f)))]. *)
Example evalDemo_omega :
  let w := Demo.sexp [Demo.ident "lambda"; Demo.sexp [Demo.ident "f"];
                      Demo.sexp [Demo.ident "f"; Demo.ident "f"]] in
  evalDemo 40 (Demo.sexp [w; w]) = OutOfFuel.
Proof. vm_compute. reflexivity. Qed.
