(* ===== verification/DslInv.v ===== *)
(** * dsl: the invariant of the evaluator's heap

    What every evaluation of [DslEval] preserves: the global tables are reached
    from every context, they list every machine and every container that was
    created, connections are well formed, a container's command and environment
    are strings, and the label table agrees with the labels of the atoms. *)

From stdpp Require Import base gmap list strings.
From Stdlib Require Import ZArith Lia.
From S2P Require Import Prelude DslAst DslFunc DslEval.

Local Open Scope Z_scope.

(** ** The invariant *)

Definition isString (a : ast) : bool := match a with astString _ => true | _ => false end.
Definition isKey (a : ast) : bool :=
  match a with astGithubKey _ | astPlaintextKey _ => true | _ => false end.

(** A range of ports, one port when the public internet is an endpoint, and not
    from the public internet to itself. *)
Definition connOk (c : dslConnection) : Prop :=
  0 ≤ connMinPort c ∧ connMinPort c ≤ connMaxPort c ∧ connMaxPort c ≤ 65535 ∧
  (connFrom c = PublicInternetLabel ∨ connTo c = PublicInternetLabel →
   connMinPort c = connMaxPort c) ∧
  ¬ (connFrom c = PublicInternetLabel ∧ connTo c = PublicInternetLabel).

Definition containerOk (c : containerObj) : Prop :=
  Forall isString (cCommand c) ∧
  Forall (λ kv, isString kv.1 ∧ isString kv.2) (cEnv c) ∧ NoDup (cEnv c).*1 ∧
  set_Forall (λ p, String.ltb p.2 p.1 = false) (cExclusive c).

Definition machineOk (m : machineObj) : Prop :=
  Forall isKey (mSshKeys m) ∧ (mCpu m).1.1 ∈ [""; "cpu"]%string ∧
  (mRam m).1.1 ∈ [""; "ram"]%string.

(** The labels of an atom, if it exists. *)
Definition atomLabelsOf (s : dslState) (a : atom) : option (list string) :=
  match a with
  | atomMachine p => mLabels <$> machineHeap s !! p
  | atomContainer p => cLabels <$> containerHeap s !! p
  end.

Definition hasLabel (s : dslState) (a : atom) (l : string) : Prop :=
  ∃ ls, atomLabelsOf s a = Some ls ∧ l ∈ ls.

Record labelsOk (s : dslState) (g : globals) : Prop := {
  labels_key : ∀ l x, labels g !! l = Some x → x.1 = l ∧ l ≠ PublicInternetLabel;
  labels_atoms : ∀ a l, hasLabel s a l ↔ ∃ es, labels g !! l = Some (l, es) ∧ a ∈ es;
  labels_nodup : ∀ a ls, atomLabelsOf s a = Some ls → NoDup ls
}.

Definition noGlobals : globals := mkGlobals ∅ ∅ [] [].

(** The global context is at address 0; the contexts without a parent share the
    tables at address 0. *)
Definition rootsOk (s : dslState) : Prop :=
  (∃ c, ctxs s !! 0%nat = Some c ∧ parent c = None) ∧
  ∀ p c, ctxs s !! p = Some c → parent c = None → glob c = 0%nat.

(** [pm] and [pc] count the machines and the containers that were created and
    are not yet in the tables: zero between two built-ins. *)
Record dslInv (pm pc : nat) (s : dslState) : Prop := {
  inv_root : rootsOk s;
  inv_glob0 : is_Some (globs s !! 0%nat);
  inv_globs : ∀ i g, globs s !! S i = Some g → g = noGlobals;
  inv_conns : ∀ g, globs s !! 0%nat = Some g → set_Forall connOk (connections g);
  inv_machines : ∀ g, globs s !! 0%nat = Some g →
    machines g = seq 0 (length (machines g)) ∧
    length (machineHeap s) = (length (machines g) + pm)%nat;
  inv_containers : ∀ g, globs s !! 0%nat = Some g →
    containers g = seq 0 (length (containers g)) ∧
    length (containerHeap s) = (length (containers g) + pc)%nat;
  inv_labels : ∀ g, globs s !! 0%nat = Some g → labelsOk s g;
  inv_machineOk : Forall machineOk (machineHeap s);
  inv_containerOk : Forall containerOk (containerHeap s)
}.

(** ** Computations that do not change the state *)

Definition reader {A} (c : D A) : Prop := ∀ s a s', c s = Ok (a, s') → s' = s.

Lemma reader_ret {A} (a : A) : reader (mret a).
Proof. intros s b s' Heq. by inv_ok. Qed.
Lemma reader_fail {A} e : reader (A := A) (fail e).
Proof. intros s b s' Heq. by inv_ok. Qed.
Lemma reader_panic {A} w : reader (A := A) (panic w).
Proof. intros s b s' Heq. by inv_ok. Qed.
Lemma reader_fuel {A} : reader (A := A) outOfFuel.
Proof. intros s b s' Heq. by inv_ok. Qed.
Lemma reader_getS : reader getS.
Proof. intros s b s' [= _ <-]. done. Qed.
Lemma reader_bind {A B} (c : D A) (k : A → D B) :
  reader c → (∀ a, reader (k a)) → reader (c ≫= k).
Proof. intros Hc Hk s b s' (a & s1 & H1%Hc & H2%Hk)%bind_Ok. congruence. Qed.
Lemma reader_deref {A} (heap : dslState → list A) p : reader (deref heap p).
Proof. intros s b s'. unfold deref. destruct (heap s !! p); intros; by inv_ok. Qed.
Lemma reader_mapEach {A B} (f : A → D B) l : (∀ x, reader (f x)) → reader (mapEach f l).
Proof.
  intros Hf. induction l; simpl; [apply reader_ret|].
  apply reader_bind; [done|intros]. apply reader_bind; [done|intros]. apply reader_ret.
Qed.

Lemma reader_getCtx p : reader (getCtx p).
Proof. apply reader_deref. Qed.

#[export] Hint Resolve reader_getCtx reader_ret reader_fail reader_panic reader_fuel reader_getS reader_bind
  reader_deref reader_mapEach : di.

Ltac solve_reader :=
  repeat (first
    [ progress intros
    | solve [auto 2 with di]
    | apply reader_bind
    | apply reader_mapEach
    | apply reader_ret | apply reader_fail | apply reader_panic | apply reader_fuel
    | apply reader_getS | apply reader_deref
    | assumption
    | match goal with |- reader (match ?x with _ => _ end) => destruct x end
    | progress unfold errorf, argAt, assertString, getCtx, getGlob, getMachine, getContainer ]).

Lemma reader_hoare {A} (c : D A) P : reader c → hoare P c (λ _, P).
Proof. intros Hc s a s' HP Heq. by rewrite (Hc _ _ _ Heq). Qed.

Lemma reader_globalCtxF n p : reader (globalCtxF n p).
Proof. revert p. induction n; intros p; simpl; solve_reader. Qed.
#[export] Hint Resolve reader_globalCtxF : di.
Lemma reader_globalTables p : reader (globalTables p).
Proof. unfold globalTables, globalCtx. solve_reader. Qed.
Lemma reader_resolveLabel p r : reader (resolveLabel p r).
Proof.
  unfold resolveLabel. generalize (S p) as n. intros n. revert p.
  induction n; intros p; simpl; solve_reader.
Qed.
#[export] Hint Resolve reader_globalTables reader_resolveLabel : di.
Lemma reader_flattenLabel p l : reader (flattenLabel p l).
Proof. unfold flattenLabel. solve_reader. Qed.
Lemma reader_lookupVar n p i : reader (lookupVar n p i).
Proof. revert p. induction n; intros p; simpl; solve_reader. Qed.

#[export] Hint Resolve reader_flattenLabel reader_lookupVar : di.

(** ** Reading the tables and the heap under the invariant *)

Lemma deref_Ok {A} (heap : dslState → list A) p s x s' :
  deref heap p s = Ok (x, s') → s' = s ∧ heap s !! p = Some x.
Proof. unfold deref. case_match; intros; by inv_ok. Qed.

Lemma globalCtxF_run n p s r s' :
  rootsOk s → globalCtxF n p s = Ok (r, s') →
  s' = s ∧ ∃ c, ctxs s !! r = Some c ∧ glob c = 0%nat.
Proof.
  intros Hr. revert p. induction n as [|n IH]; intros p; simpl; [done|].
  intros (c & s1 & [-> Hc]%deref_Ok & Hk)%bind_Ok.
  destruct (parent c) eqn:Hp; [eauto|]. inv_ok. destruct Hr. eauto.
Qed.

Lemma globalTables_run s ctx a g s' :
  rootsOk s → globalTables ctx s = Ok (a, g, s') →
  s' = s ∧ a = 0%nat ∧ globs s !! 0%nat = Some g.
Proof.
  intros Hr (r & s1 & [-> (c & Hc & H0)]%globalCtxF_run & H2)%bind_Ok; [|done].
  apply bind_Ok in H2 as (c' & s1 & [-> Hc']%deref_Ok & H2).
  apply bind_Ok in H2 as (g' & s1 & [-> Hg]%deref_Ok & H2). inv_ok. simplify_eq. by rewrite H0 in Hg.
Qed.

Section Invariant.
Context (pm pc : nat).
Notation inv := (dslInv pm pc).

Lemma hoare_deref {A} (heap : dslState → list A) p (P : dslState → Prop) :
  hoare P (deref heap p) (λ x s, P s ∧ heap s !! p = Some x).
Proof.
  intros s x s' HP. unfold deref. destruct (heap s !! p) eqn:Hp; intros; by inv_ok.
Qed.

Lemma globalTables_spec p :
  hoare inv (globalTables p) (λ '(a, g) s, inv s ∧ a = 0%nat ∧ globs s !! 0%nat = Some g).
Proof.
  intros s [a g] s' Hs Heq.
  apply globalTables_run in Heq as (-> & -> & Hg); [done|]. apply Hs.
Qed.

(** A string that does not resolve is not a label. *)
Lemma resolveLabelF_spec n p l :
  hoare inv (resolveLabelF n p (astString l)) (λ r s, inv s ∧
    (r = None → l ≠ PublicInternetLabel ∧ ∀ g, globs s !! 0%nat = Some g → labels g !! l = None)).
Proof.
  revert p. induction n as [|n IH]; intros p; simpl; [apply hoare_fuel|].
  eapply hoare_bind; [apply hoare_deref|]. intros c. simpl.
  eapply hoare_bind; [apply hoare_deref|]. intros g. simpl.
  destruct (decide (l = PublicInternetLabel)); [apply hoare_ret; naive_solver|].
  destruct (labels g !! l) eqn:Hl; [apply hoare_ret; naive_solver|].
  destruct (parent c) eqn:Hp.
  - eapply hoare_weaken; [apply IH|naive_solver|done].
  - apply hoare_ret. intros s [[Hinv Hc] Hg]. split_and!; [done|]. intros _. split; [done|].
    rewrite (proj2 (inv_root _ _ _ Hinv) _ _ Hc Hp) in Hg. intros g' Hg'. by simplify_eq.
Qed.

(** ** Changes of one container or machine that keep its labels *)

Lemma labelsOk_same s s' g :
  (∀ a, atomLabelsOf s' a = atomLabelsOf s a) → labelsOk s g → labelsOk s' g.
Proof.
  intros Ha [Hk Hl Hn]. split; [done| |]; unfold hasLabel in *; intros a.
  - intros l. rewrite Ha. apply Hl.
  - intros ls. rewrite Ha. apply Hn.
Qed.

Lemma atomLabelsOf_container s p c c' a :
  containerHeap s !! p = Some c → cLabels c' = cLabels c →
  atomLabelsOf (setContainerHeap (<[p:=c']> (containerHeap s)) s) a = atomLabelsOf s a.
Proof.
  intros Hp Hl. destruct a as [q|q]; simpl; [done|].
  destruct (decide (p = q)) as [->|]; [|by rewrite list_lookup_insert_ne].
  rewrite list_lookup_insert_eq by (by eapply lookup_lt_Some). rewrite Hp. simpl. congruence.
Qed.

Lemma atomLabelsOf_machine s p m m' a :
  machineHeap s !! p = Some m → mLabels m' = mLabels m →
  atomLabelsOf (setMachineHeap (<[p:=m']> (machineHeap s)) s) a = atomLabelsOf s a.
Proof.
  intros Hp Hl. destruct a as [q|q]; simpl; [|done].
  destruct (decide (p = q)) as [->|]; [|by rewrite list_lookup_insert_ne].
  rewrite list_lookup_insert_eq by (by eapply lookup_lt_Some). rewrite Hp. simpl. congruence.
Qed.

Lemma putContainer_inv p c' :
  hoare (λ s, inv s ∧ ∃ c, containerHeap s !! p = Some c ∧ cLabels c' = cLabels c ∧ containerOk c')
    (putContainer p c') (λ _, inv).
Proof.
  apply hoare_modify. intros s [[] (c & Hp & Hl & Hok)].
  split; simpl; try done; try rewrite length_insert; eauto.
  - intros g Hg. eapply labelsOk_same; [|eauto]. intros a. by eapply atomLabelsOf_container.
  - by apply Forall_insert.
Qed.

Lemma putMachine_inv p m' :
  hoare (λ s, inv s ∧ ∃ m, machineHeap s !! p = Some m ∧ mLabels m' = mLabels m ∧ machineOk m')
    (putMachine p m') (λ _, inv).
Proof.
  apply hoare_modify. intros s [[] (m & Hp & Hl & Hok)].
  split; simpl; try done; try rewrite length_insert; eauto.
  - intros g Hg. eapply labelsOk_same; [|eauto]. intros a. by eapply atomLabelsOf_machine.
  - by apply Forall_insert.
Qed.

(** ** Contexts *)

(** The labels are a function of the two object heaps. *)
Lemma labelsOk_frame s s' g :
  machineHeap s' = machineHeap s → containerHeap s' = containerHeap s →
  labelsOk s g → labelsOk s' g.
Proof. intros Hm Hc. apply labelsOk_same. intros []; simpl; congruence. Qed.

(** A change of the contexts, the log or the oracle's counter. *)
Lemma inv_frame s s' :
  globs s' = globs s → machineHeap s' = machineHeap s → containerHeap s' = containerHeap s →
  rootsOk s' → inv s → inv s'.
Proof.
  intros Hg Hm Hc Hr []. split; rewrite ?Hg, ?Hm, ?Hc; try done.
  intros g Hg'. eauto using labelsOk_frame.
Qed.

Lemma allocCtx_inv c :
  hoare (λ s, inv s ∧ (parent c = None → glob c = 0%nat)) (allocCtx c) (λ _, inv).
Proof.
  intros s p s' [Hs Hc] Heq. injection Heq as <- <-.
  apply (inv_frame s); try done. destruct (inv_root _ _ _ Hs) as [(c0 & H0 & Hp0) Hr].
  split; simpl; [exists c0; split; [by apply lookup_app_l_Some|done]|].
  intros q c'. rewrite lookup_app_Some. intros [?|[_ Hq]]; [eauto|].
  apply list_lookup_singleton_Some in Hq as [_ <-]. done.
Qed.

Lemma putCtx_inv p c :
  hoare (λ s, inv s ∧ ∃ c0, ctxs s !! p = Some c0 ∧ glob c = glob c0 ∧ parent c = parent c0)
    (putCtx p c) (λ _, inv).
Proof.
  apply hoare_modify. intros s [Hs (c0 & Hp & Hg & Hpar)].
  apply (inv_frame s); try done. destruct (inv_root _ _ _ Hs) as [(c1 & H1 & Hp1) Hr].
  assert (parent c = None → glob c = 0%nat) by (rewrite Hg, Hpar; eauto).
  split; simpl.
  { destruct (decide (p = 0%nat)) as [->|]; [|exists c1; by rewrite list_lookup_insert_ne].
    simplify_eq. exists c. rewrite list_lookup_insert_eq by (by eapply lookup_lt_Some).
    split; [done|congruence]. }
  intros q c'. rewrite list_lookup_insert_Some. intros [(? & ? & ?)|[? ?]]; [by subst|eauto].
Qed.

Lemma bindVar_inv p x v : hoare inv (bindVar p x v) (λ _, inv).
Proof.
  eapply hoare_bind; [apply hoare_deref|]. intros c. simpl.
  eapply hoare_weaken; [apply putCtx_inv| |done]. simpl. intros s [Hs Hc]. eauto.
Qed.

Lemma addGlob_inv s : inv s → inv (setGlobs (globs s ++ [noGlobals]) s).
Proof.
  intros [Hr [g0 H0] Hg Hc Hm Hk Hl Ho Hp].
  assert ((globs s ++ [noGlobals]) !! 0%nat = Some g0) as H0' by by apply lookup_app_l_Some.
  split; cbn [setGlobs globs machineHeap containerHeap ctxs]; try done.
  - intros i g. rewrite lookup_app_Some. intros [?|[_ Hi]]; [eauto|].
    by apply list_lookup_singleton_Some in Hi as [_ <-].
  - intros g Hg'. simplify_eq. auto.
  - intros g Hg'. simplify_eq. auto.
  - intros g Hg'. simplify_eq. auto.
  - intros g Hg'. simplify_eq. by apply (labelsOk_frame s), Hl.
Qed.

(** A context with a parent gets empty tables of its own. *)
Lemma newEvalCtx_inv p : hoare inv (newEvalCtx (Some p)) (λ _, inv).
Proof.
  eapply (hoare_bind _ _ _ (λ _, inv)).
  - intros s a s' Hinv Heq. injection Heq as <- <-. by apply addGlob_inv.
  - intros g. eapply hoare_weaken; [apply allocCtx_inv|done|done].
Qed.

(** ** Computations that preserve the invariant *)

Definition preserves {A} (c : D A) : Prop := hoare inv c (λ _, inv).

Lemma preserves_reader {A} (c : D A) : reader c → preserves c.
Proof. apply reader_hoare. Qed.

Lemma preserves_bind {A B} (c : D A) (k : A → D B) :
  preserves c → (∀ a, preserves (k a)) → preserves (c ≫= k).
Proof. intros Hc Hk. by eapply hoare_bind. Qed.

Lemma preserves_mapEach {A B} (f : A → D B) l :
  (∀ x, preserves (f x)) → preserves (mapEach f l).
Proof.
  intros Hf. induction l; simpl; [apply preserves_reader; auto with di|].
  apply preserves_bind; [done|intros]. apply preserves_bind; [done|intros].
  apply preserves_reader; auto with di.
Qed.

Lemma preserves_foldEach {A B} (f : B → A → D B) l acc :
  (∀ b x, preserves (f b x)) → preserves (foldEach f acc l).
Proof.
  intros Hf. revert acc. induction l; intros acc; simpl; [apply preserves_reader; auto with di|].
  by apply preserves_bind.
Qed.

Lemma preserves_forEach {A} (f : A → D unit) l :
  (∀ x, preserves (f x)) → preserves (forEach f l).
Proof. intros Hf. apply hoare_forEach. intros x _. apply Hf. Qed.

Lemma preserves_wrapErr {A} pos (c : D A) : preserves c → preserves (wrapErr pos c).
Proof.
  intros Hc s a s' Hs. unfold wrapErr. destruct (c s) eqn:Heq; intros; inv_ok; eauto.
Qed.

Lemma preserves_orErr {A} e (c : D A) : preserves c → preserves (orErr e c).
Proof.
  intros Hc s a s' Hs. unfold orErr. destruct (c s) eqn:Heq; intros; inv_ok; eauto.
Qed.

Lemma preserves_addLog level msg : preserves (modifyS (addLog level msg)).
Proof. apply hoare_modify. intros s Hs. apply (inv_frame s); try done. apply Hs. Qed.

Lemma preserves_countHmapLoop : preserves (modifyS countHmapLoop).
Proof. apply hoare_modify. intros s Hs. apply (inv_frame s); try done. apply Hs. Qed.

Lemma preserves_newEvalCtx p : preserves (newEvalCtx (Some p)).
Proof. apply newEvalCtx_inv. Qed.

Lemma preserves_bindVar p x v : preserves (bindVar p x v).
Proof. apply bindVar_inv. Qed.

(** The copy of a context shares its tables, and is global if it is. *)
Lemma preserves_deepCopyF n p : preserves (deepCopyF n p).
Proof.
  revert p. induction n as [|n IH]; intros p; simpl; [apply hoare_fuel|].
  eapply hoare_bind; [apply hoare_deref|]. intros c. simpl.
  eapply (hoare_bind _ _ _ (λ q s, inv s ∧ (q = None → glob c = 0%nat))).
  - destruct (parent c) eqn:Hp.
    + eapply (hoare_bind _ _ _ (λ _, inv)); [|intros; by apply hoare_ret].
      eapply hoare_weaken; [apply IH|naive_solver|done].
    + apply hoare_ret. intros s [Hs Hc]. split; [done|]. intros _.
      exact (proj2 (inv_root _ _ _ Hs) _ _ Hc Hp).
  - intros q. apply (allocCtx_inv (mkCtx (binds c) (glob c) q)).
Qed.

Lemma preserves_deepCopy p : preserves (deepCopy p).
Proof. apply preserves_deepCopyF. Qed.

(** ** The built-ins that change the heap *)

Lemma hmapInsert_Forall (P : ast * ast → Prop) m k v :
  Forall P m → P (k, v) → (∀ k' v', keyEq k' k → P (k', v') → P (k', v)) →
  Forall P (hmapInsert m k v).
Proof.
  intros Hm Hkv Hsub. induction Hm as [|[k' v'] m Hp Hm IH]; simpl; [by constructor|].
  destruct (keyEq k' k) eqn:Hk; constructor; eauto.
Qed.

(** An insertion into a map with string keys keeps the keys distinct. *)
Lemma hmapInsert_NoDup m k v :
  Forall (λ kv, isString kv.1 ∧ isString kv.2) m → NoDup m.*1 →
  NoDup (hmapInsert m (astString k) v).*1.
Proof.
  induction 1 as [|[k' v'] m [Hk' _] Hm IH]; simpl; [intros _; apply NoDup_singleton|].
  rewrite ?fmap_cons, NoDup_cons. intros [Hnew Hnd].
  destruct (keyEq k' (astString k)) eqn:Hk; rewrite ?fmap_cons, NoDup_cons; [done|].
  split; [|auto]. simpl in *. intros Hin. clear IH Hnd.
  assert (k' ≠ astString k) as Hne.
  { intros ->. simpl in Hk. by rewrite bool_decide_eq_false in Hk. }
  induction Hm as [|[j w] m _ _ IH]; simpl in Hin; [set_solver|].
  destruct (keyEq j (astString k)); rewrite ?fmap_cons in *; set_solver.
Qed.

Lemma hoare_getContainer p :
  hoare inv (getContainer p)
    (λ c s, inv s ∧ containerHeap s !! p = Some c ∧ containerOk c).
Proof.
  eapply hoare_weaken; [apply (hoare_deref containerHeap p inv)|done|].
  simpl. intros c s [Hs Hc]. split_and!; try done.
  eapply Forall_lookup_1; [apply Hs|done].
Qed.

Lemma hoare_getMachine p :
  hoare inv (getMachine p) (λ m s, inv s ∧ machineHeap s !! p = Some m ∧ machineOk m).
Proof.
  eapply hoare_weaken; [apply (hoare_deref machineHeap p inv)|done|].
  simpl. intros c s [Hs Hc]. split_and!; try done.
  eapply Forall_lookup_1; [apply Hs|done].
Qed.

Lemma preserves_setEnvHelper c k v : preserves (setEnvHelper c k v).
Proof.
  unfold setEnvHelper. destruct c; try apply hoare_fail.
  destruct k; try (destruct v); try apply hoare_fail.
  eapply hoare_bind; [apply hoare_getContainer|]. intros c. simpl.
  eapply hoare_weaken; [apply putContainer_inv| |done].
  simpl. intros st (Hs & Hc & Hcmd & Henv & Hnd & Hex). split; [done|]. exists c.
  split_and!; [done..|]. split_and!; simpl; [done| |by apply hmapInsert_NoDup|done].
  apply hmapInsert_Forall; [done|done|]. simpl. naive_solver.
Qed.

Lemma ltb_not_gt a b : String.ltb a b = true → String.ltb b a = false.
Proof.
  unfold String.ltb. rewrite (String.compare_antisym b a).
  destruct (String.compare a b); done.
Qed.

Lemma placementPairs_ordered names :
  set_Forall (λ p, String.ltb p.2 p.1 = false) (placementPairs names).
Proof.
  induction names as [|i rest IH]; simpl; [by apply set_Forall_empty|].
  apply set_Forall_union; [|done]. intros p.
  rewrite elem_of_list_to_set, list_elem_of_fmap. intros (j & -> & _).
  unfold orderedPair. destruct (String.ltb i j) eqn:Hij; [by apply ltb_not_gt|done].
Qed.

Lemma setMachineAttribute_spec m arg s m' s' :
  setMachineAttribute m arg s = Ok (m', s') → machineOk m →
  s' = s ∧ mLabels m' = mLabels m ∧ machineOk m'.
Proof.
  destruct m as [pr ro si re cp ra di ks ls]. unfold machineOk. simpl.
  intros Heq (Hks & Hcp & Hra).
  destruct arg; simpl in Heq; repeat case_decide; try done; inv_ok; simpl;
    split_and!; rewrite ?Forall_app, ?Forall_singleton; try done; set_solver.
Qed.

Lemma preserves_setMachineAttributes p args : preserves (setMachineAttributes p args).
Proof.
  apply preserves_forEach. intros arg.
  eapply hoare_bind; [apply hoare_getMachine|]. intros m. simpl.
  eapply (hoare_bind _ _ _
    (λ m' s, inv s ∧ machineHeap s !! p = Some m ∧ mLabels m' = mLabels m ∧ machineOk m')).
  - intros s m' s' (Hs & Hm & Hok) Heq.
    destruct (setMachineAttribute_spec _ _ _ _ _ Heq Hok) as (-> & ? & ?). done.
  - intros m'. eapply hoare_weaken; [apply putMachine_inv| |done]. simpl. naive_solver.
Qed.

(** Replacing the global tables. *)
Lemma putTables_inv pm' pc' s g' :
  rootsOk s → is_Some (globs s !! 0%nat) →
  (∀ i g, globs s !! S i = Some g → g = noGlobals) →
  Forall machineOk (machineHeap s) → Forall containerOk (containerHeap s) →
  set_Forall connOk (connections g') →
  machines g' = seq 0 (length (machines g')) →
  length (machineHeap s) = (length (machines g') + pm')%nat →
  containers g' = seq 0 (length (containers g')) →
  length (containerHeap s) = (length (containers g') + pc')%nat →
  labelsOk s g' →
  dslInv pm' pc' (setGlobs (<[0%nat:=g']> (globs s)) s).
Proof.
  intros Hr [g0 H0%lookup_lt_Some] Hg Hm Hc Hconn Hms Hml Hcs Hcl Hl.
  split; simpl; try done; try (intros g; rewrite list_lookup_insert_eq by done; intros [= <-]).
  - by rewrite list_lookup_insert_eq.
  - intros i g. rewrite list_lookup_insert_ne by done. apply Hg.
  - done.
  - done.
  - done.
  - by apply (labelsOk_frame s).
Qed.

Lemma connectPair_inv ctx min max from to :
  0 ≤ min → min ≤ max → max ≤ 65535 → preserves (connectPair ctx min max from to).
Proof.
  intros Hmin Hmm Hmax. unfold connectPair.
  destruct (decide _) as [|Hr]; [apply hoare_fail|].
  destruct (decide _) as [|Hp]; [apply hoare_fail|].
  eapply hoare_bind; [apply globalTables_spec|]. intros [a g]. simpl.
  apply hoare_modify. intros s ([Hroot Hg0 Hg Hc Hm Hk Hl Ho Hcs] & -> & H0).
  assert (connOk (mkConn from to min max)) as Hok.
  { split_and!; simpl; [lia..| |done]. intros Hpub. destruct (decide (min = max)); tauto. }
  specialize (Hm g H0) as []. specialize (Hk g H0) as []. destruct (Hl g H0).
  apply putTables_inv; try done.
  apply set_Forall_union; [by apply set_Forall_singleton|]. by apply Hc.
Qed.

End Invariant.

(** ** New containers and machines *)

(** New objects that have no label. *)
Lemma labelsOk_grow s s' g :
  (∀ a ls, atomLabelsOf s a = Some ls → atomLabelsOf s' a = Some ls) →
  (∀ a ls, atomLabelsOf s' a = Some ls → atomLabelsOf s a = Some ls ∨ ls = []) →
  labelsOk s g → labelsOk s' g.
Proof.
  intros Hold Hnew [Hk Ha Hn]. split; [done| |].
  - intros a l. rewrite <- Ha. unfold hasLabel. split; [|naive_solver].
    intros (ls & [Hls|Hls]%Hnew & Hin); [eauto|subst; by apply elem_of_nil in Hin].
  - intros a ls [Hls|Hls]%Hnew; [eauto|]. subst. constructor.
Qed.

Lemma fmap_snoc_cases {A B} (f : A → B) (l : list A) x q b :
  f <$> (l ++ [x]) !! q = Some b → f <$> l !! q = Some b ∨ b = f x.
Proof.
  rewrite fmap_Some. intros (y & [Hq|[_ Hq]]%lookup_app_Some & ->); [left; by rewrite Hq|right].
  by apply list_lookup_singleton_Some in Hq as [_ <-].
Qed.

Lemma fmap_snoc_old {A B} (f : A → B) (l : list A) x q b :
  f <$> l !! q = Some b → f <$> (l ++ [x]) !! q = Some b.
Proof.
  rewrite !fmap_Some. intros (y & Hq & ->). exists y. by rewrite (lookup_app_l_Some _ _ _ _ Hq).
Qed.

Lemma allocMachine_inv pm pc m :
  machineOk m → mLabels m = [] →
  hoare (dslInv pm pc) (allocMachine m)
    (λ p s, dslInv (S pm) pc s ∧ length (machineHeap s) = S p).
Proof.
  intros Hok Hl s p s' [] Heq. injection Heq as <- <-.
  split; [split; simpl; try done|simpl; rewrite length_app; simpl; lia].
  - intros g Hg. destruct (inv_machines0 g Hg). split; [done|]. rewrite length_app. simpl. lia.
  - intros g Hg. apply (labelsOk_grow s); [..|auto]; intros [q|q] ls; simpl; auto.
    + apply fmap_snoc_old.
    + intros [?|?]%fmap_snoc_cases; [auto|]. right. congruence.
  - by apply Forall_app_2, Forall_singleton.
Qed.

Lemma allocContainer_inv pm pc c :
  containerOk c → cLabels c = [] →
  hoare (dslInv pm pc) (allocContainer c)
    (λ p s, dslInv pm (S pc) s ∧ length (containerHeap s) = S p).
Proof.
  intros Hok Hl s p s' [] Heq. injection Heq as <- <-.
  split; [split; simpl; try done|simpl; rewrite length_app; simpl; lia].
  - intros g Hg. destruct (inv_containers0 g Hg). split; [done|]. rewrite length_app. simpl. lia.
  - intros g Hg. apply (labelsOk_grow s); [..|auto]; intros [q|q] ls; simpl; auto.
    + apply fmap_snoc_old.
    + intros [?|?]%fmap_snoc_cases; [auto|]. right. congruence.
  - by apply Forall_app_2, Forall_singleton.
Qed.

Lemma hoare_conj {A} (P1 P2 : dslState → Prop) (c : D A) Q1 Q2 :
  hoare P1 c Q1 → hoare P2 c Q2 →
  hoare (λ s, P1 s ∧ P2 s) c (λ a s, Q1 a s ∧ Q2 a s).
Proof. unfold hoare. naive_solver. Qed.

Lemma seq_snoc n : seq 0 (S n) = seq 0 n ++ [n].
Proof. apply seq_S. Qed.

Section Objects.
Context (pm pc : nat).

Lemma preserves_dockerImpl ctx args : preserves pm 0 (dockerImpl ctx args).
Proof.
  unfold dockerImpl. eapply hoare_bind; [apply reader_hoare; solve_reader|].
  intros [|image command]; [apply hoare_panic|].
  eapply hoare_bind; [apply allocContainer_inv|].
  { split_and!; simpl; [|done|constructor|apply set_Forall_empty].
    induction command; simpl; constructor; done. }
  { done. }
  intros p. simpl.
  eapply (hoare_bind _ _ _ (λ '(a, g) s, (dslInv pm 1 s ∧ a = 0%nat ∧ globs s !! 0%nat = Some g) ∧
            length (containerHeap s) = S p)).
  { eapply hoare_weaken; [apply hoare_conj; [apply globalTables_spec|]| |].
    - apply (reader_hoare _ (λ s, length (containerHeap s) = S p)). auto with di.
    - simpl. eauto.
    - by intros [a g]. }
  intros [a g]. eapply (hoare_bind _ _ _ (λ _, dslInv pm 0)); [|intros; by apply hoare_ret].
  apply hoare_modify. intros s [(Hs & -> & H0) Hp]. destruct Hs as [].
  destruct (inv_machines0 g H0), (inv_containers0 g H0) as [Hseq Hlen], (inv_labels0 g H0).
  apply putTables_inv; simpl; auto; try done.
  - rewrite length_app, Nat.add_1_r, seq_snoc, <- Hseq. f_equal. f_equal. lia.
  - rewrite length_app. simpl. lia.
Qed.

Lemma setMachineAttributes_length p args n :
  hoare (λ s, length (machineHeap s) = n) (setMachineAttributes p args)
    (λ _ s, length (machineHeap s) = n).
Proof.
  apply hoare_forEach. intros arg _.
  eapply hoare_bind; [apply reader_hoare, reader_deref|]. intros m.
  eapply hoare_bind; [apply reader_hoare|].
  { unfold setMachineAttribute. solve_reader. }
  intros m'. apply hoare_modify. intros s. simpl. by rewrite length_insert.
Qed.

Lemma preserves_machineImpl ctx args : preserves 0 pc (machineImpl ctx args).
Proof.
  unfold machineImpl. eapply hoare_bind; [apply allocMachine_inv; [|done]|].
  { split_and!; simpl; [constructor|set_solver..]. }
  intros p. simpl. eapply hoare_bind.
  { apply hoare_conj; [apply preserves_setMachineAttributes|apply setMachineAttributes_length]. }
  intros []. simpl.
  eapply (hoare_bind _ _ _ (λ '(a, g) s, (dslInv 1 pc s ∧ a = 0%nat ∧ globs s !! 0%nat = Some g) ∧
            length (machineHeap s) = S p)).
  { eapply hoare_weaken; [apply hoare_conj; [apply globalTables_spec|]| |].
    - apply (reader_hoare _ (λ s, length (machineHeap s) = S p)). auto with di.
    - simpl. eauto.
    - by intros [a g]. }
  intros [a g]. eapply (hoare_bind _ _ _ (λ _, dslInv 0 pc)); [|intros; by apply hoare_ret].
  apply hoare_modify. intros s [(Hs & -> & H0) Hp]. destruct Hs as [].
  destruct (inv_machines0 g H0) as [Hseq Hlen], (inv_containers0 g H0), (inv_labels0 g H0).
  apply putTables_inv; simpl; auto; try done.
  - rewrite length_app, Nat.add_1_r, seq_snoc, <- Hseq. f_equal. f_equal. lia.
  - rewrite length_app. simpl. lia.
Qed.

End Objects.

(** ** Labelling *)

(** [s] is [s0] in which the atoms of [done] were given the label [l]. *)
Record relabelled (s0 : dslState) (l : string) (done : list atom) (s : dslState) : Prop := {
  rel_ctxs : ctxs s = ctxs s0;
  rel_globs : globs s = globs s0;
  rel_machines : length (machineHeap s) = length (machineHeap s0);
  rel_containers : length (containerHeap s) = length (containerHeap s0);
  rel_machineOk : Forall machineOk (machineHeap s);
  rel_containerOk : Forall containerOk (containerHeap s);
  rel_exists : ∀ a, a ∈ done → is_Some (atomLabelsOf s0 a);
  rel_labels : ∀ a, atomLabelsOf s a =
    if decide (a ∈ done) then (λ ls, ls ++ [l]) <$> atomLabelsOf s0 a else atomLabelsOf s0 a
}.

Lemma atomLabels_Ok a s ls s' :
  atomLabels a s = Ok (ls, s') → s' = s ∧ atomLabelsOf s a = Some ls.
Proof.
  destruct a as [p|p]; simpl; intros (x & s1 & H1 & H2)%bind_Ok; inv_ok;
    unfold getMachine, getContainer, deref in H1; case_match; by inv_ok.
Qed.

(** The effect of [a.SetLabels(ls)]. *)
Lemma setAtomLabels_Ok a ls s s' :
  setAtomLabels a ls s = Ok (tt, s') →
  ctxs s' = ctxs s ∧ globs s' = globs s ∧
  length (machineHeap s') = length (machineHeap s) ∧
  length (containerHeap s') = length (containerHeap s) ∧
  (Forall machineOk (machineHeap s) → Forall machineOk (machineHeap s')) ∧
  (Forall containerOk (containerHeap s) → Forall containerOk (containerHeap s')) ∧
  (∀ b, atomLabelsOf s' b = if decide (b = a) then Some ls else atomLabelsOf s b).
Proof.
  destruct a as [p|p]; simpl; intros (x & s1 & H1 & [= <-])%bind_Ok;
    unfold getMachine, getContainer, deref in H1; case_match eqn:Hp; inv_ok; simpl;
    rewrite ?length_insert; split_and!; try done.
  - intros Hm. apply Forall_insert; [done|]. exact (Forall_lookup_1 _ _ _ _ Hm Hp).
  - intros [q|q]; case_decide; simplify_eq; simpl; try done.
    + rewrite list_lookup_insert_eq; [done|by eapply lookup_lt_Some].
    + rewrite list_lookup_insert_ne by naive_solver. done.
  - intros Hm. apply Forall_insert; [done|]. exact (Forall_lookup_1 _ _ _ _ Hm Hp).
  - intros [q|q]; case_decide; simplify_eq; simpl; try done.
    + rewrite list_lookup_insert_eq; [done|by eapply lookup_lt_Some].
    + rewrite list_lookup_insert_ne by naive_solver. done.
Qed.

Section Labelling.
Context (s0 : dslState) (l : string).
(** The label is new: no atom has it. *)
Hypothesis Hfresh : ∀ a ls, atomLabelsOf s0 a = Some ls → l ∉ ls.

(** The last label of an atom says whether it was already labelled. *)
Lemma addLabel_spec done a :
  hoare (relabelled s0 l done) (addLabel l a) (λ _, relabelled s0 l (a :: done)).
Proof.
  intros s [] s' Hrel (ls & s1 & [-> Hls]%atomLabels_Ok & Hset)%bind_Ok.
  pose proof (rel_labels _ _ _ _ Hrel a) as Ha. rewrite Hls in Ha. symmetry in Ha.
  destruct (decide (last ls = Some l)) as [Hlast|Hlast].
  - inv_ok. destruct Hrel as []. assert (a ∈ done) as Hd.
    { destruct (decide (a ∈ done)) as [|Hd]; [done|]. exfalso.
      apply (Hfresh a ls Ha). by apply last_Some_elem_of. }
    split; try done; [set_solver|]. intros b. rewrite rel_labels0.
    destruct (decide (b ∈ done)), (decide (b ∈ a :: done)); set_solver.
  - apply setAtomLabels_Ok in Hset as (E1 & E2 & E3 & E4 & E5 & E6 & E7).
    destruct Hrel as []. assert (a ∉ done) as Hd.
    { intros Hd. rewrite decide_True in Ha by done.
      apply fmap_Some in Ha as (ls0 & _ & ->). by rewrite last_snoc in Hlast. }
    rewrite decide_False in Ha by done.
    split; try (congruence || auto).
    + intros b [->|Hb]%elem_of_cons; [by eexists|auto].
    + intros b. rewrite E7, rel_labels0.
      destruct (decide (b = a)) as [->|]; [rewrite decide_True, Ha by set_solver; done|].
      destruct (decide (b ∈ done)), (decide (b ∈ a :: done)); set_solver.
Qed.

Lemma addLabels_spec atoms done :
  hoare (relabelled s0 l done) (forEach (addLabel l) atoms)
    (λ _, relabelled s0 l (rev atoms ++ done)).
Proof.
  revert done. induction atoms as [|a atoms IH]; intros done; simpl.
  - by apply hoare_ret.
  - eapply hoare_bind; [apply addLabel_spec|]. intros []. rewrite <- app_assoc. apply IH.
Qed.

Lemma relabelled_nil :
  Forall machineOk (machineHeap s0) → Forall containerOk (containerHeap s0) →
  relabelled s0 l [] s0.
Proof. intros Hm Hc. split; try done. by intros a ?%elem_of_nil. Qed.

Lemma relabelled_labelsOk g atoms s :
  l ≠ PublicInternetLabel → labels g !! l = None → labelsOk s0 g →
  relabelled s0 l atoms s →
  ∀ cs ms ks es, (∀ a, a ∈ es ↔ a ∈ atoms) →
  labelsOk s (mkGlobals (<[l := (l, es)]> (labels g)) cs ms ks).
Proof.
  intros Hpub Hnone [Hk Ha Hn] Hrel cs ms ks es Hes. split; simpl.
  - intros k x. rewrite lookup_insert_Some. intros [[<- <-]|[_ Hx]]; eauto.
  - intros a k. unfold hasLabel. rewrite (rel_labels _ _ _ _ Hrel).
    destruct (decide (k = l)) as [->|Hkl].
    + rewrite lookup_insert_eq. split.
      * intros (ls & Hls & Hin). exists es. split; [done|]. apply Hes.
        destruct (decide (a ∈ atoms)) as [|Hna]; [done|]. by destruct (Hfresh a ls).
      * intros (? & [= <-] & Hin). apply Hes in Hin. rewrite decide_True by done.
        destruct (rel_exists _ _ _ _ Hrel a Hin) as [ls ->]. eexists; split; [done|]. set_solver.
    + rewrite lookup_insert_ne by done. rewrite <- Ha. unfold hasLabel.
      destruct (decide (a ∈ atoms)); [|done]. destruct (atomLabelsOf s0 a) as [ls|]; simpl.
      * split; intros (? & [= <-] & Hin); eexists; (split; [done|]); set_solver.
      * split; intros (? & [=] & _).
  - intros a ls. rewrite (rel_labels _ _ _ _ Hrel). destruct (decide (a ∈ atoms)); [|eauto].
    rewrite fmap_Some. intros (ls0 & Hls0 & ->). apply NoDup_app. split_and!; [eauto| |].
    + intros x Hx ->%list_elem_of_singleton. by apply (Hfresh a ls0).
    + apply NoDup_singleton.
Qed.

Lemma relabelled_tables done s ctx a g s' g0 :
  dslInv 0 0 s0 → globs s0 !! 0%nat = Some g0 → relabelled s0 l done s →
  globalTables ctx s = Ok (a, g, s') → s' = s ∧ a = 0%nat ∧ g = g0.
Proof.
  intros Hs Hg [] Htab. apply globalTables_run in Htab as (-> & -> & Hg').
  - rewrite rel_globs0 in Hg'. by simplify_eq.
  - unfold rootsOk. rewrite rel_ctxs0. apply Hs.
Qed.

End Labelling.

Section Evaluator.
Context `{DslParams}.
Notation inv := (dslInv 0 0).
Notation preserves := (preserves 0 0).

Lemma fresh_label s g l :
  labelsOk s g → labels g !! l = None → ∀ a ls, atomLabelsOf s a = Some ls → l ∉ ls.
Proof.
  intros [_ Ha _] Hl a ls Hls Hin.
  destruct (proj1 (Ha a l)) as (es & Hes & _); [by exists ls|]. congruence.
Qed.

Lemma reader_labelAtoms ctx elem : reader (labelAtoms ctx elem).
Proof. unfold labelAtoms. solve_reader. Qed.

Lemma preserves_labelImpl ctx args : preserves (labelImpl ctx args).
Proof.
  unfold labelImpl. eapply hoare_bind; [apply reader_hoare; solve_reader|].
  intros a0. destruct a0 as [|label| | | | | | | | | | | | | | | | | | | |]; try apply hoare_fail.
  eapply (hoare_bind _ _ _ (λ _, inv)).
  { destruct (decide _); [by apply hoare_ret|apply preserves_addLog]. }
  intros _. destruct (decide (label = _)) as [|Hpub]; [apply hoare_fail|].
  eapply hoare_bind; [apply resolveLabelF_spec|]. intros [x|]; [apply hoare_fail|]. simpl.
  eapply hoare_bind; [apply reader_hoare, reader_mapEach, reader_labelAtoms|].
  intros atomss. set (atoms := concat atomss).
  intros s r s' [Hs Hnone] ([] & s1 & Hadd & Hrest)%bind_Ok.
  destruct (inv_glob0 _ _ _ Hs) as [g Hg]. destruct (Hnone eq_refl) as [_ Hl].
  specialize (Hl g Hg). pose proof (inv_labels _ _ _ Hs g Hg) as Hok.
  pose proof (fresh_label _ _ _ Hok Hl) as Hfresh.
  assert (relabelled s label (rev atoms ++ []) s1) as Hrel.
  { eapply addLabels_spec; [done| |done]. apply relabelled_nil; apply Hs. }
  rewrite app_nil_r in Hrel. apply bind_Ok in Hrest as ([a g1] & s2 & Htab & Hrest).
  assert (s2 = s1 ∧ a = 0%nat ∧ g1 = g) as (-> & -> & ->) by
    (eapply relabelled_tables; eauto).
  apply bind_Ok in Hrest as ([] & s3 & [= <-] & Hret). inv_ok.
  destruct (inv_machines _ _ _ Hs g Hg), (inv_containers _ _ _ Hs g Hg).
  pose proof (inv_conns _ _ _ Hs g Hg). pose proof Hrel as [].
  apply putTables_inv; simpl; rewrite ?rel_ctxs0, ?rel_globs0, ?rel_machines0, ?rel_containers0;
    try done; try apply Hs.
  { unfold rootsOk. rewrite rel_ctxs0. apply Hs. }
  eapply relabelled_labelsOk; eauto. intros b. rewrite !list_elem_of_In. apply in_rev.
Qed.

Lemma preserves_connectImpl ctx args : preserves (connectImpl ctx args).
Proof.
  unfold connectImpl. apply preserves_bind; [apply preserves_reader; solve_reader|intros a0].
  apply preserves_bind; [apply preserves_reader; unfold portRange; solve_reader|intros [mn mx]].
  destruct ((mn <? 0) || (65535 <? mx)) eqn:Hb; [apply hoare_fail|].
  apply orb_false_iff in Hb as [Hmn%Z.ltb_ge Hmx%Z.ltb_ge].
  destruct (mx <? mn) eqn:Hc; [apply hoare_fail|]. apply Z.ltb_ge in Hc.
  do 3 (apply preserves_bind; [apply preserves_reader; solve_reader|intros ?]).
  apply preserves_bind; [|intros; apply preserves_reader; solve_reader].
  apply preserves_forEach. intros from. apply preserves_forEach. intros to.
  by apply connectPair_inv.
Qed.

Lemma preserves_placementImpl ctx args : preserves (placementImpl ctx args).
Proof.
  unfold placementImpl. apply preserves_bind; [apply preserves_reader; solve_reader|intros a0].
  destruct a0; try apply hoare_fail.
  apply preserves_bind; [apply preserves_reader; solve_reader|intros ls].
  destruct (_ <? _)%nat; [apply hoare_fail|]. destruct (decide _); [|apply hoare_fail].
  apply preserves_bind; [|intros; apply preserves_reader; solve_reader].
  apply preserves_forEach. intros lab. apply preserves_forEach. intros [p|p]; [apply hoare_fail|].
  eapply hoare_bind; [apply (hoare_getContainer 0 0)|]. intros c. simpl.
  eapply hoare_weaken; [apply (putContainer_inv 0 0)| |done]. simpl.
  intros st (Hs & Hc & Hcmd & Henv & Hnd & Hex). split; [done|]. exists c.
  split_and!; [done..|]. split_and!; simpl; [done|done|done|].
  apply set_Forall_union; [done|apply placementPairs_ordered].
Qed.

Lemma reader_rangeLoop n i stop step : reader (rangeLoop n i stop step).
Proof. revert i. induction n; intros i; simpl; solve_reader. Qed.

End Evaluator.

Lemma reader_toInts args : reader (toInts args).
Proof. unfold toInts. solve_reader. Qed.
#[export] Hint Resolve reader_toInts : di.

Lemma reader_arithFun f ctx args : reader (arithFun f ctx args).
Proof.
  unfold arithFun. apply reader_bind; [auto with di|]. intros [|x rest]; [solve_reader|].
  apply reader_bind; [|solve_reader]. clear. revert x.
  induction rest; intros x; simpl; solve_reader.
Qed.

#[export] Hint Resolve reader_arithFun reader_rangeLoop preserves_bind preserves_mapEach preserves_foldEach
  preserves_forEach preserves_wrapErr preserves_orErr preserves_addLog preserves_countHmapLoop
  preserves_newEvalCtx preserves_bindVar preserves_deepCopy preserves_setEnvHelper
  preserves_setMachineAttributes preserves_dockerImpl preserves_machineImpl preserves_labelImpl
  preserves_connectImpl preserves_placementImpl : di.

(** Walk through a computation that is built from ones that preserve the
    invariant. *)
Ltac solve_preserves :=
  repeat (first
    [ progress intros
    | solve [auto 2 with di nocore]
    | solve [apply preserves_reader; auto 2 with di nocore]
    | apply preserves_bind
    | apply preserves_mapEach
    | apply preserves_foldEach
    | apply preserves_forEach
    | apply preserves_wrapErr
    | apply preserves_orErr
    | match goal with
      | H : ∀ _ _, preserves _ _ _ |- _ => apply H
      | |- preserves _ _ (match ?x with _ => _ end) => destruct x
      end
    | progress unfold parseBindings, checkKey, toHmap, hmapRange, toInts, column, errorf, argAt,
        assertString ]).

Section Builtins.
Context `{DslParams}.
Context (ev : nat → ast → D ast) (Hev : ∀ ctx a, preserves 0 0 (ev ctx a)).

Lemma preserves_andImpl ctx args : preserves 0 0 (andImpl ev ctx args).
Proof. induction args; simpl; solve_preserves. Qed.

Lemma preserves_orImpl ctx args : preserves 0 0 (orImpl ev ctx args).
Proof. induction args; simpl; solve_preserves. Qed.

Lemma funcImplMap_preserves n fn f ctx args :
  funcImplMap ev n !! fn = Some f → preserves 0 0 (do f ctx args).
Proof.
  intros Hf%elem_of_list_to_map_2.
  assert (Forall (λ p, ∀ ctx args, preserves 0 0 (do p.2 ctx args)) (funcImplList ev n)) as HF;
    [|rewrite Forall_forall in HF; apply (HF (fn, f) Hf)].
  clear fn f ctx args Hf. unfold funcImplList.
  repeat (apply Forall_cons; split); [..|by apply Forall_nil]; intros ctx args; simpl;
    auto using preserves_andImpl, preserves_orImpl with di nocore;
    unfold notImpl, plusImpl, compareFun, eqImpl, applyImpl, boolImpl, carImpl,
      cdrImpl, consImpl, rangeTypeImpl, defineImpl, lambdaImpl, diskSizeImpl, githubKeyImpl,
      hmapImpl, hmapGetImpl, hmapContainsImpl, hmapSetImpl,
      hmapKeysImpl, hmapValuesImpl, ifImpl, importImpl, labelNameImpl, labelHostImpl,
      letImpl, lenImpl, logImpl, listImpl, machineAttributeImpl, makeListImpl, mapImpl,
      moduleImpl, nthImpl, plaintextKeyImpl, panicImpl, prognImpl, providerImpl, reduceImpl,
      regionImpl, rangeImpl, roleImpl, setEnvImpl, sizeImpl, sprintfImpl; solve_preserves.
Qed.

End Builtins.
