(* ===== verification/DslEvalInv.v ===== *)
(** * dsl: what an evaluated program looks like

    The evaluator preserves the invariant of [DslInv], and what that means for
    the labels, the connections, the containers and the machines of a program. *)

From stdpp Require Import base gmap list strings.
From Stdlib Require Import ZArith Lia.
From S2P Require Import Prelude DslAst DslFunc DslEval DslInv.

Local Open Scope Z_scope.

Section Evaluator.
Context `{DslParams}.
Section Open.
Context (ev : nat → ast → D ast) (Hev : ∀ ctx a, preserves 0 0 (ev ctx a)).

Lemma preserves_evalList ctx args : preserves 0 0 (evalList ev ctx args).
Proof. unfold evalList. solve_preserves. Qed.

Lemma preserves_evalLambda names body p args :
  preserves 0 0 (evalLambda ev names body p args).
Proof. unfold evalLambda, evalList. solve_preserves. Qed.

Lemma preserves_evalSexp n ctx sexp pos : preserves 0 0 (evalSexp ev n ctx sexp pos).
Proof.
  unfold evalSexp. destruct sexp as [|head rest]; [apply hoare_fail|].
  apply preserves_bind; [destruct head; solve_preserves|intros first].
  destruct first; try apply hoare_fail.
  - destruct (funcImplMap ev n !! s) as [f|] eqn:Hf.
    + destruct (_ <? _)%nat; [apply hoare_fail|]. apply preserves_wrapErr, preserves_bind.
      * destruct (lazy f); [solve_preserves|apply preserves_evalList].
      * intros args. by eapply funcImplMap_preserves.
    + apply preserves_wrapErr, preserves_bind; [apply preserves_evalList|intros].
      apply hoare_panic.
  - apply preserves_wrapErr, preserves_bind; [apply preserves_evalList|].
    intros args. apply preserves_evalLambda.
Qed.

(** The copy of the global context that a module starts from is still global. *)
Lemma preserves_evalModule ctx name body : preserves 0 0 (evalModule ev ctx name body).
Proof.
  unfold evalModule, globalCtx.
  apply preserves_bind; [solve_preserves|intros gctx].
  apply preserves_bind; [apply preserves_deepCopy|intros copy].
  eapply hoare_bind; [apply hoare_deref|]. intros c. simpl.
  eapply (hoare_bind _ _ _ (λ _, dslInv 0 0)).
  { eapply hoare_weaken; [apply (putCtx_inv 0 0)| |done]. simpl. intros s [Hs Hc]. eauto. }
  intros _. fold (preserves (A := ast) 0 0). solve_preserves.
Qed.

End Open.

Lemma evalAst_preserves n ctx a : preserves 0 0 (evalAst n ctx a).
Proof.
  revert ctx a. induction n as [|n IH]; intros ctx a; [apply hoare_fuel|].
  destruct a; cbn [evalAst]; auto using preserves_evalSexp, preserves_evalModule;
    try (by apply hoare_ret).
  - unfold evalIdent. case_match; [by apply hoare_ret|]. solve_preserves.
  - solve_preserves.
  - solve_preserves.
Qed.

(** The state in which the evaluation of a program starts. *)
Lemma newEvalCtx_init :
  newEvalCtx None emptyState = Ok (0%nat, mkSt [mkCtx ∅ 0 None] [noGlobals] [] [] [] 0).
Proof. done. Qed.

Lemma dslInv_init : dslInv 0 0 (mkSt [mkCtx ∅ 0 None] [noGlobals] [] [] [] 0).
Proof.
  split; simpl; try done; try (intros ? [= <-]; simpl; auto); try by constructor.
  - split; [by eexists|]. intros p c Hc. by apply list_lookup_singleton_Some in Hc as [_ <-].
  - split; simpl.
    + intros l x. by rewrite lookup_empty.
    + intros a l. unfold hasLabel. split.
      * intros (ls & Hls & _). destruct a; discriminate.
      * intros (es & Hes & _). by rewrite lookup_empty in Hes.
    + intros a ls Hls. destruct a; discriminate.
Qed.

Lemma evalProgram_inv n parsed v gctx s :
  evalProgram n parsed emptyState = Ok (v, gctx, s) → dslInv 0 0 s ∧ gctx = 0%nat.
Proof.
  unfold evalProgram. intros (g & s1 & Hnew & Heq)%bind_Ok. rewrite newEvalCtx_init in Hnew.
  inv_ok. apply bind_Ok in Heq as (v' & s2 & Hev & Heq). inv_ok. simplify_eq. split; [|done].
  eapply evalAst_preserves; [apply dslInv_init|done].
Qed.

(** The context of the result exists and holds the global tables. *)
Lemma evalProgram_tables n parsed v ctx s :
  evalProgram n parsed emptyState = Ok (v, ctx, s) →
  ∃ c g, ctxs s !! ctx = Some c ∧ globs s !! glob c = Some g ∧
    containers g = seq 0 (length (containerHeap s)) ∧ Forall containerOk (containerHeap s).
Proof.
  intros [Hs ->]%evalProgram_inv. destruct (inv_root _ _ _ Hs) as [(c & Hc & Hp) Hr].
  destruct (inv_glob0 _ _ _ Hs) as [g Hg]. exists c, g. rewrite (Hr _ _ Hc Hp).
  destruct (inv_containers _ _ _ Hs g Hg) as [Hseq Hlen].
  rewrite Nat.add_0_r in Hlen. rewrite Hlen. split_and!; try done. apply Hs.
Qed.

End Evaluator.

(** ** Properties of evaluated programs *)

Section Properties.
Context `{DslParams}.
Context (n : nat) (parsed : ast) (v : ast) (gctx : nat) (s : dslState).

(** C8: After an evaluation, the label table and the labels of the atoms agree:
    an atom has a label exactly when the label's entry lists it, no atom has a
    label twice, and the reserved label is not in the table. *)
Theorem eval_labels_agree :
  evalProgram n parsed emptyState = Ok (v, gctx, s) →
  ∃ g, globs s !! 0%nat = Some g ∧
    (∀ a l, hasLabel s a l ↔ ∃ es, labels g !! l = Some (l, es) ∧ a ∈ es) ∧
    (∀ a ls, atomLabelsOf s a = Some ls → NoDup ls) ∧
    labels g !! PublicInternetLabel = None.
Proof.
  intros [Hs _]%evalProgram_inv. destruct (inv_glob0 _ _ _ Hs) as [g Hg]. exists g.
  destruct (inv_labels _ _ _ Hs g Hg) as [Hk Ha Hn]. split_and!; try done.
  destruct (labels g !! PublicInternetLabel) as [x|] eqn:Hx; [|done].
  by destruct (Hk _ _ Hx).
Qed.

(** C17: Every connection of an evaluated program is a valid port range between
    0 and 65535, of a single port when one side is the public internet, and never
    from the public internet to itself. *)
Theorem eval_connections_valid :
  evalProgram n parsed emptyState = Ok (v, gctx, s) →
  ∃ g, globs s !! 0%nat = Some g ∧ ∀ c, c ∈ connections g → connOk c.
Proof.
  intros [Hs _]%evalProgram_inv. destruct (inv_glob0 _ _ _ Hs) as [g Hg]. exists g.
  split; [done|]. apply (inv_conns _ _ _ Hs g Hg).
Qed.

(** C19: The tables of an evaluated program list every container and every
    machine that was created, once and in the order of creation, whatever
    closures, modules and copied contexts they were created in; the commands and
    environments of the containers are strings. *)
Theorem eval_tables_complete :
  evalProgram n parsed emptyState = Ok (v, gctx, s) →
  ∃ g, globs s !! 0%nat = Some g ∧
    containers g = seq 0 (length (containerHeap s)) ∧
    machines g = seq 0 (length (machineHeap s)) ∧
    Forall containerOk (containerHeap s) ∧ Forall machineOk (machineHeap s).
Proof.
  intros [Hs _]%evalProgram_inv. destruct (inv_glob0 _ _ _ Hs) as [g Hg]. exists g.
  destruct (inv_containers _ _ _ Hs g Hg) as [Hc Hlc], (inv_machines _ _ _ Hs g Hg) as [Hm Hlm].
  rewrite Nat.add_0_r in Hlc, Hlm. rewrite Hlc, Hlm.
  split_and!; try done; apply Hs.
Qed.

End Properties.

(** ** Witnesses: the demonstration policy *)

Definition policyState : dslState := Eval vm_compute in
  finalState emptyState (evalDemo 10 Demo.policy).

Definition policyValue : ast := Eval vm_compute in
  match evalDemo 10 Demo.policy with Ok (v, _, _) => v | _ => emptyList end.

Lemma policy_evaluates :
  evalProgram (H := demoParams) 10 Demo.policy emptyState = Ok (policyValue, 0%nat, policyState).
Proof. vm_compute. reflexivity. Qed.

Lemma eval_labels_agree_witness :
  (∃ g, globs policyState !! 0%nat = Some g ∧
    (∀ a l, hasLabel policyState a l ↔ ∃ es, labels g !! l = Some (l, es) ∧ a ∈ es) ∧
    (∀ a ls, atomLabelsOf policyState a = Some ls → NoDup ls) ∧
    labels g !! PublicInternetLabel = None) ∧
  atomLabelsOf policyState (atomContainer 1) = Some ["web"%string].
Proof.
  split; [|reflexivity].
  apply (eval_labels_agree (H := demoParams) 10 Demo.policy policyValue 0).
  exact policy_evaluates.
Defined.

Lemma eval_connections_valid_witness :
  (∃ g, globs policyState !! 0%nat = Some g ∧ ∀ c, c ∈ connections g → connOk c) ∧
  (size ∘ connections <$> globs policyState !! 0%nat) = Some 2%nat.
Proof.
  split; [|vm_compute; reflexivity].
  apply (eval_connections_valid (H := demoParams) 10 Demo.policy policyValue 0).
  exact policy_evaluates.
Defined.

Lemma eval_tables_complete_witness :
  (∃ g, globs policyState !! 0%nat = Some g ∧
    containers g = seq 0 (length (containerHeap policyState)) ∧
    machines g = seq 0 (length (machineHeap policyState)) ∧
    Forall containerOk (containerHeap policyState) ∧ Forall machineOk (machineHeap policyState)) ∧
  length (containerHeap policyState) = 3%nat.
Proof.
  split; [|reflexivity].
  apply (eval_tables_complete (H := demoParams) 10 Demo.policy policyValue 0).
  exact policy_evaluates.
Defined.
