(* ===== verification/DslProps.v ===== *)
(** * dsl: the behaviour of single built-ins

    The functional behaviour of [range] and of the hash maps, and the error
    behaviour of built-ins on malformed arguments. *)

From stdpp Require Import base gmap list strings.
From Stdlib Require Import ZArith Lia.
From S2P Require Import Prelude DslAst DslFunc DslEval.

Local Open Scope Z_scope.

(** ** [range] *)

(** The numbers [start, start + step, ...] below [stop]. *)
Definition isRange (start stop step : Z) (zs : list Z) : Prop :=
  ∀ k z, zs !! k = Some z ↔ z = start + Z.of_nat k * step ∧ z < stop.

Lemma rangeLoop_spec fuel i stop step s :
  0 < step → int64 i → int64 stop → stop + step ≤ 2 ^ 63 →
  (1 ≤ fuel)%nat → stop - i ≤ step * (Z.of_nat fuel - 1) →
  ∃ zs, rangeLoop fuel i stop step s = Ok (astInt <$> zs, s) ∧ isRange i stop step zs.
Proof.
  intros Hstep Hi Hstop Hover. revert i Hi.
  induction fuel as [|fuel IH]; intros i Hi Hf1 Hf; [lia|]. cbn [rangeLoop].
  destruct (i <? stop) eqn:Hlt; [apply Z.ltb_lt in Hlt|apply Z.ltb_ge in Hlt].
  - unfold int64 in *. rewrite wrap64_id by (unfold int64; lia).
    destruct (IH (i + step)) as (zs & Heq & Hzs); [lia|nia|lia|].
    exists (i :: zs). unfold mbind, M_bind. rewrite Heq. split; [done|].
    intros [|k] z; cbn [lookup list_lookup].
    + split; [intros [= <-]; lia|]. intros [-> _]. f_equal. lia.
    + rewrite (Hzs k z). split; lia.
  - exists []. split; [done|]. intros k z. rewrite lookup_nil. split; [done|]. nia.
Qed.

Lemma rangeFuel_enough start stop step :
  0 < step →
  (1 ≤ rangeFuel start stop step)%nat ∧
  stop - start ≤ step * (Z.of_nat (rangeFuel start stop step) - 1).
Proof.
  intros Hstep. unfold rangeFuel. split; [lia|].
  pose proof (Z.mul_succ_div_gt (stop - start) step Hstep).
  destruct (Z.le_gt_cases 0 ((stop - start) / step + 1)).
  - rewrite Nat2Z.inj_succ, Z2Nat.id by lia. lia.
  - rewrite Nat2Z.inj_succ. nia.
Qed.

(** [range] with a positive step terminates and returns exactly the numbers
    [start, start + step, ...] below [stop], when the counter does not overflow. *)
Theorem rangeImpl_correct (ctx : nat) (start stop step : Z) (s : dslState) :
  0 < step → int64 start → int64 stop → stop + step ≤ 2 ^ 63 →
  ∃ zs, rangeImpl ctx [astInt start; astInt stop; astInt step] s =
          Ok (appendedList (astInt <$> zs), s) ∧
        isRange start stop step zs.
Proof.
  intros Hstep Hs Ht Hover. destruct (rangeFuel_enough start stop step Hstep) as [Hf1 Hf2].
  destruct (rangeLoop_spec _ start stop step s Hstep Hs Ht Hover Hf1 Hf2) as (zs & Heq & Hzs).
  exists zs. split; [|done].
  change ((if step <=? 0 then errorf "step must be greater than zero" []
           else asts ← rangeLoop (rangeFuel start stop step) start stop step;
                mret (appendedList asts)) s = Ok (appendedList (astInt <$> zs), s)).
  rewrite (proj2 (Z.leb_gt step 0) Hstep). unfold mbind, M_bind. by rewrite Heq.
Qed.

Lemma rangeImpl_correct_witness :
  (∃ zs, rangeImpl 0 [astInt 3; astInt 10; astInt 3] emptyState =
          Ok (appendedList (astInt <$> zs), emptyState) ∧ isRange 3 10 3 zs) ∧
  rangeImpl 0 [astInt 3; astInt 10; astInt 3] emptyState =
    Ok (appendedList [astInt 3; astInt 6; astInt 9], emptyState).
Proof.
  split; [|vm_compute; reflexivity].
  apply rangeImpl_correct; unfold int64; lia.
Defined.

(** [range] with one argument counts from 0 to [n - 1]. *)
Lemma rangeImpl_one ctx stop s :
  rangeImpl ctx [astInt stop] s = rangeImpl ctx [astInt 0; astInt stop; astInt 1] s.
Proof. reflexivity. Qed.

(** ** Hash maps *)

(** Floats are equal when both are zeros or they are the same number. *)
Definition isFloatZero (x : float64) : bool :=
  match x with SpecFloat.S754_zero _ => true | _ => false end.

Lemma floatEq_spec x y :
  floatEq x y = true ↔
  (isFloatZero x = true ∧ isFloatZero y = true) ∨ (x = y ∧ x ≠ SpecFloat.S754_nan).
Proof.
  unfold floatEq, SpecFloat.SFeqb.
  destruct x as [[]|[]| |[] m e], y as [[]|[]| |[] m' e']; simpl;
    try (split; [|intros [[??]|[[=] ?]]]; by auto); try naive_solver;
    destruct (Z.compare_spec e e') as [->| |]; try (split; [done|]; intros [[[=] _]|[[= -> ->] _]]; lia);
    change (Pos.compare_cont Eq m m') with (m ?= m')%positive;
    destruct (Pos.compare_spec m m') as [->| |]; simpl;
    try (split; [done|]; intros [[[=] _]|[[= ->] _]]; lia); split; auto; intros _; right; done.
Qed.

(** Keys are compared by a partial equivalence. *)
Lemma keyEq_spec a b :
  keyEq a b = true ↔
  match a, b with
  | astFloat x, astFloat y => floatEq x y = true
  | astRange i mn mx, astRange i' mn' mx' =>
      i = i' ∧ floatEq mn mn' = true ∧ floatEq mx mx' = true
  | _, _ => hashable a = true ∧ a = b
  end.
Proof.
  destruct a, b; cbn [keyEq hashable]; try (split; [discriminate|intros [? ?]; discriminate]);
    rewrite ?bool_decide_eq_true, ?Z.eqb_eq, ?Nat.eqb_eq, ?eqb_true_iff;
    try (split; [by intros ->|by intros [_ [= ->]]]); try done.
  rewrite !andb_true_iff, bool_decide_eq_true. tauto.
Qed.

Lemma floatEq_symm x y : floatEq x y = true → floatEq y x = true.
Proof. rewrite !floatEq_spec. intros [[??]|[-> ?]]; auto. Qed.

Lemma floatEq_transitive x y z : floatEq x y = true → floatEq y z = true → floatEq x z = true.
Proof.
  rewrite !floatEq_spec. intros [[Hx Hy]|[-> Hx]] [[Hy' Hz]|[-> Hy']]; auto.
Qed.

Lemma keyEq_symm a b : keyEq a b = true → keyEq b a = true.
Proof.
  rewrite !keyEq_spec. destruct a, b; try (intros [? [=]]; subst; done);
    [apply floatEq_symm|intros (-> & ? & ?); eauto using floatEq_symm].
Qed.

Lemma keyEq_transitive a b c : keyEq a b = true → keyEq b c = true → keyEq a c = true.
Proof.
  intros Hab Hbc. pose proof Hab as Hspec. rewrite keyEq_spec in Hspec.
  destruct a, b; try discriminate Hab; try (destruct Hspec as [_ [=]]; subst; done);
    rewrite keyEq_spec in Hbc; rewrite keyEq_spec; destruct c; try (by destruct Hbc).
  - eauto using floatEq_transitive.
  - destruct Hspec as (-> & ? & ?), Hbc as (-> & ? & ?). eauto using floatEq_transitive.
Qed.

Lemma hmapLookup_insert m k v : keyEq k k = true → hmapLookup (hmapInsert m k v) k = Some v.
Proof.
  intros Hk. induction m as [|[k' v'] m IH]; simpl; [by rewrite Hk|].
  destruct (keyEq k' k) eqn:Hkk; simpl; by rewrite Hkk.
Qed.

Lemma hmapLookup_insert_ne m k v j :
  keyEq k j = false → hmapLookup (hmapInsert m k v) j = hmapLookup m j.
Proof.
  intros Hkj. induction m as [|[k' v'] m IH]; simpl; [by rewrite Hkj|].
  destruct (keyEq k' k) eqn:Hkk; simpl; [|by rewrite IH].
  destruct (keyEq k' j) eqn:Hj; [|done].
  by rewrite (keyEq_transitive k k' j (keyEq_symm _ _ Hkk) Hj) in Hkj.
Qed.

Lemma hmapGet_run ctx m j s :
  hashable j = true →
  hmapGetImpl ctx [astHmap m; j] s =
    match hmapLookup m j with
    | Some v => Ok (v, s)
    | None => Err (Errorf "undefined key: %s" [j])
    end.
Proof.
  intros Hj. change (hmapGetImpl ctx [astHmap m; j] s) with
    ((_ ← checkKey j; match hmapLookup m j with
                      | Some v => mret v
                      | None => errorf "undefined key: %s" [j]
                      end) s).
  unfold checkKey. rewrite Hj. by destruct (hmapLookup m j).
Qed.

(** [hmapSet] followed by [hmapGet] gives the value that was set for an equal
    key, and what the old map gave for any other key, a missing key being an error
    in both; the old map is not changed. *)
Theorem hmap_set_get (ctx : nat) (m : list (ast * ast)) (k v j : ast) (s : dslState) :
  hashable k = true → keyEq k k = true → hashable j = true →
  ∃ m', hmapSetImpl ctx [astHmap m; k; v] s = Ok (astHmap m', s) ∧
    hmapGetImpl ctx [astHmap m'; j] s =
      if keyEq k j then Ok (v, s) else hmapGetImpl ctx [astHmap m; j] s.
Proof.
  intros Hk Hkk Hj. exists (hmapInsert m k v). split.
  - change ((_ ← checkKey k; mret (astHmap (hmapInsert m k v))) s =
      Ok (astHmap (hmapInsert m k v), s)). unfold checkKey. by rewrite Hk.
  - rewrite !hmapGet_run by done.
    destruct (keyEq k j) eqn:Hkj; [|by rewrite hmapLookup_insert_ne].
    assert (hmapLookup (hmapInsert m k v) j = Some v) as ->; [|done].
    induction m as [|[k' v'] m IH]; simpl; [by rewrite Hkj|].
    destruct (keyEq k' k) eqn:Hk'; simpl; [by rewrite (keyEq_transitive _ _ _ Hk' Hkj)|].
    destruct (keyEq k' j) eqn:Hj'; [|done].
    by rewrite (keyEq_transitive _ _ _ Hj' (keyEq_symm _ _ Hkj)) in Hk'.
Qed.

Lemma hmap_set_get_witness :
  ∃ m', hmapSetImpl 0
          [astHmap [(astString "a", astInt 1)]; astInt 7; astBool true] emptyState =
          Ok (astHmap m', emptyState) ∧
    hmapGetImpl 0 [astHmap m'; astInt 7] emptyState =
      Ok (astBool true, emptyState).
Proof.
  apply (hmap_set_get 0 [(astString "a", astInt 1)] (astInt 7) (astBool true)
           (astInt 7) emptyState); reflexivity.
Defined.
