(* ===== verification/Dsl.v ===== *)
(** * dsl: imports and queries

    Model of [src/dsl/imports.go], [src/dsl/dsl.go] and [src/dsl/key.go]: how the
    imports of a specification are resolved, how a specification is evaluated to
    a [Dsl], and how the rest of the system reads the result. A parsed file is a
    list of syntax trees; the files are a parameter. *)

From stdpp Require Import base gmap list strings.
From Stdlib Require Import ZArith Lia.
From S2P Require Import Prelude DslAst DslFunc DslEval DslInv DslEvalInv.

Local Open Scope Z_scope.

(** ** Imports *)

(** The name of the module an [import] form names, or the empty string. The form
    [(import)] makes the code index out of range. *)
Definition parseImport (a : ast) : D string :=
  match a with
  | astSexp (astIdent i :: rest) _ =>
      if decide (i = "import"%string) then
        match rest with
        | [] => panic "index out of range"
        | astString name :: _ => mret name
        | _ :: _ => mret ""%string
        end
      else mret ""%string
  | _ => mret ""%string
  end.

Section Imports.
(** The files: what opening a path and parsing the file gives. *)
Variable files : string → option (outcome goError (list ast)).

Definition modulePath (path name : string) : string := path ++ "/" ++ name ++ ".spec".

(** The first path that has the module. *)
Fixpoint openModule (paths : list string) (name : string) : option (outcome goError (list ast)) :=
  match paths with
  | [] => None
  | path :: rest =>
      match files (modulePath path name) with
      | Some f => Some f
      | None => openModule rest name
      end
  end.

(** [lift o]: a computation with a known outcome. *)
Definition lift {A} (o : outcome goError A) : D A := λ s,
  match o with
  | Ok a => Ok (a, s)
  | Err e => Err e
  | Panic w => Panic w
  | OutOfFuel => OutOfFuel
  end.

Section Loop.
Variables (rec : list ast → list string → D (list ast)) (paths imported : list string).

(** The loop of [resolveImportsRec] over the forms of one file. *)
Fixpoint resolveImportsLoop (asts : list ast) (top : bool) : D (list ast) :=
  match asts with
  | [] => mret []
  | a :: rest =>
      name ← parseImport a;
      if decide (name = ""%string) then
        news ← resolveImportsLoop rest false; mret (a :: news)
      else if negb top then errorf "import must be begin the module" []
      else if decide (name ∈ imported) then
        errorf "import cycle: %s" (astString <$> imported ++ [name])
      else
        match openModule paths name with
        | None => errorf "unable to open import %s" [astString name]
        | Some f =>
            parsed ← lift f;
            body ← rec parsed (imported ++ [name]);
            news ← resolveImportsLoop rest top;
            mret (astModule name body :: news)
        end
  end.

End Loop.

Fixpoint resolveImportsRec (fuel : nat) (paths : list string) (asts : list ast)
    (imported : list string) : D (list ast) :=
  match fuel with
  | O => outOfFuel
  | S n => resolveImportsLoop (resolveImportsRec n paths) paths imported asts true
  end.

(** The fuel is one more than the number of modules that can be nested. *)
Definition resolveImports (modules : nat) (asts : list ast) (paths : list string) : D (list ast) :=
  resolveImportsRec (S modules) paths asts [].

Section New.
Context `{DslParams}.

(** [New], from the parsed specification: resolve the imports and evaluate. *)
Definition New (modules fuel : nat) (parsed : list ast) (paths : list string) : D nat :=
  resolved ← resolveImports modules parsed paths;
  '(_, ctx) ← evalProgram fuel (astRoot resolved);
  mret ctx.

End New.

(** *** Termination of the import resolution *)

(** Not even the resolution of a cyclic import runs out of fuel. *)
Definition noFuelLoss {A} (c : D A) : Prop := ∀ s, c s ≠ OutOfFuel.

Lemma noFuelLoss_bind {A B} (c : D A) (k : A → D B) :
  noFuelLoss c → (∀ a, noFuelLoss (k a)) → noFuelLoss (c ≫= k).
Proof.
  intros Hc Hk s. unfold mbind, M_bind. specialize (Hc s).
  destruct (c s) as [[a s']| | |]; try done. apply Hk.
Qed.

Lemma noFuelLoss_parseImport a : noFuelLoss (parseImport a).
Proof. intros s. unfold parseImport. by repeat case_match. Qed.

Section Termination.
Context (paths : list string) (names : list string).
(** Only finitely many modules can be opened, and parsing returns. *)
Hypothesis Hnames : ∀ name f, openModule paths name = Some f → name ∈ names.
Hypothesis Hparse : ∀ name f, openModule paths name = Some f → f ≠ OutOfFuel.

Lemma resolveImportsLoop_noFuelLoss rec imported asts top :
  (∀ name parsed, name ∈ names → name ∉ imported → noFuelLoss (rec parsed (imported ++ [name]))) →
  noFuelLoss (resolveImportsLoop rec paths imported asts top).
Proof.
  intros Hrec. revert top. induction asts as [|a rest IH]; intros top; simpl; [by intros s|].
  apply noFuelLoss_bind; [apply noFuelLoss_parseImport|intros name].
  case_decide; [apply noFuelLoss_bind; [apply IH|by intros ? s]|].
  destruct (negb top); [by intros s|]. case_decide; [by intros s|].
  destruct (openModule paths name) as [f|] eqn:Hf; [|by intros s].
  apply noFuelLoss_bind; [intros s; pose proof (Hparse _ _ Hf); by destruct f|intros parsed].
  apply noFuelLoss_bind; [eauto|intros body].
  apply noFuelLoss_bind; [apply IH|by intros ? s].
Qed.

Lemma resolveImportsRec_noFuelLoss n asts imported :
  NoDup imported → imported ⊆ names → (length names < n + length imported)%nat →
  noFuelLoss (resolveImportsRec n paths asts imported).
Proof.
  revert asts imported. induction n as [|n IH]; intros asts imported Hnd Hsub Hlen.
  - pose proof (submseteq_length _ _ (NoDup_submseteq _ _ Hnd Hsub)). lia.
  - simpl. apply resolveImportsLoop_noFuelLoss. intros name parsed Hin Hnew. apply IH.
    + apply NoDup_app. split_and!; [done| |apply NoDup_singleton].
      intros x Hx ->%list_elem_of_singleton. done.
    + intros x [?| ->%list_elem_of_singleton]%elem_of_app; auto.
    + rewrite length_app. simpl. lia.
Qed.

(** C23: Import resolution terminates, also when modules import each other in a
    cycle: nesting is bounded by the number of modules that can be opened, because
    a module that is already being imported is an error. *)
Theorem resolveImports_terminates (asts : list ast) (s : dslState) :
  resolveImports (length names) asts paths s ≠ OutOfFuel.
Proof.
  apply resolveImportsRec_noFuelLoss; [constructor|set_solver|simpl; lia].
Qed.

End Termination.

End Imports.

(** Two modules that import each other. *)
Definition cyclicFiles (path : string) : option (outcome goError (list ast)) :=
  if decide (path = "lib/a.spec"%string) then
    Some (Ok [Demo.sexp [Demo.ident "import"; Demo.str "b"]])
  else if decide (path = "lib/b.spec"%string) then
    Some (Ok [Demo.sexp [Demo.ident "import"; Demo.str "a"]])
  else None.

Lemma string_app_inj_suffix (a b c : string) : (a ++ c = b ++ c)%string → a = b.
Proof.
  intros Heq. apply (f_equal String.list_ascii_of_string) in Heq.
  assert (∀ x y, String.list_ascii_of_string (x ++ y) =
    (String.list_ascii_of_string x ++ String.list_ascii_of_string y)%list) as Happ.
  { intros x y. induction x; simpl; [done|by rewrite IHx]. }
  rewrite !Happ in Heq. apply app_inv_tail in Heq.
  rewrite <- (String.string_of_list_ascii_of_string a),
    <- (String.string_of_list_ascii_of_string b). by f_equal.
Qed.

Lemma cyclicFiles_names name f :
  openModule cyclicFiles ["lib"%string] name = Some f → name ∈ ["a"; "b"]%string ∧ f ≠ OutOfFuel.
Proof.
  cbn [openModule]. unfold cyclicFiles, modulePath.
  destruct (decide _) as [Ha|Ha]; [|destruct (decide _) as [Hb|Hb]]; [..|done]; intros [= <-];
    (split; [|done]).
  - change ("lib/" ++ name ++ ".spec" = "lib/" ++ "a" ++ ".spec")%string in Ha.
    injection Ha as Ha. change (name ++ ".spec" = "a" ++ ".spec")%string in Ha.
    apply string_app_inj_suffix in Ha. set_solver.
  - change ("lib/" ++ name ++ ".spec" = "lib/" ++ "b" ++ ".spec")%string in Hb.
    injection Hb as Hb. change (name ++ ".spec" = "b" ++ ".spec")%string in Hb.
    apply string_app_inj_suffix in Hb. set_solver.
Qed.

Lemma resolveImports_terminates_witness :
  resolveImports cyclicFiles 2 [Demo.sexp [Demo.ident "import"; Demo.str "a"]] ["lib"%string]
    emptyState ≠ OutOfFuel ∧
  resolveImports cyclicFiles 2 [Demo.sexp [Demo.ident "import"; Demo.str "a"]] ["lib"%string]
    emptyState =
    Err (Errorf "import cycle: %s" [astString "a"; astString "b"; astString "a"]).
Proof.
  split; [|vm_compute; reflexivity].
  apply (resolveImports_terminates cyclicFiles ["lib"%string] ["a"; "b"]%string);
    intros name f Hf; apply (cyclicFiles_names name f Hf).
Defined.

(** ** Errors *)

(** The most nested position that has a line number. *)
Fixpoint innermostPos (pos : position) (err : goError) : position :=
  match err with
  | Errorf _ _ => pos
  | DslError childPos childErr =>
      let innerPos := innermostPos childPos childErr in
      if posLine innerPos =? 0 then pos else innerPos
  end.

Fixpoint innermostError (err : goError) : goError :=
  match err with
  | DslError _ childErr => innermostError childErr
  | Errorf _ _ => err
  end.

(** What [Error()] renders: the file name, the line and the message. *)
Definition dslErrorParts (pos : position) (err : goError) : string * Z * goError :=
  let p := innermostPos pos err in (posFilename p, posLine p, innermostError err).

(** The positions of an error trace, from the outside in. *)
Fixpoint errorTrace (err : goError) : list position :=
  match err with
  | DslError pos e => pos :: errorTrace e
  | Errorf _ _ => []
  end.

(** The position an error is reported at is the innermost one of its trace
    that has a line number, and the outermost one when none has. *)
Theorem innermostPos_spec (pos : position) (err : goError) :
  innermostPos pos err =
    default pos (last (base.filter (λ p, posLine p ≠ 0) (pos :: errorTrace err))).
Proof.
  revert pos. induction err as [f args|childPos childErr IH]; intros pos.
  - cbn [innermostPos errorTrace]. rewrite filter_cons. by case_decide.
  - cbn [innermostPos errorTrace]. rewrite (filter_cons _ pos), IH.
    set (l := base.filter _ (childPos :: errorTrace childErr)) in *.
    assert (∀ x, last l = Some x → posLine x ≠ 0) as Hl.
    { intros x Hx%last_Some_elem_of. by apply list_elem_of_filter in Hx as [? _]. }
    destruct (last l) as [x|] eqn:Hlast; simpl.
    + specialize (Hl x eq_refl). destruct (Z.eqb_spec (posLine x) 0); [done|].
      case_decide; [|by rewrite Hlast]. by rewrite last_cons, Hlast.
    + apply last_None in Hlast. assert (posLine childPos = 0) as ->.
      { subst l. rewrite filter_cons in Hlast. case_decide; [done|lia]. }
      rewrite Hlast. by case_decide.
Qed.

(** ** Queries *)

Record Range : Type := mkRange { rangeMin : float64; rangeMax : float64 }.

(** A maximum of 0 stands for no maximum. *)
Definition Accepts (dslr : Range) (x : float64) : bool :=
  floatLe (rangeMin dslr) x && (floatEq (rangeMax dslr) floatZero || floatLe x (rangeMax dslr)).

Record DslContainer : Type := mkDslContainer {
  dcImage : string;
  dcCommand : slice string;
  dcEnv : gmap string string;
  dcExclusive : gset (string * string);
  dcLabels : slice string
}.

Record DslMachine : Type := mkDslMachine {
  dmProvider : string;
  dmRole : string;
  dmSize : string;
  dmCPU : Range;
  dmRAM : Range;
  dmDiskSize : Z;
  dmRegion : string;
  dmSSHKeys : slice string;
  dmLabels : slice string
}.

(** The tables of the context that a [Dsl] holds. *)
Definition dslTables (ctx : nat) : D globals := c ← getCtx ctx; getGlob (glob c).

(** The entries of [c.env] have distinct keys, so the order of the loop that
    copies them does not matter. *)
Definition QueryContainers (ctx : nat) : D (list DslContainer) :=
  g ← dslTables ctx;
  mapEach (λ p,
    c ← getContainer p;
    command ← mapEach assertString (cCommand c);
    env ← mapEach (λ '(k, v), key ← assertString k; val ← assertString v; mret (key, val)) (cEnv c);
    mret (mkDslContainer (cImage c) (mkSlice command)
            (foldl (λ m '(k, v), <[k:=v]> m) ∅ env) (cExclusive c) (mkSlice (cLabels c))))
    (containers g).

Definition QueryConnections (ctx : nat) : D (list dslConnection) :=
  g ← dslTables ctx; mret (elements (connections g)).

(** *** SSH keys *)

(** The cache of the keys of GitHub users, and the number of requests made. *)
Record keyState : Type := mkKeyState {
  githubCache : gmap string (list string);
  requests : nat
}.

Section Keys.
(** The answer of GitHub to the [n]-th request. *)
Variable getGithubKeys : nat → string → option (list string).

Definition githubKeys (username : string) : M Empty_set keyState (option (list string)) := λ st,
  match githubCache st !! username with
  | Some keys => Ok (Some keys, st)
  | None =>
      match getGithubKeys (requests st) username with
      | None => Ok (None, mkKeyState (githubCache st) (S (requests st)))
      | Some keys => Ok (Some keys, mkKeyState (<[username:=keys]> (githubCache st)) (S (requests st)))
      end
  end.

(** [key.keys()]; a value that is not a key cannot be in a machine. *)
Definition keysOf (k : ast) : M Empty_set keyState (option (list string)) :=
  match k with
  | astGithubKey username => githubKeys username
  | astPlaintextKey key => mret (Some [key])
  | _ => mret None
  end.

(** Keys that cannot be retrieved are skipped. *)
Definition parseKeys (rawKeys : list ast) : M Empty_set keyState (slice string) :=
  keys ← mapEach keysOf rawKeys; mret (mkSlice (concat (omap id keys))).

Definition convertAstMachine (m : machineObj) : M Empty_set keyState DslMachine :=
  keys ← parseKeys (mSshKeys m);
  let '(_, ramMin, ramMax) := mRam m in
  let '(_, cpuMin, cpuMax) := mCpu m in
  mret (mkDslMachine (mProvider m) (mRole m) (mSize m) (mkRange cpuMin cpuMax)
          (mkRange ramMin ramMax) (mDiskSize m) (mRegion m) keys (mkSlice (mLabels m))).

Definition machineObjs (ctx : nat) : D (list machineObj) :=
  g ← dslTables ctx; mapEach getMachine (machines g).

Definition QueryMachines (s : dslState) (ctx : nat) : M Empty_set keyState (list DslMachine) :=
  match machineObjs ctx s with
  | Ok (objs, _) => mapEach convertAstMachine objs
  | _ => panic "nil pointer"
  end.

(** The machines of a label, or nil if it is not defined or has a container. *)
Definition QueryMachineSlice (s : dslState) (ctx : nat) (key : string)
    : M Empty_set keyState (slice DslMachine) :=
  match dslTables ctx s with
  | Ok (g, _) =>
      match labels g !! key with
      | None => mret None
      | Some (_, elems) =>
          let fix loop (l : list atom) : M Empty_set keyState (option (list DslMachine)) :=
            match l with
            | [] => mret (Some [])
            | atomContainer _ :: _ => mret None
            | atomMachine p :: rest =>
                match machineHeap s !! p with
                | None => panic "nil pointer"
                | Some m =>
                    x ← convertAstMachine m;
                    xs ← loop rest;
                    mret (match xs with Some l' => Some (x :: l') | None => None end)
                end
            end in
          r ← loop elems; mret (match r with Some l => mkSlice l | None => None end)
      end
  | _ => panic "nil pointer"
  end.

End Keys.

(** *** Values by name *)

Definition lookupBind (s : dslState) (ctx : nat) (key : string) : option ast :=
  c ← ctxs s !! ctx; binds c !! key.

Definition QueryFloat (s : dslState) (ctx : nat) (key : string) : option float64 :=
  match lookupBind s ctx key with Some (astFloat x) => Some x | _ => None end.

Definition QueryInt (s : dslState) (ctx : nat) (key : string) : Z :=
  match lookupBind s ctx key with Some (astInt x) => x | _ => 0 end.

Definition QueryString (s : dslState) (ctx : nat) (key : string) : string :=
  match lookupBind s ctx key with Some (astString x) => x | _ => ""%string end.

(** Nil unless the value is a list of strings. *)
Definition QueryStrSlice (s : dslState) (ctx : nat) (key : string) : slice string :=
  match lookupBind s ctx key with
  | Some (astList _ l) =>
      mapM (λ a, match a with astString x => Some x | _ => None end) l
  | _ => None
  end.

(** *** Queries on an evaluated specification do not panic *)

Lemma mapEach_total {A B} (f : A → D B) (R : A → B → Prop) l s :
  Forall (λ x, ∃ y, f x s = Ok (y, s) ∧ R x y) l →
  ∃ ys, mapEach f l s = Ok (ys, s) ∧ Forall2 R l ys.
Proof.
  induction 1 as [|x l (y & Hy & HR) _ (ys & Hys & HF)]; simpl; [by exists []|].
  exists (y :: ys). unfold mbind, M_bind. rewrite Hy, Hys. eauto using Forall2_cons_2.
Qed.

(** The queried container is a faithful copy of the object of the heap. *)
Definition describes (c : containerObj) (d : DslContainer) : Prop :=
  dcImage d = cImage c ∧ astString <$> elems (dcCommand d) = cCommand c ∧
  (∀ k v, dcEnv d !! k = Some v ↔ (astString k, astString v) ∈ cEnv c) ∧
  dcExclusive d = cExclusive c ∧ elems (dcLabels d) = cLabels c.

Lemma foldl_insert_lookup (l : list (string * string)) (m : gmap string string) k v :
  NoDup l.*1 → (∀ x, x ∈ l.*1 → m !! x = None) →
  foldl (λ m '(k, v), <[k:=v]> m) m l !! k = Some v ↔ m !! k = Some v ∨ (k, v) ∈ l.
Proof.
  revert m. induction l as [|[k' v'] l IH]; intros m; rewrite ?fmap_cons; simpl.
  - intros _ _. rewrite elem_of_nil. tauto.
  - rewrite NoDup_cons. intros [Hk' Hnd] Hm. rewrite IH; [|done|].
    + rewrite lookup_insert_Some, elem_of_cons. split.
      * intros [[[-> ->]|[_ ?]]|?]; auto.
      * intros [Hmk|[[= -> ->]|?]]; [|auto..]. left. right. split; [|done].
        intros ->. rewrite Hm in Hmk; [done|constructor].
    + intros x Hx. rewrite lookup_insert_ne by set_solver. apply Hm. by constructor.
Qed.

Lemma assertStrings_total (l : list ast) (s : dslState) :
  Forall isString l → ∃ strs, mapEach assertString l s = Ok (strs, s) ∧ astString <$> strs = l.
Proof.
  intros Hl. destruct (mapEach_total assertString (λ a x, astString x = a) l s) as (ys & Hys & HF).
  - eapply Forall_impl; [done|]. intros []; simpl; try done. eauto.
  - exists ys. split; [done|]. clear Hys Hl. induction HF; [done|]. rewrite fmap_cons. by f_equal.
Qed.

Lemma assertEnv_total (l : list (ast * ast)) (s : dslState) :
  Forall (λ kv, isString kv.1 ∧ isString kv.2) l →
  ∃ env, mapEach (λ '(k, v), key ← assertString k; val ← assertString v; mret (key, val)) l s =
           Ok (env, s) ∧ (λ '(k, v), (astString k, astString v)) <$> env = l.
Proof.
  intros Hl. edestruct (mapEach_total (λ '(k, v), key ← assertString k; val ← assertString v;
    mret (key, val)) (λ a x, (astString x.1, astString x.2) = a) l s) as (ys & Hys & HF).
  - eapply Forall_impl; [done|]. intros [[] []]; simpl; try (by intros []).
    intros _. eexists (_, _). split; reflexivity.
  - exists ys. split; [done|]. clear Hys Hl. induction HF as [|[??] [??]]; [done|].
    rewrite fmap_cons. by f_equal.
Qed.

Lemma queryContainer_total (s : dslState) c :
  containerOk c →
  ∃ command env,
    mapEach assertString (cCommand c) s = Ok (command, s) ∧
    mapEach (λ '(k, v), key ← assertString k; val ← assertString v; mret (key, val)) (cEnv c) s =
      Ok (env, s) ∧
    describes c (mkDslContainer (cImage c) (mkSlice command)
      (foldl (λ m '(k, v), <[k:=v]> m) ∅ env) (cExclusive c) (mkSlice (cLabels c))).
Proof.
  intros (Hcmd & Henv & Hnd & _).
  destruct (assertStrings_total _ s Hcmd) as (command & Hc & Hceq).
  destruct (assertEnv_total _ s Henv) as (env & He & Heeq).
  exists command, env. split_and!; try done. unfold describes. simpl. rewrite !elems_mkSlice.
  split_and!; try done. intros k v. rewrite foldl_insert_lookup.
  - rewrite lookup_empty, <- Heeq, list_elem_of_fmap. split.
    + intros [?|?]; [done|]. by exists (k, v).
    + intros ([k' v'] & [= -> ->] & ?). auto.
  - rewrite <- Heeq in Hnd. apply (NoDup_fmap_1 astString). rewrite <- list_fmap_compose in Hnd.
    rewrite <- list_fmap_compose. erewrite list_fmap_ext; [exact Hnd|]. by intros ? [??] ?.
  - intros x _. apply lookup_empty.
Qed.

Lemma Forall2_seq_lookup {A B} (R : A → B → Prop) (l : list A) (k : list B) :
  Forall2 (λ p d, ∃ c, l !! p = Some c ∧ R c d) (seq 0 (length l)) k → Forall2 R l k.
Proof.
  intros HF. pose proof (Forall2_length _ _ _ HF) as Hlen. rewrite length_seq in Hlen.
  apply Forall2_same_length_lookup_2; [done|]. intros i x y Hx Hy.
  destruct (Forall2_lookup_r _ _ _ _ _ HF Hy) as (p & Hp & c & Hc & HR).
  apply lookup_seq in Hp as [-> _]. simpl in Hc. by simplify_eq.
Qed.

Section Queries.
Context `{DslParams}.

(** C26: On an evaluated specification [QueryContainers] does not panic, whatever
    the specification: it returns a faithful description of every container that
    the evaluation created, in the order of creation. *)
Theorem queryContainers_total (n : nat) (parsed v : ast) (ctx : nat) (s : dslState) :
  evalProgram n parsed emptyState = Ok (v, ctx, s) →
  ∃ ds, QueryContainers ctx s = Ok (ds, s) ∧ Forall2 describes (containerHeap s) ds.
Proof.
  intros Hev. destruct (evalProgram_tables n parsed v ctx s Hev) as (c & g & Hc & Hg & Hcs & Hok).
  assert (∃ ds, mapEach (λ p,
      c ← getContainer p;
      command ← mapEach assertString (cCommand c);
      env ← mapEach (λ '(k, v), key ← assertString k; val ← assertString v; mret (key, val))
              (cEnv c);
      mret (mkDslContainer (cImage c) (mkSlice command)
        (foldl (λ m '(k, v), <[k:=v]> m) ∅ env) (cExclusive c) (mkSlice (cLabels c))))
      (containers g) s = Ok (ds, s) ∧
    Forall2 (λ p d, ∃ c, containerHeap s !! p = Some c ∧ describes c d) (containers g) ds)
    as (ds & Hds & HF).
  { apply mapEach_total. apply Forall_forall. intros p Hp. rewrite Hcs in Hp.
    apply elem_of_seq in Hp. destruct (lookup_lt_is_Some_2 (containerHeap s) p) as [c' Hc']; [lia|].
    destruct (queryContainer_total s c') as (command & env & H1 & H2 & H3);
      [by eapply Forall_lookup_1|].
    eexists. split; [|eauto]. unfold mbind, M_bind, getContainer, deref.
    rewrite Hc', H1. unfold mbind, M_bind in H2. by rewrite H2. }
  exists ds. split.
  - unfold QueryContainers, dslTables, getCtx, getGlob. unfold mbind at 1, M_bind at 1.
    unfold mbind at 1, M_bind at 1. unfold deref at 1. rewrite Hc. unfold deref at 1. by rewrite Hg.
  - rewrite Hcs in HF. by apply Forall2_seq_lookup.
Qed.

End Queries.

Lemma queryContainers_total_witness :
  (∃ ds, QueryContainers 0 policyState = Ok (ds, policyState) ∧
    Forall2 describes (containerHeap policyState) ds) ∧
  match QueryContainers 0 policyState with
  | Ok (ds, _) => dcCommand <$> ds = [Some ["-q"]; Some ["-q"]; None]%string
  | _ => False
  end.
Proof.
  split; [|vm_compute; reflexivity].
  apply (queryContainers_total (H := demoParams) 10 Demo.policy policyValue).
  exact policy_evaluates.
Defined.
