(* ===== verification/Reconcile.v ===== *)
(** * The reconciliation pattern

    Several components make a table reflect a list of wanted elements the same
    way: select the rows, [Join] the wanted elements with them, remove the rows
    that were not matched, insert a row for each element that was not matched,
    and commit every pair ([machineTxn] of [src/engine/engine.go],
    [updateConnections] and [updateContainers] of [src/minion/engine.go]). This
    file states once what that does to the table. *)

From stdpp Require Import base gmap list strings.
From Stdlib Require Import ZArith Lia.
From S2P Require Import Prelude Join DbRows Db DbProps.

Local Open Scope Z_scope.

(** Operations on the rows of type [R] do not change the table of [R']. *)
Class RowDisjoint (R R' : Type) `{Row R, Row R'} : Prop :=
  getTable_setTable_ne : ∀ t db,
    getTable (R := R') (setTable (R := R) t db) = getTable (R := R') db.

#[global] Instance Machine_Cluster_disjoint : RowDisjoint Machine Cluster.
Proof. by intros t db. Qed.
#[global] Instance Container_Connection_disjoint : RowDisjoint Container Connection.
Proof. by intros t db. Qed.
#[global] Instance Connection_Container_disjoint : RowDisjoint Connection Container.
Proof. by intros t db. Qed.
#[global] Instance Minion_Container_disjoint : RowDisjoint Minion Container.
Proof. by intros t db. Qed.
#[global] Instance Minion_Connection_disjoint : RowDisjoint Minion Connection.
Proof. by intros t db. Qed.
#[global] Instance Container_Minion_disjoint : RowDisjoint Container Minion.
Proof. by intros t db. Qed.
#[global] Instance Connection_Minion_disjoint : RowDisjoint Connection Minion.
Proof. by intros t db. Qed.
#[global] Instance Cluster_Machine_disjoint : RowDisjoint Cluster Machine.
Proof. by intros t db. Qed.

Section Reconcile.
Context {R : Type} `{Row R, !RowLaws R, !RowFrame R}.

(** ** Loops of operations *)

(** The rows of [us] written over a row map. *)
Definition overlay (us : list R) (m : gmap Z R) : gmap Z R :=
  foldl (λ m u, <[getID u:=u]> m) m us.

(** The rows of [rs] removed from a row map. *)
Definition erase (rs : list R) (m : gmap Z R) : gmap Z R :=
  foldl (λ m r, delete (getID r) m) m rs.

Lemma overlay_lookup us m i :
  NoDup (getID <$> us) →
  (∀ u, u ∈ us → getID u = i → overlay us m !! i = Some u) ∧
  (i ∉ getID <$> us → overlay us m !! i = m !! i).
Proof.
  revert m. induction us as [|v us IH]; intros m Hnd; simpl; [set_solver|].
  rewrite fmap_cons in *. apply NoDup_cons in Hnd as [Hv Hnd]. destruct (IH (<[getID v:=v]> m) Hnd)
    as [H1 H2]. split.
  - intros u [->|Hu]%elem_of_cons Hi; [|auto]. subst i. rewrite H2 by done.
    apply lookup_insert_eq.
  - intros Hi. rewrite H2 by set_solver. apply lookup_insert_ne. set_solver.
Qed.

Lemma overlay_is_Some us m i : is_Some (m !! i) → is_Some (overlay us m !! i).
Proof.
  revert m. induction us as [|v us IH]; intros m Hi; simpl; [done|]. apply IH.
  destruct (decide (getID v = i)) as [->|]; [rewrite lookup_insert_eq; eauto|].
  by rewrite lookup_insert_ne.
Qed.

Lemma erase_lookup rs m i :
  erase rs m !! i = if decide (i ∈ getID <$> rs) then None else m !! i.
Proof.
  revert m. induction rs as [|r rs IH]; intros m; simpl; [done|]. rewrite IH, ?fmap_cons.
  destruct (decide (i ∈ getID <$> rs)) as [Hin|Hin].
  - rewrite decide_True by (by right). done.
  - destruct (decide (i = getID r)) as [->|Hne].
    + rewrite decide_True by left. apply lookup_delete_eq.
    + rewrite decide_False by (by intros [?|?]%elem_of_cons). by apply lookup_delete_ne.
Qed.

(** What a loop keeps besides the rows it is about. *)
Definition keeps (db db' : Database) : Prop :=
  dbWF db' ∧ idAlloc db ≤ idAlloc db' ∧
  ∀ (R' : Type) (HR' : Row R') (Hd : RowDisjoint R R') (HL : RowLaws R'),
    getTable (R := R') db' = getTable (R := R') db.

Lemma keeps_refl db : dbWF db → keeps db db.
Proof. intros Hwf. split_and!; [done|lia|done]. Qed.

Lemma keeps_trans db1 db2 db3 : keeps db1 db2 → keeps db2 db3 → keeps db1 db3.
Proof.
  intros (_ & H1 & F1) (W & H2 & F2). split_and!; [done|lia|].
  intros R' HR' Hd HL. by rewrite F2, F1.
Qed.

Lemma Remove_keeps (r : R) db db' : dbWF db → Remove r db = Ok (tt, db') → keeps db db'.
Proof.
  intros Hwf Hr. destruct (Remove_wf r db db' Hwf Hr) as [W I]. split_and!; [done|lia|].
  intros R' HR' Hd HL. injection Hr as <-. apply Hd.
Qed.

Lemma Commit_keeps (r : R) db db' : dbWF db → Commit r db = Ok (tt, db') → keeps db db'.
Proof.
  intros Hwf Hr. destruct (Commit_wf r db db' Hwf Hr) as [W I]. split_and!; [done|lia|].
  intros R' HR' Hd HL. unfold Commit in Hr. destruct (_ !! _); [|done].
  case_decide; inv_ok; [done|]. apply Hd.
Qed.

Lemma Insert_keeps (r : R) db db' :
  dbWF db → idAlloc db + 1 < 2 ^ 63 → Insert db = Ok (r, db') → keeps db db'.
Proof.
  intros Hwf Hroom Hr. destruct (Insert_wf r db db' Hwf Hroom Hr) as (W & I & _).
  split_and!; [done|lia|]. intros R' HR' Hd HL. unfold Insert in Hr.
  apply bind_Ok in Hr as (i & db1 & [= <- <-] & Hr).
  apply bind_Ok in Hr as ([] & db2 & [= <-] & Hr). inv_ok. rewrite Hd. apply getTable_setIdAlloc.
Qed.

Lemma removes_run rs db :
  dbWF db → ∃ db', forEach Remove rs db = Ok (tt, db') ∧ keeps db db' ∧
    idAlloc db' = idAlloc db ∧ rows (getTable db') = erase rs (rows (getTable db)).
Proof.
  revert db. induction rs as [|r rs IH]; intros db Hwf; simpl.
  - exists db. split_and!; auto using keeps_refl.
  - destruct (Remove r db) as [[[] db1]| | |] eqn:Hr; [|discriminate Hr..].
    destruct (Remove_wf r db db1 Hwf Hr) as [Hwf1 Hid]. destruct (Remove_Ok r db db1 Hr) as [Hrows _].
    destruct (IH db1 Hwf1) as (db' & Hrun & Hk & Hid' & Hrows').
    exists db'. unfold mbind, M_bind. rewrite Hr. split_and!; [done| |congruence|].
    + eapply keeps_trans; [by eapply Remove_keeps|done].
    + by rewrite Hrows', Hrows.
Qed.

Lemma commits_run us db :
  dbWF db → Forall (λ u, is_Some (rows (getTable db) !! getID u)) us →
  ∃ db', forEach Commit us db = Ok (tt, db') ∧ keeps db db' ∧ idAlloc db' = idAlloc db ∧
    rows (getTable db') = overlay us (rows (getTable db)).
Proof.
  revert db. induction us as [|u us IH]; intros db Hwf Hex; simpl.
  - exists db. split_and!; auto using keeps_refl.
  - apply Forall_cons in Hex as [Hu Hex].
    destruct (Commit_total u db Hu) as [db1 Hc]. destruct (Commit_Ok _ _ _ Hc) as [_ Hrows].
    destruct (Commit_wf u db db1 Hwf Hc) as [Hwf1 Hid].
    destruct (IH db1 Hwf1) as (db' & Hrun & Hk & Hid' & Hrows').
    { eapply Forall_impl; [done|]. intros v Hv. rewrite Hrows.
      destruct (decide (getID u = getID v)) as [->|]; [rewrite lookup_insert_eq; eauto|].
      by rewrite lookup_insert_ne. }
    exists db'. unfold mbind, M_bind. rewrite Hc. split_and!; [done| |congruence|].
    + eapply keeps_trans; [by eapply Commit_keeps|done].
    + by rewrite Hrows', Hrows.
Qed.

(** Committing new versions of some rows leaves the other rows. *)
Lemma overlay_rows (us : list (R * R)) rest m :
  (∀ i x, m !! i = Some x → getID x = i) →
  Forall (λ p, getID p.2 = getID p.1) us →
  us.*1 ++ rest ≡ₚ (map_to_list m).*2 →
  (map_to_list (overlay us.*2 m)).*2 ≡ₚ us.*2 ++ rest.
Proof.
  revert rest m. induction us as [|[old new] us IH]; intros rest m Hm Hids Hp; [by rewrite <- Hp|].
  apply Forall_cons in Hids as [Hid Hids]. cbn [fst snd] in Hid.
  rewrite !fmap_cons in *. cbn [fst snd overlay foldl] in *.
  assert (m !! getID old = Some old) as Hold.
  { assert (old ∈ (map_to_list m).*2) as Hin by (rewrite <- Hp; left).
    apply elem_of_values in Hin as [i Hi]. by rewrite (Hm i old Hi). }
  change (foldl (λ m u, <[getID u:=u]> m) (<[getID new:=new]> m) us.*2) with
    (overlay us.*2 (<[getID new:=new]> m)).
  rewrite (IH (new :: rest)); [symmetry; apply Permutation_middle| |done|].
  - intros i x [[<- <-]|[_ Hx]]%lookup_insert_Some; [done|by apply Hm].
  - rewrite <- (map_to_list_delete m _ _ Hold) in Hp. rewrite fmap_cons in Hp. simpl in Hp.
    apply Permutation_cons_inv in Hp. rewrite Hid, <- insert_delete_eq.
    rewrite map_to_list_insert by apply lookup_delete_eq. rewrite fmap_cons. simpl.
    by rewrite <- Permutation_middle, Hp.
Qed.

Lemma rewrites_run (us : list (R * R)) rest db :
  dbWF db → Forall (λ p, getID p.2 = getID p.1) us →
  us.*1 ++ rest ≡ₚ (map_to_list (rows (getTable db))).*2 →
  ∃ db', forEach Commit us.*2 db = Ok (tt, db') ∧ keeps db db' ∧ idAlloc db' = idAlloc db ∧
    (map_to_list (rows (getTable db'))).*2 ≡ₚ us.*2 ++ rest.
Proof.
  intros Hwf Hids Hp. assert (tableWF (idAlloc db) (getTable (R := R) db)) as Ht by (by apply dbWF_getTable).
  destruct (commits_run us.*2 db Hwf) as (db' & Hrun & Hk & Hid & Hrows).
  - apply Forall_forall. intros u ([old new] & -> & Hin)%list_elem_of_fmap.
    rewrite Forall_forall in Hids. specialize (Hids _ Hin). cbn [fst snd] in *. rewrite Hids.
    assert (old ∈ (map_to_list (rows (getTable db))).*2) as Hold.
    { rewrite <- Hp. apply elem_of_app. left. apply list_elem_of_fmap. by exists (old, new). }
    apply elem_of_values in Hold as [i Hi]. destruct (Ht i old Hi) as [-> _]. eauto.
  - exists db'. split_and!; [done..|]. rewrite Hrows. apply overlay_rows; [|done..].
    intros i x Hx. by apply (Ht i x).
Qed.

(** A loop that inserts one row per element. *)
Definition insertEach {L} (ls : list L) : DB (list (L * R)) :=
  mapEach (λ l, r ← Insert; mret (l, r)) ls.

Lemma inserts_run {L} (ls : list L) db :
  dbWF db → idAlloc db + Z.of_nat (length ls) < 2 ^ 63 →
  ∃ new db', insertEach ls db = Ok (new, db') ∧ keeps db db' ∧
    idAlloc db' = idAlloc db + Z.of_nat (length ls) ∧ new.*1 = ls ∧
    rows (getTable db') = overlay new.*2 (rows (getTable db)) ∧
    NoDup (getID <$> new.*2) ∧
    Forall (λ r, r = zeroRow (getID r) ∧ idAlloc db < getID r) new.*2.
Proof.
  revert db. induction ls as [|l ls IH]; intros db Hwf Hroom; cbn [length] in Hroom.
  - exists [], db. split_and!; [done|by apply keeps_refl|simpl; lia|done..|constructor|constructor].
  - destruct (Insert (R := R) db) as [[r db1]| | |] eqn:Hr; [|discriminate Hr..].
    destruct (Insert_wf r db db1 Hwf) as (Hwf1 & Hid & _); [lia|done|].
    destruct (Insert_Ok r db db1 Hr) as (Hz & Hid' & Hrows).
    assert (getID r = idAlloc db1) as Hri by (rewrite Hz, getID_zeroRow; done).
    destruct (IH db1 Hwf1) as (new & db' & Hrun & Hk & Hid2 & Hl & Hrows' & Hnd & HF); [lia|].
    exists ((l, r) :: new), db'. unfold insertEach in *. cbn [mapEach].
    unfold mbind at 1, M_bind at 1. unfold mbind at 1, M_bind at 1. rewrite Hr.
    cbn [mret M_ret]. unfold mbind at 1, M_bind at 1. rewrite Hrun. split_and!.
    + done.
    + eapply keeps_trans; [eapply Insert_keeps; [done| |done]; lia|done].
    + cbn [length]. lia.
    + rewrite !fmap_cons. simpl. congruence.
    + rewrite !fmap_cons. simpl. by rewrite Hrows', Hrows.
    + rewrite !fmap_cons, NoDup_cons. split; [|done]. simpl.
      rewrite list_elem_of_fmap. intros (r' & Heq & Hr'). rewrite Forall_forall in HF.
      destruct (HF r' Hr'). lia.
    + rewrite !fmap_cons. constructor; simpl; [split; [|lia]|].
      * by rewrite Hz, getID_zeroRow.
      * eapply Forall_impl; [done|]. simpl. intros r' [??]. split; [done|lia].
Qed.

(** ** Row maps as lists of rows *)

Lemma forEach_fmap {E S A B} (f : B → M E S unit) (g : A → B) l :
  forEach (λ x, f (g x)) l = forEach f (g <$> l).
Proof. induction l as [|x l IH]; [done|]. rewrite fmap_cons. cbn [forEach]. by rewrite IH. Qed.

Lemma wf_ids n (t : table R) :
  tableWF n t → getID <$> (map_to_list (rows t)).*2 = (map_to_list (rows t)).*1.
Proof.
  intros Ht. rewrite <- list_fmap_compose. apply list_fmap_ext. intros k [i r] Hk.
  apply (Ht i r). apply elem_of_map_to_list, list_elem_of_lookup. eauto.
Qed.

Lemma wf_ids_NoDup n (t : table R) : tableWF n t → NoDup (getID <$> (map_to_list (rows t)).*2).
Proof. intros Ht. rewrite (wf_ids n t Ht). apply NoDup_fst_map_to_list. Qed.

(** A row of the table is found under its ID. *)
Lemma wf_lookup n (t : table R) r :
  tableWF n t → r ∈ (map_to_list (rows t)).*2 → rows t !! getID r = Some r.
Proof.
  intros Ht [i Hi]%elem_of_values. destruct (Ht i r Hi) as [-> _]. done.
Qed.

(** ** The pattern *)

Section Pattern.
Context {L : Type} (score : L → R → Z) (upd : L → R → R).
Hypothesis upd_id : ∀ l r, getID (upd l r) = getID r.

(** Remove rows, insert a row for each unmatched element, and commit every pair. *)
Definition replaceRows (lonely : list R) (ps : list (L * R)) (unmatched : list L) : DB unit :=
  _ ← forEach Remove lonely;
  new ← insertEach unmatched;
  forEach (λ p, Commit (upd p.1 p.2)) (ps ++ new).

Definition reconcile (wanted : list L) (selected : list R) : DB unit :=
  let j := Join score wanted selected in
  replaceRows (lonelyRights j) (pairs j) (lonelyLefts j).

(** The same with the rows on the left of the join. *)
Definition reconcileRows (rowScore : R → L → Z) (selected : list R) (wanted : list L) : DB unit :=
  let j := Join rowScore selected wanted in
  replaceRows (lonelyLefts j) (prod_swap <$> pairs j) (lonelyRights j).

(** *** The pure core: erasing the unmatched selected rows, writing the pairs *)

Section Core.
Context (n : Z) (t : table R) (sel : R → bool) (selected lonely : list R) (ps new : list (L * R)).
Hypothesis Ht : tableWF n t.
Hypothesis Hsel : selected ≡ₚ base.filter (λ r, sel r = true) (map_to_list (rows t)).*2.
Hypothesis Hps : ps.*2 ++ lonely ≡ₚ selected.
Hypothesis Hnd : NoDup (getID <$> new.*2).
Hypothesis Hnew : Forall (λ r, n < getID r) new.*2.

Definition written : list R := (λ p, upd p.1 p.2) <$> (ps ++ new).

Lemma written_ids : getID <$> written = (getID <$> ps.*2) ++ (getID <$> new.*2).
Proof.
  unfold written. rewrite !fmap_app, <- !list_fmap_compose.
  f_equal; apply list_fmap_ext; intros i [l r] _; apply upd_id.
Qed.

Lemma selected_lookup r : r ∈ ps.*2 ∨ r ∈ lonely → rows t !! getID r = Some r ∧ sel r = true.
Proof.
  intros Hr%elem_of_app. rewrite Hps, Hsel in Hr. apply list_elem_of_filter in Hr as [? Hr].
  eauto using wf_lookup.
Qed.

Lemma new_fresh i : i ∈ getID <$> new.*2 → rows t !! i = None.
Proof.
  intros (r & -> & Hr)%list_elem_of_fmap. rewrite Forall_forall in Hnew.
  destruct (rows t !! getID r) as [x|] eqn:Hx; [|done].
  destruct (Ht _ _ Hx). specialize (Hnew r Hr). lia.
Qed.

Lemma selected_NoDup : NoDup (getID <$> ps.*2 ++ lonely).
Proof.
  rewrite Hps, Hsel. eapply sublist_NoDup; [by eapply wf_ids_NoDup|].
  apply fmap_sublist, sublist_filter.
Qed.

Lemma written_NoDup : NoDup (getID <$> written).
Proof.
  pose proof selected_NoDup as Hnd2. rewrite fmap_app in Hnd2.
  apply NoDup_app in Hnd2 as (Hp & _ & _). rewrite written_ids.
  apply NoDup_app. split_and!; [done| |done]. intros i (r & -> & Hr)%list_elem_of_fmap Hi.
  apply new_fresh in Hi. destruct (selected_lookup r (or_introl Hr)). congruence.
Qed.

Lemma written_present u :
  u ∈ written → is_Some (overlay new.*2 (erase lonely (rows t)) !! getID u).
Proof.
  intros Hu. assert (getID u ∈ getID <$> written) as Hi by (apply list_elem_of_fmap; eauto).
  rewrite written_ids in Hi. apply elem_of_app in Hi as [Hi|Hi].
  - apply overlay_is_Some. rewrite erase_lookup, decide_False.
    + apply list_elem_of_fmap in Hi as (r & -> & Hr).
      destruct (selected_lookup r (or_introl Hr)). eauto.
    + pose proof selected_NoDup as Hnd2. rewrite fmap_app in Hnd2.
      apply NoDup_app in Hnd2 as (_ & Hdisj & _). auto.
  - apply list_elem_of_fmap in Hi as (r & Heq & Hr).
    exists r. by apply (overlay_lookup new.*2 _ (getID u) Hnd).
Qed.

Definition result : gmap Z R := overlay written (overlay new.*2 (erase lonely (rows t))).

(** The rows of the result: those written, and the old ones not selected. *)
Lemma result_lookup i x :
  result !! i = Some x ↔
  (x ∈ written ∧ getID x = i) ∨ (rows t !! i = Some x ∧ sel x = false).
Proof.
  unfold result. destruct (overlay_lookup written (overlay new.*2 (erase lonely (rows t))) i
    written_NoDup) as [Hw Hn].
  assert (i ∈ getID <$> written → ∃ u, u ∈ written ∧ getID u = i) as Hex.
  { intros (u & -> & Hu)%list_elem_of_fmap. eauto. }
  destruct (decide (i ∈ getID <$> written)) as [Hi|Hi].
  - destruct (Hex Hi) as (u & Hu & Hui). rewrite (Hw u Hu Hui). split.
    + intros [= <-]. auto.
    + intros [[Hx Hxi]|[Hx Hs]]; [rewrite <- (Hw x Hx Hxi); symmetry; by apply Hw|]. exfalso.
      rewrite written_ids in Hi. apply elem_of_app in Hi as [Hi|Hi].
      * apply list_elem_of_fmap in Hi as (r & -> & Hr).
        destruct (selected_lookup r (or_introl Hr)). congruence.
      * apply new_fresh in Hi. congruence.
  - rewrite (Hn Hi). rewrite written_ids in Hi.
    assert (i ∉ getID <$> new.*2) as Hi2 by (intros ?; apply Hi, elem_of_app; auto).
    rewrite (proj2 (overlay_lookup new.*2 _ i Hnd) Hi2), erase_lookup. split.
    + case_decide as Hl; [done|]. intros Hx. right. split; [done|].
      destruct (sel x) eqn:Hs; [exfalso|done].
      assert (x ∈ ps.*2 ++ lonely) as Hin.
      { rewrite Hps, Hsel, list_elem_of_filter. split; [done|]. apply elem_of_values. eauto. }
      destruct (Ht _ _ Hx) as [<- _].
      apply elem_of_app in Hin as [Hin|Hin]; [apply Hi, elem_of_app; left|apply Hl];
        apply list_elem_of_fmap; eauto.
    + intros [[Hx <-]|[Hx Hs]].
      * destruct Hi. rewrite <- written_ids. apply list_elem_of_fmap. eauto.
      * rewrite decide_False; [done|]. intros (r & -> & Hr)%list_elem_of_fmap.
        destruct (selected_lookup r (or_intror Hr)). congruence.
Qed.

Lemma result_perm :
  (map_to_list result).*2 ≡ₚ
    written ++ base.filter (λ r, sel r = false) (map_to_list (rows t)).*2.
Proof.
  assert (∀ i x, result !! i = Some x → getID x = i) as Hid.
  { intros i x [[_ ?]|[Hx _]]%result_lookup; [done|]. by apply (Ht i x). }
  assert (NoDup (getID <$> (map_to_list (rows t)).*2)) as Hndt by (by eapply wf_ids_NoDup).
  apply NoDup_Permutation.
  - apply (NoDup_fmap_1 getID). rewrite <- list_fmap_compose.
    erewrite list_fmap_ext; [apply (NoDup_fst_map_to_list result)|].
    intros k [i r] Hk. apply Hid, elem_of_map_to_list, list_elem_of_lookup. eauto.
  - apply NoDup_app. split_and!.
    + eapply NoDup_fmap_1, written_NoDup.
    + intros x Hx [Hs Hx']%list_elem_of_filter. pose proof (wf_lookup n t x Ht Hx') as Hlk.
      assert (result !! getID x = Some x) as Hr by (apply result_lookup; auto).
      assert (getID x ∈ getID <$> written) as Hi by (apply list_elem_of_fmap; eauto).
      rewrite written_ids in Hi. apply elem_of_app in Hi as [Hi|Hi].
      * apply list_elem_of_fmap in Hi as (r & Heq & Hr').
        destruct (selected_lookup r (or_introl Hr')). congruence.
      * apply new_fresh in Hi. congruence.
    + apply NoDup_filter. by eapply NoDup_fmap_1.
  - intros x. rewrite elem_of_app, list_elem_of_filter, !elem_of_values. split.
    + intros [i [[? _]|[? ?]]%result_lookup]; eauto.
    + intros [Hx|[Hs [i Hx]]]; [exists (getID x)|exists i]; apply result_lookup; auto.
Qed.

End Core.

(** What the pattern does: it returns, every pair and every unmatched element gets
    exactly one row, and the rows that were not selected stay. *)
Lemma replaceRows_run lonely ps unmatched selected sel db :
  dbWF db → idAlloc db + Z.of_nat (length unmatched) < 2 ^ 63 →
  selected ≡ₚ base.filter (λ r, sel r = true) (map_to_list (rows (getTable db))).*2 →
  ps.*2 ++ lonely ≡ₚ selected →
  ∃ new db',
    replaceRows lonely ps unmatched db = Ok (tt, db') ∧ keeps db db' ∧
    idAlloc db' = idAlloc db + Z.of_nat (length unmatched) ∧
    new.*1 = unmatched ∧ Forall (λ r, r = zeroRow (getID r)) new.*2 ∧
    (map_to_list (rows (getTable db'))).*2 ≡ₚ
      written ps new ++ base.filter (λ r, sel r = false) (map_to_list (rows (getTable db))).*2.
Proof.
  intros Hwf Hroom Hsel Hps.
  destruct (removes_run lonely db Hwf) as (db1 & Hrun1 & Hk1 & Hid1 & Hrows1).
  destruct (inserts_run unmatched db1) as (new & db2 & Hrun2 & Hk2 & Hid2 & Hl & Hrows2 & Hnd & HF);
    [apply Hk1|lia|].
  assert (tableWF (idAlloc db) (getTable (R := R) db)) as Ht by (by apply dbWF_getTable).
  assert (Forall (λ r, idAlloc db < getID r) new.*2) as Hfresh.
  { eapply Forall_impl; [done|]. simpl. intros r [_ ?]. lia. }
  destruct (commits_run (written ps new) db2) as (db3 & Hrun3 & Hk3 & Hid3 & Hrows3);
    [apply Hk2| |].
  { apply Forall_forall. intros u Hu. rewrite Hrows2, Hrows1. eapply written_present; eauto. }
  exists new, db3. split_and!.
  - unfold replaceRows, mbind, M_bind. rewrite Hrun1, Hrun2, forEach_fmap. done.
  - eauto using keeps_trans.
  - lia.
  - done.
  - eapply Forall_impl; [exact HF|]. by intros r [? _].
  - rewrite Hrows3, Hrows2, Hrows1. by eapply result_perm.
Qed.

Lemma reconcile_run wanted selected sel db :
  dbWF db → idAlloc db + Z.of_nat (length wanted) < 2 ^ 63 →
  selected ≡ₚ base.filter (λ r, sel r = true) (map_to_list (rows (getTable db))).*2 →
  ∃ new db',
    reconcile wanted selected db = Ok (tt, db') ∧ keeps db db' ∧
    idAlloc db' ≤ idAlloc db + Z.of_nat (length wanted) ∧
    new.*1 = lonelyLefts (Join score wanted selected) ∧
    Forall (λ r, r = zeroRow (getID r)) new.*2 ∧
    (map_to_list (rows (getTable db'))).*2 ≡ₚ
      written (pairs (Join score wanted selected)) new ++
      base.filter (λ r, sel r = false) (map_to_list (rows (getTable db))).*2.
Proof.
  intros Hwf Hroom Hsel. pose proof (Permutation_length (Join_lefts score wanted selected)) as Hlen.
  rewrite length_app in Hlen.
  destruct (replaceRows_run (lonelyRights (Join score wanted selected))
    (pairs (Join score wanted selected)) (lonelyLefts (Join score wanted selected)) selected sel db)
    as (new & db' & Hrun & Hk & Hid & Hrest); [done|lia|done|apply Join_rights|].
  exists new, db'. split_and!; [done|done|lia|apply Hrest..].
Qed.

Lemma reconcileRows_run rowScore selected wanted sel db :
  dbWF db → idAlloc db + Z.of_nat (length wanted) < 2 ^ 63 →
  selected ≡ₚ base.filter (λ r, sel r = true) (map_to_list (rows (getTable db))).*2 →
  ∃ new db',
    reconcileRows rowScore selected wanted db = Ok (tt, db') ∧ keeps db db' ∧
    idAlloc db' ≤ idAlloc db + Z.of_nat (length wanted) ∧
    new.*1 = lonelyRights (Join rowScore selected wanted) ∧
    Forall (λ r, r = zeroRow (getID r)) new.*2 ∧
    (map_to_list (rows (getTable db'))).*2 ≡ₚ
      written (prod_swap <$> pairs (Join rowScore selected wanted)) new ++
      base.filter (λ r, sel r = false) (map_to_list (rows (getTable db))).*2.
Proof.
  intros Hwf Hroom Hsel. pose proof (Permutation_length (Join_rights rowScore selected wanted)) as Hlen.
  rewrite length_app in Hlen. set (j := Join rowScore selected wanted) in *.
  assert ((prod_swap <$> pairs j).*2 = (pairs j).*1) as Hswap.
  { rewrite <- list_fmap_compose. apply list_fmap_ext. by intros i [l r] _. }
  destruct (replaceRows_run (lonelyLefts j) (prod_swap <$> pairs j) (lonelyRights j) selected sel db)
    as (new & db' & Hrun & Hk & Hid & Hrest); [done|lia|done|rewrite Hswap; apply Join_lefts|].
  exists new, db'. split_and!; [done|done|lia|apply Hrest..].
Qed.

End Pattern.

(** ** Tables with one row

    The cluster, the minion and the etcd tables have at most one row: it is
    selected, or inserted the first time, and then committed. *)

Section Sole.
Context `{MapRange}.

Definition oneRow (db : Database) : Prop :=
  rows (getTable (R := R) db) = ∅ ∨ ∃ i r, rows (getTable (R := R) db) = {[i := r]}.

(** The switch on the number of rows, with the message of its last case. *)
Definition soleRow (why : string) : DB R :=
  all ← SelectFrom (R := R) None;
  match all with
  | [r] => mret r
  | [] => Insert
  | _ => panic why
  end.

Lemma SelectFrom_singleton (check : option (R → bool)) db i (r : R) :
  rows (getTable db) = {[i := r]} → checkRow check r = true →
  SelectFrom check db = Ok ([r], countLoop db).
Proof.
  intros Hrows Hcheck. unfold SelectFrom.
  assert ((rangeOrder (loops db) (rows (getTable db))).*2 = [r]) as ->.
  { apply Permutation_singleton_r. rewrite rangeOrder_perm, Hrows, map_to_list_singleton. done. }
  destruct check as [f|]; [|done]. by rewrite filter_cons_True.
Qed.

Lemma SelectFrom_empty (check : option (R → bool)) db :
  rows (getTable db) = ∅ → SelectFrom check db = Ok ([], countLoop db).
Proof.
  intros Hrows. unfold SelectFrom.
  assert (rangeOrder (loops db) (rows (getTable db)) = []) as ->.
  { apply Permutation_nil_r. by rewrite rangeOrder_perm, Hrows, map_to_list_empty. }
  by destruct check.
Qed.

Lemma sole_id db i r : dbWF db → rows (getTable (R := R) db) = {[i := r]} → getID r = i.
Proof.
  intros Hwf Hrows. destruct (dbWF_getTable (R := R) db Hwf i r) as [Hid _]; [|done].
  rewrite Hrows. apply lookup_singleton_eq.
Qed.

Lemma keeps_countLoop db db' : keeps (countLoop db) db' → keeps db db'.
Proof.
  intros (Hwf & Hid & Hfr). split_and!; [done|done|]. intros R' HR' Hd HL.
  rewrite (Hfr R' HR' Hd HL). apply getTable_countLoop.
Qed.

Lemma soleRow_run why db :
  dbWF db → idAlloc db + 1 < 2 ^ 63 → oneRow db →
  ∃ r db1, soleRow why db = Ok (r, db1) ∧ keeps db db1 ∧ idAlloc db1 ≤ idAlloc db + 1 ∧
    rows (getTable (R := R) db1) = {[getID r := r]}.
Proof.
  intros Hwf Hroom [Hrows|(i & r & Hrows)]; unfold soleRow.
  - destruct (Insert (R := R) (countLoop db)) as [[r db1]| | |] eqn:Hi; [|discriminate Hi..].
    destruct (Insert_wf r (countLoop db) db1 Hwf Hroom Hi) as (Hwf1 & Hid1 & _).
    destruct (Insert_Ok r (countLoop db) db1 Hi) as (_ & _ & Hrows1).
    exists r, db1. unfold mbind, M_bind. rewrite SelectFrom_empty by done.
    split_and!; [done|apply keeps_countLoop; by apply (Insert_keeps r)|simpl in Hid1; lia|].
    rewrite Hrows1, getTable_countLoop, Hrows. apply insert_empty.
  - rewrite <- (sole_id db i r Hwf Hrows) in Hrows.
    exists r, (countLoop db). unfold mbind, M_bind.
    rewrite (SelectFrom_singleton None db _ r Hrows) by done.
    split_and!; [done|by apply keeps_countLoop, keeps_refl|simpl; lia|].
    by rewrite getTable_countLoop.
Qed.

(** Committing a new version of the only row. *)
Lemma Commit_sole (r r0 : R) db :
  dbWF db → rows (getTable (R := R) db) = {[getID r := r0]} →
  ∃ db', Commit r db = Ok (tt, db') ∧ keeps db db' ∧ idAlloc db' = idAlloc db ∧
    rows (getTable (R := R) db') = {[getID r := r]}.
Proof.
  intros Hwf Hrows. destruct (Commit_total r db) as [db' Hc].
  { rewrite Hrows, lookup_singleton_eq. eauto. }
  destruct (Commit_wf r db db' Hwf Hc) as [_ Hid]. destruct (Commit_Ok r db db' Hc) as [_ Hrows'].
  exists db'. split_and!; [done|by eapply Commit_keeps|done|].
  rewrite Hrows', Hrows. apply insert_singleton_eq.
Qed.

End Sole.

End Reconcile.

(** ** Transactions *)

Lemma alertAll_rows {R} `{Row R, !RowFrame R} db :
  rows (getTable (R := R) (alertAll db)) = rows (getTable (R := R) db).
Proof. destruct (alertAll_getTable (R := R) db) as (ts & _ & ->). apply alert_rows. Qed.

Lemma Transact_run {A} (do : DB A) db a dbm :
  do db = Ok (a, dbm) → Transact do db = Ok (a, alertAll dbm).
Proof.
  intros Hdo. unfold Transact. generalize alertAll. intros f.
  unfold mbind, M_bind. by rewrite Hdo.
Qed.

(** The rows after the alerts of a transaction. *)
Lemma etcd_rows db db' :
  rows (getTable (R := Etcd) db) = rows (getTable (R := Etcd) db') →
  rows (EtcdTable db) = rows (EtcdTable db').
Proof. done. Qed.

Lemma minion_rows db db' :
  rows (getTable (R := Minion) db) = rows (getTable (R := Minion) db') →
  rows (MinionTable db) = rows (MinionTable db').
Proof. done. Qed.

Lemma alertAll_etcd db : rows (EtcdTable (alertAll db)) = rows (EtcdTable db).
Proof. apply etcd_rows, alertAll_rows. Qed.

Lemma alertAll_minions db : rows (MinionTable (alertAll db)) = rows (MinionTable db).
Proof. apply minion_rows, alertAll_rows. Qed.
