(* ===== verification/Engine.v ===== *)
(** * engine: from a policy to the controller's database

    Model of [src/engine/engine.go]: [UpdatePolicy] makes the cluster row, the
    machine rows and the ACLs reflect a policy. A [policy] is what the engine
    queries of a [Dsl]. *)

From stdpp Require Import base gmap list strings.
From Stdlib Require Import ZArith Lia.
From S2P Require Import Prelude Join DbRows Db DbProps Reconcile DslAst Dsl.

Local Open Scope Z_scope.

Record policy : Type := mkPolicy {
  Namespace : string;
  Spec : string;
  AdminACL : slice string;
  policyMachines : list DslMachine;
  MaxPrice : float64
}.

(** The policy of an evaluated specification, with its code. *)
Definition policyOf (getGithubKeys : nat → string → option (list string)) (code : string)
    (s : dslState) (ctx : nat) : M Empty_set keyState policy :=
  ms ← QueryMachines getGithubKeys s ctx;
  mret (mkPolicy (QueryString s ctx "Namespace") code (QueryStrSlice s ctx "AdminACL") ms
          (default floatZero (QueryFloat s ctx "MaxPrice"))).

Section Engine.
(** [PickBestSize] of a provider, and the answers of the IP lookup service. *)
Context (pickBestSize : string → Range → Range → float64 → string).
Context (myIP : nat → option string).
Context `{MapRange}.

Definition resolveACLs (acls : list string) : list string :=
  concat (imap (λ i acl,
    if decide (acl = "local"%string) then
      match myIP i with
      | Some ip => [(ip ++ "/32")%string]
      | None => []
      end
    else [acl]) acls).

(** The row of the cluster, created if there is none. *)
Definition clusterRow : DB Cluster := soleRow "Unimplemented".

Definition clusterTxn (dsl : policy) : DB (string + Z) :=
  if decide (Namespace dsl = ""%string) then mret (inl "policy must specify a 'Namespace'"%string)
  else
    cluster ← clusterRow;
    _ ← Commit (mkCluster (clusterID cluster) (Namespace dsl) (Spec dsl) (clusterACLs cluster));
    mret (inr (clusterID cluster)).

(** The machines of a cluster that have a public address. *)
Definition publicIn (cid : Z) (m : Machine) : bool :=
  (machineClusterID m =? cid) && negb (bool_decide (machinePublicIP m = ""%string)).

Definition aclTxn (dsl : policy) (cid : Z) : DB (string + unit) :=
  clusters ← SelectFrom (R := Cluster) (Some (λ c, clusterID c =? cid));
  match clusters with
  | [] => mret (inl "could not find cluster"%string)
  | cluster :: _ =>
      machines ← SelectFrom (R := Machine) (Some (publicIn (clusterID cluster)));
      let acls := resolveACLs (elems (AdminACL dsl)) ++
                  ((λ m, machinePublicIP m ++ "/32")%string <$> machines) in
      let acls := mkSlice (sortStrings acls) in
      _ ← (if decide (clusterACLs cluster = acls) then mret tt
           else Commit (mkCluster (clusterID cluster) (clusterNamespace cluster)
                          (clusterSpec cluster) acls));
      mret (inr tt)
  end.

(** The row a machine of the policy asks for; machines without a valid role,
    provider or size are skipped. *)
Definition dbMachineOf (maxPrice : float64) (dslm : DslMachine) : option Machine :=
  match ParseRole (dmRole dslm), ParseProvider (dmProvider dslm) with
  | Ok role, Ok p =>
      let size := if decide (dmSize dslm = ""%string)
                  then pickBestSize p (dmRAM dslm) (dmCPU dslm) maxPrice else dmSize dslm in
      if decide (size = ""%string) then None
      else Some (mkMachine 0 0 role p (dmRegion dslm) size (dmDiskSize dslm) (dmSSHKeys dslm)
                   "" "" "")
  | _, _ => None
  end.

Definition toDBMachine (machines : list DslMachine) (maxPrice : float64) : list Machine :=
  omap (dbMachineOf maxPrice) machines.

Definition canBoot (machines : list Machine) : bool :=
  existsb (λ m, bool_decide (machineRole m = Master)) machines &&
  existsb (λ m, bool_decide (machineRole m = Worker)) machines.

Definition machineScore (dslMachine dbMachine : Machine) : Z :=
  if decide (machineProvider dbMachine ≠ machineProvider dslMachine) then -1
  else if decide (machineRegion dbMachine ≠ machineRegion dslMachine) then -1
  else if decide (machineSize dbMachine ≠ ""%string ∧
                  machineSize dslMachine ≠ machineSize dbMachine) then -1
  else if decide (machineRole dbMachine ≠ RoleNone ∧
                  machineRole dbMachine ≠ machineRole dslMachine) then -1
  else if decide (machineDiskSize dbMachine ≠ machineDiskSize dslMachine) then -1
  else if decide (machinePrivateIP dbMachine = ""%string) then 2
  else if decide (machinePublicIP dbMachine = ""%string) then 1
  else 0.

(** The row of a pair: the attributes of the policy, the identity of the row. *)
Definition updateMachine (cid : Z) (dslMachine dbMachine : Machine) : Machine :=
  mkMachine (machineID dbMachine) cid (machineRole dslMachine) (machineProvider dslMachine)
    (machineRegion dslMachine) (machineSize dslMachine) (machineDiskSize dslMachine)
    (machineSSHKeys dslMachine) (machineCloudID dbMachine) (machinePublicIP dbMachine)
    (machinePrivateIP dbMachine).

Definition wantedMachines (dsl : policy) : list Machine :=
  let ms := toDBMachine (policyMachines dsl) (MaxPrice dsl) in
  if canBoot ms then ms else [].

Definition inCluster (cid : Z) (m : Machine) : bool := machineClusterID m =? cid.

Definition machineTxn (dsl : policy) (cid : Z) : DB (string + unit) :=
  let dslMachines := wantedMachines dsl in
  dbMachines ← SelectFrom (R := Machine) (Some (inCluster cid));
  _ ← reconcile machineScore (updateMachine cid) dslMachines dbMachines;
  mret (inr tt).

Definition updateTxn (dsl : policy) : DB (string + unit) :=
  cluster ← clusterTxn dsl;
  match cluster with
  | inl err => mret (inl err)
  | inr cid =>
      r ← machineTxn dsl cid;
      match r with
      | inl err => mret (inl err)
      | inr _ => aclTxn dsl cid
      end
  end.

Definition UpdatePolicy (dsl : policy) : DB (string + unit) := Transact (updateTxn dsl).

(** ** The machines of a cluster *)

Definition machinesOf (cid : Z) (db : Database) : list Machine :=
  base.filter (λ m, inCluster cid m = true) (map_to_list (rows (MachineTable db))).*2.

Definition machinesOfOthers (cid : Z) (db : Database) : list Machine :=
  base.filter (λ m, inCluster cid m = false) (map_to_list (rows (MachineTable db))).*2.

(** What a policy says of a machine. *)
Definition machineSpec (m : Machine) : Role * string * string * string * Z * slice string :=
  (machineRole m, machineProvider m, machineRegion m, machineSize m, machineDiskSize m,
   machineSSHKeys m).

(** A machine row that can be kept for a wanted machine. *)
Definition compatible (wanted m : Machine) : Prop :=
  machineProvider m = machineProvider wanted ∧ machineRegion m = machineRegion wanted ∧
  (machineSize m = ""%string ∨ machineSize m = machineSize wanted) ∧
  (machineRole m = RoleNone ∨ machineRole m = machineRole wanted) ∧
  machineDiskSize m = machineDiskSize wanted.

Lemma machineScore_nonneg wanted m : 0 ≤ machineScore wanted m ↔ compatible wanted m.
Proof.
  unfold machineScore.
  case_decide as H1; [split; [lia|intros (? & ? & ? & ? & ?); done]|].
  case_decide as H2; [split; [lia|intros (? & ? & ? & ? & ?); done]|].
  case_decide as H3; [split; [lia|intros (? & ? & [?|?] & ? & ?); destruct H3; congruence]|].
  case_decide as H4; [split; [lia|intros (? & ? & ? & [?|?] & ?); destruct H4; congruence]|].
  case_decide as H5; [split; [lia|intros (? & ? & ? & ? & ?); done]|].
  apply not_and_l in H3, H4.
  split; [intros _|intros _; repeat case_decide; lia].
  split_and!; [done|done| | |done].
  - destruct H3 as [H3|H3]; apply dec_stable in H3; auto.
  - destruct H4 as [H4|H4]; apply dec_stable in H4; auto.
Qed.

Lemma updateMachine_id cid l r : getID (updateMachine cid l r) = getID r.
Proof. done. Qed.

Lemma written_inCluster cid ps new x :
  x ∈ written (updateMachine cid) ps new → inCluster cid x = true.
Proof. intros (p & -> & _)%list_elem_of_fmap. apply Z.eqb_refl. Qed.

(** The run of [machineTxn], from what [reconcile] does. *)
Lemma machineTxn_run dsl cid db :
  dbWF db → idAlloc db + Z.of_nat (length (wantedMachines dsl)) < 2 ^ 63 →
  ∃ ps db',
    machineTxn dsl cid db = Ok (inr tt, db') ∧
    keeps (R := Machine) (countLoop db) db' ∧
    ps.*1 ≡ₚ wantedMachines dsl ∧
    (∀ l r, (l, r) ∈ ps → (r ∈ machinesOf cid db ∧ compatible l r) ∨ r = zeroRow (getID r)) ∧
    machinesOf cid db' ≡ₚ (λ p, updateMachine cid p.1 p.2) <$> ps ∧
    machinesOfOthers cid db' ≡ₚ machinesOfOthers cid db.
Proof.
  intros Hwf Hroom. unfold machineTxn.
  destruct (SelectFrom (R := Machine) (Some (inCluster cid)) db) as [[sel db0]| | |] eqn:Hs;
    [|discriminate Hs..].
  destruct (SelectFrom_Ok _ _ _ _ Hs) as [-> Hsel].
  destruct (reconcile_run machineScore (updateMachine cid) (updateMachine_id cid)
    (wantedMachines dsl) sel (inCluster cid) (countLoop db)) as (new & db' & Hrun & Hk & _ & Hl & Hz & Hp);
    [done|done|done|].
  set (j := Join machineScore (wantedMachines dsl) sel) in *.
  exists (pairs j ++ new), db'. split_and!.
  - unfold mbind, M_bind. by rewrite Hs, Hrun.
  - done.
  - rewrite fmap_app, Hl. apply Join_lefts.
  - intros l r [Hin|Hin]%elem_of_app.
    + left. split.
      * unfold machinesOf. change (r ∈ base.filter (λ m, inCluster cid m = true)
          (map_to_list (rows (getTable (R := Machine) (countLoop db)))).*2).
        rewrite <- Hsel. by apply (Join_pair_elems machineScore (wantedMachines dsl) sel l r).
      * apply machineScore_nonneg. by apply (Join_pairs_score _ (wantedMachines dsl) sel).
    + right. rewrite Forall_forall in Hz. apply Hz, list_elem_of_fmap. by exists (l, r).
  - unfold machinesOf. change (MachineTable db') with (getTable (R := Machine) db'). rewrite Hp.
    by rewrite (proj1 (filter_app_kinds (inCluster cid) _ _ (written_inCluster cid _ _))).
  - unfold machinesOfOthers. change (MachineTable db') with (getTable (R := Machine) db').
    rewrite Hp. by rewrite (proj2 (filter_app_kinds (inCluster cid) _ _ (written_inCluster cid _ _))).
Qed.

(** [machineTxn] returns, and then the machines of the cluster are exactly the
    machines of the policy, role, provider, region, size, disk size and keys, each
    as often as the policy asks for it (none if the policy cannot boot); the
    machines of other clusters are untouched. *)
Theorem machineTxn_reflects_policy (dsl : policy) (cid : Z) (db : Database) :
  dbWF db → idAlloc db + Z.of_nat (length (wantedMachines dsl)) < 2 ^ 63 →
  ∃ db', machineTxn dsl cid db = Ok (inr tt, db') ∧ dbWF db' ∧
    (machineSpec <$> machinesOf cid db') ≡ₚ (machineSpec <$> wantedMachines dsl) ∧
    machinesOfOthers cid db' ≡ₚ machinesOfOthers cid db.
Proof.
  intros Hwf Hroom. destruct (machineTxn_run dsl cid db Hwf Hroom)
    as (ps & db' & Hrun & (Hwf' & _) & Hps & _ & Hms & Hot).
  exists db'. split_and!; [done..| |done]. rewrite Hms, <- Hps.
  rewrite <- !list_fmap_compose. done.
Qed.

(** C18: [machineTxn] does not disturb running machines: a machine of the cluster
    that has a cloud instance afterwards had it before, with the same ID and
    addresses, and was compatible with what it is now in provider, region, size,
    role and disk size. *)
Theorem machineTxn_keeps_instances (dsl : policy) (cid : Z) (db db' : Database) (m : Machine) :
  dbWF db → idAlloc db + Z.of_nat (length (wantedMachines dsl)) < 2 ^ 63 →
  machineTxn dsl cid db = Ok (inr tt, db') → m ∈ machinesOf cid db' →
  machineCloudID m ≠ ""%string →
  ∃ m0, m0 ∈ machinesOf cid db ∧ compatible m m0 ∧
    machineID m0 = machineID m ∧ machineCloudID m0 = machineCloudID m ∧
    machinePublicIP m0 = machinePublicIP m ∧ machinePrivateIP m0 = machinePrivateIP m.
Proof.
  intros Hwf Hroom Hrun Hm Hcloud. destruct (machineTxn_run dsl cid db Hwf Hroom)
    as (ps & db1 & Hrun1 & _ & _ & Hkind & Hms & _).
  assert (db1 = db') as -> by congruence. rewrite Hms in Hm.
  apply list_elem_of_fmap in Hm as ([l r] & -> & Hin).
  destruct (Hkind l r Hin) as [[Hr Hc]|Hr]; [by exists r|].
  destruct Hcloud. simpl. by rewrite Hr.
Qed.

(** ** The whole update *)

Lemma clusterTxn_run dsl db :
  dbWF db → idAlloc db + 1 < 2 ^ 63 → oneRow (R := Cluster) db → Namespace dsl ≠ ""%string →
  ∃ cid acls db1,
    clusterTxn dsl db = Ok (inr cid, db1) ∧ dbWF db1 ∧ idAlloc db1 ≤ idAlloc db + 1 ∧
    rows (ClusterTable db1) = {[cid := mkCluster cid (Namespace dsl) (Spec dsl) acls]} ∧
    MachineTable db1 = MachineTable db.
Proof.
  intros Hwf Hroom Hone Hns.
  destruct (soleRow_run "Unimplemented" db Hwf Hroom Hone)
    as (c & db1 & Hr & (Hwf1 & _ & Hfr1) & Hid1 & Hrows1).
  destruct (Commit_sole (mkCluster (clusterID c) (Namespace dsl) (Spec dsl) (clusterACLs c)) c db1
    Hwf1 Hrows1) as (db2 & Hc & (Hwf2 & _ & Hfr2) & Hid2 & Hrows2).
  exists (clusterID c), (clusterACLs c), db2. unfold clusterTxn. rewrite decide_False by done.
  unfold clusterRow, mbind, M_bind. rewrite Hr, Hc. split_and!; [done|done|lia|done|].
  transitivity (MachineTable db1); [exact (Hfr2 Machine Machine_row _ _)|].
  exact (Hfr1 Machine Machine_row _ _).
Qed.

(** The ACLs that a cluster should have: those of the policy, and the public
    address of each of its machines. *)
Definition wantedACLs (dsl : policy) (ms : list Machine) : slice string :=
  mkSlice (sortStrings (resolveACLs (elems (AdminACL dsl)) ++
    ((λ m, machinePublicIP m ++ "/32")%string <$>
       base.filter (λ m, machinePublicIP m ≠ ""%string) ms))).

Lemma publicIn_perm cid db n :
  base.filter (λ m, publicIn cid m = true) (rangeOrder n (rows (MachineTable db))).*2 ≡ₚ
  base.filter (λ m, machinePublicIP m ≠ ""%string) (machinesOf cid db).
Proof.
  unfold machinesOf. rewrite list_filter_filter, rangeOrder_perm.
  rewrite (list_filter_iff (λ m, publicIn cid m = true)
    (λ m, machinePublicIP m ≠ ""%string ∧ inCluster cid m = true)); [done|].
  intros m. unfold publicIn, inCluster. rewrite andb_true_iff, negb_true_iff, bool_decide_eq_false.
  tauto.
Qed.

Lemma aclTxn_run dsl cid db c :
  dbWF db → rows (ClusterTable db) = {[cid := c]} →
  ∃ db', aclTxn dsl cid db = Ok (inr tt, db') ∧ dbWF db' ∧
    rows (ClusterTable db') = {[cid := mkCluster cid (clusterNamespace c) (clusterSpec c)
                                  (wantedACLs dsl (machinesOf cid db))]} ∧
    MachineTable db' = MachineTable db.
Proof.
  intros Hwf Hrows.
  assert (clusterID c = cid) as Hcid by exact (sole_id (R := Cluster) db cid c Hwf Hrows).
  assert (∃ ms, SelectFrom (R := Machine) (Some (publicIn (clusterID c))) (countLoop db) =
    Ok (ms, countLoop (countLoop db)) ∧
    mkSlice (sortStrings (resolveACLs (elems (AdminACL dsl)) ++
      ((λ m, machinePublicIP m ++ "/32")%string <$> ms))) = wantedACLs dsl (machinesOf cid db))
    as (ms & Hs & Hacls).
  { eexists. split; [reflexivity|]. unfold wantedACLs. f_equal. apply sortStrings_proper.
    f_equiv. apply fmap_Permutation. rewrite Hcid.
    apply (publicIn_perm cid (countLoop db)). }
  destruct (Commit_sole (mkCluster (clusterID c) (clusterNamespace c) (clusterSpec c)
    (wantedACLs dsl (machinesOf cid db))) c (countLoop (countLoop db))) as
    (db' & Hc & (Hwf' & _ & Hfr) & _ & Hrows'); [done|by rewrite <- Hcid in Hrows|].
  unfold aclTxn, mbind, M_bind.
  rewrite (SelectFrom_singleton (R := Cluster) _ db cid c) by (done || (simpl; lia)).
  rewrite Hs, Hacls. case_decide as Hsame; [|rewrite Hc].
  - exists (countLoop (countLoop db)). split_and!; [done..| |done]. rewrite <- Hsame, <- Hcid.
    change (ClusterTable (countLoop (countLoop db))) with (ClusterTable db). rewrite Hrows.
    by destruct c; simpl in *; subst.
  - exists db'. cbn in Hrows'. rewrite Hcid in Hrows'.
    split_and!; [done|done|done|exact (Hfr Machine Machine_row _ _)].
Qed.

Lemma machine_rows x y :
  rows (getTable (R := Machine) x) = rows (getTable (R := Machine) y) →
  rows (MachineTable x) = rows (MachineTable y).
Proof. done. Qed.

Lemma cluster_rows x y :
  rows (getTable (R := Cluster) x) = rows (getTable (R := Cluster) y) →
  rows (ClusterTable x) = rows (ClusterTable y).
Proof. done. Qed.

Lemma alertAll_machines db : rows (MachineTable (alertAll db)) = rows (MachineTable db).
Proof. apply machine_rows, alertAll_rows. Qed.

Lemma alertAll_clusters db : rows (ClusterTable (alertAll db)) = rows (ClusterTable db).
Proof. apply cluster_rows, alertAll_rows. Qed.

Lemma machinesOf_same cid db db' :
  rows (MachineTable db') = rows (MachineTable db) → machinesOf cid db' = machinesOf cid db.
Proof. unfold machinesOf. by intros ->. Qed.

(** C1: [UpdatePolicy] returns on any well-formed database with at most one cluster
    row, whatever order map iteration takes, and makes the database reflect the
    policy: there is one cluster row, with the policy's namespace and
    specification, its machines are the policy's, and its ACLs are, sorted, the
    policy's ACLs and the public addresses of exactly these machines. *)
Theorem updatePolicy_reflects (dsl : policy) (db : Database) :
  dbWF db → idAlloc db + 1 + Z.of_nat (length (wantedMachines dsl)) < 2 ^ 63 →
  oneRow (R := Cluster) db → Namespace dsl ≠ ""%string →
  ∃ cid db', UpdatePolicy dsl db = Ok (inr tt, db') ∧
    rows (ClusterTable db') =
      {[cid := mkCluster cid (Namespace dsl) (Spec dsl) (wantedACLs dsl (machinesOf cid db'))]} ∧
    (machineSpec <$> machinesOf cid db') ≡ₚ (machineSpec <$> wantedMachines dsl).
Proof.
  intros Hwf Hroom Hone Hns.
  destruct (clusterTxn_run dsl db Hwf) as (cid & acls & db1 & H1 & Hwf1 & Hid1 & Hrows1 & Hm1);
    [lia|done|done|].
  destruct (machineTxn_run dsl cid db1 Hwf1) as (ps & db2 & H2 & (Hwf2 & _ & Hfr) & Hps & _ & Hms & _);
    [lia|].
  assert (rows (ClusterTable db2) = {[cid := mkCluster cid (Namespace dsl) (Spec dsl) acls]})
    as Hrows2.
  { rewrite <- Hrows1. exact (f_equal rows (Hfr Cluster Cluster_row _ _)). }
  destruct (aclTxn_run dsl cid db2 _ Hwf2 Hrows2) as (db3 & H3 & Hwf3 & Hrows3 & Hm3).
  assert (machinesOf cid (alertAll db3) = machinesOf cid db2) as Hsame.
  { apply machinesOf_same. rewrite alertAll_machines. exact (f_equal rows Hm3). }
  exists cid, (alertAll db3). split_and!.
  - apply Transact_run. unfold updateTxn, mbind, M_bind. by rewrite H1, H2.
  - rewrite Hsame, alertAll_clusters. exact Hrows3.
  - rewrite Hsame, Hms, <- Hps, <- !list_fmap_compose. done.
Qed.

End Engine.

(** ** Witnesses: a policy with a master and a worker, on the database [oneMachine]
    in which the worker already runs. *)

Module Demo.

Definition anyRange : Range := mkRange floatZero floatZero.
Definition machine (role : string) : DslMachine :=
  mkDslMachine "Google" role "n1-standard-1" anyRange anyRange 0 "" None None.
Definition policy1 : policy :=
  mkPolicy "ns" "(define ...)" (Some ["local"%string]) [machine "Master"; machine "Worker"] floatZero.
Definition bestSize : string → Range → Range → float64 → string := λ _ _ _ _, ""%string.
Definition ip : nat → option string := λ _, Some "9.9.9.9"%string.

(** The database after the machine transaction, and after the whole update. *)
Definition afterTxn : Database :=
  finalState oneMachine (machineTxn bestSize (H := mapToListRange) policy1 1 oneMachine).
Definition afterUpdate : Database :=
  finalState oneMachine (UpdatePolicy bestSize ip (H := mapToListRange) policy1 oneMachine).

End Demo.

Lemma machineTxn_reflects_policy_witness :
  (∃ db', machineTxn Demo.bestSize (H := mapToListRange) Demo.policy1 1 oneMachine = Ok (inr tt, db') ∧
    dbWF db' ∧
    (machineSpec <$> machinesOf 1 db') ≡ₚ (machineSpec <$> wantedMachines Demo.bestSize Demo.policy1) ∧
    machinesOfOthers 1 db' ≡ₚ machinesOfOthers 1 oneMachine) ∧
  length (machinesOf 1 Demo.afterTxn) = 2%nat.
Proof.
  split; [|vm_compute; reflexivity].
  apply (machineTxn_reflects_policy Demo.bestSize (H := mapToListRange) Demo.policy1 1 oneMachine);
    [exact oneMachine_wf|vm_compute; reflexivity].
Defined.

Lemma machineTxn_keeps_instances_witness :
  ∃ m0, m0 ∈ machinesOf 1 oneMachine ∧ compatible machineA m0 ∧
    machineID m0 = machineID machineA ∧ machineCloudID m0 = machineCloudID machineA ∧
    machinePublicIP m0 = machinePublicIP machineA ∧
    machinePrivateIP m0 = machinePrivateIP machineA.
Proof.
  apply (machineTxn_keeps_instances Demo.bestSize (H := mapToListRange) Demo.policy1 1 oneMachine
    Demo.afterTxn machineA).
  - exact oneMachine_wf.
  - vm_compute. reflexivity.
  - vm_compute. reflexivity.
  - apply list_elem_of_lookup. exists 1%nat. vm_compute. reflexivity.
  - vm_compute. discriminate.
Defined.

Lemma updatePolicy_reflects_witness :
  (∃ cid db', UpdatePolicy Demo.bestSize Demo.ip (H := mapToListRange) Demo.policy1 oneMachine =
      Ok (inr tt, db') ∧
    rows (ClusterTable db') =
      {[cid := mkCluster cid "ns" "(define ...)"
                 (wantedACLs Demo.ip Demo.policy1 (machinesOf cid db'))]} ∧
    (machineSpec <$> machinesOf cid db') ≡ₚ
      (machineSpec <$> wantedMachines Demo.bestSize Demo.policy1)) ∧
  clusterACLs <$> (rows (ClusterTable Demo.afterUpdate) !! 3) = Some (Some ["9.9.9.9/32"%string]).
Proof.
  split; [|vm_compute; reflexivity].
  apply (updatePolicy_reflects Demo.bestSize Demo.ip (H := mapToListRange) Demo.policy1 oneMachine).
  - exact oneMachine_wf.
  - vm_compute. reflexivity.
  - left. vm_compute. reflexivity.
  - discriminate.
Defined.
