(* ===== verification/MinionEngine.v ===== *)
(** * minion: from a specification to the minion's database

    Model of [src/minion/engine.go] and of the handlers of [src/minion/server.go]:
    a configuration message sets the minion row and makes the container and the
    connection tables reflect the specification it carries. *)

From stdpp Require Import base gmap list strings.
From Stdlib Require Import ZArith Lia.
From S2P Require Import Prelude Join Util DbRows Db DbProps Reconcile DslAst Dsl.

Local Open Scope Z_scope.

(** What the minion queries of a compiled specification. *)
Record minionSpec : Type := mkMinionSpec {
  specContainers : list DslContainer;
  specConnections : list dslConnection
}.

Definition minionSpecOf (ctx : nat) : D minionSpec :=
  cs ← QueryContainers ctx; conns ← QueryConnections ctx; mret (mkMinionSpec cs conns).

Section Minion.
Context `{MapRange}.

(** ** Connections *)

Definition connectionScore (dslc : dslConnection) (dbc : Connection) : Z :=
  if decide (connFrom dslc = connectionFrom dbc ∧ connTo dslc = connectionTo dbc ∧
             connMinPort dslc = connectionMinPort dbc ∧ connMaxPort dslc = connectionMaxPort dbc)
  then 0 else 1.

Definition updateConnection (dslc : dslConnection) (dbc : Connection) : Connection :=
  mkConnection (connectionID dbc) (connFrom dslc) (connTo dslc) (connMinPort dslc)
    (connMaxPort dslc).

Definition updateConnections (spec : minionSpec) : DB unit :=
  dbcs ← SelectFrom (R := Connection) None;
  reconcile connectionScore updateConnection (specConnections spec) dbcs.

(** ** Containers *)

(** The keys of a map, which may be nil, that are not keys of another. *)
Definition missing (a b : option (gset (string * string))) : Z :=
  Z.of_nat (size (default ∅ a ∖ default ∅ b)).

Definition containerScore (dslc : DslContainer) (dbc : Container) : Z :=
  if decide (containerImage dbc ≠ dcImage dslc ∨ containerCommand dbc ≠ dcCommand dslc) then -1
  else if decide (map_Forall (λ k v, v = default ""%string (dcEnv dslc !! k))
                    (default ∅ (containerEnv dbc))) then
    EditDistance (elems (containerLabels dbc)) (elems (dcLabels dslc)) +
    100 * missing (containerExclusive dbc) (Some (dcExclusive dslc)) +
    100 * missing (Some (dcExclusive dslc)) (containerExclusive dbc)
  else -1.

Definition updateContainer (dslc : DslContainer) (dbc : Container) : Container :=
  mkContainer (containerID dbc) (containerPid dbc) (containerIP dbc) (containerMac dbc)
    (containerSchedID dbc) (dcImage dslc) (dcCommand dslc)
    (match dcLabels dslc with Some l => Some (sortStrings l) | None => None end)
    (Some (dcEnv dslc)) (Some (dcExclusive dslc)).

Definition updateContainers (spec : minionSpec) : DB unit :=
  dbcs ← SelectFrom (R := Container) None;
  reconcile containerScore updateContainer (specContainers spec) dbcs.

(** ** The policy: [None] is a specification that does not compile. *)

Definition updatePolicy (role : Role) (spec : option minionSpec) : DB unit :=
  match spec with
  | None => mret tt
  | Some compiled =>
      _ ← (if decide (role = Master) then updateContainers compiled else mret tt);
      updateConnections compiled
  end.

(** ** The server *)

Record minionConfig : Type := mkMinionConfig {
  cfgID : string;
  cfgRole : Role;
  cfgPrivateIP : string
}.

Definition GetMinionConfig : DB minionConfig := Transact (
  minionRows ← SelectFrom (R := Minion) None;
  match minionRows with
  | [] => mret (mkMinionConfig "" RoleNone "")
  | [m] => mret (mkMinionConfig (minionMinionID m) (minionRole m) (minionPrivateIP m))
  | _ => panic "Not Reached"
  end).

Definition setMinionConfigTxn (msg : minionConfig) (spec : option minionSpec) : DB unit :=
  minion ← soleRow (R := Minion) "Not Reached";
  _ ← Commit (mkMinion (minionID minion) (cfgID msg) (cfgRole msg) (cfgPrivateIP msg));
  updatePolicy (cfgRole msg) spec.

Definition SetMinionConfig (msg : minionConfig) (spec : option minionSpec) : DB unit :=
  Transact (setMinionConfigTxn msg spec).

Definition bootEtcdTxn (ips : slice string) : DB unit :=
  etcdRow ← soleRow (R := Etcd) "Not Reached";
  Commit (mkEtcd (etcdID etcdRow) (match ips with Some l => Some (sortStrings l) | None => None end)
            (etcdLeader etcdRow) (etcdLeaderIP etcdRow)).

Definition BootEtcd (ips : slice string) : DB unit := Transact (bootEtcdTxn ips).

(** ** Lemmas *)

(** The pattern on a whole table: every row is selected. *)
Lemma reconcileAll_run {R L} `{HR : Row R, !RowLaws R, !RowFrame R} (score : L → R → Z)
    (upd : L → R → R) (wanted : list L) db :
  (∀ l r, getID (upd l r) = getID r) →
  dbWF db → idAlloc db + Z.of_nat (length wanted) < 2 ^ 63 →
  ∃ ps db',
    (rs ← SelectFrom (R := R) None; reconcile score upd wanted rs) db = Ok (tt, db') ∧
    keeps (R := R) db db' ∧ idAlloc db' ≤ idAlloc db + Z.of_nat (length wanted) ∧ ps.*1 ≡ₚ wanted ∧
    (∀ l r, (l, r) ∈ ps →
       (r ∈ (map_to_list (rows (getTable (R := R) db))).*2 ∧ 0 ≤ score l r) ∨
       r = zeroRow (getID r)) ∧
    (map_to_list (rows (getTable (R := R) db'))).*2 ≡ₚ (λ p, upd p.1 p.2) <$> ps.
Proof.
  intros Hupd Hwf Hroom.
  destruct (SelectFrom (R := R) None db) as [[sel db0]| | |] eqn:Hs; [|discriminate Hs..].
  destruct (SelectFrom_Ok _ _ _ _ Hs) as [-> Hsel].
  destruct (reconcile_run score upd Hupd wanted sel (λ _, true) (countLoop db))
    as (new & db' & Hrun & Hk & Hid & Hl & Hz & Hp); [done|done|by rewrite getTable_countLoop|].
  set (j := Join score wanted sel) in *.
  exists (pairs j ++ new), db'. split_and!.
  - unfold mbind, M_bind. by rewrite Hs, Hrun.
  - by apply keeps_countLoop.
  - done.
  - rewrite fmap_app, Hl. apply Join_lefts.
  - intros l r [Hin|Hin]%elem_of_app.
    + left. split; [|by apply (Join_pairs_score _ wanted sel)].
      rewrite list_filter_id in Hsel by done. rewrite <- Hsel.
      by apply (Join_pair_elems score wanted sel l r).
    + right. rewrite Forall_forall in Hz. apply Hz, list_elem_of_fmap. by exists (l, r).
  - rewrite Hp, (list_filter_none (λ r : R, true = false)) by done. by rewrite app_nil_r.
Qed.

Lemma container_rows x y :
  rows (getTable (R := Container) x) = rows (getTable (R := Container) y) →
  rows (ContainerTable x) = rows (ContainerTable y).
Proof. done. Qed.

(** What the tables say, without IDs and runtime state. *)
Definition connectionSpec (c : Connection) : dslConnection :=
  mkConn (connectionFrom c) (connectionTo c) (connectionMinPort c) (connectionMaxPort c).

Definition connectionsOf (db : Database) : list Connection :=
  (map_to_list (rows (ConnectionTable db))).*2.

Definition containersOf (db : Database) : list Container :=
  (map_to_list (rows (ContainerTable db))).*2.

(** The attributes of a container, as a row shows them. *)
Definition containerSpec (c : Container) :
    string * slice string * slice string * option (gmap string string) *
    option (gset (string * string)) :=
  (containerImage c, containerCommand c, containerLabels c, containerEnv c, containerExclusive c).

Definition dslContainerSpec (d : DslContainer) :
    string * slice string * slice string * option (gmap string string) *
    option (gset (string * string)) :=
  (dcImage d, dcCommand d, match dcLabels d with Some l => Some (sortStrings l) | None => None end,
   Some (dcEnv d), Some (dcExclusive d)).

Lemma updateConnections_run spec db :
  dbWF db → idAlloc db + Z.of_nat (length (specConnections spec)) < 2 ^ 63 →
  ∃ db', updateConnections spec db = Ok (tt, db') ∧ keeps (R := Connection) db db' ∧
    (connectionSpec <$> connectionsOf db') ≡ₚ specConnections spec.
Proof.
  intros Hwf Hroom.
  destruct (reconcileAll_run connectionScore updateConnection (specConnections spec) db)
    as (ps & db' & Hrun & Hk & _ & Hps & _ & Hp); [done..|].
  exists db'. split_and!; [done|done|]. unfold connectionsOf.
  change (ConnectionTable db') with (getTable (R := Connection) db'). rewrite Hp, <- Hps.
  rewrite <- list_fmap_compose. erewrite list_fmap_ext; [done|]. by intros i [[] r] _.
Qed.

Lemma updateContainers_run spec db :
  dbWF db → idAlloc db + Z.of_nat (length (specContainers spec)) < 2 ^ 63 →
  ∃ ps db', updateContainers spec db = Ok (tt, db') ∧ keeps (R := Container) db db' ∧
    idAlloc db' ≤ idAlloc db + Z.of_nat (length (specContainers spec)) ∧
    ps.*1 ≡ₚ specContainers spec ∧
    (∀ l r, (l, r) ∈ ps → (r ∈ containersOf db ∧ 0 ≤ containerScore l r) ∨ r = zeroRow (getID r)) ∧
    containersOf db' ≡ₚ (λ p, updateContainer p.1 p.2) <$> ps.
Proof.
  intros Hwf Hroom.
  destruct (reconcileAll_run containerScore updateContainer (specContainers spec) db)
    as (ps & db' & Hrun & Hk & Hid & Hps & Hold & Hp); [done..|].
  exists ps, db'. done.
Qed.

(** A non-negative score: same image and command, and no variable of the row's
    environment is changed by the specification. *)
Lemma containerScore_nonneg dslc dbc :
  0 ≤ containerScore dslc dbc →
  containerImage dbc = dcImage dslc ∧ containerCommand dbc = dcCommand dslc ∧
  map_Forall (λ k v, v = default ""%string (dcEnv dslc !! k)) (default ∅ (containerEnv dbc)).
Proof.
  unfold containerScore. case_decide as H1; [lia|]. case_decide as H2; [|lia]. intros _.
  split_and!; [| |done].
  - destruct (decide (containerImage dbc = dcImage dslc)); [done|]. destruct H1. by left.
  - destruct (decide (containerCommand dbc = dcCommand dslc)); [done|]. destruct H1. by right.
Qed.

(** ** Properties *)

(** C2: On the master, [updatePolicy] with a specification that compiles makes the
    container and the connection tables hold exactly the specification's
    containers (with sorted labels) and connections, each as often as the
    specification has it. *)
Theorem updatePolicy_master (spec : minionSpec) (db : Database) :
  dbWF db →
  idAlloc db + Z.of_nat (length (specContainers spec)) +
    Z.of_nat (length (specConnections spec)) < 2 ^ 63 →
  ∃ db', updatePolicy Master (Some spec) db = Ok (tt, db') ∧ dbWF db' ∧
    (containerSpec <$> containersOf db') ≡ₚ (dslContainerSpec <$> specContainers spec) ∧
    (connectionSpec <$> connectionsOf db') ≡ₚ specConnections spec.
Proof.
  intros Hwf Hroom.
  destruct (updateContainers_run spec db Hwf) as (ps & db1 & H1 & Hk1 & Hid1 & Hps & _ & Hcs);
    [lia|].
  destruct (updateConnections_run spec db1) as (db2 & H2 & (Hwf2 & _ & Hfr2) & Hconn);
    [apply Hk1|lia|].
  exists db2. split_and!; [|done| |done].
  - unfold updatePolicy. rewrite decide_True by done. unfold mbind, M_bind. by rewrite H1.
  - assert (containersOf db2 = containersOf db1) as ->.
    { unfold containersOf. by rewrite (Hfr2 Container Container_row _ _ : ContainerTable _ = _). }
    rewrite Hcs, <- Hps, <- !list_fmap_compose. done.
Qed.

(** Any role and any specification: the minion row is not touched, and without a
    compiled specification nothing is. *)
Lemma updatePolicy_run role spec db :
  dbWF db →
  idAlloc db + Z.of_nat (length (default [] (specContainers <$> spec))) +
    Z.of_nat (length (default [] (specConnections <$> spec))) < 2 ^ 63 →
  ∃ db', updatePolicy role spec db = Ok (tt, db') ∧ dbWF db' ∧ MinionTable db' = MinionTable db ∧
    (role ≠ Master → ContainerTable db' = ContainerTable db).
Proof.
  intros Hwf Hroom. destruct spec as [spec|]; simpl in *; [|by exists db].
  destruct (updateContainers_run spec db Hwf) as (_ & db1 & H1 & (Hwf1 & _ & Hfr1) & Hid1 & _); [lia|].
  case_decide as Hrole.
  - destruct (updateConnections_run spec db1) as (db2 & H2 & (Hwf2 & _ & Hfr2) & _); [done|lia|].
    exists db2. unfold mbind, M_bind. rewrite H1. split_and!; [done|done| |done].
    transitivity (MinionTable db1); [exact (Hfr2 Minion Minion_row _ _)|].
    exact (Hfr1 Minion Minion_row _ _).
  - destruct (updateConnections_run spec db) as (db2 & H2 & (Hwf2 & _ & Hfr2) & _); [done|lia|].
    exists db2. split_and!; [done|done|exact (Hfr2 Minion Minion_row _ _)|].
    intros _. exact (Hfr2 Container Container_row _ _).
Qed.


(** C28: Updating the policy does not disturb scheduled containers: a row with a
    scheduler ID afterwards had that ID before, with the same image and command,
    and each variable of its old environment still has its value. *)
Theorem updateContainers_keeps_scheduled (spec : minionSpec) (db db' : Database) (c : Container) :
  dbWF db → idAlloc db + Z.of_nat (length (specContainers spec)) < 2 ^ 63 →
  updateContainers spec db = Ok (tt, db') → c ∈ containersOf db' →
  containerSchedID c ≠ ""%string →
  ∃ c0, c0 ∈ containersOf db ∧ containerID c0 = containerID c ∧
    containerSchedID c0 = containerSchedID c ∧ containerImage c0 = containerImage c ∧
    containerCommand c0 = containerCommand c ∧
    ∀ k v, default ∅ (containerEnv c0) !! k = Some v →
      v = default ""%string (default ∅ (containerEnv c) !! k).
Proof.
  intros Hwf Hroom Hrun Hc Hsched.
  destruct (updateContainers_run spec db Hwf Hroom) as (ps & db1 & Hrun1 & _ & _ & _ & Hkind & Hcs).
  assert (db1 = db') as -> by congruence. rewrite Hcs in Hc.
  apply list_elem_of_fmap in Hc as ([l r] & -> & Hin).
  destruct (Hkind l r Hin) as [[Hr Hs]|Hr].
  - apply containerScore_nonneg in Hs as (Hi & Hcmd & Henv). by exists r.
  - destruct Hsched. simpl. by rewrite Hr.
Qed.

End Minion.

(** ** Witnesses: a specification with one container and one connection *)

Module MinionDemo.

Definition container : DslContainer :=
  mkDslContainer "nginx" (Some ["-q"%string]) {["MODE"%string := "fast"%string]} ∅
    (Some ["web"; "app"]%string).
Definition spec : minionSpec := mkMinionSpec [container] [mkConn "public" "web" 80 80].

(** A row for the container that is already scheduled. *)
Definition row : Container :=
  mkContainer 1 0 "10.0.0.3" "" "sched" "nginx" (Some ["-q"%string]) None None None.
Definition db : Database :=
  setTable (R := Container) (mkTable {[1 := row]} ∅ 0 0) (setIdAlloc 1 newDatabase).
Definition config : minionConfig := mkMinionConfig "m1" Master "10.1.1.1".

Definition afterUpdate : Database :=
  finalState db (updateContainers (H := mapToListRange) spec db).
Definition updatedRow : Container := updateContainer container row.

Lemma minionDemo_wf : dbWF db.
Proof.
  apply dbWF_setTable; [apply dbWF_setIdAlloc; [apply newDatabase_wf|done]|].
  by apply map_Forall_singleton.
Qed.

End MinionDemo.

Lemma updatePolicy_master_witness :
  ∃ db', updatePolicy (H := mapToListRange) Master (Some MinionDemo.spec) MinionDemo.db =
      Ok (tt, db') ∧ dbWF db' ∧
    (containerSpec <$> containersOf db') ≡ₚ
      (dslContainerSpec <$> specContainers MinionDemo.spec) ∧
    (connectionSpec <$> connectionsOf db') ≡ₚ specConnections MinionDemo.spec.
Proof.
  apply (updatePolicy_master (H := mapToListRange) MinionDemo.spec MinionDemo.db);
    [exact MinionDemo.minionDemo_wf|vm_compute; reflexivity].
Defined.


Lemma updateContainers_keeps_scheduled_witness :
  ∃ c0, c0 ∈ containersOf MinionDemo.db ∧ containerID c0 = containerID MinionDemo.updatedRow ∧
    containerSchedID c0 = containerSchedID MinionDemo.updatedRow ∧
    containerImage c0 = containerImage MinionDemo.updatedRow ∧
    containerCommand c0 = containerCommand MinionDemo.updatedRow ∧
    ∀ k v, default ∅ (containerEnv c0) !! k = Some v →
      v = default ""%string (default ∅ (containerEnv MinionDemo.updatedRow) !! k).
Proof.
  apply (updateContainers_keeps_scheduled (H := mapToListRange) MinionDemo.spec MinionDemo.db
    MinionDemo.afterUpdate MinionDemo.updatedRow).
  - exact MinionDemo.minionDemo_wf.
  - vm_compute. reflexivity.
  - vm_compute. reflexivity.
  - apply list_elem_of_lookup. exists 0%nat. vm_compute. reflexivity.
  - vm_compute. discriminate.
Defined.
