(* ===== verification/Docker.v ===== *)
(** * minion/docker: labels, environments and the container list

    Model of the parts of [src/minion/docker/docker.go] that compute: the label
    name space, the environment of a created and of an inspected container, and the
    lookup of a container by name. The client that calls the daemon is
    [DockerClient]. *)

From stdpp Require Import base gmap list strings.
From Stdlib Require Import ZArith Lia.
From S2P Require Import Prelude.

Local Open Scope Z_scope.

(** ** Labels *)

Definition labelBase : string := "di.".
Definition userLabelPrefix : string := labelBase ++ "user.label.".
Definition systemLabelPrefix : string := labelBase ++ "system.label.".
Definition LabelTrueValue : string := "1".
Definition SchedulerLabelKey : string := systemLabelPrefix ++ "DI".
Definition SchedulerLabelValue : string := "Scheduler".

(** [strings.HasPrefix] and [strings.TrimPrefix]. *)
Definition hasPrefix (s pre : string) : bool := String.prefix pre s.
Fixpoint dropString (n : nat) (s : string) : string :=
  match n, s with
  | S n', String _ s' => dropString n' s'
  | _, _ => s
  end.
Definition trimPrefix (s pre : string) : string :=
  if hasPrefix s pre then dropString (String.length pre) s else s.

Definition UserLabel (label : string) : string := userLabelPrefix ++ label.
Definition IsUserLabel (label : string) : bool := hasPrefix label userLabelPrefix.
Definition ParseUserLabel (label : string) : string := trimPrefix label userLabelPrefix.
Definition SystemLabel (label : string) : string := systemLabelPrefix ++ label.

(** ** Containers *)

Record DockerContainer : Type := mkDocker {
  dkID : string;
  dkName : string;
  dkImage : string;
  dkIP : string;
  dkPath : string;
  dkArgs : list string;
  dkPid : Z;
  dkEnv : gmap string string;
  dkLabels : gmap string string
}.

(** What the daemon reports on a container. *)
Record inspection : Type := mkInspection {
  insID : string;
  insName : string;
  insImage : string;
  insIP : string;
  insPath : string;
  insArgs : list string;
  insPid : Z;
  insEnv : list string;
  insLabels : gmap string string
}.

Definition eqSign : Ascii.ascii := Ascii.ascii_of_nat 61.

Abbreviation splitEq := (splitOn eqSign).

(** One iteration of the loop of [Get] over the environment. *)
Definition envStep (env : gmap string string) (value : string) : gmap string string :=
  match splitEq value with
  | e0 :: e1 :: _ => <[e0:=e1]> env
  | _ => env
  end.

Definition parseEnv (values : list string) : gmap string string := foldl envStep ∅ values.

Definition Get (c : inspection) : DockerContainer :=
  mkDocker (insID c) (insName c) (insImage c) (insIP c) (insPath c) (insArgs c) (insPid c)
    (parseEnv (insEnv c)) (insLabels c).

(** The loop of [getID]. *)
Fixpoint findName (name : string) (containers : list DockerContainer) : option string :=
  match containers with
  | [] => None
  | c :: rest => if decide (name = dkName c) then Some (dkID c) else findName name rest
  end.

(** The environment [create] passes to the daemon: a slice made with the length of
    the map, to which the keys are then appended. *)
Definition createEnv `{MapRange} (n : nat) (env : gset string) : list string :=
  replicate (size env) ""%string ++ (rangeOrder n (gset_to_gmap tt env)).*1.

(** ** Lemmas *)

Lemma string_length_app (a b : string) :
  String.length (a ++ b) = (String.length a + String.length b)%nat.
Proof. induction a as [|c a IH]; [done|]. simpl. by rewrite IH. Qed.

Lemma prefix_app p s : String.prefix p (p ++ s) = true.
Proof.
  induction p as [|c p IH]; [by destruct s|]. simpl. by destruct (Ascii.ascii_dec c c).
Qed.

Lemma dropString_app p s : dropString (String.length p) (p ++ s) = s.
Proof. induction p as [|c p IH]; [by destruct s|exact IH]. Qed.

Lemma IsUserLabel_UserLabel l : IsUserLabel (UserLabel l) = true.
Proof. apply prefix_app. Qed.

Lemma ParseUserLabel_UserLabel l : ParseUserLabel (UserLabel l) = l.
Proof.
  unfold ParseUserLabel, trimPrefix. change (hasPrefix (UserLabel l) userLabelPrefix) with
    (IsUserLabel (UserLabel l)). rewrite IsUserLabel_UserLabel. apply dropString_app.
Qed.

Lemma UserLabel_inj l1 l2 : UserLabel l1 = UserLabel l2 → l1 = l2.
Proof.
  intros Heq%(f_equal ParseUserLabel). by rewrite !ParseUserLabel_UserLabel in Heq.
Qed.

Lemma SchedulerLabelKey_system : IsUserLabel SchedulerLabelKey = false.
Proof. done. Qed.

(** No equality sign in the string. *)
Abbreviation noEq := (noSep eqSign).

Lemma splitEq_pair k v : noEq k → splitEq (k ++ "=" ++ v) = k :: splitEq v.
Proof. apply (splitOn_sep eqSign). Qed.

Lemma envStep_pair env k v :
  noEq k → envStep env (k ++ "=" ++ v) = <[k := hd ""%string (splitEq v)]> env.
Proof.
  intros Hk. unfold envStep. rewrite splitEq_pair by done.
  destruct (splitOn_cons eqSign v) as (w & ws & ->). done.
Qed.

(** The list that [create] builds, as a set of strings. *)
Section CreateEnv.
Context `{MapRange}.

Lemma elem_of_createEnv n env s : s ∈ createEnv n env → s = ""%string ∨ s ∈ env.
Proof.
  unfold createEnv. rewrite elem_of_app. intros [Hs|Hs].
  - apply elem_of_replicate in Hs as [-> _]. by left.
  - right. apply list_elem_of_fmap in Hs as ([k []] & -> & Hk).
    apply elem_of_range, lookup_gset_to_gmap_Some in Hk as [? _]. done.
Qed.

Lemma createEnv_complete n env s : s ∈ env → s ∈ createEnv n env.
Proof.
  intros Hs. apply elem_of_app. right. apply list_elem_of_fmap. exists (s, tt). split; [done|].
  apply elem_of_range, lookup_gset_to_gmap_Some. done.
Qed.

End CreateEnv.
