(* ===== verification/DockerClient.v ===== *)
(** * minion/docker: the client of the docker daemon

    Model of the client of [src/minion/docker/docker.go]: what [Run], [Remove],
    [Exec], [List] and [Pull] do with the daemon, which is the class [Daemon]. The
    rest of the minion uses docker through the [Client] interface, here [DockerAPI],
    and relies on the abstract behaviour [DockerLaws]: a map of containers by name
    that [Run] adds to and [Remove] deletes from. The client refines it for any
    daemon that obeys [DaemonLaws]. *)

From stdpp Require Import base gmap list strings.
From Stdlib Require Import ZArith Lia.
From S2P Require Import Prelude Docker.

Local Open Scope Z_scope.

(** ** Data *)

Inductive dockerErr : Type := errNoSuchContainer | errDaemon.

Record RunOptions : Type := mkRunOptions {
  optName : string;
  optImage : string;
  optArgs : list string;
  optLabels : gmap string string;
  optEnv : gset string;
  optBinds : list string;
  optNetworkMode : string;
  optPidMode : string;
  optPrivileged : bool;
  optVolumesFrom : list string
}.

(** [dkc.HostConfig] and [dkc.CreateContainerOptions], as far as they are set. *)
Record HostConfig : Type := mkHostConfig {
  hcBinds : list string;
  hcNetworkMode : string;
  hcPidMode : string;
  hcPrivileged : bool;
  hcVolumesFrom : list string
}.

Record createOptions : Type := mkCreateOptions {
  coName : string;
  coImage : string;
  coCmd : list string;
  coLabels : gmap string string;
  coEnv : list string
}.

(** [*dkc.ContainerAlreadyRunning], or another error. *)
Inductive startErr : Type := ContainerAlreadyRunning | StartFailed.

(** The daemon: [None] is an error, and [false] for the last two. An execution is
    its creation and its start. *)
Class Daemon (D : Type) : Type := {
  ListContainers : gmap string (list string) → bool → D → option (list string) * D;
  InspectContainer : string → D → option inspection * D;
  CreateContainer : createOptions → D → option string * D;
  StartContainer : string → HostConfig → D → option startErr * D;
  ExecContainer : string → list string → D → option string * D;
  RemoveContainer : string → D → bool * D;
  PullImage : string → D → bool * D
}.

(** ** The client *)

Definition newline : Ascii.ascii := Ascii.ascii_of_nat 10.
Definition carriageReturn : Ascii.ascii := Ascii.ascii_of_nat 13.

(** The lines of a text: what [bufio.Scanner] returns token by token. It gives up
    on a line that does not fit into its buffer of 64 KB. *)
Fixpoint splitLines (s : string) : list string :=
  match s with
  | EmptyString => []
  | String c s' =>
      if decide (c = newline) then EmptyString :: splitLines s'
      else match splitLines s' with
           | [] => [String c EmptyString]
           | w :: ws => String c w :: ws
           end
  end.

Fixpoint dropCR (s : string) : string :=
  match s with
  | EmptyString => EmptyString
  | String c EmptyString => if decide (c = carriageReturn) then EmptyString else s
  | String c s' => String c (dropCR s')
  end.

Definition scanLines (s : string) : option (list string) :=
  if decide (Forall (λ w, Z.of_nat (String.length w) < 65536) (splitLines s))
  then Some (dropCR <$> splitLines s) else None.

(** The client: the images that [pullServer] has pulled, the daemon, and the number
    of loops over maps so far. *)
Record client (D : Type) : Type := mkClient {
  pulled : gset string;
  daemon : D;
  mapLoops : nat
}.
Arguments mkClient {D} _ _ _.
Arguments pulled {D} _.
Arguments daemon {D} _.
Arguments mapLoops {D} _.

Section Client.
Context {D : Type} `{Daemon D} `{MapRange}.

Abbreviation C := (M Empty_set (client D)).

Definition onDaemon {A} (f : D → A * D) : C A := λ st,
  let '(a, d) := f (daemon st) in Ok (a, mkClient (pulled st) d (mapLoops st)).

(** [Pull]: one request to [pullServer]. *)
Definition Pull (image : string) : C bool := λ st,
  if decide (image ∈ pulled st) then Ok (true, st)
  else let '(ok, d) := PullImage image (daemon st) in
       Ok (ok, mkClient (if ok then {[image]} ∪ pulled st else pulled st) d (mapLoops st)).

Definition getContainer (id : string) : C (option DockerContainer) :=
  c ← onDaemon (InspectContainer id); mret (Get <$> c).

(** [list]: a container that cannot be inspected is left out. *)
Definition listC (filters : gmap string (list string)) (all : bool)
    : C (option (list DockerContainer)) :=
  apics ← onDaemon (ListContainers filters all);
  match apics with
  | None => mret None
  | Some ids => cs ← mapEach getContainer ids; mret (Some (omap id cs))
  end.

Definition ListC (filters : gmap string (list string)) : C (option (list DockerContainer)) :=
  listC filters false.

(** [getID]. *)
Definition lookupID (name : string) : C (dockerErr + string) :=
  containers ← listC ∅ true;
  mret match containers with
       | None => inl errDaemon
       | Some cs => match findName ("/" ++ name) cs with
                    | Some id => inr id
                    | None => inl errNoSuchContainer
                    end
       end.

Definition nextMapLoop : C nat := λ st,
  Ok (mapLoops st, mkClient (pulled st) (daemon st) (S (mapLoops st))).

Definition create (opts : RunOptions) : C (option string) :=
  ok ← Pull (optImage opts);
  if ok : bool then
    found ← lookupID (optName opts);
    match found with
    | inr id => mret (Some id)
    | inl _ =>
        n ← nextMapLoop;
        onDaemon (CreateContainer (mkCreateOptions (optName opts) (optImage opts) (optArgs opts)
                    (optLabels opts) (createEnv n (optEnv opts))))
    end
  else mret None.

Definition hostConfig (opts : RunOptions) : HostConfig :=
  mkHostConfig (optBinds opts) (optNetworkMode opts) (optPidMode opts) (optPrivileged opts)
    (optVolumesFrom opts).

Definition removeID (id : string) : C bool := onDaemon (RemoveContainer id).

Definition RemoveID (id : string) : C bool := removeID id.

(** The second half of [Run]. *)
Definition createAndStart (opts : RunOptions) : C (option dockerErr) :=
  created ← create opts;
  match created with
  | None => mret (Some errDaemon)
  | Some id =>
      err ← onDaemon (StartContainer id (hostConfig opts));
      match err with
      | None | Some ContainerAlreadyRunning => mret None
      | Some StartFailed => _ ← removeID id; mret (Some errDaemon)
      end
  end.

Definition Run (opts : RunOptions) : C (option dockerErr) :=
  if decide (optName opts = ""%string) then createAndStart opts
  else found ← lookupID (optName opts);
       match found with
       | inl errDaemon => mret (Some errDaemon)
       | _ => createAndStart opts
       end.

(** The error of [ExecVerbose], or its output. *)
Definition ExecVerbose (name : string) (cmd : list string) : C (dockerErr + list string) :=
  found ← lookupID name;
  match found with
  | inl e => mret (inl e)
  | inr id =>
      out ← onDaemon (ExecContainer id cmd);
      mret match out ≫= scanLines with
           | Some lines => inr lines
           | None => inl errDaemon
           end
  end.

Definition Exec (name : string) (cmd : list string) : C (option dockerErr) :=
  r ← ExecVerbose name cmd; mret match r with inl e => Some e | inr _ => None end.

(** [Remove]: no error when the container is not found. *)
Definition Remove (name : string) : C (option dockerErr) :=
  found ← lookupID name;
  match found with
  | inl _ => mret None
  | inr id => ok ← removeID id; mret (if ok : bool then None else Some errDaemon)
  end.

End Client.

(** ** What the minion relies on *)

(** A container as the minion knows it: what it was created with, and the host
    configuration it was started with, if it runs. *)
Record sysContainer : Type := mkSys {
  scImage : string;
  scArgs : list string;
  scLabels : gmap string string;
  scEnv : gset string;
  scHost : option HostConfig
}.

(** The container that the options ask for, before it is started. *)
Definition createdFrom (o : RunOptions) : sysContainer :=
  mkSys (optImage o) (optArgs o) (optLabels o) (optEnv o ∖ {[""%string]}) None.

Definition startWith (h : HostConfig) (c : sysContainer) : sysContainer :=
  mkSys (scImage c) (scArgs c) (scLabels c) (scEnv c) (Some (default h (scHost c))).

(** [Run]: a container with the name is kept, and started if it does not run;
    otherwise a new one is. A failed [Run] may have removed the container. *)
Inductive runSpec (o : RunOptions) (m : gmap string sysContainer)
    : option dockerErr → gmap string sysContainer → Prop :=
| run_ok :
    runSpec o m None (<[optName o := startWith (hostConfig o)
                          (default (createdFrom o) (m !! optName o))]> m)
| run_failed e : runSpec o m (Some e) m
| run_removed e : runSpec o m (Some e) (delete (optName o) m).

(** The [Client] interface, as far as the supervisor uses it. *)
Class DockerAPI (C : Type) : Type := {
  dkList : gmap string (list string) → M Empty_set C (option (list DockerContainer));
  dkRun : RunOptions → M Empty_set C (option dockerErr);
  dkRemove : string → M Empty_set C (option dockerErr);
  dkExec : string → list string → M Empty_set C (option dockerErr)
}.

(** Its behaviour, as long as docker answers: every operation returns. *)
Class DockerLaws (C : Type) `{DockerAPI C} : Type := {
  dkNamed : C → gmap string sysContainer;
  dkHealthy : C → Prop;
  dkRun_law : ∀ o c, dkHealthy c → optName o ≠ ""%string →
    ∃ r c', dkRun o c = Ok (r, c') ∧ runSpec o (dkNamed c) r (dkNamed c') ∧ dkHealthy c';
  dkRemove_law : ∀ n c, dkHealthy c → n ≠ ""%string →
    ∃ c', dkRemove n c = Ok (None, c') ∧ dkNamed c' = delete n (dkNamed c) ∧ dkHealthy c';
  dkExec_law : ∀ n cmd c, dkHealthy c → n ≠ ""%string →
    ∃ r c', dkExec n cmd c = Ok (r, c') ∧ dkNamed c' = dkNamed c ∧ dkHealthy c'
}.

#[global] Instance clientAPI {D} `{Daemon D} `{MapRange} : DockerAPI (client D) := {|
  dkList := ListC;
  dkRun := Run;
  dkRemove := Remove;
  dkExec := Exec
|}.

(** ** What the client relies on *)

(** A container of the daemon. *)
Record dcontainer : Type := mkDContainer {
  dName : string;
  dOptions : createOptions;
  dHost : option HostConfig
}.

(** The daemon has containers by ID, with distinct names. As long as it answers, it
    lists, inspects and removes them; it may refuse to create or to start one. *)
Class DaemonLaws (D : Type) `{Daemon D} : Type := {
  dWorld : D → gmap string dcontainer;
  dAnswers : D → Prop;
  dNames_unique : ∀ d i j ci cj, dAnswers d → dWorld d !! i = Some ci → dWorld d !! j = Some cj →
    dName ci = dName cj → i = j;
  dList_law : ∀ d, dAnswers d → ∃ ids d', ListContainers ∅ true d = (Some ids, d') ∧
    ids ≡ₚ (map_to_list (dWorld d)).*1 ∧ dWorld d' = dWorld d ∧ dAnswers d';
  dInspect_law : ∀ d i c, dAnswers d → dWorld d !! i = Some c →
    ∃ ins d', InspectContainer i d = (Some ins, d') ∧ insID ins = i ∧
      insName ins = ("/" ++ dName c)%string ∧ dWorld d' = dWorld d ∧ dAnswers d';
  dCreate_law : ∀ d o r d', dAnswers d → CreateContainer o d = (r, d') →
    dAnswers d' ∧
    match r with
    | None => dWorld d' = dWorld d
    | Some i => dWorld d !! i = None ∧
        ∃ name, dWorld d' = <[i := mkDContainer name o None]> (dWorld d) ∧
          (∀ j c, dWorld d !! j = Some c → dName c ≠ name) ∧ (coName o ≠ ""%string → name = coName o)
    end;
  dStart_law : ∀ d i h c r d', dAnswers d → dWorld d !! i = Some c →
    StartContainer i h d = (r, d') →
    dAnswers d' ∧
    match r with
    | None => dHost c = None ∧ dWorld d' = <[i := mkDContainer (dName c) (dOptions c) (Some h)]> (dWorld d)
    | Some ContainerAlreadyRunning => is_Some (dHost c) ∧ dWorld d' = dWorld d
    | Some StartFailed => dWorld d' = dWorld d
    end;
  dExec_law : ∀ d i cmd r d', dAnswers d → ExecContainer i cmd d = (r, d') →
    dWorld d' = dWorld d ∧ dAnswers d';
  dRemove_law : ∀ d i c, dAnswers d → dWorld d !! i = Some c →
    ∃ d', RemoveContainer i d = (true, d') ∧ dWorld d' = delete i (dWorld d) ∧ dAnswers d';
  dPull_law : ∀ d im r d', dAnswers d → PullImage im d = (r, d') →
    dWorld d' = dWorld d ∧ dAnswers d'
}.

(** ** The client refines the interface *)

Section Refinement.
Context {D : Type} `{Daemon D, !DaemonLaws D} `{MapRange}.

(** What the minion knows of a container of the daemon. *)
Definition sysOf (c : dcontainer) : sysContainer :=
  mkSys (coImage (dOptions c)) (coCmd (dOptions c)) (coLabels (dOptions c))
    (list_to_set (coEnv (dOptions c)) ∖ {[""%string]}) (dHost c).

Definition namedOf (w : gmap string dcontainer) : gmap string sysContainer :=
  list_to_map ((λ p : string * dcontainer, (dName p.2, sysOf p.2)) <$> map_to_list w).

Definition uniqueNames (w : gmap string dcontainer) : Prop :=
  ∀ i j ci cj, w !! i = Some ci → w !! j = Some cj → dName ci = dName cj → i = j.

Lemma namedOf_NoDup w : uniqueNames w →
  NoDup ((λ p : string * dcontainer, (dName p.2, sysOf p.2)) <$> map_to_list w).*1.
Proof.
  intros Hw. rewrite <- list_fmap_compose. apply NoDup_fmap_2_strong; [|apply NoDup_map_to_list].
  intros [i ci] [j cj] Hi%elem_of_map_to_list Hj%elem_of_map_to_list Heq. cbn in Heq.
  assert (i = j) as -> by eauto. congruence.
Qed.

Lemma namedOf_lookup w n c : uniqueNames w →
  namedOf w !! n = Some c ↔ ∃ i dc, w !! i = Some dc ∧ dName dc = n ∧ c = sysOf dc.
Proof.
  intros Hw. unfold namedOf. rewrite <- elem_of_list_to_map by (by apply namedOf_NoDup).
  rewrite list_elem_of_fmap. split.
  - intros ([i dc] & [= -> ->] & Hi%elem_of_map_to_list). eauto.
  - intros (i & dc & Hi & <- & ->). exists (i, dc). by rewrite elem_of_map_to_list.
Qed.

Lemma namedOf_None w n : uniqueNames w →
  namedOf w !! n = None ↔ ∀ i dc, w !! i = Some dc → dName dc ≠ n.
Proof.
  intros Hw. rewrite eq_None_not_Some. split.
  - intros Hn i dc Hi <-. apply Hn. exists (sysOf dc). apply namedOf_lookup; eauto.
  - intros Hn [c (i & dc & Hi & Hd & _)%namedOf_lookup]; [|done]. by apply (Hn i dc).
Qed.

Lemma option_Some_ext {A} (x y : option A) : (∀ a, x = Some a ↔ y = Some a) → x = y.
Proof. destruct x as [a|], y as [b|]; intros Hxy; naive_solver. Qed.

(** Writing a container under an ID that is new, or that has this name already. *)
Lemma namedOf_insert w i c :
  uniqueNames w → (∀ j cj, w !! j = Some cj → dName cj = dName c → j = i) →
  (∀ ci, w !! i = Some ci → dName ci = dName c) →
  uniqueNames (<[i:=c]> w) ∧ namedOf (<[i:=c]> w) = <[dName c := sysOf c]> (namedOf w).
Proof.
  intros Hw Hfresh Hsame. assert (uniqueNames (<[i:=c]> w)) as Hw'.
  { intros a b ca cb Ha Hb Hn.
    apply lookup_insert_Some in Ha as [[<- <-]|[Hai Ha]], Hb as [[<- <-]|[Hbi Hb]]; try done.
    - symmetry. by eapply Hfresh.
    - by eapply Hfresh.
    - by eapply Hw. }
  split; [done|]. apply map_eq. intros n. apply option_Some_ext. intros x.
  rewrite namedOf_lookup, lookup_insert_Some, namedOf_lookup by done. split.
  - intros (j & cj & [[<- <-]|[Hj Hcj]]%lookup_insert_Some & Hn & ->); [by left|].
    right. split; [|eauto]. intros Heq. destruct Hj. symmetry. eapply Hfresh; [done|congruence].
  - intros [[<- <-]|[Hn (j & cj & Hj & <- & ->)]].
    + exists i, c. by rewrite lookup_insert_eq.
    + exists j, cj. split; [|done]. rewrite lookup_insert_ne; [done|]. intros <-.
      by apply Hn; symmetry; apply Hsame.
Qed.

Lemma namedOf_delete w i c :
  uniqueNames w → w !! i = Some c →
  uniqueNames (delete i w) ∧ namedOf (delete i w) = delete (dName c) (namedOf w).
Proof.
  intros Hw Hi. assert (uniqueNames (delete i w)) as Hw'.
  { intros a b ca cb [_ Ha]%lookup_delete_Some [_ Hb]%lookup_delete_Some. by eapply Hw. }
  split; [done|]. apply map_eq. intros n. apply option_Some_ext. intros x.
  rewrite namedOf_lookup, lookup_delete_Some, namedOf_lookup by done. split.
  - intros (j & cj & [Hj Hcj]%lookup_delete_Some & <- & ->). split; [|eauto].
    intros Heq. by apply Hj, (Hw i j c cj).
  - intros [Hn (j & cj & Hj & <- & ->)]. exists j, cj. split; [|done].
    apply lookup_delete_Some. split; [|done]. intros <-. congruence.
Qed.

Abbreviation worldOf st := (dWorld (daemon st)).
Abbreviation healthy st := (dAnswers (daemon st)).

Lemma world_unique (st : client D) : healthy st → uniqueNames (worldOf st).
Proof. intros Hst i j ci cj. by apply dNames_unique. Qed.

(** The inspections of a list find every container. *)
Lemma inspections_run ids (st : client D) :
  healthy st → (∀ i, i ∈ ids → is_Some (worldOf st !! i)) →
  ∃ cs st', mapEach getContainer ids st = Ok (cs, st') ∧ healthy st' ∧ worldOf st' = worldOf st ∧
    Forall2 (λ i oc, ∃ c dk, worldOf st !! i = Some c ∧ oc = Some dk ∧ dkID dk = i ∧
                             dkName dk = ("/" ++ dName c)%string) ids cs.
Proof.
  revert st. induction ids as [|i ids IH]; intros st Hst Hids; [by exists [], st|].
  destruct (Hids i) as [c Hc]; [left|].
  destruct (dInspect_law _ i c Hst Hc) as (ins & d' & Hins & Hid & Hname & Hw & Ha).
  set (st1 := mkClient (pulled st) d' (mapLoops st)). assert (worldOf st1 = worldOf st) as Hw1 by exact Hw.
  destruct (IH st1) as (cs & st' & Hrun & Ha' & Hw' & Hall); [done| |].
  { intros j Hj. rewrite Hw1. apply Hids. by right. }
  exists (Some (Get ins) :: cs), st'. split_and!; [|done|congruence|].
  - cbn [mapEach]. unfold mbind, M_bind, getContainer at 1, onDaemon, mbind, M_bind. rewrite Hins.
    fold st1. cbn [mret M_ret fmap option_fmap option_map]. by rewrite Hrun.
  - constructor; [by exists c, (Get ins)|]. by rewrite Hw1 in Hall.
Qed.

Lemma slash_inj a b : ("/" ++ a = "/" ++ b)%string → a = b.
Proof. intros Heq. by injection Heq. Qed.

Lemma findName_spec (w : gmap string dcontainer) name ids cs :
  Forall2 (λ i oc, ∃ c dk, w !! i = Some c ∧ oc = Some dk ∧ dkID dk = i ∧
                           dkName dk = ("/" ++ dName c)%string) ids cs →
  match findName ("/" ++ name) (omap id cs) with
  | Some i => ∃ c, w !! i = Some c ∧ dName c = name
  | None => ∀ i c, i ∈ ids → w !! i = Some c → dName c ≠ name
  end.
Proof.
  induction 1 as [|i oc ids cs (c & dk & Hc & -> & Hid & Hn) Hall IH]; [by intros i c Hi; inversion Hi|].
  cbn [omap list_omap id findName]. case_decide as Heq.
  - exists c. rewrite Hid. split; [done|]. rewrite Hn in Heq. by apply slash_inj in Heq.
  - destruct (findName _ _); [done|]. intros j cj [->|Hj]%elem_of_cons Hcj Hname; [|by eapply IH].
    apply Heq. rewrite Hn. congruence.
Qed.

Lemma lookupID_run name (st : client D) :
  healthy st → ∃ r st', lookupID name st = Ok (r, st') ∧ healthy st' ∧ worldOf st' = worldOf st ∧
    match r with
    | inr i => ∃ c, worldOf st !! i = Some c ∧ dName c = name
    | inl e => e = errNoSuchContainer ∧ ∀ i c, worldOf st !! i = Some c → dName c ≠ name
    end.
Proof.
  intros Hst. destruct (dList_law _ Hst) as (ids & d' & Hlist & Hids & Hw & Ha).
  set (st1 := mkClient (pulled st) d' (mapLoops st)). assert (worldOf st1 = worldOf st) as Hw1 by exact Hw.
  destruct (inspections_run ids st1) as (cs & st' & Hrun & Ha' & Hw' & Hall); [done| |].
  { intros i Hi. rewrite Hids in Hi. apply list_elem_of_fmap in Hi as ([j c] & -> & Hj%elem_of_map_to_list).
    rewrite Hw1. eauto. }
  rewrite Hw1 in Hw', Hall.
  pose proof (findName_spec (worldOf st) name ids cs Hall) as Hfind.
  eexists _, st'. split_and!; [|done|done|].
  - unfold lookupID, listC, mbind, M_bind, onDaemon. rewrite Hlist. fold st1. by rewrite Hrun.
  - cbn. destruct (findName _ _) as [i|]; [done|]. split; [done|]. intros i c Hc.
    apply (Hfind i c); [|done]. rewrite Hids. apply list_elem_of_fmap. exists (i, c).
    by rewrite elem_of_map_to_list.
Qed.

Lemma Pull_run image (st : client D) :
  healthy st → ∃ ok st', Pull image st = Ok (ok, st') ∧ healthy st' ∧ worldOf st' = worldOf st.
Proof.
  intros Hst. unfold Pull. case_decide; [by exists true, st|].
  destruct (PullImage image (daemon st)) as [ok d'] eqn:Hp.
  destruct (dPull_law _ _ _ _ Hst Hp). eexists ok, _. by split_and!.
Qed.

Lemma createEnv_set n (env : gset string) :
  (list_to_set (createEnv n env) ∖ {[""%string]} : gset string) = env ∖ {[""%string]}.
Proof.
  apply set_eq. intros x. rewrite !elem_of_difference, elem_of_list_to_set, elem_of_singleton.
  split; intros [Hx Hne]; split; try done.
  - by destruct (elem_of_createEnv _ _ _ Hx).
  - by apply createEnv_complete.
Qed.

(** [create] finds the container with the name, or makes it. *)
Lemma create_run o (st : client D) :
  healthy st → optName o ≠ ""%string →
  ∃ r st', create o st = Ok (r, st') ∧ healthy st' ∧
    match r with
    | None => worldOf st' = worldOf st
    | Some i => ∃ c, worldOf st' !! i = Some c ∧ dName c = optName o ∧
        ((worldOf st !! i = Some c ∧ worldOf st' = worldOf st) ∨
         (namedOf (worldOf st) !! optName o = None ∧ sysOf c = createdFrom o ∧
          worldOf st !! i = None ∧ worldOf st' = <[i:=c]> (worldOf st)))
    end.
Proof.
  intros Hst Hname. destruct (Pull_run (optImage o) st Hst) as ([] & st1 & Hp & H1 & W1); cycle 1.
  { exists None, st1. split_and!; [|done..]. unfold create, mbind, M_bind. by rewrite Hp. }
  destruct (lookupID_run (optName o) st1 H1) as (r & st2 & Hl & H2 & W2 & Hr).
  rewrite W1 in W2, Hr. destruct r as [e|i].
  - destruct Hr as [-> Hnone].
    destruct (CreateContainer (mkCreateOptions (optName o) (optImage o) (optArgs o) (optLabels o)
                (createEnv (mapLoops st2) (optEnv o))) (daemon st2)) as [r d'] eqn:Hc.
    destruct (dCreate_law _ _ _ _ H2 Hc) as [Ha Hw].
    exists r, (mkClient (pulled st2) d' (S (mapLoops st2))). split_and!; [|done|].
    + unfold create, mbind, M_bind. rewrite Hp, Hl. cbn [nextMapLoop onDaemon daemon pulled mapLoops].
      unfold nextMapLoop, onDaemon. cbn [daemon pulled mapLoops]. by rewrite Hc.
    + cbn [daemon]. destruct r as [i|]; [|congruence].
      destruct Hw as (Hi & name & Hw & Hfresh & Hn). rewrite (Hn Hname) in Hw. rewrite W2 in Hi, Hw.
      eexists. rewrite Hw, lookup_insert_eq. split_and!; [done|done|]. right. split_and!; [| |done|done].
      * apply namedOf_None; [by apply world_unique|done].
      * unfold sysOf, createdFrom. cbn [dOptions coImage coCmd coLabels coEnv dHost].
        by rewrite createEnv_set.
  - destruct Hr as (c & Hc & Hn). exists (Some i), st2. split_and!; [|done|].
    + unfold create, mbind, M_bind. by rewrite Hp, Hl.
    + exists c. rewrite W2. split_and!; [done|done|by left].
Qed.

(** Starting the container that [create] returned. *)
Lemma createAndStart_run o (st : client D) :
  healthy st → optName o ≠ ""%string →
  ∃ r st', createAndStart o st = Ok (r, st') ∧
    runSpec o (namedOf (worldOf st)) r (namedOf (worldOf st')) ∧ healthy st'.
Proof.
  intros Hst Hname. destruct (create_run o st Hst Hname) as (r & st1 & Hc & H1 & Hr).
  destruct r as [i|]; cycle 1.
  { exists (Some errDaemon), st1. unfold createAndStart, mbind, M_bind. rewrite Hc.
    split_and!; [done|rewrite Hr; constructor|done]. }
  destruct Hr as (c & Hi & Hn & Hr). pose proof (world_unique st Hst) as U. pose proof (world_unique st1 H1) as U1.
  (* the named containers after [create] *)
  assert (namedOf (worldOf st1) =
            <[optName o := default (createdFrom o) (namedOf (worldOf st) !! optName o)]> (namedOf (worldOf st)) ∧
          default (createdFrom o) (namedOf (worldOf st) !! optName o) = sysOf c) as [Hm Hd].
  { destruct Hr as [[Hc0 Hw]|(Hnone & Hsys & Hnew & Hw)].
    - assert (namedOf (worldOf st) !! optName o = Some (sysOf c)) as Hl by (apply namedOf_lookup; eauto).
      rewrite Hw, Hl. split; [|done]. symmetry. by apply insert_id.
    - rewrite Hnone, Hw. cbn [default]. split; [|done]. rewrite <- Hsys, <- Hn. apply namedOf_insert; [done|..].
      + intros j cj Hj Heq. exfalso. apply (proj1 (namedOf_None _ _ U) Hnone j cj Hj). congruence.
      + intros ci Hci. congruence. }
  destruct (StartContainer i (hostConfig o) (daemon st1)) as [e d2] eqn:Hs.
  destruct (dStart_law _ _ _ _ _ _ H1 Hi Hs) as [H2 He].
  set (st2 := mkClient (pulled st1) d2 (mapLoops st1)).
  assert (createAndStart o st = match e with
      | None | Some ContainerAlreadyRunning => Ok (None, st2)
      | Some StartFailed => (removeID i ≫= λ _, mret (Some errDaemon)) st2
      end) as ->.
  { unfold createAndStart, mbind at 1, M_bind at 1. rewrite Hc. unfold mbind at 1, M_bind at 1.
    unfold onDaemon at 1. rewrite Hs. fold st2. by destruct e as [[]|]. }
  destruct e as [[]|].
  - destruct He as [[h Hh] Hw]. exists None, st2. split_and!; [done| |done].
    cbn [st2 daemon]. rewrite Hw, Hm, Hd.
    assert (sysOf c = startWith (hostConfig o) (sysOf c)) as Hstart.
    { unfold startWith, sysOf. cbn. by rewrite Hh. }
    rewrite Hstart at 1. rewrite <- Hd. constructor.
  - destruct (dRemove_law d2 i c H2) as (d3 & Hrm & Hw3 & H3); [by rewrite He|].
    exists (Some errDaemon), (mkClient (pulled st2) d3 (mapLoops st2)). split_and!; [|cbn [daemon]|done].
    + unfold removeID, onDaemon, mbind, M_bind. cbn [st2 daemon]. by rewrite Hrm.
    + rewrite Hw3, He. destruct (namedOf_delete (worldOf st1) i c U1 Hi) as [_ ->].
      rewrite Hn, Hm, delete_insert_eq. constructor.
  - destruct He as [Hh Hw]. exists None, st2. split_and!; [done| |done]. cbn [st2 daemon]. rewrite Hw.
    set (c' := mkDContainer (dName c) (dOptions c) (Some (hostConfig o))).
    destruct (namedOf_insert (worldOf st1) i c' U1) as [_ ->].
    { intros j cj Hj Heq. by eapply U1. }
    { intros ci Hci. assert (ci = c) as -> by congruence. done. }
    change (dName c') with (dName c). rewrite Hn, Hm, insert_insert_eq.
    assert (sysOf c' = startWith (hostConfig o) (sysOf c)) as ->.
    { unfold startWith, sysOf, c'. cbn. by rewrite Hh. }
    rewrite <- Hd. constructor.
Qed.

Lemma Run_refines o (st : client D) :
  healthy st → optName o ≠ ""%string →
  ∃ r st', Run o st = Ok (r, st') ∧
    runSpec o (namedOf (worldOf st)) r (namedOf (worldOf st')) ∧ healthy st'.
Proof.
  intros Hst Hname. destruct (lookupID_run (optName o) st Hst) as (found & st1 & Hl & H1 & W1 & Hr).
  destruct (createAndStart_run o st1 H1 Hname) as (r & st2 & Hrun & Hspec & H2). rewrite W1 in Hspec.
  exists r, st2. split_and!; [|done|done]. unfold Run. rewrite decide_False by done.
  unfold mbind, M_bind. rewrite Hl. destruct found as [e|i]; [|done]. by destruct Hr as [-> _].
Qed.

Lemma Remove_refines n (st : client D) :
  healthy st → ∃ st', Remove n st = Ok (None, st') ∧
    namedOf (worldOf st') = delete n (namedOf (worldOf st)) ∧ healthy st'.
Proof.
  intros Hst. destruct (lookupID_run n st Hst) as (found & st1 & Hl & H1 & W1 & Hr).
  pose proof (world_unique st Hst) as U. unfold Remove, mbind, M_bind. rewrite Hl. destruct found as [e|i].
  - destruct Hr as [_ Hnone]. exists st1. split_and!; [done| |done]. rewrite W1. symmetry.
    apply delete_id. by apply namedOf_None.
  - destruct Hr as (c & Hi & <-). destruct (dRemove_law (daemon st1) i c H1) as (d2 & Hrm & W2 & H2);
      [by rewrite W1|].
    exists (mkClient (pulled st1) d2 (mapLoops st1)). split_and!; [|cbn [daemon]|done].
    + unfold removeID, onDaemon. by rewrite Hrm.
    + rewrite W2, W1. by apply namedOf_delete.
Qed.

Lemma Exec_refines n cmd (st : client D) :
  healthy st → ∃ r st', Exec n cmd st = Ok (r, st') ∧
    namedOf (worldOf st') = namedOf (worldOf st) ∧ healthy st'.
Proof.
  intros Hst. destruct (lookupID_run n st Hst) as (found & st1 & Hl & H1 & W1 & Hr).
  unfold Exec, ExecVerbose, mbind, M_bind. rewrite Hl. destruct found as [e|i].
  - exists (Some e), st1. by rewrite W1.
  - unfold onDaemon. destruct (ExecContainer i cmd (daemon st1)) as [out d2] eqn:He.
    destruct (dExec_law _ _ _ _ _ H1 He) as [W2 H2]. eexists _, _. split_and!; [done| |done].
    cbn [daemon]. by rewrite W2, W1.
Qed.

#[global] Instance clientLaws : DockerLaws (client D) := {|
  dkNamed := λ st, namedOf (worldOf st);
  dkHealthy := λ st, healthy st;
  dkRun_law := Run_refines;
  dkRemove_law := λ n st Hst _, Remove_refines n st Hst;
  dkExec_law := λ n cmd st Hst _, Exec_refines n cmd st Hst
|}.

End Refinement.

(** ** A daemon in memory *)

Module MemoryDaemon.

Definition names (d : gmap string dcontainer) : list string := dName <$> (map_to_list d).*2.

Definition freshName (o : createOptions) (d : gmap string dcontainer) : string :=
  if decide (coName o = ""%string) then fresh (names d) else coName o.

#[global] Instance memoryDaemon : Daemon (gmap string dcontainer) := {|
  ListContainers := λ _ _ d, (Some (map_to_list d).*1, d);
  InspectContainer := λ i d,
    ((λ c, mkInspection i ("/" ++ dName c) (coImage (dOptions c)) "" "" (coCmd (dOptions c)) 0
             (coEnv (dOptions c)) (coLabels (dOptions c))) <$> d !! i, d);
  CreateContainer := λ o d,
    if decide (freshName o d ∈ names d) then (None, d)
    else let i := fresh (map_to_list d).*1 in
         (Some i, <[i := mkDContainer (freshName o d) o None]> d);
  StartContainer := λ i h d,
    match d !! i with
    | None => (Some StartFailed, d)
    | Some c => match dHost c with
                | Some _ => (Some ContainerAlreadyRunning, d)
                | None => (None, <[i := mkDContainer (dName c) (dOptions c) (Some h)]> d)
                end
    end;
  ExecContainer := λ i _ d, (if decide (is_Some (d !! i)) then Some ""%string else None, d);
  RemoveContainer := λ i d,
    match d !! i with None => (false, d) | Some _ => (true, delete i d) end;
  PullImage := λ _ d, (true, d)
|}.

Lemma names_spec d n : n ∈ names d ↔ ∃ i c, d !! i = Some c ∧ dName c = n.
Proof.
  unfold names. rewrite list_elem_of_fmap. split.
  - intros (c & -> & [i Hi]%elem_of_values). eauto.
  - intros (i & c & Hi & <-). exists c. split; [done|]. apply elem_of_values. eauto.
Qed.

#[global] Instance memoryLaws : DaemonLaws (gmap string dcontainer).
Proof.
  unshelve refine {| dWorld := λ d, d; dAnswers := uniqueNames |};
    cbn [ListContainers InspectContainer CreateContainer StartContainer ExecContainer
         RemoveContainer PullImage memoryDaemon].
  - intros d i j ci cj Hd. apply Hd.
  - intros d Hd. by exists (map_to_list d).*1, d.
  - intros d i c Hd Hi. rewrite Hi. by eexists _, d.
  - intros d o r d' Hd Hc. case_decide as Hn; injection Hc as <- <-; [done|].
    set (i := fresh (map_to_list d).*1).
    assert (d !! i = None) as Hi.
    { apply eq_None_not_Some. intros [c Hc]. apply (infinite_is_fresh (map_to_list d).*1).
      apply list_elem_of_fmap. exists (i, c). by rewrite elem_of_map_to_list. }
    rewrite names_spec in Hn. split.
    + apply namedOf_insert; [done|..]; cbn [dName].
      * intros j cj Hj Heq. destruct Hn. eauto.
      * intros ci Hci. congruence.
    + split; [done|]. eexists. split; [done|]. split.
      * intros j c Hj Heq. destruct Hn. eauto.
      * unfold freshName. intros Hne. by rewrite decide_False.
  - intros d i h c r d' Hd Hi. rewrite Hi. destruct (dHost c) as [h0|] eqn:Hh; intros [= <- <-].
    + split; [done|]. split; [|done]. by exists h0.
    + split; [|done]. apply (namedOf_insert d i); cbn [dName]; [done|..].
      * intros j cj Hj Heq. by eapply Hd.
      * intros ci Hci. congruence.
  - intros d i cmd r d' Hd [= <- <-]. done.
  - intros d i c Hd Hi. rewrite Hi. exists (delete i d). split_and!; [done|done|].
    by apply (namedOf_delete d i c).
  - intros d im r d' Hd [= <- <-]. done.
Defined.

Lemma no_names : uniqueNames ∅.
Proof. by intros i j ci cj Hi. Qed.

End MemoryDaemon.

(** C20: The docker client implements the abstract docker of the supervisor, for any
    daemon that obeys its laws: [Run] returns; when it succeeds, the container with
    the name is the one that had it before, or a new one with the options' image,
    arguments, labels and environment, and it runs; when it fails, the named
    containers are as before or without this one. [Remove] succeeds and leaves
    exactly the containers with other names. *)
Theorem docker_client_refines {D : Type} `{Daemon D, !DaemonLaws D} `{MapRange}
    (o : RunOptions) (n : string) (st : client D) :
  dAnswers (daemon st) → optName o ≠ ""%string →
  (∃ r st', Run o st = Ok (r, st') ∧ dAnswers (daemon st') ∧
     runSpec o (namedOf (dWorld (daemon st))) r (namedOf (dWorld (daemon st')))) ∧
  (∃ st', Remove n st = Ok (None, st') ∧ dAnswers (daemon st') ∧
     namedOf (dWorld (daemon st')) = delete n (namedOf (dWorld (daemon st)))).
Proof.
  intros Hst Hname. split.
  - destruct (Run_refines o st Hst Hname) as (r & st' & ? & ? & ?). eauto.
  - destruct (Remove_refines n st Hst) as (st' & ? & ? & ?). eauto.
Qed.

Lemma docker_client_refines_witness :
  let o := mkRunOptions "etcd" "img" ["-x"%string] ∅ {["A=1"%string]} [] "host" "" false [] in
  let st := mkClient ∅ (∅ : gmap string dcontainer) 0 in
  ∃ r st', Run (H0 := mapToListRange) o st = Ok (r, st') ∧
    runSpec o ∅ r (namedOf (dWorld (daemon st'))).
Proof.
  cbv zeta. edestruct (docker_client_refines (H0 := mapToListRange)
    (mkRunOptions "etcd" "img" ["-x"%string] ∅ {["A=1"%string]} [] "host" "" false []) "etcd"
    (mkClient ∅ (∅ : gmap string dcontainer) 0)) as [(r & st' & Hrun & _ & Hspec) _];
    [exact MemoryDaemon.no_names|discriminate|].
  exists r, st'. split; [exact Hrun|exact Hspec].
Defined.

(** When the daemon does not list its containers, [Remove] reports that it removed
    one. *)
Lemma Remove_hides_failure {D : Type} `{Daemon D} `{MapRange} n (st : client D) d' :
  ListContainers ∅ true (daemon st) = (None, d') →
  Remove n st = Ok (None, mkClient (pulled st) d' (mapLoops st)).
Proof. intros Hl. unfold Remove, lookupID, listC, mbind, M_bind, onDaemon. by rewrite Hl. Qed.
