(* ===== verification/Scheduler.v ===== *)
(** * minion/scheduler: containers of the database against containers of docker

    Model of [src/minion/scheduler/scheduler.go] and of the pure parts of
    [src/minion/scheduler/swarm.go]. *)

From stdpp Require Import base gmap list strings.
From Stdlib Require Import ZArith Lia.
From S2P Require Import Prelude Join Util DbRows Db DbProps Reconcile Docker.

Local Open Scope Z_scope.

Fixpoint strEq (a b : list string) : bool :=
  match a, b with
  | [], [] => true
  | x :: a', y :: b' => bool_decide (x = y) && strEq a' b'
  | _, _ => false
  end.

(** The user labels of a docker container; the edit distance does not depend on
    their order. *)
Definition userLabels (dkc : DockerContainer) : list string :=
  omap (λ '(label, value),
    if IsUserLabel label && bool_decide (value = LabelTrueValue)
    then Some (ParseUserLabel label) else None) (map_to_list (dkLabels dkc)).

(** The score function of [syncDB]. *)
Definition schedScore (dbc : Container) (dkc : DockerContainer) : Z :=
  let dbcCmd := elems (containerCommand dbc) in
  if decide (map_Forall (λ k v, default ""%string (dkEnv dkc !! k) = v)
               (default ∅ (containerEnv dbc))) then
    if decide (dkImage dkc ≠ containerImage dbc) then -1
    else if negb (bool_decide (dbcCmd = [])) && negb (strEq dbcCmd (dkArgs dkc)) &&
            negb (strEq dbcCmd (dkPath dkc :: dkArgs dkc)) then -1
    else if decide (dkID dkc = containerSchedID dbc) then 0
    else EditDistance (elems (containerLabels dbc)) (userLabels dkc)
  else -1.

Definition setSchedID (dbc : Container) (id : string) : Container :=
  mkContainer (containerID dbc) (containerPid dbc) (containerIP dbc) (containerMac dbc) id
    (containerImage dbc) (containerCommand dbc) (containerLabels dbc) (containerEnv dbc)
    (containerExclusive dbc).

Definition makeLabels (dbc : Container) : gmap string string :=
  foldl (λ labels lb, <[UserLabel lb := LabelTrueValue]> labels)
    {[SchedulerLabelKey := SchedulerLabelValue]} (elems (containerLabels dbc)).

Definition affinity (label : string) : string :=
  ("affinity:" ++ UserLabel label ++ "!=" ++ LabelTrueValue)%string.

(** The affinity that a placement pair asks for on a container with this label. *)
Definition excludes (label : string) (pair : string * string) : option string :=
  if decide (pair.1 = label) then Some (affinity pair.2)
  else if decide (pair.2 = label) then Some (affinity pair.1)
  else None.

Definition makeEnv (dbc : Container) : gset string :=
  list_to_set (label ← elems (containerLabels dbc);
               omap (excludes label) (elements (default ∅ (containerExclusive dbc)))) ∪
  list_to_set ((λ '(k, v), k ++ "=" ++ v)%string <$>
                 map_to_list (default ∅ (containerEnv dbc))).

Section Sched.
Context `{MapRange}.

(** [syncDB]: the IDs to terminate and the rows to boot. *)
Definition syncDB (dkcsArg : list DockerContainer) : DB (list string * list Container) :=
  dbcs ← SelectFrom (R := Container) None;
  let j := Join schedScore dbcs dkcsArg in
  _ ← forEach (λ p, Commit (setSchedID p.1 (dkID p.2))) (pairs j);
  mret (dkID <$> lonelyRights j, lonelyLefts j).

(** The guard of [Run]: whether this minion schedules. *)
Definition isScheduler (minions : list Minion) (etcdRows : list Etcd) : bool :=
  match minions, etcdRows with
  | [m], [e] => bool_decide (minionRole m = Master) &&
                negb (bool_decide (minionPrivateIP m = ""%string)) && etcdLeader e
  | _, _ => false
  end.

(** The loop of [Run], with at most [tries] rounds: [dk] tells what the daemon
    lists after the terminations and boots of a round; [None] is a failed list. *)
Fixpoint syncRounds (tries : nat)
    (dk : list DockerContainer → list string → list Container → option (list DockerContainer))
    (dkcs : option (list DockerContainer)) : DB unit :=
  match tries, dkcs with
  | S n, Some l =>
      '(term, boot) ← Transact (syncDB l);
      if decide (term = [] ∧ boot = []) then mret tt
      else syncRounds n dk (dk l term boot)
  | _, _ => mret tt
  end.

(** ** Lemmas *)

Lemma strEq_spec a b : strEq a b = true ↔ a = b.
Proof.
  revert b. induction a as [|x a IH]; intros [|y b]; simpl; try done.
  rewrite andb_true_iff, bool_decide_eq_true, IH. naive_solver.
Qed.

Lemma parseEnv_lookup values k w :
  (∃ s ws, s ∈ values ∧ splitEq s = k :: w :: ws) →
  (∀ s w' ws, s ∈ values → splitEq s = k :: w' :: ws → w' = w) →
  parseEnv values !! k = Some w.
Proof.
  unfold parseEnv. induction values as [|s values IH] using rev_ind; [set_solver|].
  intros (s0 & ws & Hin & Hs0) Huniq. rewrite foldl_app. simpl. unfold envStep at 1.
  assert (s0 ≠ s → foldl envStep ∅ values !! k = Some w) as Hrec.
  { intros Hne. apply IH; [exists s0, ws; set_solver|]. intros; eapply Huniq; [|done]. set_solver. }
  destruct (splitEq s) as [|e0 [|e1 es]] eqn:Hsp; [apply Hrec; congruence..|].
  destruct (decide (e0 = k)) as [->|Hne].
  - rewrite lookup_insert_eq. f_equal. eapply Huniq; [|exact Hsp]. set_solver.
  - rewrite lookup_insert_ne by done. apply Hrec. congruence.
Qed.

Lemma affinity_split label :
  ∃ w ws, splitEq (affinity label) = w :: ws ∧ hasPrefix w "affinity:" = true.
Proof.
  unfold affinity. generalize (UserLabel label ++ "!=" ++ LabelTrueValue)%string as s. intros s.
  destruct (splitOn_cons eqSign s) as (w & ws & Hs). exists ("affinity:" ++ w)%string, ws.
  split; [|apply prefix_app]. apply splitOn_prefix; [|done].
  apply (bool_decide_unpack (noEq "affinity:")). reflexivity.
Qed.

(** The variables that [makeEnv] builds. *)
Lemma elem_of_makeEnv dbc s :
  s ∈ makeEnv dbc ↔
  (∃ label pair, label ∈ elems (containerLabels dbc) ∧
     pair ∈ default ∅ (containerExclusive dbc) ∧ excludes label pair = Some s) ∨
  (∃ k v, default ∅ (containerEnv dbc) !! k = Some v ∧ s = (k ++ "=" ++ v)%string).
Proof.
  unfold makeEnv. rewrite elem_of_union, !elem_of_list_to_set, list_elem_of_bind. f_equiv.
  - split.
    + intros (label & Hs & Hl). apply list_elem_of_omap in Hs as (pair & Hp & He).
      apply elem_of_elements in Hp. eauto.
    + intros (label & pair & Hl & Hp & He). exists label. split; [|done].
      apply list_elem_of_omap. exists pair. by rewrite elem_of_elements.
  - rewrite list_elem_of_fmap. split.
    + intros ([k v] & -> & Hkv%elem_of_map_to_list). eauto.
    + intros (k & v & Hkv & ->). exists (k, v). by rewrite elem_of_map_to_list.
Qed.

Lemma makeLabels_lookup dbc l v :
  makeLabels dbc !! l = Some v ↔
  (v = LabelTrueValue ∧ ∃ lb, lb ∈ elems (containerLabels dbc) ∧ l = UserLabel lb) ∨
  (l = SchedulerLabelKey ∧ v = SchedulerLabelValue).
Proof.
  unfold makeLabels. induction (elems (containerLabels dbc)) as [|lb lbs IH] using rev_ind; simpl.
  - rewrite lookup_singleton_Some. set_solver.
  - rewrite foldl_app. simpl. rewrite lookup_insert_Some, IH. split.
    + intros [[<- <-]|[_ [(-> & x & ? & ->)|[-> ->]]]]; [left|left|auto].
      * split; [done|]. exists lb. set_solver.
      * split; [done|]. exists x. set_solver.
    + intros [(-> & x & Hx & ->)|[-> ->]].
      * destruct (decide (lb = x)) as [->|Hne]; [by left|right].
        split; [by intros ?%UserLabel_inj|]. left. split; [done|]. exists x. set_solver.
      * right. split; [|by right]. intros Heq%(f_equal IsUserLabel).
        by rewrite IsUserLabel_UserLabel in Heq.
Qed.

Lemma omap_NoDup {A B C} (f : A → option B) (h : A → C) (g : B → C) (l : list A) :
  (∀ a b, a ∈ l → f a = Some b → h a = g b) → NoDup (h <$> l) → NoDup (omap f l).
Proof.
  intros Hf Hnd. apply (NoDup_fmap_1 g). eapply sublist_NoDup; [exact Hnd|]. clear Hnd.
  induction l as [|a l IH]; [done|]. rewrite fmap_cons. simpl.
  destruct (f a) as [b|] eqn:Hb; [|apply sublist_cons, IH; set_solver].
  rewrite fmap_cons, <- (Hf a b) by (done || constructor). apply sublist_skip, IH. set_solver.
Qed.

(** The labels of a container that was started for a row are the row's labels. *)
Lemma userLabels_makeLabels dbc dkc :
  dkLabels dkc = makeLabels dbc →
  NoDup (userLabels dkc) ∧ ∀ x, x ∈ elems (containerLabels dbc) ↔ x ∈ userLabels dkc.
Proof.
  intros Heq. unfold userLabels. rewrite Heq. split.
  - apply (omap_NoDup _ fst UserLabel); [|apply NoDup_fst_map_to_list].
    intros [l v] x Hl Hx. apply elem_of_map_to_list, makeLabels_lookup in Hl.
    destruct Hl as [(-> & lb & _ & ->)|[-> ->]]; [|done].
    rewrite IsUserLabel_UserLabel, ParseUserLabel_UserLabel in Hx. by injection Hx as <-.
  - intros x. rewrite list_elem_of_omap. split.
    + intros Hx. exists (UserLabel x, LabelTrueValue). rewrite elem_of_map_to_list, makeLabels_lookup.
      split; [left; eauto|]. rewrite IsUserLabel_UserLabel, ParseUserLabel_UserLabel. done.
    + intros ([l v] & Hl & Hx). apply elem_of_map_to_list, makeLabels_lookup in Hl.
      destruct Hl as [(-> & lb & Hlb & ->)|[-> ->]]; [|done].
      rewrite IsUserLabel_UserLabel, ParseUserLabel_UserLabel in Hx. by injection Hx as <-.
Qed.

(** A docker container that runs what the scheduler asked for: the image, the
    command in one of the two forms docker reports it in, and the environment and
    labels that were passed to the daemon. *)
Definition runs (n : nat) (dbc : Container) (dkc : DockerContainer) : Prop :=
  dkImage dkc = containerImage dbc ∧
  (dkArgs dkc = elems (containerCommand dbc) ∨
   dkPath dkc :: dkArgs dkc = elems (containerCommand dbc)) ∧
  dkEnv dkc = parseEnv (createEnv n (makeEnv dbc)) ∧
  dkLabels dkc = makeLabels dbc.

(** Variables whose names docker reports as they were set. *)
Definition plainKeys (dbc : Container) : Prop :=
  map_Forall (λ k _, noEq k ∧ hasPrefix k "affinity:" = false) (default ∅ (containerEnv dbc)).

(** Docker reports a variable up to the next equality sign in its value. *)
Lemma runs_env n dbc dkc k v :
  runs n dbc dkc → plainKeys dbc → default ∅ (containerEnv dbc) !! k = Some v →
  dkEnv dkc !! k = Some (hd ""%string (splitEq v)).
Proof.
  intros (_ & _ & -> & _) Hplain Hkv. destruct (Hplain k v Hkv) as (Hk & Haff).
  destruct (splitOn_cons eqSign v) as (w0 & ws0 & Hv). rewrite Hv. simpl. apply parseEnv_lookup.
  - exists (k ++ "=" ++ v)%string, ws0. split; [|by rewrite splitEq_pair, Hv].
    apply createEnv_complete, elem_of_makeEnv. eauto.
  - intros s w ws [->|Hs]%elem_of_createEnv Hsp; [done|]. apply elem_of_makeEnv in Hs as [Hs|Hs].
    + destruct Hs as (label & pair & _ & _ & Hex). unfold excludes in Hex.
      assert (∃ l, s = affinity l) as [l ->] by (repeat case_decide; naive_solver).
      destruct (affinity_split l) as (w' & ws' & Hsp' & Hpre). congruence.
    + destruct Hs as (k' & v' & Hkv' & ->). destruct (Hplain k' v' Hkv') as (Hk' & _).
      rewrite splitEq_pair in Hsp by done. congruence.
Qed.

(** ** Properties *)


(** A variable whose value has an equality sign is not recognised: docker's
    report of it is cut at the second sign, and the container that was started
    for the row never matches the row. *)
Theorem env_with_equals_unrecognised (dbc : Container) (dkc : DockerContainer) (n : nat)
    (k v1 v2 : string) :
  runs n dbc dkc → noEq k → noEq v1 → hasPrefix k "affinity:" = false →
  containerEnv dbc = Some {[k := (v1 ++ "=" ++ v2)%string]} →
  schedScore dbc dkc = -1.
Proof.
  intros Hruns Hk Hv1 Haff Hrow. unfold schedScore. rewrite decide_False; [done|].
  rewrite Hrow. simpl. intros Hall. specialize (Hall k _ (lookup_singleton_eq _ _)). simpl in Hall.
  rewrite (runs_env n dbc dkc k (v1 ++ "=" ++ v2)) in Hall; [|done| |].
  - rewrite splitEq_pair in Hall by done. simpl in Hall.
    apply (f_equal String.length) in Hall. rewrite string_length_app in Hall. simpl in Hall. lia.
  - unfold plainKeys. rewrite Hrow. by apply map_Forall_singleton.
  - rewrite Hrow. apply lookup_singleton_eq.
Qed.

(** Telling the elements of two disjoint lists apart. *)
Lemma filter_member {A} `{EqDecision A} (l1 l2 : list A) :
  NoDup (l1 ++ l2) →
  base.filter (λ x, bool_decide (x ∈ l1) = true) (l1 ++ l2) = l1 ∧
  base.filter (λ x, bool_decide (x ∈ l1) = false) (l1 ++ l2) = l2.
Proof.
  intros (_ & Hdisj & _)%NoDup_app. rewrite !filter_app. split.
  - rewrite (list_filter_id _ l1), (list_filter_none _ l2); [apply app_nil_r| |].
    + intros x Hx Hin%bool_decide_eq_true. by apply (Hdisj x).
    + intros x Hx. by apply bool_decide_eq_true.
  - rewrite (list_filter_none _ l1), (list_filter_id _ l2); [done| |].
    + intros x Hx. apply bool_decide_eq_false. intros Hin. by apply (Hdisj x).
    + intros x Hx Hin%bool_decide_eq_false. done.
Qed.

Definition swap {A B} (p : A * B) : B * A := (p.2, p.1).


End Sched.

(** ** Witnesses *)

Module SchedDemo.

Definition row : Container :=
  mkContainer 1 0 "" "" "" "nginx" (Some ["-q"%string]) (Some ["web"%string])
    (Some {["MODE"%string := "fast"%string]}) (Some {[("db", "web")]})%string.
Definition badRow : Container :=
  mkContainer 1 0 "" "" "" "nginx" None None (Some {["OPTS"%string := "a=b"%string]}) None.

(** What docker reports after the row was booted. *)
Definition started (dbc : Container) : DockerContainer :=
  Get (mkInspection "c1" "/c1" (containerImage dbc) "" "sh" (elems (containerCommand dbc)) 7
         (createEnv (H := mapToListRange) 0 (makeEnv dbc)) (makeLabels dbc)).

Definition db : Database :=
  setTable (R := Container) (mkTable {[1 := row]} ∅ 0 0) (setIdAlloc 1 newDatabase).

Lemma schedDemo_wf : dbWF db.
Proof.
  apply dbWF_setTable; [apply dbWF_setIdAlloc; [apply newDatabase_wf|done]|].
  by apply map_Forall_singleton.
Qed.

Lemma started_runs dbc : runs (H := mapToListRange) 0 dbc (started dbc).
Proof. split_and!; try done. by left. Qed.

End SchedDemo.


Lemma env_with_equals_unrecognised_witness :
  schedScore SchedDemo.badRow (SchedDemo.started SchedDemo.badRow) = -1.
Proof.
  apply (env_with_equals_unrecognised (H := mapToListRange) _ _ 0 "OPTS" "a" "b").
  - apply SchedDemo.started_runs.
  - apply (bool_decide_unpack (noEq "OPTS")). reflexivity.
  - apply (bool_decide_unpack (noEq "a")). reflexivity.
  - reflexivity.
  - reflexivity.
Defined.

