(* ===== verification/ProviderTables.v ===== *)
(** * provider: the tables of machine sizes

    The size tables of [src/provider/constraintConstants.go] and
    [src/provider/gceConstants.go], transcribed row by row, and their row type of
    [src/provider/constraint.go]. A decimal literal of the source is the [float64]
    closest to it: [dec m e] stands for [m / 10^e]. *)

From stdpp Require Import base list strings.
From Stdlib Require Import ZArith SpecFloat.
From S2P Require Import DslAst.

Local Open Scope Z_scope.

(** Both the numerator and the power of ten are exact, so that the rounding of the
    division is the rounding of the literal. *)
Definition dec (m e : Z) : float64 :=
  SFdiv 53 1024 (floatOfInt m) (floatOfInt (10 ^ e)).

Record description : Type := mkDescription {
  descSize : string;
  descPrice : float64;
  descRam : float64;
  descCpu : Z;
  descDisk : string;
  descRegion : string
}.

(** The zero value of the type. *)
Definition noDescription : description := mkDescription "" floatZero floatZero 0 "" "".

Definition aws_us_east_1 : list description := [
  mkDescription "t2.nano" (dec 65 4) (dec 5 1) 1 "ebsonly" "us-east-1";
  mkDescription "t2.micro" (dec 13 3) (dec 1 0) 1 "ebsonly" "us-east-1";
  mkDescription "t2.small" (dec 26 3) (dec 2 0) 1 "ebsonly" "us-east-1";
  mkDescription "t2.medium" (dec 52 3) (dec 4 0) 2 "ebsonly" "us-east-1";
  mkDescription "t2.large" (dec 104 3) (dec 8 0) 2 "ebsonly" "us-east-1";
  mkDescription "m4.large" (dec 12 2) (dec 8 0) 2 "ebsonly" "us-east-1";
  mkDescription "m4.xlarge" (dec 239 3) (dec 16 0) 4 "ebsonly" "us-east-1";
  mkDescription "m4.2xlarge" (dec 479 3) (dec 32 0) 8 "ebsonly" "us-east-1";
  mkDescription "m4.4xlarge" (dec 958 3) (dec 64 0) 16 "ebsonly" "us-east-1";
  mkDescription "m4.10xlarge" (dec 2394 3) (dec 160 0) 40 "ebsonly" "us-east-1";
  mkDescription "m3.medium" (dec 67 3) (dec 375 2) 1 "1 x 4 SSD" "us-east-1";
  mkDescription "m3.large" (dec 133 3) (dec 75 1) 2 "1 x 32 SSD" "us-east-1";
  mkDescription "m3.xlarge" (dec 266 3) (dec 15 0) 4 "2 x 40 SSD" "us-east-1";
  mkDescription "m3.2xlarge" (dec 532 3) (dec 30 0) 8 "2 x 80 SSD" "us-east-1";
  mkDescription "c4.large" (dec 105 3) (dec 375 2) 2 "ebsonly" "us-east-1";
  mkDescription "c4.xlarge" (dec 209 3) (dec 75 1) 4 "ebsonly" "us-east-1";
  mkDescription "c4.2xlarge" (dec 419 3) (dec 15 0) 8 "ebsonly" "us-east-1";
  mkDescription "c4.4xlarge" (dec 838 3) (dec 30 0) 16 "ebsonly" "us-east-1";
  mkDescription "c4.8xlarge" (dec 1675 3) (dec 60 0) 36 "ebsonly" "us-east-1";
  mkDescription "c3.large" (dec 105 3) (dec 375 2) 2 "2 x 16 SSD" "us-east-1";
  mkDescription "c3.xlarge" (dec 21 2) (dec 75 1) 4 "2 x 40 SSD" "us-east-1";
  mkDescription "c3.2xlarge" (dec 42 2) (dec 15 0) 8 "2 x 80 SSD" "us-east-1";
  mkDescription "c3.4xlarge" (dec 84 2) (dec 30 0) 16 "2 x 160 SSD" "us-east-1";
  mkDescription "c3.8xlarge" (dec 168 2) (dec 60 0) 32 "2 x 320 SSD" "us-east-1";
  mkDescription "g2.2xlarge" (dec 65 2) (dec 15 0) 8 "60 SSD" "us-east-1";
  mkDescription "g2.8xlarge" (dec 26 1) (dec 60 0) 32 "2 x 120 SSD" "us-east-1";
  mkDescription "r3.large" (dec 166 3) (dec 15 0) 2 "1 x 32 SSD" "us-east-1";
  mkDescription "r3.xlarge" (dec 333 3) (dec 305 1) 4 "1 x 80 SSD" "us-east-1";
  mkDescription "r3.2xlarge" (dec 665 3) (dec 61 0) 8 "1 x 160 SSD" "us-east-1";
  mkDescription "r3.4xlarge" (dec 133 2) (dec 122 0) 16 "1 x 320 SSD" "us-east-1";
  mkDescription "r3.8xlarge" (dec 266 2) (dec 244 0) 32 "2 x 320 SSD" "us-east-1";
  mkDescription "i2.xlarge" (dec 853 3) (dec 305 1) 4 "1 x 800 SSD" "us-east-1";
  mkDescription "i2.2xlarge" (dec 1705 3) (dec 61 0) 8 "2 x 800 SSD" "us-east-1";
  mkDescription "i2.4xlarge" (dec 341 2) (dec 122 0) 16 "4 x 800 SSD" "us-east-1";
  mkDescription "i2.8xlarge" (dec 682 2) (dec 244 0) 32 "8 x 800 SSD" "us-east-1";
  mkDescription "d2.xlarge" (dec 69 2) (dec 305 1) 4 "3 x 2000 HDD" "us-east-1";
  mkDescription "d2.2xlarge" (dec 138 2) (dec 61 0) 8 "6 x 2000 HDD" "us-east-1";
  mkDescription "d2.4xlarge" (dec 276 2) (dec 122 0) 16 "12 x 2000 HDD" "us-east-1";
  mkDescription "d2.8xlarge" (dec 552 2) (dec 244 0) 36 "24 x 2000 HDD" "us-east-1"].

Definition aws_us_west_2 : list description := [
  mkDescription "t2.nano" (dec 65 4) (dec 5 1) 1 "ebsonly" "us-west-2";
  mkDescription "t2.micro" (dec 13 3) (dec 1 0) 1 "ebsonly" "us-west-2";
  mkDescription "t2.small" (dec 26 3) (dec 2 0) 1 "ebsonly" "us-west-2";
  mkDescription "t2.medium" (dec 52 3) (dec 4 0) 2 "ebsonly" "us-west-2";
  mkDescription "t2.large" (dec 104 3) (dec 8 0) 2 "ebsonly" "us-west-2";
  mkDescription "m4.large" (dec 12 2) (dec 8 0) 2 "ebsonly" "us-west-2";
  mkDescription "m4.xlarge" (dec 239 3) (dec 16 0) 4 "ebsonly" "us-west-2";
  mkDescription "m4.2xlarge" (dec 479 3) (dec 32 0) 8 "ebsonly" "us-west-2";
  mkDescription "m4.4xlarge" (dec 958 3) (dec 64 0) 16 "ebsonly" "us-west-2";
  mkDescription "m4.10xlarge" (dec 2394 3) (dec 160 0) 40 "ebsonly" "us-west-2";
  mkDescription "m3.medium" (dec 67 3) (dec 375 2) 1 "1 x 4 SSD" "us-west-2";
  mkDescription "m3.large" (dec 133 3) (dec 75 1) 2 "1 x 32 SSD" "us-west-2";
  mkDescription "m3.xlarge" (dec 266 3) (dec 15 0) 4 "2 x 40 SSD" "us-west-2";
  mkDescription "m3.2xlarge" (dec 532 3) (dec 30 0) 8 "2 x 80 SSD" "us-west-2";
  mkDescription "c4.large" (dec 105 3) (dec 375 2) 2 "ebsonly" "us-west-2";
  mkDescription "c4.xlarge" (dec 209 3) (dec 75 1) 4 "ebsonly" "us-west-2";
  mkDescription "c4.2xlarge" (dec 419 3) (dec 15 0) 8 "ebsonly" "us-west-2";
  mkDescription "c4.4xlarge" (dec 838 3) (dec 30 0) 16 "ebsonly" "us-west-2";
  mkDescription "c4.8xlarge" (dec 1675 3) (dec 60 0) 36 "ebsonly" "us-west-2";
  mkDescription "c3.large" (dec 105 3) (dec 375 2) 2 "2 x 16 SSD" "us-west-2";
  mkDescription "c3.xlarge" (dec 21 2) (dec 75 1) 4 "2 x 40 SSD" "us-west-2";
  mkDescription "c3.2xlarge" (dec 42 2) (dec 15 0) 8 "2 x 80 SSD" "us-west-2";
  mkDescription "c3.4xlarge" (dec 84 2) (dec 30 0) 16 "2 x 160 SSD" "us-west-2";
  mkDescription "c3.8xlarge" (dec 168 2) (dec 60 0) 32 "2 x 320 SSD" "us-west-2";
  mkDescription "g2.2xlarge" (dec 65 2) (dec 15 0) 8 "60 SSD" "us-west-2";
  mkDescription "g2.8xlarge" (dec 26 1) (dec 60 0) 32 "2 x 120 SSD" "us-west-2";
  mkDescription "r3.large" (dec 166 3) (dec 15 0) 2 "1 x 32 SSD" "us-west-2";
  mkDescription "r3.xlarge" (dec 333 3) (dec 305 1) 4 "1 x 80 SSD" "us-west-2";
  mkDescription "r3.2xlarge" (dec 665 3) (dec 61 0) 8 "1 x 160 SSD" "us-west-2";
  mkDescription "r3.4xlarge" (dec 133 2) (dec 122 0) 16 "1 x 320 SSD" "us-west-2";
  mkDescription "r3.8xlarge" (dec 266 2) (dec 244 0) 32 "2 x 320 SSD" "us-west-2";
  mkDescription "i2.xlarge" (dec 853 3) (dec 305 1) 4 "1 x 800 SSD" "us-west-2";
  mkDescription "i2.2xlarge" (dec 1705 3) (dec 61 0) 8 "2 x 800 SSD" "us-west-2";
  mkDescription "i2.4xlarge" (dec 341 2) (dec 122 0) 16 "4 x 800 SSD" "us-west-2";
  mkDescription "i2.8xlarge" (dec 682 2) (dec 244 0) 32 "8 x 800 SSD" "us-west-2";
  mkDescription "d2.xlarge" (dec 69 2) (dec 305 1) 4 "3 x 2000 HDD" "us-west-2";
  mkDescription "d2.2xlarge" (dec 138 2) (dec 61 0) 8 "6 x 2000 HDD" "us-west-2";
  mkDescription "d2.4xlarge" (dec 276 2) (dec 122 0) 16 "12 x 2000 HDD" "us-west-2";
  mkDescription "d2.8xlarge" (dec 552 2) (dec 244 0) 36 "24 x 2000 HDD" "us-west-2"].

Definition aws_us_west_1 : list description := [
  mkDescription "t2.nano" (dec 85 4) (dec 5 1) 1 "ebsonly" "us-west-1";
  mkDescription "t2.micro" (dec 17 3) (dec 1 0) 1 "ebsonly" "us-west-1";
  mkDescription "t2.small" (dec 34 3) (dec 2 0) 1 "ebsonly" "us-west-1";
  mkDescription "t2.medium" (dec 68 3) (dec 4 0) 2 "ebsonly" "us-west-1";
  mkDescription "t2.large" (dec 136 3) (dec 8 0) 2 "ebsonly" "us-west-1";
  mkDescription "m4.large" (dec 14 2) (dec 8 0) 2 "ebsonly" "us-west-1";
  mkDescription "m4.xlarge" (dec 279 3) (dec 16 0) 4 "ebsonly" "us-west-1";
  mkDescription "m4.2xlarge" (dec 559 3) (dec 32 0) 8 "ebsonly" "us-west-1";
  mkDescription "m4.4xlarge" (dec 1117 3) (dec 64 0) 16 "ebsonly" "us-west-1";
  mkDescription "m4.10xlarge" (dec 2793 3) (dec 160 0) 40 "ebsonly" "us-west-1";
  mkDescription "m3.medium" (dec 77 3) (dec 375 2) 1 "1 x 4 SSD" "us-west-1";
  mkDescription "m3.large" (dec 154 3) (dec 75 1) 2 "1 x 32 SSD" "us-west-1";
  mkDescription "m3.xlarge" (dec 308 3) (dec 15 0) 4 "2 x 40 SSD" "us-west-1";
  mkDescription "m3.2xlarge" (dec 616 3) (dec 30 0) 8 "2 x 80 SSD" "us-west-1";
  mkDescription "c4.large" (dec 131 3) (dec 375 2) 2 "ebsonly" "us-west-1";
  mkDescription "c4.xlarge" (dec 262 3) (dec 75 1) 4 "ebsonly" "us-west-1";
  mkDescription "c4.2xlarge" (dec 524 3) (dec 15 0) 8 "ebsonly" "us-west-1";
  mkDescription "c4.4xlarge" (dec 1049 3) (dec 30 0) 16 "ebsonly" "us-west-1";
  mkDescription "c4.8xlarge" (dec 2098 3) (dec 60 0) 36 "ebsonly" "us-west-1";
  mkDescription "c3.large" (dec 12 2) (dec 375 2) 2 "2 x 16 SSD" "us-west-1";
  mkDescription "c3.xlarge" (dec 239 3) (dec 75 1) 4 "2 x 40 SSD" "us-west-1";
  mkDescription "c3.2xlarge" (dec 478 3) (dec 15 0) 8 "2 x 80 SSD" "us-west-1";
  mkDescription "c3.4xlarge" (dec 956 3) (dec 30 0) 16 "2 x 160 SSD" "us-west-1";
  mkDescription "c3.8xlarge" (dec 1912 3) (dec 60 0) 32 "2 x 320 SSD" "us-west-1";
  mkDescription "g2.2xlarge" (dec 702 3) (dec 15 0) 8 "60 SSD" "us-west-1";
  mkDescription "g2.8xlarge" (dec 2808 3) (dec 60 0) 32 "2 x 120 SSD" "us-west-1";
  mkDescription "r3.large" (dec 185 3) (dec 15 0) 2 "1 x 32 SSD" "us-west-1";
  mkDescription "r3.xlarge" (dec 371 3) (dec 305 1) 4 "1 x 80 SSD" "us-west-1";
  mkDescription "r3.2xlarge" (dec 741 3) (dec 61 0) 8 "1 x 160 SSD" "us-west-1";
  mkDescription "r3.4xlarge" (dec 1482 3) (dec 122 0) 16 "1 x 320 SSD" "us-west-1";
  mkDescription "r3.8xlarge" (dec 2964 3) (dec 244 0) 32 "2 x 320 SSD" "us-west-1";
  mkDescription "i2.xlarge" (dec 938 3) (dec 305 1) 4 "1 x 800 SSD" "us-west-1";
  mkDescription "i2.2xlarge" (dec 1876 3) (dec 61 0) 8 "2 x 800 SSD" "us-west-1";
  mkDescription "i2.4xlarge" (dec 3751 3) (dec 122 0) 16 "4 x 800 SSD" "us-west-1";
  mkDescription "i2.8xlarge" (dec 7502 3) (dec 244 0) 32 "8 x 800 SSD" "us-west-1"].

Definition aws_eu_west_1 : list description := [
  mkDescription "t2.nano" (dec 7 3) (dec 5 1) 1 "ebsonly" "eu-west-1";
  mkDescription "t2.micro" (dec 14 3) (dec 1 0) 1 "ebsonly" "eu-west-1";
  mkDescription "t2.small" (dec 28 3) (dec 2 0) 1 "ebsonly" "eu-west-1";
  mkDescription "t2.medium" (dec 56 3) (dec 4 0) 2 "ebsonly" "eu-west-1";
  mkDescription "t2.large" (dec 112 3) (dec 8 0) 2 "ebsonly" "eu-west-1";
  mkDescription "m4.large" (dec 132 3) (dec 8 0) 2 "ebsonly" "eu-west-1";
  mkDescription "m4.xlarge" (dec 264 3) (dec 16 0) 4 "ebsonly" "eu-west-1";
  mkDescription "m4.2xlarge" (dec 528 3) (dec 32 0) 8 "ebsonly" "eu-west-1";
  mkDescription "m4.4xlarge" (dec 1056 3) (dec 64 0) 16 "ebsonly" "eu-west-1";
  mkDescription "m4.10xlarge" (dec 2641 3) (dec 160 0) 40 "ebsonly" "eu-west-1";
  mkDescription "m3.medium" (dec 73 3) (dec 375 2) 1 "1 x 4 SSD" "eu-west-1";
  mkDescription "m3.large" (dec 146 3) (dec 75 1) 2 "1 x 32 SSD" "eu-west-1";
  mkDescription "m3.xlarge" (dec 293 3) (dec 15 0) 4 "2 x 40 SSD" "eu-west-1";
  mkDescription "m3.2xlarge" (dec 585 3) (dec 30 0) 8 "2 x 80 SSD" "eu-west-1";
  mkDescription "c4.large" (dec 119 3) (dec 375 2) 2 "ebsonly" "eu-west-1";
  mkDescription "c4.xlarge" (dec 238 3) (dec 75 1) 4 "ebsonly" "eu-west-1";
  mkDescription "c4.2xlarge" (dec 477 3) (dec 15 0) 8 "ebsonly" "eu-west-1";
  mkDescription "c4.4xlarge" (dec 953 3) (dec 30 0) 16 "ebsonly" "eu-west-1";
  mkDescription "c4.8xlarge" (dec 1906 3) (dec 60 0) 36 "ebsonly" "eu-west-1";
  mkDescription "c3.large" (dec 12 2) (dec 375 2) 2 "2 x 16 SSD" "eu-west-1";
  mkDescription "c3.xlarge" (dec 239 3) (dec 75 1) 4 "2 x 40 SSD" "eu-west-1";
  mkDescription "c3.2xlarge" (dec 478 3) (dec 15 0) 8 "2 x 80 SSD" "eu-west-1";
  mkDescription "c3.4xlarge" (dec 956 3) (dec 30 0) 16 "2 x 160 SSD" "eu-west-1";
  mkDescription "c3.8xlarge" (dec 1912 3) (dec 60 0) 32 "2 x 320 SSD" "eu-west-1";
  mkDescription "g2.2xlarge" (dec 702 3) (dec 15 0) 8 "60 SSD" "eu-west-1";
  mkDescription "g2.8xlarge" (dec 2808 3) (dec 60 0) 32 "2 x 120 SSD" "eu-west-1";
  mkDescription "r3.large" (dec 185 3) (dec 15 0) 2 "1 x 32 SSD" "eu-west-1";
  mkDescription "r3.xlarge" (dec 371 3) (dec 305 1) 4 "1 x 80 SSD" "eu-west-1";
  mkDescription "r3.2xlarge" (dec 741 3) (dec 61 0) 8 "1 x 160 SSD" "eu-west-1";
  mkDescription "r3.4xlarge" (dec 1482 3) (dec 122 0) 16 "1 x 320 SSD" "eu-west-1";
  mkDescription "r3.8xlarge" (dec 2964 3) (dec 244 0) 32 "2 x 320 SSD" "eu-west-1";
  mkDescription "i2.xlarge" (dec 938 3) (dec 305 1) 4 "1 x 800 SSD" "eu-west-1";
  mkDescription "i2.2xlarge" (dec 1876 3) (dec 61 0) 8 "2 x 800 SSD" "eu-west-1";
  mkDescription "i2.4xlarge" (dec 3751 3) (dec 122 0) 16 "4 x 800 SSD" "eu-west-1";
  mkDescription "i2.8xlarge" (dec 7502 3) (dec 244 0) 32 "8 x 800 SSD" "eu-west-1";
  mkDescription "d2.xlarge" (dec 735 3) (dec 305 1) 4 "3 x 2000 HDD" "eu-west-1";
  mkDescription "d2.2xlarge" (dec 147 2) (dec 61 0) 8 "6 x 2000 HDD" "eu-west-1";
  mkDescription "d2.4xlarge" (dec 294 2) (dec 122 0) 16 "12 x 2000 HDD" "eu-west-1";
  mkDescription "d2.8xlarge" (dec 588 2) (dec 244 0) 36 "24 x 2000 HDD" "eu-west-1"].

Definition aws_eu_central_1 : list description := [
  mkDescription "t2.micro" (dec 15 3) (dec 1 0) 1 "ebsonly" "eu-central-1";
  mkDescription "t2.small" (dec 3 2) (dec 2 0) 1 "ebsonly" "eu-central-1";
  mkDescription "t2.medium" (dec 6 2) (dec 4 0) 2 "ebsonly" "eu-central-1";
  mkDescription "t2.large" (dec 12 2) (dec 8 0) 2 "ebsonly" "eu-central-1";
  mkDescription "m4.large" (dec 143 3) (dec 8 0) 2 "ebsonly" "eu-central-1";
  mkDescription "m4.xlarge" (dec 285 3) (dec 16 0) 4 "ebsonly" "eu-central-1";
  mkDescription "m4.2xlarge" (dec 57 2) (dec 32 0) 8 "ebsonly" "eu-central-1";
  mkDescription "m4.4xlarge" (dec 114 2) (dec 64 0) 16 "ebsonly" "eu-central-1";
  mkDescription "m4.10xlarge" (dec 285 2) (dec 160 0) 40 "ebsonly" "eu-central-1";
  mkDescription "m3.medium" (dec 79 3) (dec 375 2) 1 "1 x 4 SSD" "eu-central-1";
  mkDescription "m3.large" (dec 158 3) (dec 75 1) 2 "1 x 32 SSD" "eu-central-1";
  mkDescription "m3.xlarge" (dec 315 3) (dec 15 0) 4 "2 x 40 SSD" "eu-central-1";
  mkDescription "m3.2xlarge" (dec 632 3) (dec 30 0) 8 "2 x 80 SSD" "eu-central-1";
  mkDescription "c4.large" (dec 134 3) (dec 375 2) 2 "ebsonly" "eu-central-1";
  mkDescription "c4.xlarge" (dec 267 3) (dec 75 1) 4 "ebsonly" "eu-central-1";
  mkDescription "c4.2xlarge" (dec 534 3) (dec 15 0) 8 "ebsonly" "eu-central-1";
  mkDescription "c4.4xlarge" (dec 1069 3) (dec 30 0) 16 "ebsonly" "eu-central-1";
  mkDescription "c4.8xlarge" (dec 2138 3) (dec 60 0) 36 "ebsonly" "eu-central-1";
  mkDescription "c3.large" (dec 129 3) (dec 375 2) 2 "2 x 16 SSD" "eu-central-1";
  mkDescription "c3.xlarge" (dec 258 3) (dec 75 1) 4 "2 x 40 SSD" "eu-central-1";
  mkDescription "c3.2xlarge" (dec 516 3) (dec 15 0) 8 "2 x 80 SSD" "eu-central-1";
  mkDescription "c3.4xlarge" (dec 1032 3) (dec 30 0) 16 "2 x 160 SSD" "eu-central-1";
  mkDescription "c3.8xlarge" (dec 2064 3) (dec 60 0) 32 "2 x 320 SSD" "eu-central-1";
  mkDescription "g2.2xlarge" (dec 772 3) (dec 15 0) 8 "60 SSD" "eu-central-1";
  mkDescription "g2.8xlarge" (dec 3088 3) (dec 60 0) 32 "2 x 120 SSD" "eu-central-1";
  mkDescription "r3.large" (dec 2 1) (dec 15 0) 2 "1 x 32 SSD" "eu-central-1";
  mkDescription "r3.xlarge" (dec 4 1) (dec 305 1) 4 "1 x 80 SSD" "eu-central-1";
  mkDescription "r3.2xlarge" (dec 8 1) (dec 61 0) 8 "1 x 160 SSD" "eu-central-1";
  mkDescription "r3.4xlarge" (dec 16 1) (dec 122 0) 16 "1 x 320 SSD" "eu-central-1";
  mkDescription "r3.8xlarge" (dec 3201 3) (dec 244 0) 32 "2 x 320 SSD" "eu-central-1";
  mkDescription "i2.xlarge" (dec 1013 3) (dec 305 1) 4 "1 x 800 SSD" "eu-central-1";
  mkDescription "i2.2xlarge" (dec 2026 3) (dec 61 0) 8 "2 x 800 SSD" "eu-central-1";
  mkDescription "i2.4xlarge" (dec 4051 3) (dec 122 0) 16 "4 x 800 SSD" "eu-central-1";
  mkDescription "i2.8xlarge" (dec 8102 3) (dec 244 0) 32 "8 x 800 SSD" "eu-central-1";
  mkDescription "d2.xlarge" (dec 794 3) (dec 305 1) 4 "3 x 2000 HDD" "eu-central-1";
  mkDescription "d2.2xlarge" (dec 1588 3) (dec 61 0) 8 "6 x 2000 HDD" "eu-central-1";
  mkDescription "d2.4xlarge" (dec 3176 3) (dec 122 0) 16 "12 x 2000 HDD" "eu-central-1";
  mkDescription "d2.8xlarge" (dec 6352 3) (dec 244 0) 36 "24 x 2000 HDD" "eu-central-1"].

Definition aws_ap_southeast_1 : list description := [
  mkDescription "t2.nano" (dec 1 2) (dec 5 1) 1 "ebsonly" "ap-southeast-1";
  mkDescription "t2.micro" (dec 2 2) (dec 1 0) 1 "ebsonly" "ap-southeast-1";
  mkDescription "t2.small" (dec 4 2) (dec 2 0) 1 "ebsonly" "ap-southeast-1";
  mkDescription "t2.medium" (dec 8 2) (dec 4 0) 2 "ebsonly" "ap-southeast-1";
  mkDescription "t2.large" (dec 16 2) (dec 8 0) 2 "ebsonly" "ap-southeast-1";
  mkDescription "m4.large" (dec 178 3) (dec 8 0) 2 "ebsonly" "ap-southeast-1";
  mkDescription "m4.xlarge" (dec 355 3) (dec 16 0) 4 "ebsonly" "ap-southeast-1";
  mkDescription "m4.2xlarge" (dec 711 3) (dec 32 0) 8 "ebsonly" "ap-southeast-1";
  mkDescription "m4.4xlarge" (dec 1421 3) (dec 64 0) 16 "ebsonly" "ap-southeast-1";
  mkDescription "m4.10xlarge" (dec 3553 3) (dec 160 0) 40 "ebsonly" "ap-southeast-1";
  mkDescription "m3.medium" (dec 98 3) (dec 375 2) 1 "1 x 4 SSD" "ap-southeast-1";
  mkDescription "m3.large" (dec 196 3) (dec 75 1) 2 "1 x 32 SSD" "ap-southeast-1";
  mkDescription "m3.xlarge" (dec 392 3) (dec 15 0) 4 "2 x 40 SSD" "ap-southeast-1";
  mkDescription "m3.2xlarge" (dec 784 3) (dec 30 0) 8 "2 x 80 SSD" "ap-southeast-1";
  mkDescription "c4.large" (dec 144 3) (dec 375 2) 2 "ebsonly" "ap-southeast-1";
  mkDescription "c4.xlarge" (dec 289 3) (dec 75 1) 4 "ebsonly" "ap-southeast-1";
  mkDescription "c4.2xlarge" (dec 578 3) (dec 15 0) 8 "ebsonly" "ap-southeast-1";
  mkDescription "c4.4xlarge" (dec 1155 3) (dec 30 0) 16 "ebsonly" "ap-southeast-1";
  mkDescription "c4.8xlarge" (dec 231 2) (dec 60 0) 36 "ebsonly" "ap-southeast-1";
  mkDescription "c3.large" (dec 132 3) (dec 375 2) 2 "2 x 16 SSD" "ap-southeast-1";
  mkDescription "c3.xlarge" (dec 265 3) (dec 75 1) 4 "2 x 40 SSD" "ap-southeast-1";
  mkDescription "c3.2xlarge" (dec 529 3) (dec 15 0) 8 "2 x 80 SSD" "ap-southeast-1";
  mkDescription "c3.4xlarge" (dec 1058 3) (dec 30 0) 16 "2 x 160 SSD" "ap-southeast-1";
  mkDescription "c3.8xlarge" (dec 2117 3) (dec 60 0) 32 "2 x 320 SSD" "ap-southeast-1";
  mkDescription "g2.2xlarge" (dec 1 0) (dec 15 0) 8 "60 SSD" "ap-southeast-1";
  mkDescription "g2.8xlarge" (dec 4 0) (dec 60 0) 32 "2 x 120 SSD" "ap-southeast-1";
  mkDescription "r3.large" (dec 2 1) (dec 15 0) 2 "1 x 32 SSD" "ap-southeast-1";
  mkDescription "r3.xlarge" (dec 399 3) (dec 305 1) 4 "1 x 80 SSD" "ap-southeast-1";
  mkDescription "r3.2xlarge" (dec 798 3) (dec 61 0) 8 "1 x 160 SSD" "ap-southeast-1";
  mkDescription "r3.4xlarge" (dec 1596 3) (dec 122 0) 16 "1 x 320 SSD" "ap-southeast-1";
  mkDescription "r3.8xlarge" (dec 3192 3) (dec 244 0) 32 "2 x 320 SSD" "ap-southeast-1";
  mkDescription "i2.xlarge" (dec 1018 3) (dec 305 1) 4 "1 x 800 SSD" "ap-southeast-1";
  mkDescription "i2.2xlarge" (dec 2035 3) (dec 61 0) 8 "2 x 800 SSD" "ap-southeast-1";
  mkDescription "i2.4xlarge" (dec 407 2) (dec 122 0) 16 "4 x 800 SSD" "ap-southeast-1";
  mkDescription "i2.8xlarge" (dec 814 2) (dec 244 0) 32 "8 x 800 SSD" "ap-southeast-1";
  mkDescription "d2.xlarge" (dec 87 2) (dec 305 1) 4 "3 x 2000 HDD" "ap-southeast-1";
  mkDescription "d2.2xlarge" (dec 174 2) (dec 61 0) 8 "6 x 2000 HDD" "ap-southeast-1";
  mkDescription "d2.4xlarge" (dec 348 2) (dec 122 0) 16 "12 x 2000 HDD" "ap-southeast-1";
  mkDescription "d2.8xlarge" (dec 696 2) (dec 244 0) 36 "24 x 2000 HDD" "ap-southeast-1"].

Definition aws_ap_northeast_1 : list description := [
  mkDescription "t2.nano" (dec 1 2) (dec 5 1) 1 "ebsonly" "ap-northeast-1";
  mkDescription "t2.micro" (dec 2 2) (dec 1 0) 1 "ebsonly" "ap-northeast-1";
  mkDescription "t2.small" (dec 4 2) (dec 2 0) 1 "ebsonly" "ap-northeast-1";
  mkDescription "t2.medium" (dec 8 2) (dec 4 0) 2 "ebsonly" "ap-northeast-1";
  mkDescription "t2.large" (dec 16 2) (dec 8 0) 2 "ebsonly" "ap-northeast-1";
  mkDescription "m4.large" (dec 174 3) (dec 8 0) 2 "ebsonly" "ap-northeast-1";
  mkDescription "m4.xlarge" (dec 348 3) (dec 16 0) 4 "ebsonly" "ap-northeast-1";
  mkDescription "m4.2xlarge" (dec 695 3) (dec 32 0) 8 "ebsonly" "ap-northeast-1";
  mkDescription "m4.4xlarge" (dec 1391 3) (dec 64 0) 16 "ebsonly" "ap-northeast-1";
  mkDescription "m4.10xlarge" (dec 3477 3) (dec 160 0) 40 "ebsonly" "ap-northeast-1";
  mkDescription "m3.medium" (dec 96 3) (dec 375 2) 1 "1 x 4 SSD" "ap-northeast-1";
  mkDescription "m3.large" (dec 193 3) (dec 75 1) 2 "1 x 32 SSD" "ap-northeast-1";
  mkDescription "m3.xlarge" (dec 385 3) (dec 15 0) 4 "2 x 40 SSD" "ap-northeast-1";
  mkDescription "m3.2xlarge" (dec 77 2) (dec 30 0) 8 "2 x 80 SSD" "ap-northeast-1";
  mkDescription "c4.large" (dec 133 3) (dec 375 2) 2 "ebsonly" "ap-northeast-1";
  mkDescription "c4.xlarge" (dec 265 3) (dec 75 1) 4 "ebsonly" "ap-northeast-1";
  mkDescription "c4.2xlarge" (dec 531 3) (dec 15 0) 8 "ebsonly" "ap-northeast-1";
  mkDescription "c4.4xlarge" (dec 1061 3) (dec 30 0) 16 "ebsonly" "ap-northeast-1";
  mkDescription "c4.8xlarge" (dec 2122 3) (dec 60 0) 36 "ebsonly" "ap-northeast-1";
  mkDescription "c3.large" (dec 128 3) (dec 375 2) 2 "2 x 16 SSD" "ap-northeast-1";
  mkDescription "c3.xlarge" (dec 255 3) (dec 75 1) 4 "2 x 40 SSD" "ap-northeast-1";
  mkDescription "c3.2xlarge" (dec 511 3) (dec 15 0) 8 "2 x 80 SSD" "ap-northeast-1";
  mkDescription "c3.4xlarge" (dec 1021 3) (dec 30 0) 16 "2 x 160 SSD" "ap-northeast-1";
  mkDescription "c3.8xlarge" (dec 2043 3) (dec 60 0) 32 "2 x 320 SSD" "ap-northeast-1";
  mkDescription "g2.2xlarge" (dec 898 3) (dec 15 0) 8 "60 SSD" "ap-northeast-1";
  mkDescription "g2.8xlarge" (dec 3592 3) (dec 60 0) 32 "2 x 120 SSD" "ap-northeast-1";
  mkDescription "r3.large" (dec 2 1) (dec 15 0) 2 "1 x 32 SSD" "ap-northeast-1";
  mkDescription "r3.xlarge" (dec 399 3) (dec 305 1) 4 "1 x 80 SSD" "ap-northeast-1";
  mkDescription "r3.2xlarge" (dec 798 3) (dec 61 0) 8 "1 x 160 SSD" "ap-northeast-1";
  mkDescription "r3.4xlarge" (dec 1596 3) (dec 122 0) 16 "1 x 320 SSD" "ap-northeast-1";
  mkDescription "r3.8xlarge" (dec 3192 3) (dec 244 0) 32 "2 x 320 SSD" "ap-northeast-1";
  mkDescription "i2.xlarge" (dec 1001 3) (dec 305 1) 4 "1 x 800 SSD" "ap-northeast-1";
  mkDescription "i2.2xlarge" (dec 2001 3) (dec 61 0) 8 "2 x 800 SSD" "ap-northeast-1";
  mkDescription "i2.4xlarge" (dec 4002 3) (dec 122 0) 16 "4 x 800 SSD" "ap-northeast-1";
  mkDescription "i2.8xlarge" (dec 8004 3) (dec 244 0) 32 "8 x 800 SSD" "ap-northeast-1";
  mkDescription "d2.xlarge" (dec 844 3) (dec 305 1) 4 "3 x 2000 HDD" "ap-northeast-1";
  mkDescription "d2.2xlarge" (dec 1688 3) (dec 61 0) 8 "6 x 2000 HDD" "ap-northeast-1";
  mkDescription "d2.4xlarge" (dec 3376 3) (dec 122 0) 16 "12 x 2000 HDD" "ap-northeast-1";
  mkDescription "d2.8xlarge" (dec 6752 3) (dec 244 0) 36 "24 x 2000 HDD" "ap-northeast-1"].

Definition aws_ap_southeast_2 : list description := [
  mkDescription "t2.micro" (dec 2 2) (dec 1 0) 1 "ebsonly" "ap-southeast-2";
  mkDescription "t2.small" (dec 4 2) (dec 2 0) 1 "ebsonly" "ap-southeast-2";
  mkDescription "t2.medium" (dec 8 2) (dec 4 0) 2 "ebsonly" "ap-southeast-2";
  mkDescription "t2.large" (dec 16 2) (dec 8 0) 2 "ebsonly" "ap-southeast-2";
  mkDescription "m4.large" (dec 168 3) (dec 8 0) 2 "ebsonly" "ap-southeast-2";
  mkDescription "m4.xlarge" (dec 336 3) (dec 16 0) 4 "ebsonly" "ap-southeast-2";
  mkDescription "m4.2xlarge" (dec 673 3) (dec 32 0) 8 "ebsonly" "ap-southeast-2";
  mkDescription "m4.4xlarge" (dec 1345 3) (dec 64 0) 16 "ebsonly" "ap-southeast-2";
  mkDescription "m4.10xlarge" (dec 3363 3) (dec 160 0) 40 "ebsonly" "ap-southeast-2";
  mkDescription "m3.medium" (dec 93 3) (dec 375 2) 1 "1 x 4 SSD" "ap-southeast-2";
  mkDescription "m3.large" (dec 186 3) (dec 75 1) 2 "1 x 32 SSD" "ap-southeast-2";
  mkDescription "m3.xlarge" (dec 372 3) (dec 15 0) 4 "2 x 40 SSD" "ap-southeast-2";
  mkDescription "m3.2xlarge" (dec 745 3) (dec 30 0) 8 "2 x 80 SSD" "ap-southeast-2";
  mkDescription "c4.large" (dec 137 3) (dec 375 2) 2 "ebsonly" "ap-southeast-2";
  mkDescription "c4.xlarge" (dec 275 3) (dec 75 1) 4 "ebsonly" "ap-southeast-2";
  mkDescription "c4.2xlarge" (dec 549 3) (dec 15 0) 8 "ebsonly" "ap-southeast-2";
  mkDescription "c4.4xlarge" (dec 1097 3) (dec 30 0) 16 "ebsonly" "ap-southeast-2";
  mkDescription "c4.8xlarge" (dec 2195 3) (dec 60 0) 36 "ebsonly" "ap-southeast-2";
  mkDescription "c3.large" (dec 132 3) (dec 375 2) 2 "2 x 16 SSD" "ap-southeast-2";
  mkDescription "c3.xlarge" (dec 265 3) (dec 75 1) 4 "2 x 40 SSD" "ap-southeast-2";
  mkDescription "c3.2xlarge" (dec 529 3) (dec 15 0) 8 "2 x 80 SSD" "ap-southeast-2";
  mkDescription "c3.4xlarge" (dec 1058 3) (dec 30 0) 16 "2 x 160 SSD" "ap-southeast-2";
  mkDescription "c3.8xlarge" (dec 2117 3) (dec 60 0) 32 "2 x 320 SSD" "ap-southeast-2";
  mkDescription "g2.2xlarge" (dec 898 3) (dec 15 0) 8 "60 SSD" "ap-southeast-2";
  mkDescription "g2.8xlarge" (dec 3592 3) (dec 60 0) 32 "2 x 120 SSD" "ap-southeast-2";
  mkDescription "r3.large" (dec 2 1) (dec 15 0) 2 "1 x 32 SSD" "ap-southeast-2";
  mkDescription "r3.xlarge" (dec 399 3) (dec 305 1) 4 "1 x 80 SSD" "ap-southeast-2";
  mkDescription "r3.2xlarge" (dec 798 3) (dec 61 0) 8 "1 x 160 SSD" "ap-southeast-2";
  mkDescription "r3.4xlarge" (dec 1596 3) (dec 122 0) 16 "1 x 320 SSD" "ap-southeast-2";
  mkDescription "r3.8xlarge" (dec 3192 3) (dec 244 0) 32 "2 x 320 SSD" "ap-southeast-2";
  mkDescription "i2.xlarge" (dec 1018 3) (dec 305 1) 4 "1 x 800 SSD" "ap-southeast-2";
  mkDescription "i2.2xlarge" (dec 2035 3) (dec 61 0) 8 "2 x 800 SSD" "ap-southeast-2";
  mkDescription "i2.4xlarge" (dec 407 2) (dec 122 0) 16 "4 x 800 SSD" "ap-southeast-2";
  mkDescription "i2.8xlarge" (dec 814 2) (dec 244 0) 32 "8 x 800 SSD" "ap-southeast-2";
  mkDescription "d2.xlarge" (dec 87 2) (dec 305 1) 4 "3 x 2000 HDD" "ap-southeast-2";
  mkDescription "d2.2xlarge" (dec 174 2) (dec 61 0) 8 "6 x 2000 HDD" "ap-southeast-2";
  mkDescription "d2.4xlarge" (dec 348 2) (dec 122 0) 16 "12 x 2000 HDD" "ap-southeast-2";
  mkDescription "d2.8xlarge" (dec 696 2) (dec 244 0) 36 "24 x 2000 HDD" "ap-southeast-2"].

Definition aws_ap_northeast_2 : list description := [
  mkDescription "t2.nano" (dec 1 2) (dec 5 1) 1 "ebsonly" "ap-northeast-2";
  mkDescription "t2.micro" (dec 2 2) (dec 1 0) 1 "ebsonly" "ap-northeast-2";
  mkDescription "t2.small" (dec 4 2) (dec 2 0) 1 "ebsonly" "ap-northeast-2";
  mkDescription "t2.medium" (dec 8 2) (dec 4 0) 2 "ebsonly" "ap-northeast-2";
  mkDescription "t2.large" (dec 16 2) (dec 8 0) 2 "ebsonly" "ap-northeast-2";
  mkDescription "m4.large" (dec 165 3) (dec 8 0) 2 "ebsonly" "ap-northeast-2";
  mkDescription "m4.xlarge" (dec 331 3) (dec 16 0) 4 "ebsonly" "ap-northeast-2";
  mkDescription "m4.2xlarge" (dec 66 2) (dec 32 0) 8 "ebsonly" "ap-northeast-2";
  mkDescription "m4.4xlarge" (dec 1321 3) (dec 64 0) 16 "ebsonly" "ap-northeast-2";
  mkDescription "m4.10xlarge" (dec 3303 3) (dec 160 0) 40 "ebsonly" "ap-northeast-2";
  mkDescription "c4.large" (dec 12 2) (dec 375 2) 2 "ebsonly" "ap-northeast-2";
  mkDescription "c4.xlarge" (dec 239 3) (dec 75 1) 4 "ebsonly" "ap-northeast-2";
  mkDescription "c4.2xlarge" (dec 478 3) (dec 15 0) 8 "ebsonly" "ap-northeast-2";
  mkDescription "c4.4xlarge" (dec 955 3) (dec 30 0) 16 "ebsonly" "ap-northeast-2";
  mkDescription "c4.8xlarge" (dec 191 2) (dec 60 0) 36 "ebsonly" "ap-northeast-2";
  mkDescription "r3.large" (dec 2 1) (dec 15 0) 2 "1 x 32 SSD" "ap-northeast-2";
  mkDescription "r3.xlarge" (dec 399 3) (dec 305 1) 4 "1 x 80 SSD" "ap-northeast-2";
  mkDescription "r3.2xlarge" (dec 798 3) (dec 61 0) 8 "1 x 160 SSD" "ap-northeast-2";
  mkDescription "r3.4xlarge" (dec 1596 3) (dec 122 0) 16 "1 x 320 SSD" "ap-northeast-2";
  mkDescription "r3.8xlarge" (dec 3192 3) (dec 244 0) 32 "2 x 320 SSD" "ap-northeast-2";
  mkDescription "i2.xlarge" (dec 1001 3) (dec 305 1) 4 "1 x 800 SSD" "ap-northeast-2";
  mkDescription "i2.2xlarge" (dec 2001 3) (dec 61 0) 8 "2 x 800 SSD" "ap-northeast-2";
  mkDescription "i2.4xlarge" (dec 4002 3) (dec 122 0) 16 "4 x 800 SSD" "ap-northeast-2";
  mkDescription "i2.8xlarge" (dec 8004 3) (dec 244 0) 32 "8 x 800 SSD" "ap-northeast-2";
  mkDescription "d2.xlarge" (dec 844 3) (dec 305 1) 4 "3 x 2000 HDD" "ap-northeast-2";
  mkDescription "d2.2xlarge" (dec 1688 3) (dec 61 0) 8 "6 x 2000 HDD" "ap-northeast-2";
  mkDescription "d2.4xlarge" (dec 3376 3) (dec 122 0) 16 "12 x 2000 HDD" "ap-northeast-2";
  mkDescription "d2.8xlarge" (dec 6752 3) (dec 244 0) 36 "24 x 2000 HDD" "ap-northeast-2"].

Definition aws_sa_east_1 : list description := [
  mkDescription "t2.nano" (dec 135 4) (dec 5 1) 1 "ebsonly" "sa-east-1";
  mkDescription "t2.micro" (dec 27 3) (dec 1 0) 1 "ebsonly" "sa-east-1";
  mkDescription "t2.small" (dec 54 3) (dec 2 0) 1 "ebsonly" "sa-east-1";
  mkDescription "t2.medium" (dec 108 3) (dec 4 0) 2 "ebsonly" "sa-east-1";
  mkDescription "t2.large" (dec 216 3) (dec 8 0) 2 "ebsonly" "sa-east-1";
  mkDescription "m3.medium" (dec 95 3) (dec 375 2) 1 "1 x 4 SSD" "sa-east-1";
  mkDescription "m3.large" (dec 19 2) (dec 75 1) 2 "1 x 32 SSD" "sa-east-1";
  mkDescription "m3.xlarge" (dec 381 3) (dec 15 0) 4 "2 x 40 SSD" "sa-east-1";
  mkDescription "m3.2xlarge" (dec 761 3) (dec 30 0) 8 "2 x 80 SSD" "sa-east-1";
  mkDescription "c3.large" (dec 163 3) (dec 375 2) 2 "2 x 16 SSD" "sa-east-1";
  mkDescription "c3.xlarge" (dec 325 3) (dec 75 1) 4 "2 x 40 SSD" "sa-east-1";
  mkDescription "c3.2xlarge" (dec 65 2) (dec 15 0) 8 "2 x 80 SSD" "sa-east-1";
  mkDescription "c3.4xlarge" (dec 13 1) (dec 30 0) 16 "2 x 160 SSD" "sa-east-1";
  mkDescription "c3.8xlarge" (dec 26 1) (dec 60 0) 32 "2 x 320 SSD" "sa-east-1";
  mkDescription "r3.4xlarge" (dec 2799 3) (dec 122 0) 16 "1 x 320 SSD" "sa-east-1";
  mkDescription "r3.8xlarge" (dec 5597 3) (dec 244 0) 32 "2 x 320 SSD" "sa-east-1"].

Definition aws_us_gov_west_1 : list description := [
  mkDescription "t2.nano" (dec 75 4) (dec 5 1) 1 "ebsonly" "us-gov-west-1";
  mkDescription "t2.micro" (dec 15 3) (dec 1 0) 1 "ebsonly" "us-gov-west-1";
  mkDescription "t2.small" (dec 31 3) (dec 2 0) 1 "ebsonly" "us-gov-west-1";
  mkDescription "t2.medium" (dec 62 3) (dec 4 0) 2 "ebsonly" "us-gov-west-1";
  mkDescription "t2.large" (dec 124 3) (dec 8 0) 2 "ebsonly" "us-gov-west-1";
  mkDescription "m3.medium" (dec 84 3) (dec 375 2) 1 "1 x 4 SSD" "us-gov-west-1";
  mkDescription "m3.large" (dec 168 3) (dec 75 1) 2 "1 x 32 SSD" "us-gov-west-1";
  mkDescription "m3.xlarge" (dec 336 3) (dec 15 0) 4 "2 x 40 SSD" "us-gov-west-1";
  mkDescription "m3.2xlarge" (dec 672 3) (dec 30 0) 8 "2 x 80 SSD" "us-gov-west-1";
  mkDescription "c3.large" (dec 126 3) (dec 375 2) 2 "2 x 16 SSD" "us-gov-west-1";
  mkDescription "c3.xlarge" (dec 252 3) (dec 75 1) 4 "2 x 40 SSD" "us-gov-west-1";
  mkDescription "c3.2xlarge" (dec 504 3) (dec 15 0) 8 "2 x 80 SSD" "us-gov-west-1";
  mkDescription "c3.4xlarge" (dec 1008 3) (dec 30 0) 16 "2 x 160 SSD" "us-gov-west-1";
  mkDescription "c3.8xlarge" (dec 2016 3) (dec 60 0) 32 "2 x 320 SSD" "us-gov-west-1";
  mkDescription "r3.large" (dec 2 1) (dec 15 0) 2 "1 x 32 SSD" "us-gov-west-1";
  mkDescription "r3.xlarge" (dec 399 3) (dec 305 1) 4 "1 x 80 SSD" "us-gov-west-1";
  mkDescription "r3.2xlarge" (dec 798 3) (dec 61 0) 8 "1 x 160 SSD" "us-gov-west-1";
  mkDescription "r3.4xlarge" (dec 1596 3) (dec 122 0) 16 "1 x 320 SSD" "us-gov-west-1";
  mkDescription "r3.8xlarge" (dec 3192 3) (dec 244 0) 32 "2 x 320 SSD" "us-gov-west-1";
  mkDescription "i2.xlarge" (dec 1023 3) (dec 305 1) 4 "1 x 800 SSD" "us-gov-west-1";
  mkDescription "i2.2xlarge" (dec 2046 3) (dec 61 0) 8 "2 x 800 SSD" "us-gov-west-1";
  mkDescription "i2.4xlarge" (dec 4092 3) (dec 122 0) 16 "4 x 800 SSD" "us-gov-west-1";
  mkDescription "i2.8xlarge" (dec 8184 3) (dec 244 0) 32 "8 x 800 SSD" "us-gov-west-1";
  mkDescription "d2.xlarge" (dec 828 3) (dec 305 1) 4 "3 x 2000 HDD" "us-gov-west-1";
  mkDescription "d2.2xlarge" (dec 1656 3) (dec 61 0) 8 "6 x 2000 HDD" "us-gov-west-1";
  mkDescription "d2.4xlarge" (dec 3312 3) (dec 122 0) 16 "12 x 2000 HDD" "us-gov-west-1";
  mkDescription "d2.8xlarge" (dec 6624 3) (dec 244 0) 36 "24 x 2000 HDD" "us-gov-west-1"].

Definition awsDescriptions : list description :=
  aws_us_east_1 ++ aws_us_west_2 ++ aws_us_west_1 ++ aws_eu_west_1 ++
  aws_eu_central_1 ++ aws_ap_southeast_1 ++ aws_ap_northeast_1 ++ aws_ap_southeast_2 ++
  aws_ap_northeast_2 ++ aws_sa_east_1 ++ aws_us_gov_west_1.

Definition googleDescriptions : list description := [
  mkDescription "n1-standard-1" (dec 5 2) (dec 375 2) 1 "" "";
  mkDescription "n1-standard-2" (dec 1 1) (dec 75 1) 2 "" "";
  mkDescription "n1-standard-4" (dec 2 1) (dec 15 0) 4 "" "";
  mkDescription "n1-standard-8" (dec 4 1) (dec 30 0) 8 "" "";
  mkDescription "n1-standard-16" (dec 8 1) (dec 60 0) 16 "" "";
  mkDescription "n1-standard-326" (dec 16 1) (dec 120 0) 32 "" "";
  mkDescription "f1-micro" (dec 8 3) (dec 6 1) 1 "" "";
  mkDescription "g1-small" (dec 27 3) (dec 17 1) 1 "" "";
  mkDescription "n1-highmem-2" (dec 126 3) (dec 13 0) 2 "" "";
  mkDescription "n1-highmem-4" (dec 252 3) (dec 26 0) 4 "" "";
  mkDescription "n1-highmem-8" (dec 504 3) (dec 52 0) 8 "" "";
  mkDescription "n1-highmem-16" (dec 1008 3) (dec 104 0) 16 "" "";
  mkDescription "n1-highmem-326" (dec 2016 3) (dec 208 0) 32 "" "";
  mkDescription "n1-highcpu-2" (dec 76 3) (dec 18 1) 2 "" "";
  mkDescription "n1-highcpu-4" (dec 152 3) (dec 36 1) 4 "" "";
  mkDescription "n1-highcpu-8" (dec 304 3) (dec 72 1) 8 "" "";
  mkDescription "n1-highcpu-16" (dec 608 3) (dec 144 1) 16 "" "";
  mkDescription "n1-highcpu-326" (dec 1216 3) (dec 288 1) 32 "" "";
  mkDescription "n1-standard-1" (dec 55 3) (dec 375 2) 1 "" "";
  mkDescription "n1-standard-2" (dec 11 2) (dec 75 1) 2 "" "";
  mkDescription "n1-standard-4" (dec 22 2) (dec 15 0) 4 "" "";
  mkDescription "n1-standard-8" (dec 44 2) (dec 30 0) 8 "" "";
  mkDescription "n1-standard-16" (dec 88 2) (dec 60 0) 16 "" "";
  mkDescription "n1-standard-326" (dec 176 2) (dec 120 0) 32 "" "";
  mkDescription "f1-micro" (dec 9 3) (dec 6 1) 1 "" "";
  mkDescription "g1-small" (dec 3 2) (dec 17 1) 1 "" "";
  mkDescription "n1-highmem-2" (dec 139 3) (dec 13 0) 2 "" "";
  mkDescription "n1-highmem-4" (dec 278 3) (dec 26 0) 4 "" "";
  mkDescription "n1-highmem-8" (dec 556 3) (dec 52 0) 8 "" "";
  mkDescription "n1-highmem-16" (dec 1112 3) (dec 104 0) 16 "" "";
  mkDescription "n1-highmem-326" (dec 2224 3) (dec 208 0) 32 "" "";
  mkDescription "n1-highcpu-2" (dec 84 3) (dec 18 1) 2 "" "";
  mkDescription "n1-highcpu-4" (dec 168 3) (dec 36 1) 4 "" "";
  mkDescription "n1-highcpu-8" (dec 336 3) (dec 72 1) 8 "" "";
  mkDescription "n1-highcpu-16" (dec 672 3) (dec 144 1) 16 "" "";
  mkDescription "n1-highcpu-326" (dec 1344 3) (dec 288 1) 32 "" ""].

Definition azureDescriptions : list description := [].
