(* ===== verification/Provider.v ===== *)
(** * provider: grouping machines and choosing sizes

    Model of [src/provider/provider.go] and [src/provider/constraint.go], with the
    [PickBestSize] method of each provider. *)

From stdpp Require Import base gmap list strings.
From Stdlib Require Import ZArith Lia SpecFloat.
From S2P Require Import Prelude DbRows DslAst Dsl ProviderTables.

Local Open Scope Z_scope.

(** ** Data *)

(** [provider.Machine]: an instance at a cloud provider. *)
Record CloudMachine : Type := mkCloud {
  cmID : string;
  cmPublicIP : string;
  cmPrivateIP : string;
  cmSize : string;
  cmDiskSize : Z;
  cmSSHKeys : slice string;
  cmProvider : string;
  cmRegion : string
}.
#[global] Instance CloudMachine_eq_dec : EqDecision CloudMachine.
Proof. solve_decision. Defined.

(** The types that implement the [Provider] interface. *)
Inductive providerInst : Type :=
| awsSpotCluster | gceCluster | azureCluster | vagrantCluster.

Definition providerNew (dbp : string) : outcome Empty_set providerInst :=
  if decide (dbp = "AmazonSpot"%string) then Ok awsSpotCluster
  else if decide (dbp = "Google"%string) then Ok gceCluster
  else if decide (dbp = "Azure"%string) then Ok azureCluster
  else if decide (dbp = "Vagrant"%string) then Ok vagrantCluster
  else Panic "Unimplemented".

(** ** Operations *)

Definition groupStep (machineMap : gmap string (list CloudMachine)) (m : CloudMachine)
    : gmap string (list CloudMachine) :=
  <[cmProvider m := default [] (machineMap !! cmProvider m) ++ [m]]> machineMap.

Definition GroupBy (machines : list CloudMachine) : gmap string (list CloudMachine) :=
  foldl groupStep ∅ machines.

(** The test of the loop on the ram and the cpu of a description. *)
Definition fits (ram cpu : Range) (d : description) : bool :=
  Accepts ram (descRam d) && Accepts cpu (floatOfInt (descCpu d)).

Definition bestStep (ram cpu : Range) (best d : description) : description :=
  if fits ram cpu d &&
     (bool_decide (descSize best = ""%string) || floatLt (descPrice d) (descPrice best))
  then d else best.

Definition withinPrice (maxPrice price : float64) : bool :=
  floatEq maxPrice floatZero || floatLe price maxPrice.

Definition pickBestSize (descriptions : list description) (ram cpu : Range) (maxPrice : float64)
    : string :=
  let best := foldl (bestStep ram cpu) noDescription descriptions in
  if withinPrice maxPrice (descPrice best) then descSize best else "".

Section Vagrant.
(** [fmt.Sprintf] of a float with the verb [%g]. *)
Context (formatG : float64 → string).

Definition CreateSize (ram cpu : float64) : string := (formatG ram ++ "," ++ formatG cpu)%string.

Definition PickBestSize (p : providerInst) (ram cpu : Range) (maxPrice : float64) : string :=
  match p with
  | awsSpotCluster => pickBestSize awsDescriptions ram cpu maxPrice
  | gceCluster => pickBestSize googleDescriptions ram cpu maxPrice
  | azureCluster => ""
  | vagrantCluster => CreateSize (rangeMin ram) (rangeMin cpu)
  end.

End Vagrant.

(** ** The order of floats

    Away from NaN, [<] on floats is the lexicographic order of their rank. *)

Definition isNaN (x : float64) : bool := match x with S754_nan => true | _ => false end.

Definition rank (x : float64) : Z * Z * Z :=
  match x with
  | S754_infinity true => (-2, 0, 0)
  | S754_finite true m e => (-1, - e, - Zpos m)
  | S754_zero _ => (0, 0, 0)
  | S754_finite false m e => (1, e, Zpos m)
  | S754_infinity false => (2, 0, 0)
  | S754_nan => (0, 0, 0)
  end.

Definition rankLt (x y : Z * Z * Z) : Prop :=
  x.1.1 < y.1.1 ∨ (x.1.1 = y.1.1 ∧ (x.1.2 < y.1.2 ∨ (x.1.2 = y.1.2 ∧ x.2 < y.2))).

Lemma floatLt_rank x y :
  isNaN x = false → isNaN y = false → floatLt x y = true ↔ rankLt (rank x) (rank y).
Proof.
  unfold floatLt, SFltb, rankLt. intros Hx Hy.
  destruct x as [[]|[]| |[] m e]; destruct y as [[]|[]| |[] m' e']; try done; simpl;
    try (split; intros; first [done|lia]);
    (destruct (Z.compare_spec e e'); [|split; intros; first [done|lia]..]);
    change (Pos.compare_cont Eq m m') with (Pos.compare m m');
    destruct (Pos.compare_spec m m'); simpl; subst; split; intros; first [done|lia].
Qed.

Lemma floatLe_rank x y :
  isNaN x = false → isNaN y = false → floatLe x y = true ↔ ¬ rankLt (rank y) (rank x).
Proof.
  unfold floatLe, SFleb, rankLt. intros Hx Hy.
  destruct x as [[]|[]| |[] m e]; destruct y as [[]|[]| |[] m' e']; try done; simpl;
    try (split; intros; first [done|lia]);
    (destruct (Z.compare_spec e e'); [|split; intros; first [done|lia]..]);
    change (Pos.compare_cont Eq m m') with (Pos.compare m m');
    destruct (Pos.compare_spec m m'); simpl; subst; split; intros; first [done|lia].
Qed.

Lemma floatLe_nan x : floatLe x S754_nan = false.
Proof. by destruct x as [[]|[]| |[] ? ?]. Qed.

Lemma rankLt_negtrans x y z : ¬ rankLt x y → ¬ rankLt y z → ¬ rankLt x z.
Proof. unfold rankLt. lia. Qed.

(** ** The choice of a size *)

(** What the tables have to satisfy: every size has a name and a price. *)
Definition priced (d : description) : bool :=
  negb (bool_decide (descSize d = ""%string)) && negb (isNaN (descPrice d)).

Lemma priced_spec d : priced d = true ↔ descSize d ≠ ""%string ∧ isNaN (descPrice d) = false.
Proof.
  unfold priced. rewrite andb_true_iff, !negb_true_iff, bool_decide_eq_false. done.
Qed.

Section PickBestSize.
Context (ram cpu : Range).

(** [best] is a cheapest of the descriptions that fit. *)
Definition cheapest (ds : list description) (best : description) : Prop :=
  best ∈ ds ∧ fits ram cpu best = true ∧
  ∀ d, d ∈ ds → fits ram cpu d = true → ¬ rankLt (rank (descPrice d)) (rank (descPrice best)).

Lemma bestStep_spec (ds : list description) :
  Forall (λ d, priced d = true) ds →
  (foldl (bestStep ram cpu) noDescription ds = noDescription ∧
     ∀ d, d ∈ ds → fits ram cpu d = false) ∨
  cheapest ds (foldl (bestStep ram cpu) noDescription ds).
Proof.
  induction ds as [|d ds IH] using rev_ind; intros Hds; [left; set_solver|].
  apply Forall_app in Hds as [Hds [Hd _]%Forall_cons]. rewrite foldl_app. simpl.
  apply priced_spec in Hd as [Hsize Hnan].
  set (old := foldl (bestStep ram cpu) noDescription ds) in *.
  unfold bestStep.
  destruct (fits ram cpu d) eqn:Hfit; cycle 1; cbn [andb].
  { destruct (IH Hds) as [[Hold Hno]|(Hin & Hb & Hmin)]; [left|right].
    - split; [done|]. intros d' [?|Hd']%elem_of_app; [auto|]. by apply list_elem_of_singleton in Hd' as ->.
    - split_and!; [set_solver|done|].
      intros d' [?|Hd']%elem_of_app Hf; [auto|].
      apply list_elem_of_singleton in Hd' as ->. congruence. }
  destruct (IH Hds) as [[Hold Hno]|(Hin & Hb & Hmin)].
  { right. rewrite Hold, bool_decide_true by done. cbn [orb]. split_and!; [set_solver|done|].
    intros d' [Hd'|Hd']%elem_of_app Hf; [by rewrite Hno in Hf|].
    apply list_elem_of_singleton in Hd' as ->. unfold rankLt. lia. }
  rename old into best. pose proof (proj1 (Forall_forall _ _) Hds best Hin) as [Hbsize Hbnan]%priced_spec.
  rewrite bool_decide_false by done. cbn [orb]. right.
  destruct (floatLt (descPrice d) (descPrice best)) eqn:Hlt.
  - split_and!; [set_solver|done|]. intros d' [Hd'|Hd']%elem_of_app Hf.
    + apply floatLt_rank in Hlt; [|done..]. intros Hc. apply (Hmin d' Hd' Hf).
      unfold rankLt in *. lia.
    + apply list_elem_of_singleton in Hd' as ->. unfold rankLt. lia.
  - split_and!; [set_solver|done|]. intros d' [Hd'|Hd']%elem_of_app Hf; [auto|].
    apply list_elem_of_singleton in Hd' as ->. intros Hc.
    apply floatLt_rank in Hc; [congruence|done..].
Qed.

(** A price that is not below an unaffordable one is unaffordable. *)
Lemma withinPrice_mono maxPrice p q :
  isNaN p = false → isNaN q = false → ¬ rankLt (rank q) (rank p) →
  withinPrice maxPrice p = false → withinPrice maxPrice q = false.
Proof.
  unfold withinPrice. rewrite !orb_false_iff. intros Hp Hq Hpq [Hz Hle]. split; [done|].
  destruct (isNaN maxPrice) eqn:Hn.
  { destruct maxPrice; try done. apply floatLe_nan. }
  apply not_true_iff_false in Hle. rewrite floatLe_rank in Hle by done.
  apply not_true_iff_false. rewrite floatLe_rank by done. unfold rankLt in *. lia.
Qed.

Lemma pickBestSize_spec (ds : list description) maxPrice :
  Forall (λ d, priced d = true) ds →
  let size := pickBestSize ds ram cpu maxPrice in
  (size ≠ ""%string → ∃ d, descSize d = size ∧ cheapest ds d ∧
     withinPrice maxPrice (descPrice d) = true) ∧
  (size = ""%string →
     ∀ d, d ∈ ds → fits ram cpu d = true → withinPrice maxPrice (descPrice d) = false).
Proof.
  intros Hds. unfold pickBestSize. cbv zeta.
  destruct (bestStep_spec ds Hds) as [[-> Hno]|Hch].
  { split; [by case_match|]. intros _ d Hd Hf. by rewrite Hno in Hf. }
  set (best := foldl _ _ _) in *. pose proof Hch as (Hin & Hb & Hmin).
  pose proof (proj1 (Forall_forall _ _) Hds best Hin) as [Hbsize Hbnan]%priced_spec.
  destruct (withinPrice maxPrice (descPrice best)) eqn:Hw; split; [by eauto|done|done|].
  intros _ d Hd Hf. pose proof (proj1 (Forall_forall _ _) Hds d Hd) as [_ Hnan]%priced_spec.
  eapply withinPrice_mono; [exact Hbnan|done|by apply Hmin|done].
Qed.

End PickBestSize.

Lemma awsDescriptions_priced : Forall (λ d, priced d = true) awsDescriptions.
Proof. apply (bool_decide_unpack _). vm_compute. exact I. Qed.

Lemma googleDescriptions_priced : Forall (λ d, priced d = true) googleDescriptions.
Proof. apply (bool_decide_unpack _). vm_compute. exact I. Qed.

(** The table that a provider chooses from. *)
Definition descriptionsOf (p : providerInst) : option (list description) :=
  match p with
  | awsSpotCluster => Some awsDescriptions
  | gceCluster => Some googleDescriptions
  | azureCluster => Some azureDescriptions
  | vagrantCluster => None
  end.

(** C31: The size that a cloud provider picks is the size of a cheapest one of the
    descriptions of its table that meet the ram and cpu ranges, and is within the
    maximum price; no size is picked only if no description that meets the ranges
    is within the price. *)
Theorem pickBestSize_cheapest (formatG : float64 → string) (p : providerInst)
    (ds : list description) (ram cpu : Range) (maxPrice : float64) :
  descriptionsOf p = Some ds →
  let size := PickBestSize formatG p ram cpu maxPrice in
  (size ≠ ""%string → ∃ d, descSize d = size ∧ cheapest ram cpu ds d ∧
     withinPrice maxPrice (descPrice d) = true) ∧
  (size = ""%string →
     ∀ d, d ∈ ds → fits ram cpu d = true → withinPrice maxPrice (descPrice d) = false).
Proof.
  destruct p; intros [= <-]; cbn [PickBestSize].
  - apply pickBestSize_spec, awsDescriptions_priced.
  - apply pickBestSize_spec, googleDescriptions_priced.
  - cbv zeta. split; [done|]. intros _ d Hd. by apply not_elem_of_nil in Hd.
Qed.

Lemma pickBestSize_cheapest_witness :
  let size := PickBestSize (λ _, ""%string) awsSpotCluster (mkRange (dec 4 0) (dec 8 0))
                (mkRange (dec 2 0) floatZero) (dec 2 1) in
  size = "t2.medium"%string ∧
  ∃ d, descSize d = size ∧
    cheapest (mkRange (dec 4 0) (dec 8 0)) (mkRange (dec 2 0) floatZero) awsDescriptions d ∧
    withinPrice (dec 2 1) (descPrice d) = true.
Proof.
  cbv zeta. split; [vm_compute; reflexivity|].
  apply (pickBestSize_cheapest (λ _, ""%string) awsSpotCluster awsDescriptions); [reflexivity|].
  vm_compute. discriminate.
Defined.

(** ** Grouping *)

Lemma GroupBy_lookup (machines : list CloudMachine) (p : string) :
  GroupBy machines !! p =
    match base.filter (λ m, cmProvider m = p) machines with
    | [] => None
    | ms => Some ms
    end.
Proof.
  unfold GroupBy. induction machines as [|m ms IH] using rev_ind; [done|].
  rewrite foldl_app, filter_app. simpl. unfold groupStep at 1.
  destruct (decide (cmProvider m = p)) as [<-|Hne].
  - rewrite lookup_insert_eq, IH, filter_cons_True by done. by destruct (base.filter _ ms).
  - rewrite lookup_insert_ne, IH, filter_cons_False by done. by rewrite filter_nil, app_nil_r.
Qed.
