(* ===== verification/Cluster.v ===== *)
(** * cluster: the machines of the database against the machines of the clouds

    Model of [src/cluster/cluster.go]. The cluster talks to the clouds through the
    [Provider] interface, here the class [Cloud] over an abstract state of the
    clouds; the code and the clouds are run together, in a state that pairs the
    database with the clouds. *)

From stdpp Require Import base gmap list strings.
From Stdlib Require Import ZArith Lia.
From S2P Require Import Prelude Join DbRows Db DbProps Reconcile Engine Provider.

Local Open Scope Z_scope.

(** ** The interface of the clouds *)

(** [Get], [Boot] and [Stop] of the provider with a name. [Get] answers [None], and
    the other two [false], when they return an error. *)
Class Cloud (W : Type) : Type := {
  providerGet : string → W → option (list CloudMachine) * W;
  providerBoot : string → list CloudMachine → W → bool * W;
  providerStop : string → list CloudMachine → W → bool * W
}.

(** ** Matching rows with machines *)

(** The score function of [syncDB]. *)
Definition cloudScore (dbm : Machine) (m : CloudMachine) : Z :=
  if decide (machineProvider dbm ≠ cmProvider m) then -1
  else if decide (cmRegion m ≠ ""%string ∧ machineRegion dbm ≠ cmRegion m) then -1
  else if decide (cmSize m ≠ ""%string ∧ machineSize dbm ≠ cmSize m) then -1
  else if decide (cmDiskSize m ≠ 0 ∧ machineDiskSize dbm ≠ cmDiskSize m) then -1
  else if decide (machineCloudID dbm = cmID m) then 0
  else if decide (machinePublicIP dbm = cmPublicIP m) then 1
  else if decide (machinePrivateIP dbm = cmPrivateIP m) then 2
  else 3.

(** The machine to boot for a row. *)
Definition bootFor (m : Machine) : CloudMachine :=
  mkCloud "" "" "" (machineSize m) (machineDiskSize m) (machineSSHKeys m) (machineProvider m)
    (machineRegion m).

Definition syncDB (cloudMachines : list CloudMachine) (dbMachines : list Machine)
    : list (Machine * CloudMachine) * list CloudMachine * list CloudMachine :=
  let j := Join cloudScore dbMachines cloudMachines in
  (pairs j, bootFor <$> lonelyLefts j, lonelyRights j).

(** What [sync] writes in the row of a pair. *)
Definition updateFromCloud (dbm : Machine) (m : CloudMachine) : Machine :=
  mkMachine (machineID dbm) (machineClusterID dbm) (machineRole dbm) (cmProvider m)
    (machineRegion dbm)
    (if decide (cmSize m = ""%string) then machineSize dbm else cmSize m)
    (if decide (cmDiskSize m = 0) then machineDiskSize dbm else cmDiskSize m)
    (machineSSHKeys dbm) (cmID m) (cmPublicIP m) (cmPrivateIP m).

(** ** The cluster object *)

Record cluster : Type := mkClusterObj {
  clstID : Z;
  clstTrigger : nat;
  clstForeman : nat;
  clstProviders : gset string;
  clstMark : bool
}.

Section Cluster.
Context {W : Type} `{Cloud W} `{MapRange}.

(** Code of the cluster: it runs transactions and calls the clouds. *)
Abbreviation Cl := (M Empty_set (Database * W)).

Fixpoint getLoop (ps : list string) : Cl (option (list CloudMachine)) :=
  match ps with
  | [] => mret (Some [])
  | p :: ps' =>
      r ← onWorld (providerGet p);
      match r with
      | None => mret None
      | Some providerMachines =>
          rest ← getLoop ps';
          mret (match rest with
                | None => None
                | Some l => Some (providerMachines ++ l)
                end)
      end
  end.

Definition get (clst : cluster) : Cl (option (list CloudMachine)) :=
  ps ← rangeOf (gset_to_gmap tt (clstProviders clst)); getLoop ps.*1.

(** The loop of [updateCloud]; the result is [noFailures]. *)
Definition updateGroup (clst : cluster) (boot : bool) (noFailures : bool)
    (group : string * list CloudMachine) : Cl bool :=
  if decide (group.1 ∈ clstProviders clst) then
    ok ← onWorld (if boot then providerBoot group.1 group.2 else providerStop group.1 group.2);
    mret (noFailures && ok)
  else mret false.

Definition updateCloud (clst : cluster) (machines : list CloudMachine) (boot : bool) : Cl bool :=
  match machines with
  | [] => mret true
  | _ =>
      groups ← rangeOf (GroupBy machines);
      foldEach (updateGroup clst boot) true groups
  end.

(** The two transactions of a round of [sync]. *)
Definition selectTxn (id : Z) : DB (list Machine) :=
  SelectFrom (R := Machine) (Some (inCluster id)).

Definition commitTxn (ps : list (Machine * CloudMachine)) : DB unit :=
  forEach (λ p, Commit (updateFromCloud p.1 p.2)) ps.

(** One round of [sync]; the result says whether the loop goes on. *)
Definition syncRound (clst : cluster) : Cl bool :=
  cloud ← get clst;
  match cloud with
  | None => mret false
  | Some cloudMachines =>
      dbMachines ← onDb (Transact (selectTxn (clstID clst)));
      let '(ps, bootSet, terminateSet) := syncDB cloudMachines dbMachines in
      _ ← onDb (Transact (commitTxn ps));
      _ ← updateCloud clst bootSet true;
      _ ← updateCloud clst terminateSet false;
      mret true
  end.

Fixpoint syncLoop (n : nat) (clst : cluster) : Cl unit :=
  match n with
  | O => mret tt
  | S n' =>
      go ← syncRound clst;
      if (go : bool) then syncLoop n' clst else mret tt
  end.

Definition sync (clst : cluster) : Cl unit := syncLoop 8 clst.

End Cluster.

(** ** The set of clusters *)

Section Clusters.
Context `{MapRange}.
(** [Start] of a provider, which may register triggers; the result says whether it
    succeeds. *)
Context (providerStart : string → Z → string → DB bool).

Definition startProvider (id : Z) (namespace : string) (started : gset string) (p : string)
    : DB (gset string) :=
  ok ← providerStart p id namespace; mret (if (ok : bool) then {[p]} ∪ started else started).

(** [newCluster] with [newForeman]; the goroutines they start are [sync] and the
    foreman's [runOnce]. *)
Definition newCluster (id : Z) (namespace : string) : DB cluster :=
  trigger ← Transact (TriggerTick [tMachineTable]);
  fm ← Transact (TriggerTick [tMachineTable; tClusterTable]);
  ps ← foldEach (startProvider id namespace) ∅ ["AmazonSpot"; "Google"; "Azure"; "Vagrant"]%string;
  mret (mkClusterObj id trigger fm ps false).

Definition setMark (mark : bool) (clst : cluster) : cluster :=
  mkClusterObj (clstID clst) (clstTrigger clst) (clstForeman clst) (clstProviders clst) mark.

(** The loops of [Run]: mark the clusters of the database, then sweep. *)
Definition markStep (clusters : gmap Z cluster) (row : Cluster) : DB (gmap Z cluster) :=
  clst ← match clusters !! clusterID row with
         | Some clst => mret clst
         | None => newCluster (clusterID row) (clusterNamespace row)
         end;
  mret (<[clusterID row := setMark true clst]> clusters).

Definition sweepStep (clusters : gmap Z cluster) (entry : Z * cluster) : DB (gmap Z cluster) :=
  if clstMark entry.2 then mret (<[entry.1 := setMark false entry.2]> clusters)
  else
    _ ← modifyS (Stop (clstForeman entry.2));
    _ ← modifyS (Stop (clstTrigger entry.2));
    mret (delete entry.1 clusters).

(** One iteration of [Run]. *)
Definition runClusters (clusters : gmap Z cluster) : DB (gmap Z cluster) :=
  dbClusters ← Transact (SelectFrom (R := Cluster) None);
  marked ← foldEach markStep clusters dbClusters;
  entries ← (λ db, Ok (rangeOrder (loops db) marked, countLoop db));
  foldEach sweepStep marked entries.

End Clusters.
