(* ===== verification/ClusterProps.v ===== *)
(** * cluster: convergence, and the set of clusters

    Theorems on [Cluster]. What [sync] needs of the clouds is the class
    [CloudLaws]: an instance is listed with the provider, region, size and disk
    size that it was booted with, boots and stops take effect. *)

From stdpp Require Import base gmap list strings.
From Stdlib Require Import ZArith Lia.
From S2P Require Import Prelude Join DbRows Db DbProps Reconcile Engine Provider Cluster.

Local Open Scope Z_scope.

(** ** Keys *)

(** What a row and an instance must have in common. *)
Abbreviation mkey := (string * string * string * Z)%type.

Definition machineKey (m : Machine) : mkey :=
  (machineProvider m, machineRegion m, machineSize m, machineDiskSize m).
Definition cloudKey (m : CloudMachine) : mkey :=
  (cmProvider m, cmRegion m, cmSize m, cmDiskSize m).
Definition keyProvider (k : mkey) : string := k.1.1.1.

(** Every attribute is known. *)
Definition fullKey (k : mkey) : Prop :=
  k.1.1.2 ≠ ""%string ∧ k.1.2 ≠ ""%string ∧ k.2 ≠ 0.

(** A row or an instance, up to the ID and role of the row. *)
Definition machineInstance (m : Machine) : string * string * string * mkey :=
  (machineCloudID m, machinePublicIP m, machinePrivateIP m, machineKey m).
Definition cloudInstance (m : CloudMachine) : string * string * string * mkey :=
  (cmID m, cmPublicIP m, cmPrivateIP m, cloudKey m).

Lemma cloudScore_key dbm m :
  fullKey (cloudKey m) → 0 ≤ cloudScore dbm m ↔ machineKey dbm = cloudKey m.
Proof.
  intros (Hr & Hs & Hd). cbn [cloudKey fst snd] in *. unfold cloudScore, machineKey, cloudKey.
  split.
  - repeat case_decide; try lia; intros _;
      repeat match goal with
        | H : ¬ (_ ∧ _) |- _ => apply not_and_l in H as [H|H]; [done|]
        | H : ¬ (_ ≠ _) |- _ => apply dec_stable in H
        end; congruence.
  - intros [= -> -> -> ->]. repeat case_decide; try lia; naive_solver.
Qed.

Lemma updateFromCloud_instance dbm m :
  fullKey (cloudKey m) → machineKey dbm = cloudKey m →
  machineInstance (updateFromCloud dbm m) = cloudInstance m.
Proof.
  intros (Hr & Hs & Hd) [= Hp HR HS HD]. cbn [cloudKey fst snd] in *.
  unfold machineInstance, cloudInstance, machineKey, cloudKey, updateFromCloud.
  cbn [machineCloudID machinePublicIP machinePrivateIP machineProvider machineRegion machineSize
       machineDiskSize].
  rewrite !decide_False by done. by rewrite HR.
Qed.

(** ** What the clouds promise *)

Class CloudLaws (W : Type) `{Cloud W} : Type := {
  instances : W → string → list CloudMachine;
  instances_full : ∀ w p m, m ∈ instances w p → cmProvider m = p ∧ fullKey (cloudKey m);
  get_instances : ∀ p w, providerGet p w = (Some (instances w p), w);
  boot_instances : ∀ p ms w,
    (∀ m, m ∈ ms → cmProvider m = p ∧ fullKey (cloudKey m)) →
    (∃ new, instances (providerBoot p ms w).2 p ≡ₚ instances w p ++ new ∧
       cloudKey <$> new ≡ₚ cloudKey <$> ms) ∧
    ∀ q, q ≠ p → instances (providerBoot p ms w).2 q = instances w q;
  stop_instances : ∀ p ms w,
    (∀ rest, instances w p ≡ₚ ms ++ rest → instances (providerStop p ms w).2 p ≡ₚ rest) ∧
    ∀ q, q ≠ p → instances (providerStop p ms w).2 q = instances w q
}.

(** ** Lists of keys by provider *)

Definition keysOn (p : string) (ks : list mkey) : list mkey :=
  base.filter (λ k, keyProvider k = p) ks.

Lemma keysOn_fmap p (ms : list CloudMachine) :
  keysOn p (cloudKey <$> ms) = cloudKey <$> base.filter (λ m, cmProvider m = p) ms.
Proof.
  unfold keysOn. induction ms as [|m ms IH]; [done|]. rewrite fmap_cons, !filter_cons.
  change (keyProvider (cloudKey m)) with (cmProvider m).
  destruct (decide (cmProvider m = p)); rewrite ?fmap_cons; by rewrite IH.
Qed.

(** Grouping by a list of distinct providers that has them all loses nothing. *)
Lemma keysOn_concat (ps : list string) (ks : list mkey) :
  NoDup ps → (∀ k, k ∈ ks → keyProvider k ∈ ps) → concat ((λ p, keysOn p ks) <$> ps) ≡ₚ ks.
Proof.
  revert ks. induction ps as [|p ps IH]; intros ks Hnd Hks.
  - destruct ks as [|k ks]; [done|]. exfalso. apply (not_elem_of_nil (keyProvider k)), Hks. left.
  - apply NoDup_cons in Hnd as [Hp Hnd]. rewrite fmap_cons. cbn [concat].
    etransitivity; [|apply (filter_app_complement (λ k, keyProvider k = p))].
    apply Permutation_app; [done|].
    rewrite <- (IH (base.filter (λ k, keyProvider k ≠ p) ks)); [|done|].
    + apply reflexive_eq. f_equal. apply list_fmap_ext. intros i q Hq. unfold keysOn.
      rewrite list_filter_filter. apply list_filter_iff. intros k. split; [|naive_solver].
      intros <-. split; [done|]. intros <-. apply Hp, list_elem_of_lookup. eauto.
    + intros k [Hne Hk]%list_elem_of_filter. specialize (Hks k Hk). set_solver.
Qed.

Lemma concat_perm {A B} (f : A → list B) (l1 l2 : list A) :
  l1 ≡ₚ l2 → concat (f <$> l1) ≡ₚ concat (f <$> l2).
Proof.
  induction 1; rewrite ?fmap_cons; cbn [concat].
  - done.
  - by f_equiv.
  - by rewrite !(assoc (++)), (Permutation_app_comm (f y)).
  - by etransitivity.
Qed.

Section Converge.
Context {W : Type} `{CW : Cloud W, CL : !CloudLaws W} `{MapRange}.

(** ** Runs of the calls to the clouds *)

Definition allInstances (clst : cluster) (w : W) : list CloudMachine :=
  concat (instances w <$> elements (clstProviders clst)).

Lemma elem_of_allInstances clst w m :
  m ∈ allInstances clst w ↔ ∃ p, p ∈ clstProviders clst ∧ m ∈ instances w p.
Proof.
  unfold allInstances. rewrite list_elem_of_In, in_concat. setoid_rewrite <- list_elem_of_In.
  setoid_rewrite list_elem_of_fmap. setoid_rewrite elem_of_elements. naive_solver.
Qed.

Lemma getLoop_run ps db w :
  getLoop ps (db, w) = Ok (Some (concat (instances w <$> ps)), (db, w)).
Proof.
  induction ps as [|p ps IH]; [done|]. cbn [getLoop]. unfold mbind, M_bind, onWorld.
  cbn [fst snd]. rewrite get_instances, IH. done.
Qed.

Lemma get_run clst db w :
  ∃ cms, get clst (db, w) = Ok (Some cms, (countLoop db, w)) ∧ cms ≡ₚ allInstances clst w.
Proof.
  unfold get, rangeOf, mbind, M_bind. cbn [fst snd]. rewrite getLoop_run.
  eexists. split; [done|]. unfold allInstances. rewrite rangeOrder_perm.
  apply concat_perm. rewrite map_to_list_gset_to_gmap, <- list_fmap_compose.
  by rewrite (list_fmap_id (elements _)).
Qed.

Section Groups.
(** What an operation on the machines [ms] of a provider does to its instances. *)
Context (rel : list CloudMachine → list CloudMachine → list CloudMachine → Prop).
Context (clst : cluster) (boot : bool).

Definition cloudOp (p : string) (ms : list CloudMachine) (w : W) : W :=
  (if boot then providerBoot p ms w else providerStop p ms w).2.

Lemma groups_run groups b db w :
  NoDup groups.*1 → (∀ p, p ∈ groups.*1 → p ∈ clstProviders clst) →
  (∀ p ms w, (p, ms) ∈ groups → rel ms (instances w p) (instances (cloudOp p ms w) p) ∧
     ∀ q, q ≠ p → instances (cloudOp p ms w) q = instances w q) →
  ∃ b' w', foldEach (updateGroup clst boot) b groups (db, w) = Ok (b', (db, w')) ∧
    (∀ p ms, (p, ms) ∈ groups → rel ms (instances w p) (instances w' p)) ∧
    (∀ p, p ∉ groups.*1 → instances w' p = instances w p).
Proof.
  revert b w. induction groups as [|[p ms] groups IH]; intros b w Hnd Hav Hop.
  { exists b, w. split_and!; [done| |done]. intros p ms Hin. by apply not_elem_of_nil in Hin. }
  rewrite fmap_cons in *. apply NoDup_cons in Hnd as [Hp Hnd].
  destruct (Hop p ms w) as [Hrel Hsame]; [left|].
  assert (∃ b1, updateGroup clst boot b (p, ms) (db, w) = Ok (b1, (db, cloudOp p ms w))) as [b1 Hrun].
  { unfold updateGroup, cloudOp. cbn [fst snd]. rewrite decide_True by (apply Hav; left).
    unfold mbind, M_bind, onWorld. cbn [fst snd].
    destruct boot; [destruct (providerBoot p ms w)|destruct (providerStop p ms w)]; eauto. }
  destruct (IH b1 (cloudOp p ms w) Hnd) as (b' & w' & Hrun' & Hin & Hout).
  { intros q Hq. apply Hav. by right. }
  { intros q ms' w1 Hq. apply Hop. by right. }
  exists b', w'. cbn [foldEach]. unfold mbind, M_bind. rewrite Hrun. split_and!; [done| |].
  - intros q ms' [[= -> ->]|Hq]%elem_of_cons.
    + by rewrite (Hout p Hp).
    + rewrite <- (Hsame q); [by apply Hin|]. intros ->. apply Hp, list_elem_of_fmap.
      by exists (p, ms').
  - intros q [Hne Hq]%not_elem_of_cons. rewrite (Hout q Hq). auto.
Qed.

(** The same for [updateCloud], over the groups of a list of machines. *)
Lemma updateCloud_run machines db w :
  (∀ l, rel [] l l) →
  (∀ m, m ∈ machines → cmProvider m ∈ clstProviders clst) →
  (∀ p ms w, (∀ m, m ∈ ms → m ∈ machines ∧ cmProvider m = p) →
     rel ms (instances w p) (instances (cloudOp p ms w) p) ∧
     ∀ q, q ≠ p → instances (cloudOp p ms w) q = instances w q) →
  ∃ b w', updateCloud clst machines boot (db, w) =
      Ok (b, (match machines with [] => db | _ => countLoop db end, w')) ∧
    (machines = [] → w' = w) ∧
    ∀ p, rel (base.filter (λ m, cmProvider m = p) machines) (instances w p) (instances w' p).
Proof.
  intros Hnil Hav Hop. destruct machines as [|m0 ms0] eqn:Hms.
  { exists true, w. split_and!; [done|done|]. intros p. rewrite filter_nil. apply Hnil. }
  rewrite <- Hms in *. set (groups := rangeOrder (loops db) (GroupBy machines)).
  assert (∀ p ms, (p, ms) ∈ groups → ms = base.filter (λ m, cmProvider m = p) machines ∧
            ∃ m, m ∈ machines ∧ cmProvider m = p) as Hgr.
  { intros p ms Hin. subst groups. rewrite elem_of_range, GroupBy_lookup in Hin.
    destruct (base.filter _ machines) as [|m ms'] eqn:Hf; [done|]. injection Hin as <-.
    split; [done|]. exists m. assert (m ∈ base.filter (λ m, cmProvider m = p) machines) as Hm
      by (rewrite Hf; left). by apply list_elem_of_filter in Hm as [??]. }
  destruct (groups_run groups true (countLoop db) w) as (b & w' & Hrun & Hin & Hout).
  - subst groups. rewrite rangeOrder_perm. apply NoDup_fst_map_to_list.
  - intros p ([p' ms] & -> & Hp)%list_elem_of_fmap.
    destruct (Hgr _ _ Hp) as (_ & m & Hm & <-). by apply Hav.
  - intros p ms w1 Hp. apply Hop. destruct (Hgr _ _ Hp) as [-> _].
    intros m [??]%list_elem_of_filter. done.
  - exists b, w'. split_and!; [|by rewrite Hms|].
    + rewrite Hms. cbn [updateCloud]. rewrite <- Hms. unfold mbind at 1, M_bind at 1, rangeOf.
      cbn [fst snd]. fold groups. exact Hrun.
    + intros p. destruct (decide (p ∈ groups.*1)) as [Hp|Hp].
      * apply list_elem_of_fmap in Hp as ([p' ms] & -> & Hp).
        cbn [fst]. destruct (Hgr _ _ Hp) as [<- _]. by apply Hin.
      * rewrite (Hout p Hp). assert (base.filter (λ m, cmProvider m = p) machines = []) as ->;
          [|apply Hnil].
        destruct (base.filter _ machines) as [|m ms] eqn:Hf; [done|]. destruct Hp.
        apply list_elem_of_fmap. exists (p, m :: ms). split; [done|]. subst groups.
        by rewrite elem_of_range, GroupBy_lookup, Hf.
Qed.

End Groups.

(** ** Runs of the transactions *)

Lemma machines_split id db :
  machinesOf id db ++ machinesOfOthers id db ≡ₚ (map_to_list (rows (MachineTable db))).*2.
Proof.
  unfold machinesOf, machinesOfOthers.
  etransitivity; [|apply (filter_app_complement (λ m, inCluster id m = true))].
  apply Permutation_app; [done|]. apply reflexive_eq, list_filter_iff. intros m. by rewrite not_true_iff_false.
Qed.

Lemma machinesOf_cluster id db m : m ∈ machinesOf id db → inCluster id m = true.
Proof. by intros [? _]%list_elem_of_filter. Qed.

Lemma machines_same id db db' :
  rows (MachineTable db') = rows (MachineTable db) →
  machinesOf id db' = machinesOf id db ∧ machinesOfOthers id db' = machinesOfOthers id db.
Proof. unfold machinesOf, machinesOfOthers. by intros ->. Qed.

Lemma selectTxn_run id db :
  dbWF db →
  ∃ ms db', Transact (selectTxn id) db = Ok (ms, db') ∧ dbWF db' ∧
    rows (MachineTable db') = rows (MachineTable db) ∧ ms ≡ₚ machinesOf id db.
Proof.
  intros Hwf. destruct (selectTxn id db) as [[ms db0]| | |] eqn:Hs; [|discriminate Hs..].
  pose proof (SelectFrom_Ok (Some (inCluster id)) db ms db0 Hs) as [-> Hsel].
  exists ms, (alertAll (countLoop db)). split_and!.
  - by apply Transact_run.
  - by apply alertAll_wf.
  - by rewrite alertAll_machines.
  - exact Hsel.
Qed.

Definition updated (p : Machine * CloudMachine) : Machine := updateFromCloud p.1 p.2.

Lemma commitTxn_run id ps lonely db :
  dbWF db → ps.*1 ++ lonely ≡ₚ machinesOf id db →
  ∃ db', Transact (commitTxn ps) db = Ok (tt, db') ∧ dbWF db' ∧
    machinesOf id db' ≡ₚ (updated <$> ps) ++ lonely ∧
    machinesOfOthers id db' ≡ₚ machinesOfOthers id db.
Proof.
  intros Hwf Hps. set (us := (λ p, (p.1, updated p)) <$> ps).
  assert (us.*1 = ps.*1) as Hus1 by (subst us; by rewrite <- list_fmap_compose).
  assert (us.*2 = updated <$> ps) as Hus2 by (subst us; by rewrite <- list_fmap_compose).
  destruct (rewrites_run (R := Machine) us (lonely ++ machinesOfOthers id db) db Hwf) as
    (db' & Hrun & Hk & _ & Hrows).
  - apply Forall_forall. intros u (p & -> & _)%list_elem_of_fmap. done.
  - rewrite Hus1, (assoc (++)), Hps. apply machines_split.
  - exists (alertAll db').
    destruct (machines_same id db' (alertAll db') (alertAll_machines db')) as [-> ->].
    rewrite Hus2, (assoc (++)) in Hrows.
    destruct (filter_app_kinds (inCluster id) ((updated <$> ps) ++ lonely)
      (map_to_list (rows (MachineTable db))).*2) as [Hf1 Hf2].
    { intros m [(p & -> & Hp)%list_elem_of_fmap|Hm]%elem_of_app.
      - apply (machinesOf_cluster id db p.1). rewrite <- Hps. apply elem_of_app. left.
        apply list_elem_of_fmap. eauto.
      - apply (machinesOf_cluster id db). rewrite <- Hps. apply elem_of_app. by right. }
    split_and!.
    + apply Transact_run. unfold commitTxn. rewrite forEach_fmap. change (λ p, updateFromCloud p.1 p.2)
        with updated. rewrite <- Hus2. exact Hrun.
    + apply alertAll_wf, Hk.
    + unfold machinesOf at 1. change (MachineTable db') with (getTable (R := Machine) db').
      rewrite Hrows. unfold machinesOfOthers. by rewrite Hf1.
    + unfold machinesOfOthers at 1. change (MachineTable db') with (getTable (R := Machine) db').
      rewrite Hrows. unfold machinesOfOthers. by rewrite Hf2.
Qed.

(** ** A round of [sync] *)

Lemma concat_pointwise {A B} (f g : A → list B) (l : list A) :
  (∀ x, x ∈ l → f x ≡ₚ g x) → concat (f <$> l) ≡ₚ concat (g <$> l).
Proof.
  induction l as [|x l IH]; intros Hfg; [done|]. rewrite !fmap_cons. cbn [concat].
  rewrite (Hfg x) by left. f_equiv. apply IH. intros y Hy. apply Hfg. by right.
Qed.

Lemma filter_concat_none {A B} (P : B → Prop) `{∀ x, Decision (P x)} (f : A → list B) (l : list A) :
  (∀ a b, a ∈ l → b ∈ f a → ¬ P b) → base.filter P (concat (f <$> l)) = [].
Proof.
  intros Hno. apply list_filter_none. intros b.
  rewrite list_elem_of_In, in_concat. intros (k & Hk & Hb).
  apply list_elem_of_In, list_elem_of_fmap in Hk as (a & -> & Ha).
  apply list_elem_of_In in Hb. eauto.
Qed.

(** The instances of a provider, among all. *)
Lemma instances_filter clst w p :
  p ∈ clstProviders clst →
  base.filter (λ m, cmProvider m = p) (allInstances clst w) ≡ₚ instances w p.
Proof.
  intros Hp. unfold allInstances.
  assert (elements (clstProviders clst) ≡ₚ p :: elements (clstProviders clst ∖ {[p]})) as Hel.
  { rewrite <- elements_union_singleton by set_solver. apply reflexive_eq. f_equal.
    by rewrite <- union_difference_singleton_L. }
  rewrite (concat_perm (instances w) _ _ Hel), fmap_cons. cbn [concat]. rewrite filter_app.
  rewrite list_filter_id, filter_concat_none; [by rewrite app_nil_r| |].
  - intros q m [_ Hq]%elem_of_elements%elem_of_difference Hm <-. apply Hq.
    destruct (instances_full w q m Hm) as [-> _]. set_solver.
  - intros m Hm. by apply (instances_full w p m).
Qed.

(** Per-provider keys add up. *)
Lemma allInstances_keys clst w (K : list mkey) :
  (∀ k, k ∈ K → keyProvider k ∈ clstProviders clst) →
  (∀ p, p ∈ clstProviders clst → cloudKey <$> instances w p ≡ₚ keysOn p K) →
  cloudKey <$> allInstances clst w ≡ₚ K.
Proof.
  intros HK Hp. unfold allInstances.
  etransitivity; [|apply (keysOn_concat (elements (clstProviders clst)) K)].
  - change (cloudKey <$> concat (instances w <$> elements (clstProviders clst))) with
      (map cloudKey (concat (map (instances w) (elements (clstProviders clst))))).
    rewrite concat_map, map_map. apply (concat_pointwise (λ p, cloudKey <$> instances w p)).
    intros p Hin%elem_of_elements. auto.
  - apply NoDup_elements.
  - intros k Hk. apply elem_of_elements. auto.
Qed.

(** The rows of the cluster ask for known machines of available providers. *)
Definition rowsOk (clst : cluster) (db : Database) : Prop :=
  ∀ m, m ∈ machinesOf (clstID clst) db →
    machineProvider m ∈ clstProviders clst ∧ fullKey (machineKey m).

(** The clouds have what the rows ask for. *)
Definition settled (clst : cluster) (db : Database) (w : W) : Prop :=
  cloudKey <$> allInstances clst w ≡ₚ machineKey <$> machinesOf (clstID clst) db.

Definition bootRel (ms l l' : list CloudMachine) : Prop :=
  ∃ new, l' ≡ₚ l ++ new ∧ cloudKey <$> new ≡ₚ cloudKey <$> ms.
Definition stopRel (ms l l' : list CloudMachine) : Prop :=
  ∀ rest, l ≡ₚ ms ++ rest → l' ≡ₚ rest.

Lemma bootSet_run clst (lonely : list Machine) db w :
  (∀ m, m ∈ lonely → machineProvider m ∈ clstProviders clst ∧ fullKey (machineKey m)) →
  ∃ b db' w', updateCloud clst (bootFor <$> lonely) true (db, w) = Ok (b, (db', w')) ∧
    (db' = db ∨ db' = countLoop db) ∧ (lonely = [] → w' = w) ∧
    ∀ p, bootRel (base.filter (λ m, cmProvider m = p) (bootFor <$> lonely))
           (instances w p) (instances w' p).
Proof.
  intros Hl. destruct (updateCloud_run bootRel clst true (bootFor <$> lonely) db w) as
    (b & w' & Hrun & Hnil & Hrel).
  - intros l. exists []. by rewrite app_nil_r.
  - intros m (r & -> & Hr)%list_elem_of_fmap. by apply Hl.
  - intros p ms w1 Hms. apply boot_instances. intros m Hm. destruct (Hms m Hm) as [Hin <-].
    apply list_elem_of_fmap in Hin as (r & -> & Hr). split; [done|]. by apply Hl.
  - eexists b, _, w'. split_and!; [exact Hrun|destruct (bootFor <$> lonely); auto| |done].
    intros ->. by apply Hnil.
Qed.

Lemma stopSet_run clst (lonely : list CloudMachine) db w :
  (∀ m, m ∈ lonely → cmProvider m ∈ clstProviders clst) →
  ∃ b db' w', updateCloud clst lonely false (db, w) = Ok (b, (db', w')) ∧
    (db' = db ∨ db' = countLoop db) ∧ (lonely = [] → w' = w) ∧
    ∀ p, stopRel (base.filter (λ m, cmProvider m = p) lonely) (instances w p) (instances w' p).
Proof.
  intros Hl. destruct (updateCloud_run stopRel clst false lonely db w) as
    (b & w' & Hrun & Hnil & Hrel).
  - by intros l rest.
  - done.
  - intros p ms w1 _. apply stop_instances.
  - eexists b, _, w'. split_and!; [exact Hrun|destruct lonely; auto|done|done].
Qed.

Section Round.
Context (clst : cluster) (w w1 w2 : W) (ms : list Machine) (cms : list CloudMachine).
Hypothesis Hcms : cms ≡ₚ allInstances clst w.
Hypothesis Hms : ∀ m, m ∈ ms → machineProvider m ∈ clstProviders clst ∧ fullKey (machineKey m).

Abbreviation j := (Join cloudScore ms cms).

Lemma cms_full m : m ∈ cms → cmProvider m ∈ clstProviders clst ∧ fullKey (cloudKey m).
Proof.
  rewrite Hcms, elem_of_allInstances. intros (p & Hp & Hm).
  by destruct (instances_full w p m Hm) as [-> ?].
Qed.

Lemma cms_score l r : l ∈ ms → r ∈ cms → 0 ≤ cloudScore l r ↔ machineKey l = cloudKey r.
Proof. intros _ Hr. by apply cloudScore_key, cms_full. Qed.

Lemma round_lonely r : r ∈ lonelyRights j → cmProvider r ∈ clstProviders clst.
Proof.
  intros Hr. apply cms_full. rewrite <- (Join_rights cloudScore ms cms). apply elem_of_app. by right.
Qed.

(** The keys of the matched instances and of the machines to boot are the keys of
    the rows. *)
Lemma round_keys :
  (cloudKey <$> (pairs j).*2) ++ (cloudKey <$> (bootFor <$> lonelyLefts j)) ≡ₚ machineKey <$> ms.
Proof.
  rewrite <- (scoredJoin_pairs machineKey cloudKey cloudScore ms cms cms_score).
  rewrite <- (list_fmap_compose bootFor cloudKey). change (cloudKey ∘ bootFor) with machineKey.
  by rewrite <- fmap_app, Join_lefts.
Qed.

Lemma round_cloud :
  (∀ p, bootRel (base.filter (λ m, cmProvider m = p) (bootFor <$> lonelyLefts j))
          (instances w p) (instances w1 p)) →
  (∀ p, stopRel (base.filter (λ m, cmProvider m = p) (lonelyRights j))
          (instances w1 p) (instances w2 p)) →
  cloudKey <$> allInstances clst w2 ≡ₚ machineKey <$> ms.
Proof.
  intros Hboot Hstop. apply allInstances_keys.
  { intros k (m & -> & Hm)%list_elem_of_fmap. by apply (Hms m). }
  intros p Hp. destruct (Hboot p) as (new & Hw1 & Hnew).
  assert (instances w p ≡ₚ base.filter (λ m, cmProvider m = p) (lonelyRights j) ++
            base.filter (λ m, cmProvider m = p) (pairs j).*2) as Hw.
  { rewrite <- (instances_filter clst w p Hp), <- Hcms, <- (Join_rights cloudScore ms cms) at 1.
    by rewrite filter_app, (Permutation_app_comm (base.filter _ (pairs j).*2)). }
  rewrite (Hstop p (base.filter (λ m, cmProvider m = p) (pairs j).*2 ++ new)).
  - rewrite fmap_app, Hnew, <- !keysOn_fmap. unfold keysOn. rewrite <- filter_app.
    by rewrite round_keys.
  - by rewrite Hw1, Hw, (assoc (++)).
Qed.

Lemma round_instances : machineInstance <$> (updated <$> pairs j) = cloudInstance <$> (pairs j).*2.
Proof.
  rewrite <- !list_fmap_compose. apply list_fmap_ext. intros i [l r] Hi%list_elem_of_lookup_2.
  destruct (Join_pair_elems cloudScore ms cms l r Hi) as [Hlm Hrc].
  apply updateFromCloud_instance; [by apply cms_full|].
  apply cms_score; [done..|]. by apply (Join_pairs_score _ ms cms).
Qed.

(** The update of the rows changes no key. *)
Lemma round_rows : machineKey <$> ((updated <$> pairs j) ++ lonelyLefts j) ≡ₚ machineKey <$> ms.
Proof.
  assert (machineKey <$> (updated <$> pairs j) = cloudKey <$> (pairs j).*2) as Heq.
  { pose proof (f_equal (fmap snd) round_instances) as Hi. rewrite <- !list_fmap_compose in *.
    exact Hi. }
  rewrite fmap_app, Heq, <- round_keys, <- (list_fmap_compose bootFor cloudKey). done.
Qed.

(** When nothing is missing, every row gets its instance. *)
Lemma round_settled :
  cloudKey <$> cms ≡ₚ machineKey <$> ms →
  lonelyLefts j = [] ∧ lonelyRights j = [] ∧
  machineInstance <$> (updated <$> pairs j) ≡ₚ cloudInstance <$> cms.
Proof.
  intros Hk. destruct (scoredJoin_complete machineKey cloudKey cloudScore ms cms cms_score) as [Hl Hr];
    [done|]. split_and!; [done..|].
  pose proof (Join_rights cloudScore ms cms) as Hp. rewrite Hr, app_nil_r in Hp.
  rewrite round_instances. by rewrite Hp.
Qed.

End Round.

Lemma syncRound_run clst db w :
  dbWF db → rowsOk clst db →
  ∃ db' w', syncRound clst (db, w) = Ok (true, (db', w')) ∧ dbWF db' ∧
    machineKey <$> machinesOf (clstID clst) db' ≡ₚ machineKey <$> machinesOf (clstID clst) db ∧
    machinesOfOthers (clstID clst) db' ≡ₚ machinesOfOthers (clstID clst) db ∧
    settled clst db' w' ∧
    (settled clst db w → w' = w ∧
       machineInstance <$> machinesOf (clstID clst) db' ≡ₚ cloudInstance <$> allInstances clst w').
Proof.
  intros Hwf Hok. unfold syncRound. set (id := clstID clst).
  destruct (get_run clst db w) as (cms & Hget & Hcms).
  destruct (selectTxn_run id (countLoop db)) as (ms & db1 & Hsel & Hwf1 & Hrows1 & Hms); [done|].
  destruct (machines_same id db db1 Hrows1) as [Hm1 Ho1].
  change (machinesOf id (countLoop db)) with (machinesOf id db) in Hms.
  assert (∀ m, m ∈ ms → machineProvider m ∈ clstProviders clst ∧ fullKey (machineKey m)) as Hmsok.
  { intros m Hm. apply Hok. fold id. by rewrite <- Hms. }
  set (j := Join cloudScore ms cms).
  assert (∀ m, m ∈ lonelyLefts j → m ∈ ms) as Hll.
  { intros m Hm. rewrite <- (Join_lefts cloudScore ms cms). apply elem_of_app. by right. }
  destruct (commitTxn_run id (pairs j) (lonelyLefts j) db1 Hwf1) as (db2 & Hcom & Hwf2 & Hm2 & Ho2).
  { rewrite Hm1, <- Hms. apply (Join_lefts cloudScore ms cms). }
  destruct (bootSet_run clst (lonelyLefts j) db2 w) as (b1 & db3 & w1 & Hboot & Hdb3 & Hb0 & Hbr);
    [by eauto|].
  destruct (stopSet_run clst (lonelyRights j) db3 w1) as (b2 & db4 & w2 & Hstop & Hdb4 & Hs0 & Hsr).
  { intros m. by apply (round_lonely clst w ms cms Hcms). }
  assert (dbWF db4 ∧ rows (MachineTable db4) = rows (MachineTable db2)) as [Hwf4 Hrows4].
  { by destruct Hdb3 as [-> | ->], Hdb4 as [-> | ->]. }
  destruct (machines_same id db2 db4 Hrows4) as [Hm4 Ho4].
  pose proof (round_cloud clst w w1 w2 ms cms Hcms Hmsok Hbr Hsr) as Hkeys.
  assert (machineKey <$> machinesOf id db4 ≡ₚ machineKey <$> machinesOf id db) as Hkey4.
  { rewrite Hm4, Hm2, <- Hms. by apply (round_rows clst w). }
  exists db4, w2. split_and!.
  - unfold mbind, M_bind. rewrite Hget. unfold onDb at 1. cbn [fst snd]. rewrite Hsel.
    unfold syncDB. fold j. unfold onDb. cbn [fst snd]. rewrite Hcom, Hboot, Hstop. done.
  - done.
  - done.
  - rewrite Ho4, Ho2, Ho1. done.
  - unfold settled. fold id. by rewrite Hkeys, Hkey4, Hms.
  - intros Hset. unfold settled in Hset. fold id in Hset.
    destruct (round_settled clst w ms cms Hcms) as (Hl0 & Hr0 & Hinst).
    { by rewrite Hcms, Hms. }
    fold j in Hl0, Hr0, Hinst. rewrite (Hs0 Hr0), (Hb0 Hl0). split; [done|].
    rewrite Hm4, Hm2, Hl0, app_nil_r, Hinst, Hcms. done.
Qed.

(** ** The loop *)

Lemma rowsOk_keys clst db db' :
  machineKey <$> machinesOf (clstID clst) db' ≡ₚ machineKey <$> machinesOf (clstID clst) db →
  rowsOk clst db → rowsOk clst db'.
Proof.
  intros Hk Hok m Hm. assert (machineKey m ∈ machineKey <$> machinesOf (clstID clst) db) as Hin.
  { rewrite <- Hk. apply list_elem_of_fmap. eauto. }
  apply list_elem_of_fmap in Hin as (m0 & Heq & Hm0). rewrite Heq.
  change (machineProvider m) with (keyProvider (machineKey m)). rewrite Heq. by apply Hok.
Qed.

Lemma syncLoop_settled n clst db w :
  dbWF db → rowsOk clst db → settled clst db w →
  ∃ db', syncLoop (S n) clst (db, w) = Ok (tt, (db', w)) ∧ dbWF db' ∧
    machineKey <$> machinesOf (clstID clst) db' ≡ₚ machineKey <$> machinesOf (clstID clst) db ∧
    machinesOfOthers (clstID clst) db' ≡ₚ machinesOfOthers (clstID clst) db ∧
    settled clst db' w ∧
    machineInstance <$> machinesOf (clstID clst) db' ≡ₚ cloudInstance <$> allInstances clst w.
Proof.
  revert db. induction n as [|n IH]; intros db Hwf Hok Hset;
    destruct (syncRound_run clst db w Hwf Hok) as (db1 & w1 & Hrun & Hwf1 & Hk1 & Ho1 & Hset1 & Hsame);
    destruct (Hsame Hset) as [-> Hinst]; cbn [syncLoop]; unfold mbind at 1, M_bind at 1; rewrite Hrun.
  - exists db1. split_and!; done.
  - destruct (IH db1 Hwf1 (rowsOk_keys _ _ _ Hk1 Hok) Hset1) as (db2 & Hrun2 & Hwf2 & Hk2 & Ho2 & Hset2 & Hi2).
    exists db2. split_and!; [exact Hrun2|done| | |done|done].
    + by rewrite Hk2.
    + by rewrite Ho2.
Qed.


End Converge.

(** ** A cloud in memory, for the witness *)

Module MemoryCloud.

Definition clouds : Type := string → list CloudMachine.

Definition up (p : string) (m : CloudMachine) : Prop := cmProvider m = p ∧ fullKey (cloudKey m).
Definition launch (m : CloudMachine) : CloudMachine :=
  mkCloud ("i-" ++ cmSize m) "8.8.8.8" "10.0.0.2" (cmSize m) (cmDiskSize m) (cmSSHKeys m)
    (cmProvider m) (cmRegion m).
Fixpoint removeOne (l : list CloudMachine) (m : CloudMachine) : list CloudMachine :=
  match l with
  | [] => []
  | x :: l' => if decide (x = m) then l' else x :: removeOne l' m
  end.

#[global] Instance up_dec p m : Decision (up p m).
Proof. unfold up, fullKey. apply _. Defined.

#[global] Instance memoryCloud : Cloud clouds := {|
  providerGet := λ p w, (Some (base.filter (up p) (w p)), w);
  providerBoot := λ p ms w, (true, λ q, if decide (q = p) then w q ++ (launch <$> ms) else w q);
  providerStop := λ p ms w, (true, λ q, if decide (q = p) then foldl removeOne (w q) ms else w q)
|}.

Lemma removeOne_perm l m : m ∈ l → l ≡ₚ m :: removeOne l m.
Proof.
  induction l as [|x l IH]; intros Hm; [by apply not_elem_of_nil in Hm|]. cbn [removeOne].
  case_decide as Heq; [by subst|]. apply elem_of_cons in Hm as [?|Hm]; [by subst|].
  rewrite (IH Hm) at 1. apply Permutation_swap.
Qed.

Lemma stop_filter p ms rest l :
  base.filter (up p) l ≡ₚ ms ++ rest → base.filter (up p) (foldl removeOne l ms) ≡ₚ rest.
Proof.
  revert l. induction ms as [|m ms IH]; intros l Hl; [done|]. cbn [foldl]. apply IH.
  assert (m ∈ base.filter (up p) l) as [Hup Hm]%list_elem_of_filter by (rewrite Hl; left).
  apply (Permutation_cons_inv (a := m)). rewrite <- filter_cons_True by done.
  by rewrite <- (removeOne_perm l m Hm).
Qed.

#[global] Program Instance memoryLaws : CloudLaws clouds := {|
  instances := λ w p, base.filter (up p) (w p)
|}.
Next Obligation. intros w p m [? _]%list_elem_of_filter. done. Qed.
Next Obligation. done. Qed.
Next Obligation.
  intros p ms w Hms. cbn [providerBoot memoryCloud snd]. split.
  - exists (launch <$> ms). rewrite decide_True, filter_app by done. split.
    + f_equiv. rewrite list_filter_id; [done|].
      intros m (m0 & -> & Hm0)%list_elem_of_fmap. exact (Hms m0 Hm0).
    + by rewrite <- list_fmap_compose.
  - intros q Hq. by rewrite decide_False.
Qed.
Next Obligation.
  intros p ms w. cbn [providerStop memoryCloud snd]. split.
  - intros rest. rewrite decide_True by done. apply stop_filter.
  - intros q Hq. by rewrite decide_False.
Qed.

(** A cluster with two rows on one provider, one of them running, and a stray
    instance of another size. *)
Definition row (i : Z) (cloudID ip : string) : Machine :=
  mkMachine i 1 Worker "Google" "us-east1-b" "g1-small" 32 None cloudID ip ip.
Definition db : Database :=
  setTable (mkTable {[2 := row 2 "" ""; 3 := row 3 "i-3" "8.8.4.4"]} ∅ 0 0)
    (setIdAlloc 3 newDatabase).
Definition clst : cluster := mkClusterObj 1 0 1 {["Google"%string]} false.
Definition w : clouds := λ p,
  if decide (p = "Google"%string) then
    [mkCloud "i-9" "8.8.9.9" "10.0.0.9" "f1-micro" 32 None "Google" "us-east1-b";
     mkCloud "i-3" "8.8.4.4" "8.8.4.4" "g1-small" 32 None "Google" "us-east1-b"]
  else [].

Lemma clusterDemo_wf : dbWF db.
Proof.
  apply (dbWF_setTable (R := Machine)); [apply dbWF_setIdAlloc; [apply newDatabase_wf|done]|].
  apply map_Forall_insert_2; [done|]. by apply map_Forall_singleton.
Qed.

Lemma clusterDemo_rows : rowsOk clst db.
Proof.
  intros m [_ Hm]%list_elem_of_filter. apply elem_of_values in Hm as [i Hm].
  change (rows (MachineTable db)) with
    ({[2 := row 2 "" ""; 3 := row 3 "i-3" "8.8.4.4"]} : gmap Z Machine) in Hm.
  apply lookup_insert_Some in Hm as [[_ <-]|[_ Hm]]; [done|].
  apply lookup_singleton_Some in Hm as [_ <-]. done.
Qed.

End MemoryCloud.

