(* ===== verification/ClusterRun.v ===== *)
(** * cluster: the set of clusters, and a race of [sync]

    Theorems on the loop of [Run] of [src/cluster/cluster.go], which creates and
    stops cluster objects as rows come and go, and on the two transactions of a
    round of [sync]. *)

From stdpp Require Import base gmap list strings.
From Stdlib Require Import ZArith Lia.
From S2P Require Import Prelude Join DbRows Db DbProps Reconcile Engine Provider Cluster.

Local Open Scope Z_scope.

(** ** Triggers *)

Definition trigsWF (db : Database) : Prop :=
  ∀ i t, trigs db !! i = Some t → (i < nextTrig db)%nat.

(** Triggers stay, neither stopped nor restarted, and new ones are new. *)
Definition trigFrame (db db' : Database) : Prop :=
  (∀ i t, trigs db !! i = Some t → ∃ t', trigs db' !! i = Some t' ∧ stopped t' = stopped t) ∧
  (nextTrig db ≤ nextTrig db')%nat ∧ (trigsWF db → trigsWF db').

Definition live (db : Database) (i : nat) : Prop :=
  ∃ t, trigs db !! i = Some t ∧ stopped t = false.

#[global] Instance trigFrame_preorder : PreOrder trigFrame.
Proof.
  split.
  - intros db. split_and!; eauto.
  - intros db1 db2 db3 (H1 & N1 & W1) (H2 & N2 & W2). split_and!; [|lia|auto].
    intros i t Hi. destruct (H1 i t Hi) as (t1 & Ht1 & Hs1).
    destruct (H2 i t1 Ht1) as (t2 & Ht2 & Hs2). exists t2. split; congruence.
Qed.

Lemma live_frame db db' i : trigFrame db db' → live db i → live db' i.
Proof. intros (Hk & _) (t & Ht & Hs). destruct (Hk i t Ht) as (t' & ? & ?). exists t'. split; congruence. Qed.

Lemma alertTable_trigFrame {R} `{Row R, !RowLaws R} db :
  (∀ t ts db', nextTrig (setTrigs ts (setTable t db')) = nextTrig db') →
  trigFrame db (alertTable (R := R) db).
Proof.
  intros Hn. pose proof (alertTable_frame (R := R) nextTrig db Hn) as Hnext.
  unfold trigFrame, trigsWF. rewrite Hnext, (alertTable_trigs db). split_and!; [|lia|].
  - intros i t Hi. apply alert_keeps_trigger. eauto.
  - intros Hwf i t. rewrite alert_lookup. intros (t0 & Ht0 & _)%fmap_Some. eauto.
Qed.

Lemma alertAll_trigFrame db : trigFrame db (alertAll db).
Proof.
  unfold alertAll. do 7 (etransitivity; [|by apply alertTable_trigFrame]). reflexivity.
Qed.

Lemma registerTrigger_same i t db :
  trigs (registerTrigger i t db) = trigs db ∧ nextTrig (registerTrigger i t db) = nextTrig db.
Proof. by destruct t. Qed.

Lemma registerAll_same i tts db :
  trigs (foldl (flip (registerTrigger i)) db tts) = trigs db ∧
  nextTrig (foldl (flip (registerTrigger i)) db tts) = nextTrig db.
Proof.
  revert db. induction tts as [|t tts IH]; intros db; [done|]. cbn [foldl flip].
  destruct (IH (registerTrigger i t db)) as [-> ->]. apply registerTrigger_same.
Qed.

Lemma TriggerTick_run tts db :
  trigsWF db →
  ∃ db', Transact (TriggerTick tts) db = Ok (nextTrig db, db') ∧ trigFrame db db' ∧
    live db' (nextTrig db) ∧ (nextTrig db < nextTrig db')%nat.
Proof.
  intros Hwf. set (i := nextTrig db).
  set (db1 := setNextTrig (S i) (setTrigs (<[i:=mkTrigger false false]> (trigs db)) db)).
  set (db2 := tick i (foldl (flip (registerTrigger i)) db1 tts)).
  destruct (registerAll_same i tts db1) as [Ht Hn].
  assert (trigs db2 = alter (λ t, mkTrigger true (stopped t)) i (trigs db1)) as Ht2
    by (by rewrite <- Ht).
  assert (nextTrig db2 = S i) as Hn2 by exact Hn.
  assert (trigs db !! i = None) as Hi.
  { destruct (trigs db !! i) eqn:Hi; [|done]. apply Hwf in Hi. subst i. lia. }
  assert (trigs db2 !! i = Some (mkTrigger true false)) as Hlive.
  { rewrite Ht2, lookup_alter_eq. cbn. by rewrite lookup_insert_eq. }
  assert (∀ k, k ≠ i → trigs db2 !! k = trigs db !! k) as Hother.
  { intros k Hk. rewrite Ht2, lookup_alter_ne by done. cbn. by rewrite lookup_insert_ne. }
  assert (trigFrame db db2) as Hf.
  { split_and!.
    - intros k t Hk. rewrite Hother by congruence. eauto.
    - rewrite Hn2. subst i. lia.
    - intros _ k t Hk. rewrite Hn2. destruct (decide (k = i)) as [->|Hne]; [lia|].
      rewrite Hother in Hk by done. apply Hwf in Hk. subst i. lia. }
  exists (alertAll db2). pose proof (alertAll_trigFrame db2) as Ha. split_and!.
  - apply Transact_run. done.
  - by etransitivity.
  - eapply live_frame; [exact Ha|]. by exists (mkTrigger true false).
  - destruct Ha as (_ & Hle & _). rewrite Hn2 in Hle. subst i. lia.
Qed.

(** ** Mark and sweep *)

Definition owns (c : cluster) (i : nat) : Prop := i = clstTrigger c ∨ i = clstForeman c.

(** Each cluster is stored under its ID and has live triggers of its own. *)
Record clustersOk (clusters : gmap Z cluster) (db : Database) : Prop := {
  ok_trigs : trigsWF db;
  ok_cluster : ∀ k c, clusters !! k = Some c → clstID c = k ∧ ∀ i, owns c i → live db i;
  ok_owner : ∀ k c k' c' i, clusters !! k = Some c → clusters !! k' = Some c' →
    owns c i → owns c' i → k = k'
}.

Lemma clustersOk_frame clusters db db' :
  trigFrame db db' → clustersOk clusters db → clustersOk clusters db'.
Proof.
  intros Hf [Ht Hc Ho]. split; [by apply Hf| |done].
  intros k c Hk. destruct (Hc k c Hk) as [? Hl]. split; [done|].
  intros i Hi. eapply live_frame; eauto.
Qed.

(** Replacing a cluster by one with the same triggers, or removing it. *)
Lemma clustersOk_mark clusters db k c b :
  clusters !! k = Some c → clustersOk clusters db → clustersOk (<[k := setMark b c]> clusters) db.
Proof.
  intros Hk [Ht Hc Ho]. split; [done| |].
  - intros k' c' [[<- <-]|[_ Hk']]%lookup_insert_Some; [by apply (Hc k c)|by apply Hc].
  - intros k1 c1 k2 c2 i [[<- <-]|[? H1]]%lookup_insert_Some [[<- <-]|[? H2]]%lookup_insert_Some;
      [done| |..]; intros O1 O2; [eapply (Ho k c)|eapply (Ho k1 c1 k c)|eapply Ho]; eauto.
Qed.

Lemma live_lt db i : trigsWF db → live db i → (i < nextTrig db)%nat.
Proof. intros Hwf (t & Ht & _). eauto. Qed.

Section Run.
Context `{MapRange} (providerStart : string → Z → string → DB bool).
(** [Start] of a provider returns, and leaves the triggers of others alone. *)
Hypothesis Hstart : ∀ p id ns db, trigsWF db →
  ∃ ok db', providerStart p id ns db = Ok (ok, db') ∧ trigFrame db db'.

Lemma startProviders_run id ns ps acc db :
  trigsWF db → ∃ acc' db', foldEach (startProvider providerStart id ns) acc ps db = Ok (acc', db') ∧
    trigFrame db db'.
Proof.
  revert acc db. induction ps as [|p ps IH]; intros acc db Hwf; [by exists acc, db|].
  destruct (Hstart p id ns db Hwf) as (ok & db1 & Hrun & Hf).
  destruct (IH (if ok then {[p]} ∪ acc else acc) db1) as (acc' & db' & Hrun' & Hf'); [by apply Hf|].
  assert (startProvider providerStart id ns acc p db = Ok (if ok then {[p]} ∪ acc else acc, db1))
    as Hstep by (unfold startProvider, mbind, M_bind; by rewrite Hrun).
  exists acc', db'. cbn [foldEach]. unfold mbind, M_bind. rewrite Hstep.
  split; [exact Hrun'|by etransitivity].
Qed.

Lemma newCluster_run id ns db :
  trigsWF db →
  ∃ c db', newCluster providerStart id ns db = Ok (c, db') ∧ trigFrame db db' ∧
    clstID c = id ∧ clstMark c = false ∧ ∀ i, owns c i → live db' i ∧ (nextTrig db ≤ i)%nat.
Proof.
  intros Hwf.
  destruct (TriggerTick_run [tMachineTable] db Hwf) as (db1 & Hrun1 & Hf1 & Hl1 & Hn1).
  destruct (TriggerTick_run [tMachineTable; tClusterTable] db1) as (db2 & Hrun2 & Hf2 & Hl2 & Hn2);
    [by apply Hf1|].
  destruct (startProviders_run id ns ["AmazonSpot"; "Google"; "Azure"; "Vagrant"]%string ∅ db2)
    as (acc & db3 & Hrun3 & Hf3); [by apply Hf2, Hf1|].
  eexists _, db3. split_and!.
  - unfold newCluster, mbind, M_bind. rewrite Hrun1, Hrun2, Hrun3. done.
  - by do 2 (etransitivity; [eassumption|]).
  - done.
  - done.
  - intros i [-> | ->]; cbn [clstTrigger clstForeman].
    + split; [|done]. eapply live_frame; [|exact Hl1]. by etransitivity.
    + split; [by eapply live_frame|]. apply Hf1.
Qed.

(** Adding a cluster with new triggers. *)
Lemma clustersOk_add clusters db db' k c :
  clusters !! k = None → clustersOk clusters db → trigFrame db db' → clstID c = k →
  (∀ i, owns c i → live db' i ∧ (nextTrig db ≤ i)%nat) →
  clustersOk (<[k := setMark true c]> clusters) db'.
Proof.
  intros Hnone Hok Hf Hid Hnew. pose proof (clustersOk_frame _ _ _ Hf Hok) as [Ht' Hc' Ho'].
  destruct Hok as [Ht Hc Ho]. split; [done| |].
  - intros k' c' [[<- <-]|[_ Hk']]%lookup_insert_Some; [|by apply Hc'].
    split; [done|]. intros i Hi. by apply Hnew.
  - assert (∀ k' c' i, clusters !! k' = Some c' → owns c' i → owns c i → False) as Hdis.
    { intros k' c' i Hk' Hi [_ Hge]%Hnew. destruct (Hc k' c' Hk') as [_ Hl].
      pose proof (live_lt db i Ht (Hl i Hi)). lia. }
    intros k1 c1 k2 c2 i [[<- <-]|[? H1]]%lookup_insert_Some [[<- <-]|[? H2]]%lookup_insert_Some;
      [done| |..]; intros O1 O2; [destruct (Hdis k2 c2 i)|destruct (Hdis k1 c1 i)|eapply Ho]; eauto.
Qed.

Definition rowIDs (rs : list Cluster) : list Z := clusterID <$> rs.

(** The first loop: the clusters of the rows are there and marked. *)
Lemma mark_run rs clusters db :
  clustersOk clusters db →
  ∃ marked db', foldEach (markStep providerStart) clusters rs db = Ok (marked, db') ∧
    trigFrame db db' ∧ clustersOk marked db' ∧
    (∀ k c, clusters !! k = Some c → ∃ b, marked !! k = Some (setMark b c) ∧
       (b = true ↔ k ∈ rowIDs rs ∨ clstMark c = true)) ∧
    (∀ k, clusters !! k = None → k ∈ rowIDs rs → ∃ c, marked !! k = Some c ∧ clstMark c = true) ∧
    (∀ k, clusters !! k = None → k ∉ rowIDs rs → marked !! k = None).
Proof.
  revert clusters db. induction rs as [|r rs IH]; intros clusters db Hok.
  { exists clusters, db. split_and!; [done|reflexivity|done| |set_solver|done].
    intros k c Hk. exists (clstMark c). split; [by destruct c|]. set_solver. }
  assert (∃ c db1, markStep providerStart clusters r db =
            Ok (<[clusterID r := setMark true c]> clusters, db1) ∧ trigFrame db db1 ∧
            clustersOk (<[clusterID r := setMark true c]> clusters) db1 ∧
            (∀ c0, clusters !! clusterID r = Some c0 → c = c0)) as (c & db1 & Hrun & Hf & Hok1 & Hc).
  { unfold markStep. destruct (clusters !! clusterID r) as [c|] eqn:Hk.
    - exists c, db. split_and!; [done|reflexivity|by apply clustersOk_mark|congruence].
    - destruct (newCluster_run (clusterID r) (clusterNamespace r) db) as
        (c & db1 & Hrun & Hf & Hid & _ & Hnew); [by apply Hok|].
      exists c, db1. unfold mbind, M_bind. rewrite Hrun.
      split_and!; [done|done|by eapply clustersOk_add|done]. }
  destruct (IH _ db1 Hok1) as (marked & db' & Hrun' & Hf' & Hok' & Hold & Hnew & Hnone).
  exists marked, db'. cbn [foldEach]. unfold mbind, M_bind. rewrite Hrun. unfold rowIDs in *.
  rewrite fmap_cons. split_and!; [done|by etransitivity|done|..].
  - intros k c0 Hk. destruct (decide (clusterID r = k)) as [<-|Hne].
    + destruct (Hold (clusterID r) (setMark true c)) as (b & Hb & Hbm); [apply lookup_insert_eq|].
      rewrite (Hc c0 Hk) in Hb, Hbm. exists b. split; [done|]. cbn [clstMark setMark] in Hbm.
      split; [intros _; left; left|intros _; apply Hbm; by right].
    + destruct (Hold k c0) as (b & Hb & Hbm); [by rewrite lookup_insert_ne|].
      exists b. split; [done|]. rewrite Hbm, elem_of_cons. naive_solver.
  - intros k Hk Hin. destruct (decide (clusterID r = k)) as [<-|Hne].
    + destruct (Hold (clusterID r) (setMark true c)) as (b & Hb & Hbm); [apply lookup_insert_eq|].
      eexists. split; [exact Hb|]. cbn [clstMark setMark]. apply Hbm. by right.
    + apply Hnew; [by rewrite lookup_insert_ne|]. apply elem_of_cons in Hin as [?|?]; [congruence|done].
  - intros k Hk [Hne Hin]%not_elem_of_cons. apply Hnone; [|done]. by rewrite lookup_insert_ne.
Qed.

(** The second loop: exactly the unmarked clusters are stopped and removed. *)
Definition swept (entries : list (Z * cluster)) (i : nat) : Prop :=
  ∃ k c, (k, c) ∈ entries ∧ clstMark c = false ∧ owns c i.

(** From [db] to [db'], exactly the triggers of [P] were stopped. *)
Definition stops (P : nat → Prop) (db db' : Database) : Prop :=
  nextTrig db' = nextTrig db ∧ (∀ i, trigs db !! i = None → trigs db' !! i = None) ∧
  ∀ i t, trigs db !! i = Some t →
    ∃ t', trigs db' !! i = Some t' ∧ (stopped t' = true ↔ stopped t = true ∨ P i).

Lemma stops_trans (P Q PQ : nat → Prop) db1 db2 db3 :
  (∀ i, PQ i ↔ P i ∨ Q i) → stops P db1 db2 → stops Q db2 db3 → stops PQ db1 db3.
Proof.
  intros HPQ (N1 & E1 & S1) (N2 & E2 & S2). split_and!; [congruence|auto|].
  intros i t Hi. destruct (S1 i t Hi) as (t1 & H1 & I1). destruct (S2 i t1 H1) as (t2 & H2 & I2).
  exists t2. split; [done|]. rewrite HPQ. tauto.
Qed.

Lemma Stop_stops j db : stops (λ i, i = j) db (Stop j db).
Proof.
  unfold Stop, alterTrigger. split_and!; [done|..]; intros i; cbn [trigs setTrigs].
  - intros Hi. destruct (decide (i = j)) as [->|Hne]; [by rewrite lookup_alter_eq, Hi|].
    by rewrite lookup_alter_ne.
  - intros t Hi. destruct (decide (i = j)) as [->|Hne].
    + rewrite lookup_alter_eq, Hi. eexists. split; [done|]. simpl. tauto.
    + rewrite lookup_alter_ne by done. eexists. split; [done|]. tauto.
Qed.

Lemma sweep_run entries m db :
  NoDup entries.*1 →
  ∃ m' db', foldEach sweepStep m entries db = Ok (m', db') ∧ stops (swept entries) db db' ∧
    (∀ k c, (k, c) ∈ entries → m' !! k = if clstMark c then Some (setMark false c) else None) ∧
    (∀ k, k ∉ entries.*1 → m' !! k = m !! k).
Proof.
  revert m db. induction entries as [|[k c] entries IH]; intros m db Hnd.
  { exists m, db. split_and!; [done| | |done].
    - split_and!; [done..|]. intros i t Hi. exists t. split; [done|].
      split; [by left|]. intros [?|(k & c & Hin & _)]; [done|]. by apply not_elem_of_nil in Hin.
    - intros k c Hin. by apply not_elem_of_nil in Hin. }
  rewrite fmap_cons in *. apply NoDup_cons in Hnd as [Hk Hnd].
  set (m1 := if clstMark c then <[k := setMark false c]> m else delete k m).
  assert (∃ db1, sweepStep m (k, c) db = Ok (m1, db1) ∧
            stops (λ i, clstMark c = false ∧ owns c i) db db1) as (db1 & Hrun & Hst).
  { unfold sweepStep. subst m1. cbn [fst snd]. destruct (clstMark c).
    - exists db. split; [done|]. split_and!; [done..|]. intros i t Hi. exists t. naive_solver.
    - eexists. split; [done|]. eapply stops_trans; [|apply Stop_stops..].
      intros i. simpl. unfold owns. tauto. }
  destruct (IH m1 db1 Hnd) as (m' & db' & Hrun' & Hst' & Hin & Hout).
  exists m', db'. cbn [foldEach]. unfold mbind, M_bind. rewrite Hrun. split_and!; [done|..].
  - eapply stops_trans; [|exact Hst|exact Hst']. intros i. split.
    + intros (k' & c' & [[= -> ->]|Hin']%elem_of_cons & Hm & Ho); [by left|right].
      exists k', c'. done.
    + intros [[Hm Ho]|(k' & c' & Hin' & Hm & Ho)].
      * exists k, c. split_and!; [left|done|done].
      * exists k', c'. split_and!; [by right|done|done].
  - intros k' c' [[= -> ->]|Hin']%elem_of_cons; [|by apply Hin].
    rewrite Hout by done. subst m1. destruct (clstMark c);
      [apply lookup_insert_eq|apply lookup_delete_eq].
  - intros k' [Hne Hk']%not_elem_of_cons. rewrite Hout by done. subst m1.
    cbn [fst] in Hne. destruct (clstMark c); [by rewrite lookup_insert_ne|by rewrite lookup_delete_ne].
Qed.

(** What is left of a marked map, and that it is well formed again. *)
Section Sweep.
Context (marked cl : gmap Z cluster) (entries : list (Z * cluster)) (db db' : Database).
Hypothesis Hent : ∀ k c, (k, c) ∈ entries ↔ marked !! k = Some c.
Hypothesis Hin : ∀ k c, (k, c) ∈ entries →
  cl !! k = if clstMark c then Some (setMark false c) else None.
Hypothesis Hout : ∀ k, k ∉ entries.*1 → cl !! k = marked !! k.
Hypothesis Hst : stops (swept entries) db db'.

Lemma swept_lookup k c' :
  cl !! k = Some c' ↔ ∃ c, marked !! k = Some c ∧ clstMark c = true ∧ c' = setMark false c.
Proof.
  destruct (marked !! k) as [c|] eqn:Hk.
  - rewrite (Hin k c) by (by apply Hent). destruct (clstMark c) eqn:Hm; split.
    + intros [= <-]. eauto.
    + intros (c0 & [= <-] & _ & ->). done.
    + done.
    + intros (c0 & [= <-] & ? & _). congruence.
  - rewrite Hout; [rewrite Hk; split; [done|by intros (c0 & ? & _)]|]. intros ([k' c] & -> & Hc)%list_elem_of_fmap.
    apply Hent in Hc. simpl in Hk. congruence.
Qed.

Lemma swept_ok : clustersOk marked db → clustersOk cl db'.
Proof.
  destruct Hst as (Hn & Hno & Hs). intros [Ht Hc Ho]. split.
  - intros i t Hi. rewrite Hn. destruct (trigs db !! i) as [t0|] eqn:Hi0; [eauto|].
    apply Hno in Hi0. congruence.
  - intros k c' (c & Hk & Hm & ->)%swept_lookup. destruct (Hc k c Hk) as [Hid Hl].
    split; [done|]. intros i Hi. destruct (Hl i Hi) as (t & Hti & Hts).
    destruct (Hs i t Hti) as (t' & Ht' & Hiff). exists t'. split; [done|].
    apply not_true_iff_false. rewrite Hiff. intros [?|(k2 & c2 & H2%Hent & Hm2 & Ho2)]; [congruence|].
    assert (k = k2) as <- by (eapply (Ho k c k2 c2 i); eauto). congruence.
  - intros k1 c1 k2 c2 i (c & Hk & _ & ->)%swept_lookup (c3 & Hk3 & _ & ->)%swept_lookup.
    by apply (Ho k1 c k2 c3 i).
Qed.

Lemma swept_stopped k c i :
  clustersOk marked db → marked !! k = Some c → clstMark c = false → owns c i →
  isStopped (trigs db') i = true.
Proof.
  intros [_ Hc _] Hk Hm Hi. destruct Hst as (_ & _ & Hs). destruct (Hc k c Hk) as [_ Hl].
  destruct (Hl i Hi) as (t & Hti & _). destruct (Hs i t Hti) as (t' & Ht' & Hiff).
  unfold isStopped. rewrite Ht'. apply Hiff. right. exists k, c. split_and!; [by apply Hent|done|done].
Qed.

End Sweep.

(** C30: The set of clusters tracks the table: an iteration of [Run] returns, and
    afterwards there is exactly one cluster object per row of the cluster table; the
    objects of rows that stay are the old ones, those of rows that are gone have
    both their triggers stopped, and every object that is left has live triggers of
    its own, so that the next iteration can be run. *)
Theorem runClusters_tracks (clusters : gmap Z cluster) (db : Database) :
  clustersOk clusters db → map_Forall (λ _ c, clstMark c = false) clusters →
  let ids := rowIDs (map_to_list (rows (ClusterTable db))).*2 in
  ∃ clusters' db', runClusters providerStart clusters db = Ok (clusters', db') ∧
    (∀ k, is_Some (clusters' !! k) ↔ k ∈ ids) ∧
    (∀ k c, clusters !! k = Some c → k ∈ ids → clusters' !! k = Some c) ∧
    (∀ k c i, clusters !! k = Some c → k ∉ ids → owns c i → isStopped (trigs db') i = true) ∧
    clustersOk clusters' db' ∧ map_Forall (λ _ c, clstMark c = false) clusters'.
Proof.
  intros Hok Hunm ids.
  destruct (SelectFrom (R := Cluster) None db) as [[rs db0]| | |] eqn:Hs; [|discriminate Hs..].
  destruct (SelectFrom_Ok _ _ _ _ Hs) as [-> Hsel]. rewrite list_filter_id in Hsel by done.
  set (db1 := alertAll (countLoop db)).
  assert (trigFrame db db1) as Hf1 by (exact (alertAll_trigFrame (countLoop db))).
  pose proof (clustersOk_frame _ _ _ Hf1 Hok) as Hok1.
  destruct (mark_run rs clusters db1 Hok1) as (marked & db2 & Hrun2 & Hf2 & Hok2 & Hold & Hnew & Hnone).
  assert (clustersOk marked (countLoop db2)) as Hok3.
  { apply (clustersOk_frame marked db2); [change (trigFrame db2 db2); reflexivity|done]. }
  set (entries := rangeOrder (loops db2) marked).
  assert (∀ k c, (k, c) ∈ entries ↔ marked !! k = Some c) as Hent by (intros; apply elem_of_range).
  destruct (sweep_run entries marked (countLoop db2)) as (cl & db3 & Hrun3 & Hst & Hin & Hout).
  { subst entries. rewrite rangeOrder_perm. apply NoDup_fst_map_to_list. }
  assert (∀ k, k ∈ rowIDs rs ↔ k ∈ ids) as Hids by (intros k; subst ids; unfold rowIDs; by rewrite Hsel).
  pose proof (swept_lookup marked cl entries Hent Hin Hout) as Hcl.
  exists cl, db3. split_and!.
  - unfold runClusters, mbind at 1, M_bind at 1. rewrite (Transact_run _ _ _ _ Hs). fold db1.
    unfold mbind at 1, M_bind at 1. rewrite Hrun2. exact Hrun3.
  - intros k. rewrite <- Hids. destruct (clusters !! k) as [c|] eqn:Hk.
    + destruct (Hold k c Hk) as (b & Hb & Hbm). rewrite (Hunm k c Hk) in Hbm. split.
      * intros (c' & (c0 & Hc0 & Hm0 & _)%Hcl). rewrite Hb in Hc0. injection Hc0 as <-.
        apply Hbm in Hm0 as [?|?]; done.
      * intros Hin'. eexists. apply Hcl. exists (setMark b c). split_and!; [done| |done].
        apply Hbm. by left.
    + split.
      * intros (c' & (c0 & Hc0 & _)%Hcl). destruct (decide (k ∈ rowIDs rs)) as [|Hni]; [done|].
        by rewrite (Hnone k Hk Hni) in Hc0.
      * intros (c0 & Hc0 & Hm0)%(Hnew k Hk). eexists. apply Hcl. eauto.
  - intros k c Hk Hkid%Hids. destruct (Hold k c Hk) as (b & Hb & Hbm). apply Hcl.
    exists (setMark b c). split_and!; [done|apply Hbm; by left|].
    specialize (Hunm k c Hk). destruct c. simpl in *. by subst.
  - intros k c i Hk Hkid Hi. destruct (Hold k c Hk) as (b & Hb & Hbm).
    apply (swept_stopped marked entries (countLoop db2) db3 Hent Hst k (setMark b c) i Hok3 Hb);
      [|done].
    rewrite (Hunm k c Hk) in Hbm. destruct b; [|done].
    destruct Hkid. apply Hids. by destruct (proj1 Hbm eq_refl).
  - exact (swept_ok marked cl entries (countLoop db2) db3 Hent Hin Hout Hst Hok3).
  - intros k c (c0 & _ & _ & ->)%Hcl. done.
Qed.

End Run.

(** ** The two transactions of [sync] *)

Lemma commits_missing (R : Type) (HR : Row R) (HL : RowLaws R) (us : list R) u db :
  u ∈ us → rows (getTable db) !! getID u = None →
  (∀ i x, rows (getTable db) !! i = Some x → getID x = i) →
  forEach Commit us db = Panic "Type Error".
Proof.
  revert db. induction us as [|v us IH]; intros db Hin Hno Hwf; [by apply not_elem_of_nil in Hin|].
  cbn [forEach]. unfold mbind, M_bind.
  destruct (rows (getTable db) !! getID v) as [old|] eqn:Hv; cycle 1.
  { unfold Commit. by rewrite Hv. }
  destruct (Commit_total v db) as [db1 Hc]; [eauto|]. rewrite Hc.
  destruct (Commit_Ok _ _ _ Hc) as [_ Hrows].
  apply elem_of_cons in Hin as [->|Hin]; [congruence|]. apply (IH db1 Hin); rewrite Hrows.
  - rewrite lookup_insert_ne by congruence. done.
  - intros i x [[<- <-]|[_ Hx]]%lookup_insert_Some; [done|by apply Hwf].
Qed.

(** C32: [sync] selects the machines in one transaction and commits them in
    another. If a transaction in between, such as the policy's, removes one of the
    machines that [sync] matched with an instance, the second transaction panics. *)
Theorem sync_commit_race (ps : list (Machine * CloudMachine)) (m : Machine) (cm : CloudMachine)
    (db db1 : Database) :
  dbWF db → (m, cm) ∈ ps → Transact (Remove m) db = Ok (tt, db1) →
  Transact (commitTxn ps) db1 = Panic "Type Error".
Proof.
  intros Hwf Hin (dbm & Hrem & ->)%Transact_Ok.
  destruct (Remove_Ok m db dbm Hrem) as [Hrows _]. destruct (Remove_wf m db dbm Hwf Hrem) as [Hwfm _].
  assert (rows (getTable (R := Machine) (alertAll dbm)) = delete (machineID m) (rows (MachineTable db)))
    as Hr by (rewrite alertAll_rows; exact Hrows).
  unfold Transact, mbind, M_bind, commitTxn. rewrite forEach_fmap.
  rewrite (commits_missing Machine _ _ _ (updateFromCloud m cm)); [done|..].
  - apply list_elem_of_fmap. by exists (m, cm).
  - rewrite Hr. apply lookup_delete_eq.
  - intros i x Hx. assert (tableWF (idAlloc dbm) (getTable (R := Machine) dbm)) as Ht
      by (by apply dbWF_getTable).
    rewrite alertAll_rows in Hx. by apply (Ht i x).
Qed.

Lemma sync_commit_race_witness :
  let m := mkMachine 1 1 Worker "Google" "us-east1-b" "g1-small" 32 None "" "" "" in
  let cm := mkCloud "i-1" "8.8.8.8" "10.0.0.1" "g1-small" 32 None "Google" "us-east1-b" in
  let db := setTable (mkTable {[1 := m]} ∅ 0 0) (setIdAlloc 1 newDatabase) in
  0 ≤ cloudScore m cm ∧
  ∃ db1, Transact (Remove m) db = Ok (tt, db1) ∧
    Transact (commitTxn [(m, cm)]) db1 = Panic "Type Error".
Proof.
  intros m cm db. split; [done|]. eexists. split; [reflexivity|].
  apply (sync_commit_race [(m, cm)] m cm db).
  - apply (dbWF_setTable (R := Machine)); [apply dbWF_setIdAlloc; [apply newDatabase_wf|done]|].
    by apply map_Forall_singleton.
  - left.
  - reflexivity.
Defined.

Lemma runClusters_tracks_witness :
  let db := setTable (mkTable {[7 := mkCluster 7 "ns" "" None]} ∅ 0 0) (setIdAlloc 7
              (setNextTrig 2 (setTrigs {[0%nat := mkTrigger false false; 1%nat := mkTrigger false false]}
                 newDatabase))) in
  let old := mkClusterObj 5 0 1 ∅ false in
  ∃ clusters' db',
    @runClusters mapToListRange (λ _ _ _, mret true) {[5 := old]} db = Ok (clusters', db') ∧
    is_Some (clusters' !! 7) ∧ isStopped (trigs db') 0%nat = true.
Proof.
  intros db old.
  destruct (@runClusters_tracks mapToListRange (λ _ _ _, mret true)) with (clusters := {[5 := old]} : gmap Z cluster)
    (db := db) as (cl & db' & Hrun & Hdom & _ & Hstop & _).
  - intros p id ns db0 Hwf. exists true, db0. split; [reflexivity|reflexivity].
  - split.
    + intros i t Hi. change (trigs db) with
        ({[0%nat := mkTrigger false false; 1%nat := mkTrigger false false]} : gmap nat Trigger) in Hi.
      apply lookup_insert_Some in Hi as [[<- _]|[_ Hi]]; [simpl; lia|].
      apply lookup_singleton_Some in Hi as [<- _]. simpl; lia.
    + intros k c Hk. apply lookup_singleton_Some in Hk as [<- <-]. split; [reflexivity|].
      intros i [-> | ->]; exists (mkTrigger false false); split; reflexivity.
    + intros k c k' c' i Hk Hk' _ _. apply lookup_singleton_Some in Hk as [<- _].
      apply lookup_singleton_Some in Hk' as [<- _]. reflexivity.
  - by apply map_Forall_singleton.
  - exists cl, db'. split; [exact Hrun|]. split.
    + apply Hdom. vm_compute. left.
    + apply (Hstop 5 old 0%nat); [reflexivity| |by left].
      apply (bool_decide_unpack _). vm_compute. exact I.
Defined.
