(* ===== verification/Foreman.v ===== *)
(** * cluster/foreman: the controller's view of its minions

    Model of [src/cluster/foreman.go]. The foreman keeps a map of minions by public
    address; the messages it exchanges go to a network that is an oracle: what a
    call answers may depend on how many calls were made before. What the foreman
    sends is recorded in a trace. [forEachMinion] runs one goroutine per minion and
    waits for all; each works on its own minion and client, so that running them one
    after the other, in an unknown order, gives the same states. *)

From stdpp Require Import base gmap list strings.
From Stdlib Require Import ZArith Lia.
From S2P Require Import Prelude Join DbRows Db DbProps Reconcile Engine Provider Cluster.

Local Open Scope Z_scope.

(** ** Data *)

(** [pb.MinionConfig]. *)
Record pbConfig : Type := mkPb {
  pbID : string;
  pbRoleOf : pbRole;
  pbPrivateIP : string;
  pbSpec : string
}.
#[global] Instance pbConfig_eq_dec : EqDecision pbConfig.
Proof. solve_decision. Defined.

Definition zeroConfig : pbConfig := mkPb "" MinionConfig_NONE "" "".

Record minion : Type := mkMinionObj {
  mnConnected : bool;
  mnMachine : Machine;
  mnConfig : pbConfig;
  mnMark : bool
}.

Inductive message : Type :=
| SetMinion (ip : string) (cfg : pbConfig)
| BootEtcdMsg (ip : string) (members : list string)
| CloseClient (ip : string).

Record net : Type := mkNet { calls : nat; trace : list message }.

(** What the network answers to the [n]-th call. *)
Class Network : Type := {
  dials : nat → string → bool;
  answers : nat → string → option pbConfig;
  accepts : nat → string → bool;
  etcdBoots : nat → string → bool
}.

Section Foreman.
Context `{MapRange} `{Network}.

Abbreviation F := (M Empty_set (Database * net)).

Definition call {A} (f : nat → A) (sent : list message) : F A := λ s,
  Ok (f (calls s.2), (s.1, mkNet (S (calls s.2)) (trace s.2 ++ sent))).

Definition newClient (ip : string) : F bool := call (λ n, dials n ip) [].
Definition getMinion (ip : string) : F (option pbConfig) := call (λ n, answers n ip) [].
Definition setMinion (ip : string) (cfg : pbConfig) : F bool :=
  call (λ n, accepts n ip) [SetMinion ip cfg].
Definition bootEtcd (ip : string) (members : list string) : F bool :=
  call (λ n, etcdBoots n ip) [BootEtcdMsg ip members].
Definition Close (ip : string) : F unit := call (λ _, tt) [CloseClient ip].

(** ** The map of minions *)

Definition addMinion (minions : gmap string minion) (m : Machine) : F (gmap string minion) :=
  let ip := machinePublicIP m in
  match minions !! ip with
  | Some min => mret (<[ip := mkMinionObj (mnConnected min) m (mnConfig min) true]> minions)
  | None =>
      ok ← newClient ip;
      mret (if (ok : bool) then <[ip := mkMinionObj false m zeroConfig true]> minions else minions)
  end.

Definition sweepMinion (minions : gmap string minion) (entry : string * minion)
    : F (gmap string minion) :=
  let '(k, min) := entry in
  if mnMark min
  then mret (<[k := mkMinionObj (mnConnected min) (mnMachine min) (mnConfig min) false]> minions)
  else _ ← Close k; mret (delete k minions).

Definition updateMinionMap (machines : list Machine) (minions : gmap string minion)
    : F (gmap string minion) :=
  marked ← foldEach addMinion minions machines;
  entries ← rangeOf marked;
  foldEach sweepMinion marked entries.

Definition forEachStep (do : string → minion → F minion) (minions : gmap string minion)
    (entry : string * minion) : F (gmap string minion) :=
  m ← do entry.1 entry.2; mret (<[entry.1 := m]> minions).

Definition forEachMinion (do : string → minion → F minion) (minions : gmap string minion)
    : F (gmap string minion) :=
  entries ← rangeOf minions; foldEach (forEachStep do) minions entries.

(** ** Starting and running *)

(** The machines of the cluster that are booted. *)
Definition booted (id : Z) (m : Machine) : bool :=
  inCluster id m && negb (bool_decide (machinePublicIP m = ""%string)) &&
  negb (bool_decide (machinePrivateIP m = ""%string)) &&
  negb (bool_decide (machineCloudID m = ""%string)).

(** Ask a minion for its configuration. *)
Definition queryMinion (ip : string) (m : minion) : F minion :=
  cfg ← getMinion ip;
  mret (mkMinionObj (bool_decide (is_Some cfg)) (mnMachine m) (default zeroConfig cfg) (mnMark m)).

Definition setRole (r : Role) (m : Machine) : Machine :=
  mkMachine (machineID m) (machineClusterID m) r (machineProvider m) (machineRegion m)
    (machineSize m) (machineDiskSize m) (machineSSHKeys m) (machineCloudID m) (machinePublicIP m)
    (machinePrivateIP m).

(** The role that a minion reports is taken over, when the foreman starts. *)
Definition recoverRole (minions : gmap string minion) (entry : string * minion)
    : F (gmap string minion) :=
  let '(ip, m) := entry in
  if mnConnected m then
    let machine := setRole (PBToRole (pbRoleOf (mnConfig m))) (mnMachine m) in
    _ ← onDb (Commit machine);
    mret (<[ip := mkMinionObj true machine (mnConfig m) (mnMark m)]> minions)
  else mret minions.

Definition init (id : Z) (minions : gmap string minion) : F (gmap string minion) :=
  machines ← onDb (SelectFrom (R := Machine) (Some (booted id)));
  minions ← updateMinionMap machines minions;
  minions ← forEachMinion queryMinion minions;
  entries ← rangeOf minions;
  minions ← foldEach recoverRole minions entries;
  _ ← onDb (modifyS alertAll);
  mret minions.

Definition wantedConfig (spec : string) (m : Machine) : pbConfig :=
  mkPb (machineCloudID m) (RoleToPB (machineRole m)) (machinePrivateIP m) spec.

Definition configure (spec : string) (etcdIPs : list string) (ip : string) (m : minion) : F minion :=
  if negb (mnConnected m) then mret m
  else
    let newConfig := wantedConfig spec (mnMachine m) in
    if decide (newConfig = mnConfig m) then mret m
    else
      ok ← setMinion ip newConfig;
      if (ok : bool) then _ ← bootEtcd ip etcdIPs; mret m else mret m.

(** The transaction of [runOnce]. *)
Definition specTxn (id : Z) : DB (list Machine * string) :=
  machines ← SelectFrom (R := Machine) (Some (booted id));
  clusters ← SelectFrom (R := Cluster) (Some (λ c, clusterID c =? id));
  mret (machines, match clusters with [c] => clusterSpec c | _ => ""%string end).

Definition isEtcd (m : minion) : option string :=
  if decide (machineRole (mnMachine m) = Master ∧ machinePrivateIP (mnMachine m) ≠ ""%string)
  then Some (machinePrivateIP (mnMachine m)) else None.

Definition runOnce (id : Z) (minions : gmap string minion) : F (gmap string minion) :=
  '(machines, spec) ← onDb (Transact (specTxn id));
  minions ← updateMinionMap machines minions;
  minions ← forEachMinion queryMinion minions;
  connected ← rangeOf minions;
  if existsb (λ e, mnConnected e.2) connected then
    entries ← rangeOf minions;
    forEachMinion (configure spec (omap (λ e, isEtcd e.2) entries)) minions
  else mret minions.

End Foreman.
