(* ===== verification/ForemanProps.v ===== *)
(** * cluster/foreman: what the foreman sends

    Theorems on [Foreman]: the map of minions follows the rows, and [runOnce] sends
    each reachable minion the configuration of its row. *)

From stdpp Require Import base gmap list strings.
From Stdlib Require Import ZArith Lia.
From S2P Require Import Prelude Join DbRows Db DbProps Reconcile Engine Provider Cluster Foreman DslAst Dsl MinionEngine.

Local Open Scope Z_scope.

(** The message that [GetMinionConfig] of a minion answers with: it sets every field
    but the specification. *)
Definition configReply (cfg : minionConfig) : pbConfig :=
  mkPb (cfgID cfg) (RoleToPB (cfgRole cfg)) (cfgPrivateIP cfg) "".

(** Only the counter of map loops changed. *)
Definition loopsOnly (db db' : Database) : Prop := ∃ n, db' = Nat.iter n countLoop db.

#[global] Instance loopsOnly_preorder : PreOrder loopsOnly.
Proof.
  split; [by exists 0%nat|]. intros x y z [n ->] [m ->]. exists (m + n)%nat. symmetry. apply Nat.iter_add.
Qed.

Lemma loopsOnly_step db : loopsOnly db (countLoop db).
Proof. by exists 1%nat. Qed.

(** The messages sent between two states satisfy [Q]; the database is untouched. *)
Definition grows (Q : message → Prop) (s s' : Database * net) : Prop :=
  loopsOnly s.1 s'.1 ∧ ∃ sent, trace s'.2 = trace s.2 ++ sent ∧ Forall Q sent.

#[global] Instance grows_preorder Q : PreOrder (grows Q).
Proof.
  split.
  - intros s. split; [reflexivity|]. exists []. by rewrite app_nil_r.
  - intros s1 s2 s3 [H1 (l1 & E1 & Q1)] [H2 (l2 & E2 & Q2)]. split; [by etransitivity|].
    exists (l1 ++ l2). split; [by rewrite E2, E1, (assoc (++))|]. by apply Forall_app.
Qed.

Lemma grows_weaken (Q Q' : message → Prop) s s' :
  (∀ msg, Q msg → Q' msg) → grows Q s s' → grows Q' s s'.
Proof.
  intros HQ [Hd (l & E & Hl)]. split; [done|]. exists l. split; [done|].
  eapply Forall_impl; [exact Hl|exact HQ].
Qed.

(** The message was sent between the two states. *)
Definition sends (msg : message) (s s' : Database * net) : Prop :=
  ∃ sent, trace s'.2 = trace s.2 ++ sent ∧ msg ∈ sent.

Lemma sends_within msg Q Q' s s1 s2 s' :
  grows Q s s1 → sends msg s1 s2 → grows Q' s2 s' → sends msg s s'.
Proof.
  intros [_ (l1 & E1 & _)] (l & E & Hm) [_ (l2 & E2 & _)]. exists (l1 ++ l ++ l2).
  rewrite E2, E, E1, !(assoc (++)). split; [done|]. set_solver.
Qed.

Lemma sends_justified msg Q s s' : grows Q s s' → sends msg s s' → Q msg.
Proof.
  intros [_ (l & E & HQ)] (l' & E' & Hm). rewrite E' in E. apply app_inj_1 in E as [_ ->]; [|done].
  by apply (proj1 (Forall_forall _ _) HQ).
Qed.

Section ForemanRuns.
Context `{MapRange} `{Network}.

Lemma rangeOf_run {V} (m : gmap string V) (s : Database * net) :
  rangeOf m s = Ok (rangeOrder (loops s.1) m, (countLoop s.1, s.2)).
Proof. done. Qed.

Lemma rangeOf_grows Q (s : Database * net) : grows Q s (countLoop s.1, s.2).
Proof. split; [apply loopsOnly_step|]. exists []. by rewrite app_nil_r. Qed.

(** Loops over the entries of the map of minions. *)
Lemma forMinions_run Q (P : string → minion → option minion → Database * net → Database * net → Prop)
    (step : gmap string minion → string * minion → M Empty_set (Database * net) (gmap string minion))
    (minions : gmap string minion) s :
  (∀ m k v s, minions !! k = Some v →
     ∃ o s', step m (k, v) s = Ok (partial_alter (λ _, o) k m, s') ∧ P k v o s s' ∧ grows Q s s') →
  ∃ minions' s', (entries ← rangeOf minions; foldEach step minions entries) s = Ok (minions', s') ∧
    grows Q s s' ∧ (∀ k, minions !! k = None → minions' !! k = None) ∧
    (∀ k v, minions !! k = Some v → ∃ s1 s2, grows Q s s1 ∧ P k v (minions' !! k) s1 s2 ∧ grows Q s2 s').
Proof.
  intros Hstep. set (entries := rangeOrder (loops s.1) minions).
  assert (∀ k v, (k, v) ∈ entries ↔ minions !! k = Some v) as Hent by (intros; apply elem_of_range).
  destruct (foldEntries_run step (grows Q) P entries minions (countLoop s.1, s.2))
    as (m' & s' & Hrun & Hg & Hout & Hin).
  { intros m k v s0 Hk. by apply Hstep, Hent. }
  { subst entries. rewrite rangeOrder_perm. apply NoDup_fst_map_to_list. }
  exists m', s'. split_and!.
  - unfold mbind, M_bind. rewrite rangeOf_run. fold entries. exact Hrun.
  - etransitivity; [apply rangeOf_grows|exact Hg].
  - intros k Hk. rewrite Hout; [done|]. intros ([k' v] & -> & Hv%Hent)%list_elem_of_fmap.
    simpl in Hk. congruence.
  - intros k v Hk%Hent. destruct (Hin k v Hk) as (s1 & s2 & HP & Hg1 & _ & Hg2).
    exists s1, s2. split_and!; [|done|done]. etransitivity; [apply rangeOf_grows|done].
Qed.

(** ** The map follows the rows *)

Definition ipsOf (machines : list Machine) : list string := machinePublicIP <$> machines.

(** What the first loop of [updateMinionMap] does to the entry of an address. *)
Definition added (machines : list Machine) (ip : string) (o o' : option minion) : Prop :=
  (o' = o ∧ (ip ∈ ipsOf machines → o = None)) ∨
  (∃ m c cfg, o' = Some (mkMinionObj c m cfg true) ∧ m ∈ machines ∧ machinePublicIP m = ip ∧
     match o with
     | Some old => c = mnConnected old ∧ cfg = mnConfig old
     | None => c = false ∧ cfg = zeroConfig
     end).

Lemma added_cons m ms ip o o1 o' : added [m] ip o o1 → added ms ip o1 o' → added (m :: ms) ip o o'.
Proof.
  unfold added, ipsOf. rewrite !fmap_cons, fmap_nil.
  intros [[-> H1]|(m1 & c1 & cfg1 & -> & Hm1 & Hip & Ho)] [[-> H2]|(m2 & c2 & cfg2 & -> & Hm2 & Hip2 & Ho2)].
  - left. split; [done|]. set_solver.
  - right. exists m2, c2, cfg2. set_solver.
  - right. exists m1, c1, cfg1. split_and!; [done| |done|done].
    apply list_elem_of_singleton in Hm1 as ->. left.
  - right. exists m2, c2, cfg2. split_and!; [done|by right|done|].
    simpl in Ho2. destruct Ho2 as [-> ->]. exact Ho.
Qed.

Lemma addMinions_run machines minions s :
  ∃ marked s', foldEach addMinion minions machines s = Ok (marked, s') ∧
    grows (λ _, False) s s' ∧ ∀ ip, added machines ip (minions !! ip) (marked !! ip).
Proof.
  revert minions s. induction machines as [|m ms IH]; intros minions s.
  { exists minions, s. split_and!; [done|reflexivity|]. intros ip. left. split; [done|].
    intros Hin. by apply not_elem_of_nil in Hin. }
  assert (∃ m1 s1, addMinion minions m s = Ok (m1, s1) ∧ grows (λ _, False) s s1 ∧
            ∀ ip, added [m] ip (minions !! ip) (m1 !! ip)) as (m1 & s1 & Hrun1 & Hg1 & Hadd1).
  { unfold addMinion. destruct (minions !! machinePublicIP m) as [old|] eqn:Hold.
    - eexists _, s. split_and!; [done|reflexivity|]. intros ip.
      destruct (decide (machinePublicIP m = ip)) as [<-|Hne].
      + right. rewrite lookup_insert_eq, Hold. eexists m, _, _. split_and!; [done|left|done..].
      + left. rewrite lookup_insert_ne by done. split; [done|]. unfold ipsOf. set_solver.
    - eexists _, _. split_and!; [done| |].
      + split; [reflexivity|]. by exists [].
      + intros ip. destruct (dials (calls s.2) (machinePublicIP m)); cycle 1.
        { left. split; [done|]. intros Hin. by apply list_elem_of_singleton in Hin as ->. }
        destruct (decide (machinePublicIP m = ip)) as [<-|Hne].
        * right. rewrite lookup_insert_eq, Hold. eexists m, _, _. split_and!; [done|left|done..].
        * left. rewrite lookup_insert_ne by done. split; [done|]. unfold ipsOf. set_solver. }
  destruct (IH m1 s1) as (marked & s' & Hrun & Hg & Hadd).
  exists marked, s'. cbn [foldEach]. unfold mbind, M_bind. rewrite Hrun1. split_and!.
  - done.
  - by etransitivity.
  - intros ip. eapply added_cons; [apply Hadd1|apply Hadd].
Qed.

Definition isClose (msg : message) : Prop := match msg with CloseClient _ => True | _ => False end.

(** An entry of the map after [updateMinionMap]: that of a machine with the address,
    with the state it had; or none, when there is no such machine or it could not be
    dialed. *)
Definition follows (machines : list Machine) (ip : string) (o o' : option minion) : Prop :=
  match o' with
  | Some min =>
      mnMachine min ∈ machines ∧ machinePublicIP (mnMachine min) = ip ∧ mnMark min = false ∧
      match o with
      | Some old => mnConnected min = mnConnected old ∧ mnConfig min = mnConfig old
      | None => mnConnected min = false ∧ mnConfig min = zeroConfig
      end
  | None => ip ∈ ipsOf machines → o = None
  end.

Lemma follows_perm ms ms' ip o o' : ms ≡ₚ ms' → follows ms ip o o' → follows ms' ip o o'.
Proof.
  intros Hp. unfold follows, ipsOf. destruct o'.
  - intros [Hin ?]. split; [by rewrite <- Hp|done].
  - intros Hf Hin. apply Hf. by rewrite Hp.
Qed.

Definition unmarked (minions : gmap string minion) : Prop :=
  map_Forall (λ _ m, mnMark m = false) minions.

Lemma sweepMinion_step m k v s :
  ∃ o s', sweepMinion m (k, v) s = Ok (partial_alter (λ _, o) k m, s') ∧
    ((o = if mnMark v then Some (mkMinionObj (mnConnected v) (mnMachine v) (mnConfig v) false) else None) ∧
     (mnMark v = false → sends (CloseClient k) s s')) ∧ grows isClose s s'.
Proof.
  unfold sweepMinion. destruct (mnMark v).
  - eexists _, s. split_and!; [done|done|done|reflexivity].
  - exists None. eexists. split_and!; [reflexivity|done| |].
    + intros _. exists [CloseClient k]. split; [done|left].
    + split; [reflexivity|]. exists [CloseClient k]. split; [done|]. by repeat constructor.
Qed.

Lemma updateMinionMap_run machines minions s :
  unmarked minions →
  ∃ minions' s', updateMinionMap machines minions s = Ok (minions', s') ∧ grows isClose s s' ∧
    unmarked minions' ∧
    (∀ ip, follows machines ip (minions !! ip) (minions' !! ip)) ∧
    (∀ ip, is_Some (minions !! ip) → minions' !! ip = None → sends (CloseClient ip) s s').
Proof.
  intros Hun. destruct (addMinions_run machines minions s) as (marked & s1 & Hrun1 & Hg1 & Hadd).
  destruct (forMinions_run isClose _ sweepMinion marked s1
    (λ m k v s0 _, sweepMinion_step m k v s0)) as (minions' & s' & Hrun & Hg & Hno & Hin).
  assert (grows isClose s s1) as Hg1' by (by eapply grows_weaken; [|exact Hg1]).
  assert (∀ ip, follows machines ip (minions !! ip) (minions' !! ip) ∧
            (is_Some (minions !! ip) → minions' !! ip = None → sends (CloseClient ip) s s')) as Hall.
  { intros ip. destruct (Hadd ip) as [[Heq Hip]|(m & c & cfg & Heq & Hm & Hmip & Ho)].
    - destruct (minions !! ip) as [old|] eqn:Hold.
      + destruct (Hin ip old) as (t1 & t2 & Hg0 & [Hs Hc] & Hg2); [done|].
        rewrite (Hun ip old Hold) in Hs, Hc. rewrite Hs. split; [by intros ?%Hip|].
        intros _ _. eapply sends_within; [|by apply Hc|exact Hg2]. by etransitivity; [exact Hg1'|].
      + rewrite (Hno ip Heq). split; [done|]. by intros [? ?].
    - destruct (Hin ip _ Heq) as (t1 & t2 & _ & [Hs _] & _). rewrite Hs. cbn. by split_and!. }
  exists minions', s'. split_and!.
  - unfold updateMinionMap, mbind at 1, M_bind at 1. rewrite Hrun1. exact Hrun.
  - by etransitivity.
  - intros ip min Hmin. destruct (Hall ip) as [Hf _]. rewrite Hmin in Hf. apply Hf.
  - intros ip. apply Hall.
  - intros ip. apply Hall.
Qed.

(** ** Asking the minions *)

(** A minion after it was asked: connected if it answered, with its answer. *)
Definition asked (ip : string) (m : minion) (o : option minion) : Prop :=
  ∃ n, o = Some (mkMinionObj (bool_decide (is_Some (answers n ip))) (mnMachine m)
                   (default zeroConfig (answers n ip)) (mnMark m)).

Lemma queryMinions_run minions s :
  ∃ minions' s', forEachMinion queryMinion minions s = Ok (minions', s') ∧
    grows (λ _, False) s s' ∧ (∀ ip, minions !! ip = None → minions' !! ip = None) ∧
    ∀ ip m, minions !! ip = Some m → asked ip m (minions' !! ip).
Proof.
  destruct (forMinions_run (λ _, False) (λ k v o _ _, asked k v o) (forEachStep queryMinion) minions s)
    as (minions' & s' & Hrun & Hg & Hno & Hin).
  - intros m k v s0 _. unfold forEachStep, queryMinion, getMinion, call, mbind, M_bind.
    cbn [fst snd]. eexists (Some _), _. split_and!; [reflexivity|by eexists|].
    split; [reflexivity|]. by exists [].
  - exists minions', s'. split_and!; [exact Hrun|done|done|].
    intros ip m Hm. by destruct (Hin ip m Hm) as (? & ? & _ & ? & _).
Qed.

(** An entry of the map when all minions were asked: the minion of a machine with
    the address, connected if it answered, with its answer. *)
Definition polled (machines : list Machine) (ip : string) (m : minion) : Prop :=
  mnMachine m ∈ machines ∧ machinePublicIP (mnMachine m) = ip ∧
  ∃ n, mnConnected m = bool_decide (is_Some (answers n ip)) ∧
       mnConfig m = default zeroConfig (answers n ip).

Lemma polled_perm ms ms' ip m : ms ≡ₚ ms' → polled ms ip m → polled ms' ip m.
Proof. intros Hp (Hin & ?). split; [by rewrite <- Hp|done]. Qed.

Lemma polled_answer ms ip m :
  polled ms ip m → mnConnected m = true → ∃ n, answers n ip = Some (mnConfig m).
Proof.
  intros (_ & _ & n & Hc & Hcfg) Htrue. rewrite Hc in Htrue.
  apply bool_decide_eq_true in Htrue as [cfg Hans]. exists n. by rewrite Hcfg, Hans.
Qed.

(** The first two steps of [init] and [runOnce]. *)
Lemma refresh_run machines minions s :
  unmarked minions →
  ∃ m1 s1 m2 s2, updateMinionMap machines minions s = Ok (m1, s1) ∧
    forEachMinion queryMinion m1 s1 = Ok (m2, s2) ∧
    grows isClose s s1 ∧ (∀ Q, grows Q s1 s2) ∧ unmarked m2 ∧
    (∀ ip m, m2 !! ip = Some m → polled machines ip m) ∧
    (∀ ip, is_Some (minions !! ip) → m2 !! ip = None → sends (CloseClient ip) s s1).
Proof.
  intros Hun. destruct (updateMinionMap_run machines minions s Hun) as (m1 & s1 & Hrun1 & Hg1 & Hun1 & Hf1 & Hcl1).
  destruct (queryMinions_run m1 s1) as (m2 & s2 & Hrun2 & Hg2 & Hno2 & Has2).
  assert (∀ ip m, m2 !! ip = Some m → mnMark m = false ∧ polled machines ip m) as Hm2.
  { intros ip m Hm. destruct (m1 !! ip) as [m0|] eqn:Hm0; [|by rewrite (Hno2 ip Hm0) in Hm].
    destruct (Has2 ip m0 Hm0) as [n Hn]. rewrite Hm in Hn. injection Hn as ->.
    specialize (Hf1 ip). rewrite Hm0 in Hf1. destruct Hf1 as (Hin & Hip & _). split.
    - exact (Hun1 ip m0 Hm0).
    - split_and!; [done|done|]. by exists n. }
  exists m1, s1, m2, s2. split_and!; [done|done|done|..].
  - intros Q. by eapply grows_weaken; [|exact Hg2].
  - intros ip m Hm. by apply (Hm2 ip m).
  - intros ip m Hm. by apply (Hm2 ip m).
  - intros ip Hs Hn. apply Hcl1; [done|]. destruct (m1 !! ip) as [m0|] eqn:Hm0; [|done].
    destruct (Has2 ip m0 Hm0) as [n Hn']. congruence.
Qed.

(** ** Sending configurations *)

Section Configure.
Context (spec : string) (etcdIPs : list string) (minions : gmap string minion).

(** A minion that answered, with another configuration than its row's. *)
Definition outdated (ip : string) (m : minion) : Prop :=
  minions !! ip = Some m ∧ mnConnected m = true ∧ wantedConfig spec (mnMachine m) ≠ mnConfig m.

Definition justified (msg : message) : Prop :=
  match msg with
  | SetMinion ip cfg => ∃ m, outdated ip m ∧ cfg = wantedConfig spec (mnMachine m)
  | BootEtcdMsg ip members => (∃ m, outdated ip m) ∧ members = etcdIPs
  | CloseClient _ => False
  end.

Lemma configure_step ip m s :
  minions !! ip = Some m →
  ∃ s', configure spec etcdIPs ip m s = Ok (m, s') ∧ grows justified s s' ∧
    (outdated ip m → sends (SetMinion ip (wantedConfig spec (mnMachine m))) s s').
Proof.
  intros Hm. unfold configure. destruct (mnConnected m) eqn:Hc; cbn [negb]; cycle 1.
  { exists s. split_and!; [done|reflexivity|]. intros (_ & Hc' & _). congruence. }
  case_decide as Hw; [exists s; split_and!; [done|reflexivity|]; by intros (_ & _ & ?)|].
  assert (outdated ip m) as Hout by done.
  unfold setMinion, call, mbind, M_bind. cbn [fst snd].
  destruct (accepts (calls s.2) ip).
  - eexists. split_and!; [reflexivity| |].
    + split; [reflexivity|]. eexists [_; _]. split; [cbn; by rewrite <- (assoc (++))|].
      repeat constructor; cbn; eauto.
    + intros _. eexists [_; _]. split; [cbn; by rewrite <- (assoc (++))|left].
  - eexists. split_and!; [reflexivity| |].
    + split; [reflexivity|]. eexists [_]. split; [done|]. repeat constructor; cbn; eauto.
    + intros _. eexists [_]. split; [done|left].
Qed.

Lemma configure_run s :
  ∃ minions' s', forEachMinion (configure spec etcdIPs) minions s = Ok (minions', s') ∧
    grows justified s s' ∧ minions' = minions ∧
    ∀ ip m, outdated ip m → sends (SetMinion ip (wantedConfig spec (mnMachine m))) s s'.
Proof.
  destruct (forMinions_run justified
    (λ k v o s1 s2, o = Some v ∧
       (outdated k v → sends (SetMinion k (wantedConfig spec (mnMachine v))) s1 s2))
    (forEachStep (configure spec etcdIPs)) minions s) as (minions' & s' & Hrun & Hg & Hno & Hin).
  - intros m k v s0 Hk. destruct (configure_step k v s0 Hk) as (s' & Hrun & Hg & Hsent).
    exists (Some v), s'. unfold forEachStep, mbind, M_bind. cbn [fst snd]. rewrite Hrun. done.
  - exists minions', s'. split_and!; [exact Hrun|done| |].
    + apply map_eq. intros ip. destruct (minions !! ip) as [m|] eqn:Hm; [|by apply Hno].
      by destruct (Hin ip m Hm) as (? & ? & _ & [? _] & _).
    + intros ip m Hout. destruct (Hin ip m (proj1 Hout)) as (s1 & s2 & Hg1 & [_ Hs] & Hg2).
      eapply sends_within; [exact Hg1|by apply Hs|exact Hg2].
Qed.

End Configure.

(** ** A run of the foreman *)

Definition bootedRows (id : Z) (db : Database) : list Machine :=
  base.filter (λ m, booted id m = true) (map_to_list (rows (MachineTable db))).*2.

(** The specification of a list of cluster rows, if there is exactly one. *)
Definition soleSpec (cs : list Cluster) : string :=
  match cs with [c] => clusterSpec c | _ => ""%string end.

Definition specOf (id : Z) (db : Database) : string :=
  soleSpec (base.filter (λ c, (clusterID c =? id) = true) (map_to_list (rows (ClusterTable db))).*2).

Lemma soleSpec_perm cs cs' : cs ≡ₚ cs' → soleSpec cs = soleSpec cs'.
Proof.
  intros Hp. pose proof (Permutation_length Hp) as Hlen.
  destruct cs as [|c [|? ?]], cs' as [|c' [|? ?]]; try done. simpl.
  apply Permutation_singleton_r in Hp. by injection Hp as ->.
Qed.

Lemma specTxn_run id db :
  ∃ ms dbm, Transact (specTxn id) db = Ok ((ms, specOf id db), alertAll dbm) ∧
    loopsOnly db dbm ∧ ms ≡ₚ bootedRows id db.
Proof.
  destruct (SelectFrom (R := Machine) (Some (booted id)) db) as [[ms db1]| | |] eqn:H1; [|discriminate H1..].
  destruct (SelectFrom_Ok _ _ _ _ H1) as [-> Hms].
  destruct (SelectFrom (R := Cluster) (Some (λ c, clusterID c =? id)) (countLoop db))
    as [[cs db2]| | |] eqn:H2; [|discriminate H2..].
  destruct (SelectFrom_Ok _ _ _ _ H2) as [-> Hcs].
  exists ms, (countLoop (countLoop db)). split_and!.
  - apply Transact_run. assert (soleSpec cs = specOf id db) as <- by (apply soleSpec_perm; exact Hcs).
    unfold specTxn, mbind, M_bind. by rewrite H1, H2.
  - by exists 2%nat.
  - exact Hms.
Qed.

(** A run: the clients that are closed, then the configurations that are sent. *)
Lemma runOnce_run id minions db nt :
  unmarked minions →
  ∃ minions' s0 s1 s' etcdIPs,
    runOnce id minions (db, nt) = Ok (minions', s') ∧
    s0.2 = nt ∧ grows isClose s0 s1 ∧ grows (justified (specOf id db) etcdIPs minions') s1 s' ∧
    unmarked minions' ∧ (∀ ip m, minions' !! ip = Some m → polled (bootedRows id db) ip m) ∧
    etcdIPs ≡ₚ omap isEtcd (map_to_list minions').*2 ∧
    (∀ ip, is_Some (minions !! ip) → minions' !! ip = None → sends (CloseClient ip) s0 s1) ∧
    (∀ ip m, outdated (specOf id db) minions' ip m →
       sends (SetMinion ip (wantedConfig (specOf id db) (mnMachine m))) s1 s').
Proof.
  intros Hun. destruct (specTxn_run id db) as (ms & dbm & Htxn & _ & Hms).
  set (spec := specOf id db) in *. set (s0 := (alertAll dbm, nt)).
  destruct (refresh_run ms minions s0 Hun) as (m1 & s1 & m2 & s2 & Hrun1 & Hrun2 & Hg1 & Hq & Hun2 & Hpol & Hcl).
  assert (∀ ip m, m2 !! ip = Some m → polled (bootedRows id db) ip m) as Hpol'.
  { intros ip m Hm. eapply polled_perm; [exact Hms|auto]. }
  set (etcdIPs := omap (λ e, isEtcd e.2) (rangeOrder (loops (countLoop s2.1)) m2)).
  set (s3 := (countLoop (countLoop s2.1), s2.2)).
  assert (etcdIPs ≡ₚ omap isEtcd (map_to_list m2).*2) as Hetcd.
  { subst etcdIPs. rewrite rangeOrder_perm. generalize (map_to_list m2). intros l.
    induction l as [|[ip m] l IH]; [done|]. rewrite fmap_cons. simpl.
    destruct (isEtcd m); by rewrite IH. }
  assert (∀ Q, grows Q s1 s3) as Hq3.
  { intros Q. etransitivity; [apply (Hq Q)|]. etransitivity; apply rangeOf_grows. }
  destruct (configure_run spec etcdIPs m2 s3) as (m3 & s' & Hrun3 & Hg3 & -> & Hsent).
  destruct (existsb (λ e, mnConnected e.2) (rangeOrder (loops s2.1) m2)) eqn:Hany.
  - exists m2, s0, s1, s', etcdIPs. split_and!; try done.
    + unfold runOnce, mbind, M_bind, onDb at 1. cbn [fst snd]. rewrite Htxn. fold s0.
      rewrite Hrun1, Hrun2, !rangeOf_run. cbn [fst snd]. rewrite Hany. exact Hrun3.
    + etransitivity; [apply Hq3|done].
    + intros ip m Ho. eapply (sends_within _ (λ _, True) (λ _, True)); [apply Hq3|by apply Hsent|].
      reflexivity.
  - exists m2, s0, s1, (countLoop s2.1, s2.2), etcdIPs. split_and!; try done.
    + unfold runOnce, mbind, M_bind, onDb at 1. cbn [fst snd]. rewrite Htxn. fold s0.
      rewrite Hrun1, Hrun2, rangeOf_run. cbn [fst snd]. by rewrite Hany.
    + etransitivity; [apply Hq|apply rangeOf_grows].
    + intros ip m (Hm & Hc & _). exfalso. apply not_true_iff_false in Hany. apply Hany.
      apply existsb_exists. exists (ip, m). split; [|done]. apply list_elem_of_In.
      by apply elem_of_range.
Qed.


(** The foreman cannot tell that a minion is up to date. Minions answer without
    their specification, so when the cluster has one, every minion that answers is
    sent its configuration again, in every run, also if nothing changed. *)
Theorem foreman_resends (id : Z) (minions : gmap string minion) (db : Database) (nt : net) :
  unmarked minions → specOf id db ≠ ""%string →
  (∀ n ip cfg, answers n ip = Some cfg → ∃ c, cfg = configReply c) →
  ∃ minions' db' nt', runOnce id minions (db, nt) = Ok (minions', (db', nt')) ∧
    ∀ ip m, minions' !! ip = Some m → mnConnected m = true →
      SetMinion ip (wantedConfig (specOf id db) (mnMachine m)) ∈ trace nt'.
Proof.
  intros Hun Hspec Hans. destruct (runOnce_run id minions db nt Hun) as (minions' & s0 & s1 &
    [db' nt'] & etcdIPs & Hrun & _ & _ & _ & _ & Hpol & _ & _ & Hset).
  exists minions', db', nt'. split; [done|]. intros ip m Hm Hc.
  destruct (Hset ip m) as (l & E & Hin).
  - split_and!; [done|done|]. destruct (polled_answer _ ip m (Hpol ip m Hm) Hc) as [n Hn].
    destruct (Hans n ip _ Hn) as [c ->]. intros [=]. done.
  - cbn [snd] in E. rewrite E. apply elem_of_app. by right.
Qed.

(** ** Starting the foreman *)

Definition recovered (e : string * minion) : option (Machine * Machine) :=
  if mnConnected e.2
  then Some (mnMachine e.2, setRole (PBToRole (pbRoleOf (mnConfig e.2))) (mnMachine e.2)) else None.

Definition withRole (m : minion) : minion :=
  if mnConnected m
  then mkMinionObj true (setRole (PBToRole (pbRoleOf (mnConfig m))) (mnMachine m)) (mnConfig m) (mnMark m)
  else m.

Lemma recover_run entries minions db nt db' :
  NoDup entries.*1 → (∀ ip m, (ip, m) ∈ entries → minions !! ip = Some m) →
  forEach Commit (omap recovered entries).*2 db = Ok (tt, db') →
  ∃ minions', foldEach recoverRole minions entries (db, nt) = Ok (minions', (db', nt)) ∧
    (∀ ip m, (ip, m) ∈ entries → minions' !! ip = Some (withRole m)) ∧
    (∀ ip, ip ∉ entries.*1 → minions' !! ip = minions !! ip).
Proof.
  revert minions db. induction entries as [|[ip m] entries IH]; intros minions db Hnd Hent Hc.
  { injection Hc as <-. exists minions. split_and!; [done| |done].
    intros ip m Hin. by apply not_elem_of_nil in Hin. }
  rewrite fmap_cons in *. apply NoDup_cons in Hnd as [Hip Hnd]. cbn [fst] in Hip.
  set (minions1 := if mnConnected m then <[ip := withRole m]> minions else minions).
  assert (minions1 !! ip = Some (withRole m)) as H1.
  { subst minions1. unfold withRole. destruct (mnConnected m); [apply lookup_insert_eq|].
    apply Hent. left. }
  assert (∀ k, k ≠ ip → minions1 !! k = minions !! k) as Hother.
  { intros k Hk. subst minions1. destruct (mnConnected m); [by rewrite lookup_insert_ne|done]. }
  assert (∃ db1, recoverRole minions (ip, m) (db, nt) = Ok (minions1, (db1, nt)) ∧
            forEach Commit (omap recovered entries).*2 db1 = Ok (tt, db')) as (db1 & Hrun & Hc1).
  { cbn [omap list_omap] in Hc. unfold recovered at 1 in Hc. cbn [snd] in Hc. unfold recoverRole.
    subst minions1. unfold withRole. destruct (mnConnected m); [|by exists db].
    rewrite fmap_cons in Hc. cbn [forEach snd] in Hc. apply bind_Ok in Hc as ([] & db1 & Hc1 & Hc2).
    exists db1. split; [|done]. unfold mbind, M_bind, onDb. cbn [fst snd]. by rewrite Hc1. }
  destruct (IH minions1 db1 Hnd) as (minions' & Hrun' & Hin & Hout); [|done|].
  { intros k v Hk. rewrite Hother; [apply Hent; by right|]. intros ->. apply Hip.
    apply list_elem_of_fmap. by exists (ip, v). }
  exists minions'. cbn [foldEach]. unfold mbind, M_bind. rewrite Hrun. split_and!; [done|..].
  - intros k v [[= -> ->]|Hk]%elem_of_cons; [by rewrite (Hout ip Hip)|by apply Hin].
  - intros k [Hne Hk]%not_elem_of_cons. rewrite (Hout k Hk). by apply Hother.
Qed.

(** The rows of connected minions are distinct rows of the database. *)
Lemma recovered_rows (entries : list (string * minion)) (all : list Machine) :
  NoDup entries.*1 →
  (∀ ip m, (ip, m) ∈ entries → mnMachine m ∈ all ∧ machinePublicIP (mnMachine m) = ip) →
  ∃ rest, (omap recovered entries).*1 ++ rest ≡ₚ all.
Proof.
  intros Hnd Hent. assert ((omap recovered entries).*1 ⊆+ all) as Hsub.
  { apply NoDup_submseteq.
    - apply (NoDup_fmap_1 machinePublicIP). eapply sublist_NoDup; [exact Hnd|].
      clear Hnd. induction entries as [|[ip m] entries IH]; [done|]. rewrite fmap_cons. cbn [omap list_omap].
      assert ((machinePublicIP <$> (omap recovered entries).*1) `sublist_of` entries.*1) as IH'.
      { apply IH. intros ip' m' Hin. apply Hent. by right. }
      unfold recovered at 1. cbn [fst snd]. destruct (mnConnected m); [|by apply sublist_cons].
      rewrite !fmap_cons. cbn [fst]. destruct (Hent ip m) as [_ ->]; [left|]. by apply sublist_skip.
    - intros r ([old new] & -> & Hin)%list_elem_of_fmap.
      apply list_elem_of_omap in Hin as ([ip m] & Hin & Hrec). unfold recovered in Hrec. cbn [snd] in Hrec.
      destruct (mnConnected m); [|done]. injection Hrec as <- _. by apply (Hent ip m). }
  apply submseteq_Permutation in Hsub as [rest Hp]. exists rest. by rewrite Hp.
Qed.

Lemma loopsOnly_same db db' :
  loopsOnly db db' → dbWF db → dbWF db' ∧ rows (MachineTable db') = rows (MachineTable db).
Proof. intros [n ->] Hwf. induction n as [|n [IH1 IH2]]; [done|]. by split. Qed.

(** A controller that restarts adopts the roles of its minions: [init] returns,
    the rows of the machines whose minions answer get the role that the minion
    reports, and nothing else of the machine table changes. *)
Theorem init_recovers_roles (id : Z) (minions : gmap string minion) (db : Database) (nt : net) :
  dbWF db → unmarked minions →
  ∃ minions' db' nt' us rest, init id minions (db, nt) = Ok (minions', (db', nt')) ∧
    us.*1 ++ rest ≡ₚ (map_to_list (rows (MachineTable db))).*2 ∧
    (map_to_list (rows (MachineTable db'))).*2 ≡ₚ us.*2 ++ rest ∧
    (∀ old new, (old, new) ∈ us → ∃ n cfg, answers n (machinePublicIP old) = Some cfg ∧
       new = setRole (PBToRole (pbRoleOf cfg)) old) ∧
    (∀ ip m, minions' !! ip = Some m → mnConnected m = true → mnMachine m ∈ us.*2).
Proof.
  intros Hwf Hun.
  destruct (SelectFrom (R := Machine) (Some (booted id)) db) as [[ms db1]| | |] eqn:Hs; [|discriminate Hs..].
  destruct (SelectFrom_Ok _ _ _ _ Hs) as [-> Hms].
  destruct (refresh_run ms minions (countLoop db, nt) Hun) as
    (m1 & s1 & m2 & s2 & Hrun1 & Hrun2 & Hg1 & Hg2 & _ & Hpol & _).
  set (entries := rangeOrder (loops s2.1) m2).
  assert (∀ ip m, (ip, m) ∈ entries ↔ m2 !! ip = Some m) as Hent by (intros; apply elem_of_range).
  assert (NoDup entries.*1) as Hnd.
  { subst entries. rewrite rangeOrder_perm. apply NoDup_fst_map_to_list. }
  assert (∀ m, m ∈ ms → m ∈ (map_to_list (rows (MachineTable db))).*2) as Hin.
  { intros m Hm. rewrite Hms in Hm. by apply list_elem_of_filter in Hm as [_ Hm]. }
  destruct (recovered_rows entries (map_to_list (rows (MachineTable db))).*2 Hnd) as [rest Hrest].
  { intros ip m (? & ? & _)%Hent%Hpol. auto. }
  destruct (loopsOnly_same db (countLoop s2.1)) as [Hwf2 Hrows2]; [|done|].
  { etransitivity; [apply loopsOnly_step|]. etransitivity; [apply Hg1|]. 
    etransitivity; [apply (Hg2 isClose)|apply loopsOnly_step]. }
  set (us := omap recovered entries) in *.
  destruct (rewrites_run (R := Machine) us rest (countLoop s2.1) Hwf2) as (db3 & Hrun3 & Hk & _ & Hrows3).
  { apply Forall_forall. intros [old new] ([ip m] & _ & Hrec)%list_elem_of_omap. unfold recovered in Hrec.
    destruct (mnConnected _); [|done]. by injection Hrec as <- <-. }
  { rewrite Hrest. change (getTable (R := Machine) (countLoop s2.1)) with (MachineTable (countLoop s2.1)).
    by rewrite Hrows2. }
  destruct (recover_run entries m2 (countLoop s2.1) s2.2 db3 Hnd) as (m3 & Hrun4 & Hin3 & Hout3);
    [by intros ip m ?%Hent|done|].
  exists m3, (alertAll db3), s2.2, us, rest. split_and!.
  - unfold init, mbind, M_bind, onDb at 1. cbn [fst snd]. rewrite Hs, Hrun1, Hrun2, rangeOf_run.
    fold entries. rewrite Hrun4. done.
  - done.
  - rewrite alertAll_machines. exact Hrows3.
  - intros old new ([ip m] & He & Hrec)%list_elem_of_omap. unfold recovered in Hrec. cbn [snd] in Hrec.
    apply Hent, Hpol in He. destruct (mnConnected m) eqn:Hc; [|done]. injection Hrec as <- <-.
    destruct (polled_answer _ _ _ He Hc) as [n Hn]. destruct He as (_ & -> & _). eauto.
  - intros ip m Hm Hc. destruct (m2 !! ip) as [m0|] eqn:Hm0.
    + apply Hent in Hm0. rewrite (Hin3 ip m0 Hm0) in Hm. injection Hm as <-.
      unfold withRole in *. destruct (mnConnected m0) eqn:Hc0; [|congruence]. cbn.
      apply list_elem_of_fmap. exists (mnMachine m0, setRole (PBToRole (pbRoleOf (mnConfig m0))) (mnMachine m0)).
      split; [done|]. apply list_elem_of_omap. exists (ip, m0). unfold recovered. cbn [snd]. by rewrite Hc0.
    + rewrite Hout3, Hm0 in Hm; [done|]. intros ([ip' m0] & -> & He%Hent)%list_elem_of_fmap.
      simpl in Hm0. congruence.
Qed.

End ForemanRuns.

(** ** Witnesses: a master and a worker, of which only the master answers *)

Module ForemanDemo.

Definition machine (i : Z) (r : Role) (ip : string) : Machine :=
  mkMachine i 1 r "Google" "us-east1-b" "g1-small" 32 None ("i-" ++ ip) ip ("10." ++ ip).
Definition db : Database :=
  setTable (mkTable {[2 := machine 2 Master "1.1"; 3 := machine 3 Worker "2.2"]} ∅ 0 0)
    (setTable (mkTable {[1 := mkCluster 1 "ns" "(spec)" None]} ∅ 0 0) (setIdAlloc 3 newDatabase)).
Definition reply : minionConfig := mkMinionConfig "i-1.1" Master "10.1.1".
Definition network : Network := {|
  dials := λ _ _, true;
  answers := λ _ ip, if decide (ip = "1.1"%string) then Some (configReply reply) else None;
  accepts := λ _ _, true;
  etcdBoots := λ _ _, true
|}.
Definition nt : net := mkNet 0 [].

Lemma foremanDemo_wf : dbWF db.
Proof.
  apply (dbWF_setTable (R := Machine)).
  - apply (dbWF_setTable (R := Cluster)); [apply dbWF_setIdAlloc; [apply newDatabase_wf|done]|].
    by apply map_Forall_singleton.
  - apply map_Forall_insert_2; [done|]. by apply map_Forall_singleton.
Qed.

Definition ran : gmap string minion * (Database * net) :=
  match @runOnce mapToListRange network 1 ∅ (db, nt) with
  | Ok r => r
  | _ => (∅, (db, nt))
  end.

End ForemanDemo.


Lemma foreman_resends_witness :
  ∃ minions' db' nt', @runOnce mapToListRange ForemanDemo.network 1 ∅ (ForemanDemo.db, ForemanDemo.nt) =
      Ok (minions', (db', nt')) ∧
    ∀ ip m, minions' !! ip = Some m → mnConnected m = true →
      SetMinion ip (wantedConfig (specOf 1 ForemanDemo.db) (mnMachine m)) ∈ trace nt'.
Proof.
  apply (@foreman_resends mapToListRange ForemanDemo.network 1 ∅ ForemanDemo.db ForemanDemo.nt).
  - apply map_Forall_empty.
  - vm_compute. discriminate.
  - intros n ip cfg Hcfg. cbn in Hcfg. case_decide; [|discriminate]. injection Hcfg as <-.
    exists ForemanDemo.reply. reflexivity.
Defined.

Lemma init_recovers_roles_witness :
  ∃ minions' db' nt' us rest, @init mapToListRange ForemanDemo.network 1 ∅ (ForemanDemo.db, ForemanDemo.nt) =
      Ok (minions', (db', nt')) ∧
    us.*1 ++ rest ≡ₚ (map_to_list (rows (MachineTable ForemanDemo.db))).*2 ∧
    (map_to_list (rows (MachineTable db'))).*2 ≡ₚ us.*2 ++ rest.
Proof.
  destruct (@init_recovers_roles mapToListRange ForemanDemo.network 1 ∅ ForemanDemo.db ForemanDemo.nt)
    as (minions' & db' & nt' & us & rest & H1 & H2 & H3 & _);
    [exact ForemanDemo.foremanDemo_wf|apply map_Forall_empty|].
  exists minions', db', nt', us, rest. split; [exact H1|]. split; [exact H2|exact H3].
Defined.
