(* ===== verification/Elector.v ===== *)
(** * minion/elector: leader election

    Model of [src/minion/elector/elector.go]. The leader is the minion whose address
    is the value of a key in the cluster's store that expires; a minion creates the
    key, or updates it if its own database says that it is the leader. The store is
    an interface: what the elector does with it, and what it may rely on. *)

From stdpp Require Import base gmap list strings.
From Stdlib Require Import ZArith Lia.
From S2P Require Import Prelude DbRows Db DbProps Reconcile.

Local Open Scope Z_scope.

(** ** The store *)

(** An error of the store: [client.ErrorCodeNodeExist], or another one. *)
Inductive storeErr : Type := NodeExist | OtherError.

(** The leader key at a time, and the operations on it at a time. *)
Class LeaderStore (S : Type) : Type := {
  keyAt : S → Z → option string;
  storeCreate : Z → string → S → option storeErr * S;
  storeUpdate : Z → string → S → option storeErr * S
}.

Definition electionTTL : Z := 30.

(** ** The code *)

(** [commitLeader], whose last argument is optional. *)
Definition commitLeader `{MapRange} (leader : bool) (ip : option string) : DB unit := Transact (
  etcdRows ← SelectFrom (R := Etcd) None;
  match etcdRows with
  | [e] => Commit (mkEtcd (etcdID e) (etcdEtcdIPs e) leader (default (etcdLeaderIP e) ip))
  | _ => mret tt
  end).

(** The transaction of [watchLeader]. *)
Definition watchRound `{MapRange} (leader : string) : DB unit := Transact (
  etcdRows ← SelectFrom (R := Etcd) None;
  match etcdRows with
  | [e] => Commit (mkEtcd (etcdID e) (etcdEtcdIPs e) (etcdLeader e) leader)
  | _ => mret tt
  end).

Definition isMaster (minions : list Minion) : bool :=
  match minions with [m] => bool_decide (minionRole m = Master) | _ => false end.

Section Elector.
Context {S : Type} `{LeaderStore S} `{MapRange}.

(** An attempt to become or to stay the leader. *)
Definition runFor (now : Z) (ip : string) (leader : bool) : M Empty_set (Database * S) unit :=
  err ← onWorld ((if leader then storeUpdate else storeCreate) now ip);
  onDb match err with
       | None => commitLeader true (Some ip)
       | Some NodeExist => commitLeader false None
       | Some OtherError => commitLeader false (Some ""%string)
       end.

(** One iteration of [campaign] at the time [now]: [during] is what other
    transactions do while a new master waits. The result is [oldMaster]. *)
Definition campaignRound (now : Z) (during : DB unit) (oldMaster : bool)
    : M Empty_set (Database * S) bool :=
  minions ← onDb (Transact (SelectFrom (R := Minion) None));
  etcdRows ← onDb (Transact (SelectFrom (R := Etcd) None));
  let master := isMaster minions && bool_decide (length etcdRows = 1%nat) in
  '(minions, master) ←
    (if oldMaster && negb master then
       _ ← onDb (commitLeader false (Some ""%string)); mret (minions, master)
     else if negb oldMaster && master then
       _ ← onDb during;
       minions ← onDb (Transact (SelectFrom (R := Minion) None));
       mret (minions, isMaster minions)
     else mret (minions, master));
  if negb master then mret master
  else match minions, etcdRows with
       | m :: _, e :: _ =>
           if decide (minionPrivateIP m = ""%string) then mret master
           else _ ← runFor now (minionPrivateIP m) (etcdLeader e); mret master
       | _, _ => panic "index out of range"
       end.

End Elector.

(** ** A round of a master *)

(** The database of a master minion with this address and etcd row. *)
Definition masterDb (ip : string) (e : Etcd) (db : Database) : Prop :=
  dbWF db ∧ ip ≠ ""%string ∧ rows (EtcdTable db) = {[etcdID e := e]} ∧
  ∃ m, rows (MinionTable db) = {[minionID m := m]} ∧ minionRole m = Master ∧ minionPrivateIP m = ip.

#[global] Instance Etcd_Minion_disjoint : RowDisjoint Etcd Minion.
Proof. by intros t db. Qed.

Section Round.
Context {S : Type} `{LeaderStore S} `{MapRange}.

Lemma masterDb_alert ip e db : masterDb ip e db → masterDb ip e (alertAll (countLoop db)).
Proof.
  intros (Hwf & Hip & He & m & Hm & Hr). split_and!; [by apply alertAll_wf|done| |].
  - by rewrite alertAll_etcd.
  - exists m. split; [|done]. by rewrite alertAll_minions.
Qed.

Lemma select_minion ip e db :
  masterDb ip e db →
  ∃ m, Transact (SelectFrom (R := Minion) None) db = Ok ([m], alertAll (countLoop db)) ∧
    isMaster [m] = true ∧ minionPrivateIP m = ip.
Proof.
  intros (_ & _ & _ & m & Hm & Hr & Hip). exists m. split_and!; [|by apply bool_decide_eq_true|done].
  apply Transact_run, (SelectFrom_singleton (R := Minion) None db (minionID m)); done.
Qed.

Lemma select_etcd ip e db :
  masterDb ip e db →
  Transact (SelectFrom (R := Etcd) None) db = Ok ([e], alertAll (countLoop db)).
Proof.
  intros (_ & _ & He & _).
  apply Transact_run, (SelectFrom_singleton (R := Etcd) None db (etcdID e)); done.
Qed.

Lemma commitLeader_run ip e db leader lip :
  masterDb ip e db →
  ∃ db', commitLeader leader lip db = Ok (tt, db') ∧
    masterDb ip (mkEtcd (etcdID e) (etcdEtcdIPs e) leader (default (etcdLeaderIP e) lip)) db'.
Proof.
  intros (Hwf & Hip & He & m & Hm & Hr). set (e' := mkEtcd _ _ _ _).
  destruct (Commit_sole (R := Etcd) e' e (countLoop db)) as (db1 & Hc & (Hwf1 & _ & Hk) & _ & Hrows);
    [done|done|].
  exists (alertAll db1). split.
  - apply Transact_run. unfold mbind, M_bind.
    rewrite (SelectFrom_singleton (R := Etcd) None db (etcdID e) e); [exact Hc|exact He|done].
  - split_and!; [by apply alertAll_wf|done| |].
    + by rewrite alertAll_etcd.
    + exists m. split; [|done]. rewrite alertAll_minions. rewrite <- Hm.
      apply minion_rows. by rewrite (Hk Minion _ _ _).
Qed.

(** What a round does: it sets the key, and the leader flag follows the answer. *)
Lemma campaign_run now oldMaster ip e db s :
  masterDb ip e db →
  let '(err, s') := (if etcdLeader e then storeUpdate else storeCreate) now ip s in
  ∃ db' e', campaignRound now (mret tt) oldMaster (db, s) = Ok (true, (db', s')) ∧
    masterDb ip e' db' ∧ etcdLeader e' = match err with None => true | Some _ => false end.
Proof.
  intros Hdb. destruct ((if etcdLeader e then storeUpdate else storeCreate) now ip s) as [err s'] eqn:Herr.
  destruct (select_minion ip e db Hdb) as (m & Hsel1 & Hm1 & Hip1).
  pose proof (masterDb_alert ip e db Hdb) as Hdb1. set (db1 := alertAll (countLoop db)) in *.
  pose proof (select_etcd ip e db1 Hdb1) as Hsel2.
  pose proof (masterDb_alert ip e db1 Hdb1) as Hdb2. set (db2 := alertAll (countLoop db1)) in *.
  destruct (select_minion ip e db2 Hdb2) as (m' & Hsel3 & Hm3 & Hip3).
  pose proof (masterDb_alert ip e db2 Hdb2) as Hdb3. set (db3 := alertAll (countLoop db2)) in *.
  assert (∀ dbx, masterDb ip e dbx → ∃ db' e', runFor now ip (etcdLeader e) (dbx, s) = Ok (tt, (db', s')) ∧
    masterDb ip e' db' ∧ etcdLeader e' = match err with None => true | Some _ => false end) as Hfor.
  { intros dbx Hx. unfold runFor, mbind, M_bind, onWorld, onDb. cbn [fst snd]. rewrite Herr.
    destruct err as [[]|]; cbn [fst snd];
      [destruct (commitLeader_run ip e dbx false None Hx) as (db' & Hc & Hd)
      |destruct (commitLeader_run ip e dbx false (Some ""%string) Hx) as (db' & Hc & Hd)
      |destruct (commitLeader_run ip e dbx true (Some ip) Hx) as (db' & Hc & Hd)];
      rewrite Hc; eexists db', _; split_and!; [done|exact Hd|done|done|exact Hd|done|done|exact Hd|done]. }
  assert (ip ≠ ""%string) as Hne by apply Hdb.
  unfold campaignRound. unfold mbind at 1, M_bind at 1, onDb at 1. cbn [fst snd]. rewrite Hsel1.
  unfold mbind at 1, M_bind at 1, onDb at 1. cbn [fst snd]. rewrite Hsel2, Hm1. cbv zeta.
  rewrite bool_decide_true by done. cbn [andb negb]. rewrite andb_false_r, andb_true_r.
  destruct oldMaster; cbn [negb].
  - destruct (Hfor db2 Hdb2) as (db' & e' & Hrun & ? & ?). exists db', e'. split; [|done].
    unfold mbind at 1, M_bind at 1. cbn [mret M_ret negb]. rewrite decide_False by congruence.
    unfold mbind, M_bind. by rewrite Hip1, Hrun.
  - destruct (Hfor db3 Hdb3) as (db' & e' & Hrun & ? & ?). exists db', e'. split; [|done].
    unfold mbind, M_bind, onDb. cbn [fst snd mret M_ret].
    rewrite Hsel3, Hm3. cbn [mret M_ret negb]. rewrite decide_False by congruence.
    by rewrite Hip3, Hrun.
Qed.

End Round.

(** ** The election *)

(** What the elector relies on: a successful [Create] found no key, a successful
    [Update] found one, and both leave a key that lasts for the TTL; a failed
    operation leaves the key alone. *)
Class LeaderLaws (S : Type) `{LeaderStore S} : Prop := {
  create_ok : ∀ now ip s s', storeCreate now ip s = (None, s') →
    keyAt s now = None ∧
    ∀ t, now ≤ t → keyAt s' t = if decide (t < now + electionTTL) then Some ip else None;
  update_ok : ∀ now ip s s', storeUpdate now ip s = (None, s') →
    is_Some (keyAt s now) ∧
    ∀ t, now ≤ t → keyAt s' t = if decide (t < now + electionTTL) then Some ip else None;
  create_err : ∀ now ip s e s', storeCreate now ip s = (Some e, s') →
    ∀ t, now ≤ t → keyAt s' t = keyAt s t;
  update_err : ∀ now ip s e s', storeUpdate now ip s = (Some e, s') →
    ∀ t, now ≤ t → keyAt s' t = keyAt s t
}.

Section Election.
Context {S : Type} `{LeaderStore S, !LeaderLaws S} `{MapRange}.
(** The masters have distinct addresses. *)
Context (address : nat → string).
Hypothesis address_inj : ∀ i j, address i = address j → i = j.

(** The state of all masters: the time, the store, and for each master its database,
    whether it was a master in its last round, and when that was. *)
Record election : Type := mkElection {
  clock : Z;
  elStore : S;
  elDb : nat → Database;
  elOld : nat → bool;
  elSet : nat → Z
}.

Definition upd {A} (f : nat → A) (i : nat) (x : A) : nat → A := λ j, if decide (j = i) then x else f j.

(** The flag in the etcd row of a master. *)
Definition isLeader (st : election) (i : nat) : Prop :=
  ∃ e, masterDb (address i) e (elDb st i) ∧ etcdLeader e = true.

(** A leader whose key has not expired. *)
Definition reigns (st : election) (i : nat) : Prop :=
  isLeader st i ∧ clock st < elSet st i + electionTTL.

(** Time passes, or a master runs a round. *)
Inductive elStep : election → election → Prop :=
| elTick st t : clock st ≤ t →
    elStep st (mkElection t (elStore st) (elDb st) (elOld st) (elSet st))
| elRound st i db' s' master :
    campaignRound (clock st) (mret tt) (elOld st i) (elDb st i, elStore st) =
      Ok (master, (db', s')) →
    elStep st (mkElection (clock st) s' (upd (elDb st) i db') (upd (elOld st) i master)
                 (upd (elSet st) i (clock st))).

(** A round in time: a leader renews its key before it expires. *)
Inductive timelyStep : election → election → Prop :=
| timelyTick st t : clock st ≤ t →
    timelyStep st (mkElection t (elStore st) (elDb st) (elOld st) (elSet st))
| timelyRound st i db' s' master :
    (isLeader st i → reigns st i) →
    campaignRound (clock st) (mret tt) (elOld st i) (elDb st i, elStore st) =
      Ok (master, (db', s')) →
    timelyStep st (mkElection (clock st) s' (upd (elDb st) i db') (upd (elOld st) i master)
                     (upd (elSet st) i (clock st))).

(** Every master has its database; a leader whose key has not expired holds it. *)
Definition electionInv (st : election) : Prop :=
  (∀ i, ∃ e, masterDb (address i) e (elDb st i)) ∧
  (∀ i t, reigns st i → clock st ≤ t < elSet st i + electionTTL →
     keyAt (elStore st) t = Some (address i)).

Lemma masterDb_det ip ip' e e' db : masterDb ip e db → masterDb ip' e' db → e = e' ∧ ip = ip'.
Proof.
  intros (_ & _ & He & m & Hm & _ & Hip) (_ & _ & He' & m' & Hm' & _ & Hip'). split.
  - rewrite He in He'. apply map_singleton_inj in He' as [_ ?]. done.
  - rewrite Hm in Hm'. apply map_singleton_inj in Hm' as [_ <-]. congruence.
Qed.

Lemma reigns_unique st i j : electionInv st → reigns st i → reigns st j → i = j.
Proof.
  intros [_ Hkey] Hi Hj. apply address_inj.
  pose proof (Hkey i (clock st) Hi) as H1. pose proof (Hkey j (clock st) Hj) as H2.
  destruct Hi as [_ Hi], Hj as [_ Hj]. rewrite H1 in H2 by lia. specialize (H2 ltac:(lia)). congruence.
Qed.

(** What a round of [i] leaves of the others, and what it means for [i]. *)
Lemma isLeader_other st i j db' s' master :
  j ≠ i →
  isLeader (mkElection (clock st) s' (upd (elDb st) i db') (upd (elOld st) i master)
              (upd (elSet st) i (clock st))) j ↔ isLeader st j.
Proof. intros Hj. unfold isLeader, upd. cbn [elDb]. by rewrite decide_False. Qed.

Lemma round_run st i e :
  masterDb (address i) e (elDb st i) →
  let '(err, s') := (if etcdLeader e then storeUpdate else storeCreate) (clock st) (address i) (elStore st) in
  ∀ master db' s2, campaignRound (clock st) (mret tt) (elOld st i) (elDb st i, elStore st) =
      Ok (master, (db', s2)) →
    s2 = s' ∧ ∃ e', masterDb (address i) e' db' ∧ etcdLeader e' = match err with None => true | Some _ => false end.
Proof.
  intros Hdb. pose proof (campaign_run (clock st) (elOld st i) (address i) e (elDb st i) (elStore st) Hdb) as Hrun.
  destruct ((if etcdLeader e then storeUpdate else storeCreate) (clock st) (address i) (elStore st)) as [err s'].
  destruct Hrun as (db1 & e' & Heq & He' & Hl). intros master db' s2. rewrite Heq. intros [= <- <- <-]. eauto.
Qed.

Lemma timelyStep_inv st st' : timelyStep st st' → electionInv st → electionInv st'.
Proof.
  intros Hstep [Hdb Hkey]. destruct Hstep as [st t Ht|st i db' s' master Htimely Hrun].
  - split; [exact Hdb|]. intros i t' [Hl Hc] Ht'. cbn [clock elSet elStore elDb] in *.
    apply Hkey; [|lia]. split; [exact Hl|lia].
  - destruct (Hdb i) as [e He]. pose proof (round_run st i e He) as Hround.
    destruct ((if etcdLeader e then storeUpdate else storeCreate) (clock st) (address i) (elStore st))
      as [err s2] eqn:Hop.
    destruct (Hround _ _ _ Hrun) as (-> & e' & He' & Hl'). clear Hround.
    assert (∀ j t, j ≠ i → reigns st j → clock st ≤ t < elSet st j + electionTTL →
              keyAt s2 t = Some (address j)) as Hothers.
    { intros j t Hj Hreign Ht. destruct err as [err|].
      - rewrite <- (Hkey j t Hreign Ht). destruct (etcdLeader e);
          [eapply update_err|eapply create_err]; [exact Hop|lia|exact Hop|lia].
      - destruct (etcdLeader e) eqn:Hle.
        + destruct Hj. symmetry. apply (reigns_unique st); [by split| |done].
          apply Htimely. by exists e.
        + destruct (create_ok _ _ _ _ Hop) as [Hnone _].
          rewrite (Hkey j (clock st) Hreign) in Hnone by lia. done. }
    split.
    + intros j. unfold upd. cbn [elDb]. case_decide as Hj; [subst; eauto|apply Hdb].
    + intros j t [Hlead Hc] Ht. cbn [clock elSet elStore] in *. unfold upd in Hc, Ht.
      destruct (decide (j = i)) as [->|Hj].
      * destruct Hlead as (e2 & He2 & Hl2). cbn [elDb] in He2. unfold upd in He2.
        rewrite decide_True in He2 by done. destruct (masterDb_det _ _ _ _ _ He2 He') as [-> _].
        destruct err; [congruence|].
        assert (keyAt s2 t = if decide (t < clock st + electionTTL) then Some (address i) else None) as ->.
        { destruct (etcdLeader e); [eapply update_ok|eapply create_ok]; [exact Hop|lia|exact Hop|lia]. }
        by rewrite decide_True by lia.
      * apply Hothers; [done| |lia]. split; [|lia]. by apply isLeader_other in Hlead.
Qed.

(** At the start nobody is the leader. *)
Definition noLeaders (st : election) : Prop :=
  ∀ i, ∃ e, masterDb (address i) e (elDb st i) ∧ etcdLeader e = false.

(** C10: At most one master is the leader, as long as leaders are in time: whatever
    the order of the rounds of the masters and whatever operations of the store
    fail, no two masters have the leader flag and a key that has not expired, if a
    master that has the flag renews its key before it expires. *)
Theorem election_safe (st0 st : election) (i j : nat) :
  noLeaders st0 → rtc timelyStep st0 st → reigns st i → reigns st j → i = j.
Proof.
  intros Hno Hsteps. apply reigns_unique. assert (electionInv st0) as Hinv.
  { split; [intros k; destruct (Hno k) as (e & He & _); eauto|].
    intros k t [(e & He & Hl) _] _. destruct (Hno k) as (e2 & He2 & Hl2).
    destruct (masterDb_det _ _ _ _ _ He He2) as [-> _]. congruence. }
  clear Hno. induction Hsteps as [|st1 st2 st3 Hs _ IH]; [done|]. by eapply IH, timelyStep_inv.
Qed.

End Election.

(** ** A leader that is late

    The store that does what the elector relies on and nothing more: one key with
    the time at which it expires. *)

Module Lease.

Definition lease : Type := option (string * Z).

Definition leaseAt (s : lease) (t : Z) : option string :=
  match s with
  | Some (ip, expires) => if decide (t < expires) then Some ip else None
  | None => None
  end.

#[global] Instance leaseStore : LeaderStore lease := {|
  keyAt := leaseAt;
  storeCreate := λ now ip s,
    match leaseAt s now with
    | None => (None, Some (ip, now + electionTTL))
    | Some _ => (Some NodeExist, s)
    end;
  storeUpdate := λ now ip s,
    match leaseAt s now with
    | Some _ => (None, Some (ip, now + electionTTL))
    | None => (Some OtherError, s)
    end
|}.

#[global] Instance leaseLaws : LeaderLaws lease.
Proof.
  split; cbn [storeCreate storeUpdate keyAt leaseStore]; intros now ip s.
  - intros s' Hop. destruct (leaseAt s now) eqn:Hk; [done|]. injection Hop as <-. done.
  - intros s' Hop. destruct (leaseAt s now) eqn:Hk; [|done]. injection Hop as <-. eauto.
  - intros e s' Hop. destruct (leaseAt s now) eqn:Hk; [|done]. by injection Hop as _ <-.
  - intros e s' Hop. destruct (leaseAt s now) eqn:Hk; [done|]. by injection Hop as _ <-.
Qed.

Definition address (i : nat) : string := String.concat "" (replicate (S i) "1"%string).

Lemma address_length i : String.length (address i) = S i.
Proof.
  unfold address. induction i as [|i IH]; [done|].
  change (S (String.length (String.concat "" (replicate (S i) "1"%string))) = S (S i)). by rewrite IH.
Qed.

Lemma address_inj i j : address i = address j → i = j.
Proof. intros Heq%(f_equal String.length). rewrite !address_length in Heq. lia. Qed.

(** The database of a master at the start. *)
Definition db (i : nat) : Database :=
  setTable (mkTable {[1 := mkMinion 1 "" Master (address i)]} ∅ 0 0)
    (setTable (mkTable {[2 := mkEtcd 2 None false ""]} ∅ 0 0) (setIdAlloc 2 newDatabase)).

Definition start : election := mkElection 0 (None : lease) db (λ _, false) (λ _, 0).

Lemma db_master i : masterDb (address i) (mkEtcd 2 None false "") (db i).
Proof.
  split_and!.
  - apply (dbWF_setTable (R := Minion));
      [apply (dbWF_setTable (R := Etcd)); [apply dbWF_setIdAlloc; [apply newDatabase_wf|done]|]|];
      by apply map_Forall_singleton.
  - intros Heq%(f_equal String.length). by rewrite address_length in Heq.
  - done.
  - by exists (mkMinion 1 "" Master (address i)).
Qed.

Lemma start_noLeaders : noLeaders address start.
Proof. intros i. exists (mkEtcd 2 None false ""). split; [apply db_master|done]. Qed.

End Lease.

Section SplitBrain.
Context `{MapRange}.
Abbreviation leads := (isLeader (S := Lease.lease) Lease.address).
Abbreviation round st st' i := (∃ db' s' master,
  campaignRound (clock st) (mret tt) (elOld st i) (elDb st i, elStore st) = Ok (master, (db', s')) ∧
  st' = mkElection (clock st) s' (upd (elDb st) i db') (upd (elOld st) i master)
          (upd (elSet st) i (clock st))).

(** A round returns, and makes the master the leader if it may set the key. *)
Lemma lease_round (st : election (S := Lease.lease)) i e :
  masterDb (Lease.address i) e (elDb st i) →
  (etcdLeader e = true ↔ is_Some (keyAt (elStore st) (clock st))) →
  ∃ st', round st st' i ∧ leads st' i ∧ clock st' = clock st ∧ elSet st' i = clock st ∧
    elStore st' = Some (Lease.address i, clock st + electionTTL) ∧
    ∀ j, j ≠ i → elDb st' j = elDb st j ∧ elSet st' j = elSet st j.
Proof.
  intros Hdb Hkey.
  pose proof (campaign_run (clock st) (elOld st i) (Lease.address i) e (elDb st i) (elStore st) Hdb) as Hrun.
  assert ((if etcdLeader e then storeUpdate else storeCreate) (clock st) (Lease.address i) (elStore st) =
    (None, Some (Lease.address i, clock st + electionTTL))) as Hop.
  { cbn [storeCreate storeUpdate keyAt Lease.leaseStore] in *.
    destruct (etcdLeader e), (Lease.leaseAt (elStore st) (clock st)) as [ip|]; try done.
    - destruct (proj1 Hkey eq_refl) as [? [=]].
    - assert (false = true) by (apply Hkey; eauto). done. }
  rewrite Hop in Hrun. destruct Hrun as (db' & e' & Heq & Hdb' & Hl).
  eexists. split_and!; [by eexists _, _, _| |done| |done|].
  - exists e'. cbn [elDb]. unfold upd. by rewrite decide_True.
  - cbn [elSet]. unfold upd. by rewrite decide_True.
  - intros j Hj. cbn [elDb elSet]. unfold upd. by rewrite !decide_False.
Qed.

(** Both lead, and the key is there. *)
Definition bothLead (i j : nat) (st : election (S := Lease.lease)) : Prop :=
  leads st i ∧ leads st j ∧ is_Some (keyAt (elStore st) (clock st)).

Lemma bothLead_round i j st :
  i ≠ j → bothLead i j st → ∃ st', round st st' i ∧ bothLead i j st' ∧ clock st' = clock st.
Proof.
  intros Hij ((e & He & Hle) & Hj & Hk). destruct (lease_round st i e He) as
    (st' & Hround & Hl & Hc & _ & Hs & Hother); [by rewrite Hle|].
  exists st'. split_and!; [done| |done]. destruct (Hother j) as [Hdb _]; [done|].
  split_and!; [done| |].
  - unfold isLeader. by rewrite Hdb.
  - rewrite Hs, Hc. cbn. rewrite decide_True by (unfold electionTTL; lia). eauto.
Qed.

Lemma isLeader_tick st t i :
  leads st i → leads (mkElection t (elStore st) (elDb st) (elOld st) (elSet st)) i.
Proof. done. Qed.

(** C33: A leader that is late brings about two leaders. There is a run in which
    master 0 becomes the leader and lets its key expire, master 1 becomes the leader,
    and master 0, whose database still says that it is the leader, updates the key of
    master 1: both have the leader flag, and each set the key less than the TTL ago.
    This does not heal: as long as the key does not expire, further rounds of the two
    leave them both leaders. *)
Theorem election_split_brain :
  (∃ st, rtc (elStep (S := Lease.lease)) Lease.start st ∧
     reigns Lease.address st 0 ∧ reigns Lease.address st 1) ∧
  (∀ i j st, i ≠ j → bothLead i j st →
     (∃ st', round st st' i ∧ bothLead i j st') ∧ (∃ st', round st st' j ∧ bothLead i j st')).
Proof.
  split; cycle 1.
  { intros i j st Hij Hb. split.
    - destruct (bothLead_round i j st Hij Hb) as (st' & ? & ? & _). eauto.
    - destruct (bothLead_round j i st) as (st' & ? & (? & ? & ?) & _); [done| |].
      { destruct Hb as (? & ? & ?). by split_and!. }
      exists st'. split; [done|]. by split_and!. }
  destruct (lease_round Lease.start 0 _ (Lease.db_master 0)) as (st1 & R1 & L1 & C1 & _ & S1 & O1).
  { split; [done|]. by intros [? [=]]. }
  set (st2 := mkElection 31 (elStore st1) (elDb st1) (elOld st1) (elSet st1)).
  destruct (lease_round st2 1 (mkEtcd 2 None false "")) as (st3 & R3 & L3 & C3 & T3 & S3 & O3).
  { subst st2. cbn [elDb]. destruct (O1 1%nat) as [-> _]; [done|]. apply Lease.db_master. }
  { subst st2. cbn [elStore clock]. rewrite S1. split; [done|]. by intros [? [=]]. }
  assert (leads st3 0) as L3'.
  { unfold isLeader. destruct (O3 0%nat) as [-> _]; [done|]. exact L1. }
  destruct L3' as (e & He & Hle).
  destruct (lease_round st3 0 e He) as (st4 & R4 & L4 & C4 & T4 & S4 & O4).
  { rewrite Hle, S3, C3. split; [|done]. intros _. by eexists. }
  exists st4. split_and!.
  - destruct R1 as (d1 & s1 & m1 & R1 & ->). eapply rtc_l; [eapply elRound, R1|].
    eapply rtc_l; [apply (elTick _ 31); cbn; lia|].
    destruct R3 as (d3 & s3 & m3 & R3 & ->). eapply rtc_l; [eapply elRound, R3|].
    destruct R4 as (d4 & s4 & m4 & R4 & ->). eapply rtc_l; [eapply elRound, R4|]. reflexivity.
  - split; [done|]. rewrite C4, T4. unfold electionTTL. lia.
  - destruct (O4 1%nat) as [D4 E4]; [done|]. split.
    + unfold isLeader. by rewrite D4.
    + rewrite E4, T3, C4, C3. subst st2. cbn. unfold electionTTL. lia.
Qed.

End SplitBrain.

#[local] Existing Instance mapToListRange.

Lemma election_safe_witness :
  ∃ st, rtc (timelyStep (S := Lease.lease) Lease.address) Lease.start st ∧
    reigns Lease.address st 0 ∧ ∀ j, reigns Lease.address st j → 0%nat = j.
Proof.
  destruct (lease_round Lease.start 0 _ (Lease.db_master 0)) as (st1 & R1 & L1 & C1 & T1 & S1 & O1).
  { split; [discriminate|]. intros [? [=]]. }
  assert (rtc (timelyStep (S := Lease.lease) Lease.address) Lease.start st1) as Hsteps.
  { destruct R1 as (d1 & s1 & m1 & R1 & ->). eapply rtc_l; [|reflexivity]. eapply timelyRound; [|exact R1].
    intros (e & He & Hle). destruct (masterDb_det _ _ _ _ _ He (Lease.db_master 0)) as [-> _]. discriminate. }
  assert (reigns Lease.address st1 0) as Hreign.
  { split; [exact L1|]. rewrite C1, T1. cbn. unfold electionTTL. lia. }
  exists st1. split; [exact Hsteps|]. split; [exact Hreign|]. intros j Hj.
  apply (election_safe Lease.address Lease.address_inj Lease.start st1 0 j);
    [exact Lease.start_noLeaders|exact Hsteps|exact Hreign|exact Hj].
Defined.
