(* ===== verification/Supervisor.v ===== *)
(** * minion/supervisor: the containers of the system and of the application

    Model of [src/minion/supervisor/supervisor.go]. The supervisor starts and removes
    the containers that a minion of its role needs, and makes the container table of
    a worker mirror the application containers that docker runs. It uses docker
    through the interface [DockerAPI]. *)

From stdpp Require Import base gmap list strings.
From Stdlib Require Import ZArith Lia.
From S2P Require Import Prelude Join DbRows Db DbProps Reconcile MinionEngine Docker DockerClient.

Local Open Scope Z_scope.
Local Open Scope string_scope.

(** ** Names and images *)

Definition EtcdName : string := "etcd".
Definition Ovncontroller : string := "ovn-controller".
Definition Ovnnorthd : string := "ovn-northd".
Definition Ovsdb : string := "ovsdb-server".
Definition Ovsvswitchd : string := "ovs-vswitchd".
Definition Swarm : string := "swarm".

Definition images : gmap string string := list_to_map [
  (EtcdName, "quay.io/coreos/etcd:v2.2.4");
  (Ovncontroller, "quay.io/netsys/ovn-controller");
  (Ovnnorthd, "quay.io/netsys/ovn-northd");
  (Ovsdb, "quay.io/netsys/ovsdb-server");
  (Ovsvswitchd, "quay.io/netsys/ovs-vswitchd");
  (Swarm, "swarm:1.2.0")].

Definition etcdHeartbeatInterval : string := "500".
Definition etcdElectionTimeout : string := "5000".

Record supervisor : Type := mkSupervisor {
  svRole : Role;
  svEtcdIPs : slice string;
  svLeaderIP : string;
  svIP : string;
  svLeader : bool
}.

(** ** Arguments *)

Definition nodeName (IP : string) : string := "master-" ++ IP.

Definition initialClusterString (etcdIPs : slice string) : string :=
  String.concat "," ((λ ip, nodeName ip ++ "=http://" ++ ip ++ ":2380") <$> elems etcdIPs).

Definition workerEtcdArgs (etcdIPs : slice string) : list string :=
  ["--initial-cluster=" ++ initialClusterString etcdIPs;
   "--heartbeat-interval=" ++ etcdHeartbeatInterval;
   "--election-timeout=" ++ etcdElectionTimeout;
   "--proxy=on"].

Definition masterEtcdArgs (IP : string) (etcdIPs : slice string) : list string :=
  ["--name=master-" ++ IP;
   "--initial-cluster=" ++ initialClusterString etcdIPs;
   "--advertise-client-urls=http://" ++ IP ++ ":2379";
   "--listen-peer-urls=http://" ++ IP ++ ":2380";
   "--initial-advertise-peer-urls=http://" ++ IP ++ ":2380";
   "--listen-client-urls=http://0.0.0.0:2379";
   "--heartbeat-interval=" ++ etcdHeartbeatInterval;
   "--initial-cluster-state=new";
   "--election-timeout=" ++ etcdElectionTimeout].

Definition workerSwarmArgs (IP : string) : list string :=
  ["join"; "--addr=" ++ IP ++ ":2375"; "etcd://127.0.0.1:2379"].

Definition masterSwarmArgs (IP : string) : list string :=
  let swarmAddr := IP ++ ":2377" in
  ["manage"; "--replication"; "--addr=" ++ swarmAddr; "--host=" ++ swarmAddr;
   "etcd://127.0.0.1:2379"].

Definition quoted (s : string) : string :=
  String (Ascii.ascii_of_nat 34) s ++ String (Ascii.ascii_of_nat 34) "".

Definition vsctlArgs (IP leaderIP MinionID : string) : list string :=
  ["ovs-vsctl"; "set"; "Open_vSwitch"; ".";
   "external_ids:ovn-remote=" ++ quoted ("tcp:" ++ leaderIP ++ ":6640");
   "external_ids:ovn-encap-ip=" ++ IP;
   "external_ids:ovn-encap-type=" ++ quoted "geneve";
   "external_ids:api_server=" ++ quoted ("http://" ++ leaderIP ++ ":9000");
   "external_ids:system-id=" ++ quoted ("di-" ++ MinionID);
   "--"; "add-br"; "di-int";
   "--"; "set"; "bridge"; "di-int"; "fail_mode=secure"].

(** The options that [run] passes to docker. *)
Definition systemOptions (name : string) (args : list string) : RunOptions :=
  let fromOvsdb := bool_decide (name = Ovsvswitchd ∨ name = Ovnnorthd ∨ name = Ovncontroller) in
  mkRunOptions name (default "" (images !! name)) args ∅ ∅
    (if bool_decide (name = EtcdName ∨ name = Ovsdb)
     then ["/usr/share/ca-certificates:/etc/ssl/certs"] else [])
    "host" "" (bool_decide (name = Ovsvswitchd)) (if fromOvsdb then [Ovsdb] else []).

(** ** The system containers *)

Section Supervisor.
Context {C : Type} `{DockerAPI C} `{MapRange}.

Abbreviation S := (M Empty_set (Database * C)).

(** The errors of docker are only logged. *)
Definition run (name : string) (args : list string) : S unit :=
  _ ← inWorld (dkRun (systemOptions name args)); mret tt.

Definition svRemove (name : string) : S unit := _ ← inWorld (dkRemove name); mret tt.

Definition RemoveAll : S unit :=
  entries ← rangeOf images; forEach (λ p, svRemove p.1) entries.

Definition when (b : bool) (c : S unit) : S unit := if b then c else mret tt.

Definition selectMinions : S (list Minion) := onDb (Transact (SelectFrom (R := Minion) None)).
Definition selectEtcds : S (list Etcd) := onDb (Transact (SelectFrom (R := Etcd) None)).

Definition updateWorker (sv : supervisor) (IP leaderIP : string) (etcdIPs : slice string) : S unit :=
  _ ← when (negb (bool_decide (svEtcdIPs sv = etcdIPs))) (svRemove EtcdName);
  _ ← when (negb (bool_decide (svLeaderIP sv = leaderIP)) || negb (bool_decide (svIP sv = IP)))
        (svRemove Swarm);
  _ ← run EtcdName (workerEtcdArgs etcdIPs);
  _ ← run Ovsdb [];
  _ ← run Ovsvswitchd [];
  if bool_decide (leaderIP = "") || bool_decide (IP = "") then mret tt
  else
    _ ← run Swarm (workerSwarmArgs IP);
    minions ← selectMinions;
    match minions with
    | [m] =>
        _ ← inWorld (dkExec Ovsvswitchd (vsctlArgs IP leaderIP (minionMinionID m)));
        _ ← svRemove Ovncontroller;
        run Ovncontroller []
    | _ => mret tt
    end.

Definition updateMaster (sv : supervisor) (IP : string) (etcdIPs : slice string) (leader : bool)
    : S unit :=
  _ ← when (negb (bool_decide (svIP sv = IP)) || negb (bool_decide (svEtcdIPs sv = etcdIPs)))
        (svRemove EtcdName);
  _ ← when (negb (bool_decide (svIP sv = IP))) (svRemove Swarm);
  if bool_decide (IP = "") || bool_decide (elems etcdIPs = []) then mret tt
  else
    _ ← run EtcdName (masterEtcdArgs IP etcdIPs);
    _ ← run Ovsdb [];
    _ ← run Swarm (masterSwarmArgs IP);
    if leader then run Ovnnorthd [] else svRemove Ovnnorthd.

(** The configuration in the database; a table without exactly one row counts as
    the zero row. *)
Definition configOf (minions : list Minion) (etcdRows : list Etcd) : supervisor :=
  let minion := match minions with [m] => m | _ => zeroRow 0 end in
  let etcdRow := match etcdRows with [e] => e | _ => zeroRow 0 end in
  mkSupervisor (minionRole minion) (etcdEtcdIPs etcdRow) (etcdLeaderIP etcdRow)
    (minionPrivateIP minion) (etcdLeader etcdRow).

#[global] Instance supervisor_eq_dec : EqDecision supervisor.
Proof. solve_decision. Defined.

(** [runSystemOnce], which returns the new state of the supervisor. *)
Definition runSystemOnce (sv : supervisor) : S supervisor :=
  minions ← selectMinions;
  etcdRows ← selectEtcds;
  let cfg := configOf minions etcdRows in
  if decide (sv = cfg) then mret sv
  else
    _ ← when (negb (bool_decide (svRole cfg = svRole sv))) RemoveAll;
    _ ← match svRole cfg with
        | Master => updateMaster sv (svIP cfg) (svEtcdIPs cfg) (svLeader cfg)
        | Worker => updateWorker sv (svIP cfg) (svLeaderIP cfg) (svEtcdIPs cfg)
        | _ => mret tt
        end;
    mret cfg.

(** ** The application containers *)

Definition appScore (dbc : Container) (dkc : DockerContainer) : Z :=
  if decide (containerSchedID dbc ≠ dkID dkc) then -1 else 0.

Definition updateApp (dkc : DockerContainer) (dbc : Container) : Container :=
  mkContainer (containerID dbc) (dkPid dkc) (containerIP dbc) (containerMac dbc) (dkID dkc)
    (dkImage dkc) (Some (dkPath dkc :: dkArgs dkc)) (containerLabels dbc) (containerEnv dbc)
    (containerExclusive dbc).

(** [runAppTransact], which returns the IDs of the containers that are gone. *)
Definition runAppTransact (dkcsArgs : list DockerContainer) : DB (list string) :=
  dbcs ← SelectFrom (R := Container) None;
  _ ← reconcileRows updateApp appScore dbcs dkcsArgs;
  mret (containerSchedID <$> lonelyLefts (Join appScore dbcs dkcsArgs)).

(** [delStopped]: the name of a stopped container starts with a slash. *)
Definition delStopped : S unit :=
  containers ← inWorld (dkList {["status" := ["exited"]]});
  match containers with
  | None => mret tt
  | Some l => forEach (λ dkc, match dkName dkc with
                              | "" => panic "slice bounds out of range"
                              | String _ name => svRemove name
                              end) l
  end.

Definition SchedulerLabelPair : string := SchedulerLabelKey ++ "=" ++ SchedulerLabelValue.

(** One iteration of [runApp]. *)
Definition runAppOnce : S unit :=
  minions ← selectMinions;
  match minions with
  | [m] =>
      if decide (minionRole m = Worker) then
        _ ← delStopped;
        dkcs ← inWorld (dkList {["label" := [SchedulerLabelPair]]});
        match dkcs with
        | None => mret tt
        | Some l => _ ← onDb (Transact (runAppTransact l)); mret tt
        end
      else mret tt
  | _ => mret tt
  end.

End Supervisor.

(** ** What the system containers should be *)

(** The arguments of a system container under a configuration, if its role has it. *)
Definition systemArgs (cfg : supervisor) (name : string) : option (list string) :=
  match svRole cfg with
  | Worker =>
      if decide (name = EtcdName) then Some (workerEtcdArgs (svEtcdIPs cfg))
      else if decide (name = Swarm) then Some (workerSwarmArgs (svIP cfg))
      else if decide (name = Ovsdb ∨ name = Ovsvswitchd ∨ name = Ovncontroller) then Some []
      else None
  | Master =>
      if decide (name = EtcdName) then Some (masterEtcdArgs (svIP cfg) (svEtcdIPs cfg))
      else if decide (name = Swarm) then Some (masterSwarmArgs (svIP cfg))
      else if decide (name = Ovsdb ∨ name = Ovnnorthd) then Some []
      else None
  | RoleNone => None
  end.

(** The system containers that a complete configuration asks for. *)
Definition wantedSystem (cfg : supervisor) : gset string :=
  match svRole cfg with
  | Worker => {[EtcdName; Ovsdb; Ovsvswitchd; Swarm; Ovncontroller]}
  | Master => {[EtcdName; Ovsdb; Swarm]} ∪ (if svLeader cfg then {[Ovnnorthd]} else ∅)
  | RoleNone => ∅
  end.

Definition completeConfig (cfg : supervisor) : Prop :=
  svIP cfg ≠ "" ∧
  match svRole cfg with
  | Worker => svLeaderIP cfg ≠ ""
  | Master => elems (svEtcdIPs cfg) ≠ []
  | RoleNone => False
  end.

(** A container that [run] made with these arguments, running or not. *)
Definition madeBy (name : string) (args : list string) (c : sysContainer) : Prop :=
  let o := systemOptions name args in
  c = createdFrom o ∨ c = startWith (hostConfig o) (createdFrom o).

(** Every system container was made with the arguments that [f] says. *)
Definition allowed (f : string → option (list string)) (m : gmap string sysContainer) : Prop :=
  ∀ name c, name ∈ dom images → m !! name = Some c → ∃ args, f name = Some args ∧ madeBy name args c.

Definition running (m : gmap string sysContainer) (name : string) : Prop :=
  ∃ c h, m !! name = Some c ∧ scHost c = Some h.

Lemma images_named name : name ∈ dom images → name ≠ "".
Proof. intros Hin ->. by apply elem_of_dom in Hin as [? [=]]. Qed.

Lemma systemArgs_image cfg name args : systemArgs cfg name = Some args → name ∈ dom images.
Proof.
  assert (∀ n, n ∈ [EtcdName; Swarm; Ovsdb; Ovsvswitchd; Ovncontroller; Ovnnorthd] → n ∈ dom images) as Him.
  { apply Forall_forall. repeat constructor; apply elem_of_dom; by eexists. }
  unfold systemArgs. intros Ha. apply Him. destruct (svRole cfg); [done|..];
    repeat (case_decide as Hn; [|clear Hn]); try discriminate Ha; set_solver.
Qed.

(** [hostConfig] does not depend on the arguments. *)
Lemma madeBy_start name args c :
  madeBy name args c → madeBy name args (startWith (hostConfig (systemOptions name args)) c).
Proof. intros [->| ->]; right; done. Qed.

Lemma allowed_run f name args m r m' :
  f name = Some args → allowed f m → runSpec (systemOptions name args) m r m' →
  allowed f m' ∧ (∀ n, n ≠ name → m' !! n = m !! n) ∧ (r = None → running m' name).
Proof.
  intros Hf Ha Hrun. set (o := systemOptions name args) in *. change (optName o) with name in *.
  destruct Hrun as [|e|e]; change (optName o) with name; split_and!; try done.
  - intros n c Hn [[<- <-]|[Hne Hc]]%lookup_insert_Some; [|by apply Ha]. exists args. split; [done|].
    apply madeBy_start. destruct (m !! name) as [c0|] eqn:Hc0; [|by left].
    destruct (Ha name c0 Hn Hc0) as (args' & Hf' & Hm). by simplify_eq.
  - intros n Hn. by apply lookup_insert_ne.
  - intros _. eexists _, _. rewrite lookup_insert_eq. split; [done|]. done.
  - intros n c Hn [_ Hc]%lookup_delete_Some. by apply Ha.
  - intros n Hn. by apply lookup_delete_ne.
Qed.

Lemma allowed_delete f n m : allowed f m → allowed f (delete n m).
Proof. intros Ha name c Hn [_ Hc]%lookup_delete_Some. by apply Ha. Qed.

(** Changing the configuration is fine where the containers are gone. *)
Lemma allowed_change f f' (gone : gset string) m :
  allowed f m → (∀ n, n ∈ gone → m !! n = None) →
  (∀ n, n ∈ dom images → n ∉ gone → f n = f' n) → allowed f' m.
Proof.
  intros Ha Hgone Hf n c Hn Hc. destruct (decide (n ∈ gone)) as [Hin|Hin].
  - rewrite (Hgone n Hin) in Hc. done.
  - rewrite <- (Hf n Hn Hin). by apply Ha.
Qed.

(** ** The commands, as triples *)

Section Rules.
Context {C : Type} `{DockerLaws C} `{MapRange}.

(** Whether docker starts every container it is asked for; the rows of the minion
    table, which the supervisor only reads. *)
Context (reliable : bool) (minionRows : gmap Z Minion).
Hypothesis runs_succeed : reliable = true → ∀ o c r c',
  dkHealthy c → dkRun o c = Ok (r, c') → r = None.

Definition sysState (f : string → option (list string)) (gone up : gset string)
    (s : Database * C) : Prop :=
  dkHealthy s.2 ∧ allowed f (dkNamed s.2) ∧ rows (MinionTable s.1) = minionRows ∧
  (∀ n, n ∈ gone → dkNamed s.2 !! n = None) ∧
  (reliable = true → ∀ n, n ∈ up → running (dkNamed s.2) n).

Lemma run_rule f up name args :
  f name = Some args → name ≠ "" →
  returns (sysState f ∅ up) (run name args) (λ _, sysState f ∅ ({[name]} ∪ up)).
Proof.
  intros Hf Hname [db c] (Hc & Ha & Hdb & _ & Hup). cbn [fst snd] in *.
  destruct (dkRun_law (systemOptions name args) c Hc Hname) as (r & c' & Hrun & Hspec & Hc').
  destruct (allowed_run f name args _ _ _ Hf Ha Hspec) as (Ha' & Hother & Hr).
  exists tt, (db, c'). split.
  - unfold run, mbind, M_bind, inWorld. cbn [fst snd]. by rewrite Hrun.
  - split_and!; [done|done|done|set_solver|]. cbn [snd]. intros Hrel n Hn.
    destruct (decide (n = name)) as [->|Hne].
    + apply Hr. exact (runs_succeed Hrel _ _ _ _ Hc Hrun).
    + destruct (Hup Hrel n) as (c0 & h & ? & ?); [set_solver|]. exists c0, h. by rewrite Hother.
Qed.

Lemma remove_rule f gone up name :
  name ≠ "" →
  returns (sysState f gone up) (svRemove name) (λ _, sysState f ({[name]} ∪ gone) (up ∖ {[name]})).
Proof.
  intros Hname [db c] (Hc & Ha & Hdb & Hgone & Hup). cbn [fst snd] in *.
  destruct (dkRemove_law name c Hc Hname) as (c' & Hrun & Hm & Hc').
  exists tt, (db, c'). split.
  - unfold svRemove, mbind, M_bind, inWorld. cbn [fst snd]. by rewrite Hrun.
  - unfold sysState. cbn [fst snd]. rewrite Hm. split_and!; [done|by apply allowed_delete|done|..].
    + intros n Hn. apply lookup_delete_None. set_solver.
    + intros Hrel n Hn. destruct (Hup Hrel n) as (c0 & h & ? & ?); [set_solver|].
      exists c0, h. rewrite lookup_delete_ne by set_solver. done.
Qed.

Lemma exec_rule f gone up name cmd :
  name ≠ "" →
  returns (sysState f gone up) (inWorld (dkExec name cmd)) (λ _, sysState f gone up).
Proof.
  intros Hname [db c] (Hc & Ha & Hdb & Hgone & Hup). cbn [fst snd] in *.
  destruct (dkExec_law name cmd c Hc Hname) as (r & c' & Hrun & Hm & Hc').
  exists r, (db, c'). split.
  - unfold inWorld. cbn [fst snd]. by rewrite Hrun.
  - unfold sysState. cbn [fst snd]. by rewrite Hm.
Qed.

Lemma when_remove_rule f gone up name (b : bool) :
  name ≠ "" →
  returns (sysState f gone up) (when b (svRemove name))
    (λ _, sysState f (if b then {[name]} ∪ gone else gone) (up ∖ {[name]})).
Proof.
  intros Hname. destruct b; [by apply remove_rule|]. apply returns_ret.
  intros s (? & ? & ? & ? & Hup). split_and!; try done. intros Hrel n Hn. apply Hup; [done|set_solver].
Qed.

Lemma rangeOf_rule {K V} `{Countable K} (m : gmap K V) f gone up :
  returns (sysState f gone up) (rangeOf m)
    (λ l s, l ≡ₚ map_to_list m ∧ sysState f gone up s).
Proof.
  intros [db c] Hs. eexists _, _. split; [done|]. split; [apply rangeOrder_perm|]. exact Hs.
Qed.

Lemma removeAll_rule f gone up :
  returns (sysState f gone up) RemoveAll (λ _, sysState f (dom images) ∅).
Proof.
  unfold RemoveAll. eapply returns_bind; [apply rangeOf_rule|]. intros l [db c] [Hl Hs].
  assert (∀ n, n ∈ l.*1 → n ∈ dom images) as Hdom.
  { intros n Hn. rewrite Hl in Hn. apply list_elem_of_fmap in Hn as ([k v] & -> & Hk%elem_of_map_to_list).
    apply elem_of_dom. eauto. }
  assert (returns (sysState f (dom images ∖ list_to_set l.*1) ∅) (forEach (λ p, svRemove p.1) l)
            (λ _, sysState f (dom images ∖ list_to_set ([] : list (string * string)).*1) ∅)) as Hloop.
  { apply (returns_forEach (λ l, sysState f (dom images ∖ list_to_set l.*1) ∅)).
    intros [k v] l' Hin. eapply returns_weaken; [apply (remove_rule f (dom images ∖ list_to_set ((k, v) :: l').*1) ∅ k)|done|].
    - apply images_named, Hdom, list_elem_of_fmap. by exists (k, v).
    - intros [] s (? & ? & ? & Hg & Hu). split_and!; try done. intros n Hn. apply Hg.
      rewrite fmap_cons. cbn [fst list_to_set]. destruct (decide (n = k)); set_solver. }
  destruct (Hloop (db, c)) as ([] & s' & Hrun & Hs').
  { destruct Hs as (? & ? & ? & Hg & _). split_and!; try done. intros n Hn. exfalso.
    apply elem_of_difference in Hn as [Hn Hn']. apply Hn', elem_of_list_to_set. rewrite Hl.
    apply elem_of_dom in Hn as [v Hv]. apply list_elem_of_fmap. exists (n, v). by rewrite elem_of_map_to_list. }
  exists tt, s'. split; [done|]. destruct Hs' as (? & ? & ? & Hg & _). split_and!; try done.
Qed.

Lemma select_rule {R} `{Row R} f gone up :
  returns (sysState f gone up) (onDb (Transact (SelectFrom (R := R) None)))
    (λ _, sysState f gone up).
Proof.
  intros [db c] Hs. eexists _, _. unfold onDb. cbn [fst snd].
  rewrite (Transact_run _ db _ (countLoop db)) by done. split; [done|].
  destruct Hs as (? & ? & Hdb & ? & ?). unfold sysState. cbn [fst snd] in *. split_and!; [done|done| |done|done].
  by rewrite alertAll_minions.
Qed.

(** Forgetting what is gone, once the arguments are those of the new configuration. *)
Lemma sysState_change f f' gone up up' s :
  (∀ n, n ∈ dom images → n ∉ gone → f n = f' n) → up' ⊆ up →
  sysState f gone up s → sysState f' ∅ up' s.
Proof.
  intros Hf Hsub (Hc & Ha & Hdb & Hgone & Hup). split_and!; [done| |done|done|by auto].
  by eapply allowed_change.
Qed.

Lemma selectMinions_rule f gone up :
  returns (sysState f gone up) selectMinions
    (λ l s, l ≡ₚ (map_to_list minionRows).*2 ∧ sysState f gone up s).
Proof.
  intros [db c] Hs. destruct (select_rule (R := Minion) f gone up (db, c) Hs) as (l & s' & Hrun & Hs').
  exists l, s'. split; [exact Hrun|]. split; [|done]. revert Hrun. unfold selectMinions, onDb. cbn [fst snd].
  rewrite (Transact_run _ db _ (countLoop db)) by done. intros [= <- _].
  destruct Hs as (_ & _ & Hdb & _). cbn [fst] in Hdb. rewrite <- Hdb. by rewrite rangeOrder_perm.
Qed.

(** The old configuration, in which some containers are gone, is turned into the
    new one: these containers are all of them, or the role is the same. *)
Definition stale (sv cfg : supervisor) (gone : gset string) : Prop :=
  gone = dom images ∨ (gone = ∅ ∧ svRole sv = svRole cfg).

(** The result of an update. *)
Definition updated (cfg : supervisor) (s : Database * C) : Prop :=
  ∃ up, sysState (systemArgs cfg) ∅ up s ∧
    (completeConfig cfg → size minionRows = 1%nat → up = wantedSystem cfg).

Lemma updated_incomplete cfg up s :
  ¬ completeConfig cfg ∨ size minionRows ≠ 1%nat → sysState (systemArgs cfg) ∅ up s → updated cfg s.
Proof. intros Hc Hs. exists up. split; [done|]. intros. by destruct Hc. Qed.

(** The commands of a configuration. *)
Lemma system_run_rule cfg name args up :
  systemArgs cfg name = Some args →
  returns (sysState (systemArgs cfg) ∅ up) (run name args)
    (λ _, sysState (systemArgs cfg) ∅ ({[name]} ∪ up)).
Proof. intros Ha. apply run_rule; [done|]. by eapply images_named, systemArgs_image. Qed.

(** The containers whose arguments change are removed first. *)
Lemma outdated_gone sv cfg (gone : gset string) (etcdChanged swarmChanged : bool) n :
  stale sv cfg gone →
  (etcdChanged = false → svRole sv = svRole cfg → systemArgs sv EtcdName = systemArgs cfg EtcdName) →
  (swarmChanged = false → svRole sv = svRole cfg → systemArgs sv Swarm = systemArgs cfg Swarm) →
  n ∈ dom images →
  n ∉ (let gone := if etcdChanged then {[EtcdName]} ∪ gone else gone in
       if swarmChanged then {[Swarm]} ∪ gone else gone) →
  systemArgs sv n = systemArgs cfg n.
Proof.
  intros Hstale He Hs Hn Hgone. destruct Hstale as [->|[-> Hrole]].
  { destruct Hgone. destruct etcdChanged, swarmChanged; set_solver. }
  destruct (decide (n = EtcdName)) as [->|Hne].
  { apply He; [|done]. destruct etcdChanged, swarmChanged; set_solver. }
  destruct (decide (n = Swarm)) as [->|Hns].
  { apply Hs; [|done]. destruct etcdChanged, swarmChanged; set_solver. }
  unfold systemArgs. rewrite Hrole. by rewrite !(decide_False (P := n = _)) by done.
Qed.

(** Both updates start with these removals. *)
Lemma outdated_rule sv cfg gone (etcdChanged swarmChanged : bool) (k : M Empty_set (Database * C) unit) Q :
  stale sv cfg gone →
  (etcdChanged = false → svRole sv = svRole cfg → systemArgs sv EtcdName = systemArgs cfg EtcdName) →
  (swarmChanged = false → svRole sv = svRole cfg → systemArgs sv Swarm = systemArgs cfg Swarm) →
  returns (sysState (systemArgs cfg) ∅ ∅) k Q →
  returns (sysState (systemArgs sv) gone ∅)
    (when etcdChanged (svRemove EtcdName) ≫= λ _, when swarmChanged (svRemove Swarm) ≫= λ _, k) Q.
Proof.
  intros Hstale He Hs Hk. eapply returns_bind; [by apply when_remove_rule|]. intros [].
  eapply returns_bind; [by apply when_remove_rule|]. intros [].
  eapply returns_weaken; [exact Hk| |done]. intros s. apply sysState_change; [|set_solver].
  intros n Hn Hgone. by eapply outdated_gone.
Qed.

Lemma updateWorker_rule sv cfg gone :
  svRole cfg = Worker → stale sv cfg gone →
  returns (sysState (systemArgs sv) gone ∅)
    (updateWorker sv (svIP cfg) (svLeaderIP cfg) (svEtcdIPs cfg)) (λ _, updated cfg).
Proof.
  intros Hrole Hstale. unfold updateWorker. apply (outdated_rule sv cfg); [done|..].
  { intros Heq%negb_false_iff%bool_decide_eq_true Hr. unfold systemArgs. by rewrite Hr, Hrole, Heq. }
  { intros [_ Heq%negb_false_iff%bool_decide_eq_true]%orb_false_iff Hr. unfold systemArgs. by rewrite Hr, Hrole, Heq. }
  assert (systemArgs cfg EtcdName = Some (workerEtcdArgs (svEtcdIPs cfg)) ∧
    systemArgs cfg Swarm = Some (workerSwarmArgs (svIP cfg)) ∧
    Forall (λ n, systemArgs cfg n = Some []) [Ovsdb; Ovsvswitchd; Ovncontroller]) as (A1 & A2 & A3).
  { unfold systemArgs. rewrite Hrole. split_and!; [done|done|]. by repeat constructor. }
  rewrite !Forall_cons in A3. destruct A3 as (A3 & A4 & A5 & _).
  eapply returns_bind; [by apply system_run_rule|]. intros [].
  eapply returns_bind; [by apply system_run_rule|]. intros [].
  eapply returns_bind; [by apply system_run_rule|]. intros [].
  destruct (bool_decide (svLeaderIP cfg = "") || bool_decide (svIP cfg = "")) eqn:Hcomplete.
  { apply returns_ret. intros s. apply updated_incomplete. left. intros [Hip Hl]. rewrite Hrole in Hl.
    apply orb_true_iff in Hcomplete as [?%bool_decide_eq_true|?%bool_decide_eq_true]; done. }
  eapply returns_bind; [by apply system_run_rule|]. intros [].
  eapply returns_bind; [apply selectMinions_rule|]. intros l s [Hl Hs]. revert s Hs.
  destruct l as [|m [|m' l]].
  1, 3: apply returns_ret; intros s; apply updated_incomplete; right;
    rewrite <- length_map_to_list, <- (length_fmap snd), <- Hl; done.
  eapply returns_bind; [by apply exec_rule|]. intros r.
  eapply returns_bind; [by apply remove_rule|]. intros [].
  eapply returns_weaken; [apply (system_run_rule cfg)|..]; [done| |].
  - intros s. apply sysState_change; [done|reflexivity].
  - intros [] s Hs. eexists. split; [exact Hs|]. intros _ _. unfold wantedSystem. rewrite Hrole.
    by apply (bool_decide_unpack _).
Qed.

Lemma updateMaster_rule sv cfg gone :
  svRole cfg = Master → stale sv cfg gone →
  returns (sysState (systemArgs sv) gone ∅)
    (updateMaster sv (svIP cfg) (svEtcdIPs cfg) (svLeader cfg))
    (λ _ s, updated cfg s ∧ (completeConfig cfg → svLeader cfg = false → dkNamed s.2 !! Ovnnorthd = None)).
Proof.
  intros Hrole Hstale. unfold updateMaster. apply (outdated_rule sv cfg); [done|..].
  { intros [E1%negb_false_iff%bool_decide_eq_true E2%negb_false_iff%bool_decide_eq_true]%orb_false_iff Hr.
    unfold systemArgs. by rewrite Hr, Hrole, E1, E2. }
  { intros Heq%negb_false_iff%bool_decide_eq_true Hr. unfold systemArgs. by rewrite Hr, Hrole, Heq. }
  assert (systemArgs cfg EtcdName = Some (masterEtcdArgs (svIP cfg) (svEtcdIPs cfg)) ∧
    systemArgs cfg Swarm = Some (masterSwarmArgs (svIP cfg)) ∧
    Forall (λ n, systemArgs cfg n = Some []) [Ovsdb; Ovnnorthd]) as (A1 & A2 & A3).
  { unfold systemArgs. rewrite Hrole. split_and!; [done|done|]. by repeat constructor. }
  rewrite !Forall_cons in A3. destruct A3 as (A3 & A4 & _).
  destruct (bool_decide (svIP cfg = "") || bool_decide (elems (svEtcdIPs cfg) = [])) eqn:Hcomplete.
  { assert (¬ completeConfig cfg) as Hnot.
    { intros [Hip Hl]. rewrite Hrole in Hl.
      apply orb_true_iff in Hcomplete as [?%bool_decide_eq_true|?%bool_decide_eq_true]; done. }
    apply returns_ret. intros s Hs. split; [|done]. eapply updated_incomplete; [by left|done]. }
  eapply returns_bind; [by apply system_run_rule|]. intros [].
  eapply returns_bind; [by apply system_run_rule|]. intros [].
  eapply returns_bind; [by apply system_run_rule|]. intros [].
  destruct (svLeader cfg) eqn:Hleader.
  - eapply returns_weaken; [by apply (system_run_rule cfg)|done|]. intros [] s Hs. split; [|done].
    eexists. split; [exact Hs|]. intros _ _. unfold wantedSystem. rewrite Hrole, Hleader.
    by apply (bool_decide_unpack _).
  - eapply returns_weaken; [by apply remove_rule|done|]. intros [] s Hs. split.
    + eexists. split; [eapply sysState_change; [|reflexivity|exact Hs]|]; [done|]. intros _ _.
      unfold wantedSystem. rewrite Hrole, Hleader. by apply (bool_decide_unpack _).
    + intros _ _. destruct Hs as (_ & _ & _ & Hg & _). apply Hg. set_solver.
Qed.

End Rules.

(** ** A run of the supervisor *)

Lemma configOf_perm ms ms' es es' : ms ≡ₚ ms' → es ≡ₚ es' → configOf ms es = configOf ms' es'.
Proof.
  assert (∀ A (l l' : list A) (d : A), l ≡ₚ l' →
    match l with [x] => x | _ => d end = match l' with [x] => x | _ => d end) as Hone.
  { intros A l l' d Hl. destruct l as [|x [|y l]].
    - apply Permutation_nil_l in Hl. by subst.
    - apply Permutation_singleton_l in Hl. by subst.
    - destruct l' as [|x' [|y' l']]; [done| |done]. by apply Permutation_length in Hl. }
  intros Hm He. unfold configOf. by rewrite (Hone _ ms ms' _ Hm), (Hone _ es es' _ He).
Qed.

(** The configuration that a database holds. *)
Definition configIn (db : Database) : supervisor :=
  configOf (map_to_list (rows (MinionTable db))).*2 (map_to_list (rows (EtcdTable db))).*2.

Section Once.
Context {C : Type} `{DockerLaws C} `{MapRange}.

Lemma countLoop_minions db : MinionTable (countLoop db) = MinionTable db.
Proof. done. Qed.

Lemma selects_run (db : Database) (c : C) :
  ∃ minions etcdRows db1 db2,
    selectMinions (db, c) = Ok (minions, (db1, c)) ∧ selectEtcds (db1, c) = Ok (etcdRows, (db2, c)) ∧
    configOf minions etcdRows = configIn db ∧ rows (MinionTable db2) = rows (MinionTable db).
Proof.
  exists (rangeOrder (loops db) (rows (MinionTable db))).*2. set (db1 := alertAll (countLoop db)).
  exists (rangeOrder (loops db1) (rows (EtcdTable db1))).*2, db1, (alertAll (countLoop db1)). split_and!.
  - unfold selectMinions, onDb. cbn [fst snd]. by rewrite (Transact_run _ db _ (countLoop db)) by done.
  - unfold selectEtcds, onDb. cbn [fst snd]. by rewrite (Transact_run _ db1 _ (countLoop db1)) by done.
  - apply configOf_perm; rewrite rangeOrder_perm; [done|]. subst db1. by rewrite alertAll_etcd.
  - subst db1. by rewrite alertAll_minions, countLoop_minions, alertAll_minions.
Qed.

Lemma runSystemOnce_run (reliable : bool) sv db (c : C) :
  (reliable = true → ∀ o c r c', dkHealthy c → dkRun o c = Ok (r, c') → r = None) →
  dkHealthy c → allowed (systemArgs sv) (dkNamed c) →
  ∃ db' c', runSystemOnce sv (db, c) = Ok (configIn db, (db', c')) ∧
    dkHealthy c' ∧ allowed (systemArgs (configIn db)) (dkNamed c') ∧
    (sv ≠ configIn db → updated reliable (rows (MinionTable db)) (configIn db) (db', c') ∧
       (svRole (configIn db) = Master → completeConfig (configIn db) →
        svLeader (configIn db) = false → dkNamed c' !! Ovnnorthd = None)).
Proof.
  intros Hrel Hc Ha. destruct (selects_run db c) as (ms & es & db1 & db2 & R1 & R2 & Hcfg & Hrows).
  set (cfg := configIn db) in *.
  assert (runSystemOnce sv (db, c) = (if decide (sv = cfg) then mret sv else
    _ ← when (negb (bool_decide (svRole cfg = svRole sv))) RemoveAll;
    _ ← match svRole cfg with
        | Master => updateMaster sv (svIP cfg) (svEtcdIPs cfg) (svLeader cfg)
        | Worker => updateWorker sv (svIP cfg) (svLeaderIP cfg) (svEtcdIPs cfg)
        | _ => mret tt
        end;
    mret cfg) (db2, c)) as ->.
  { unfold runSystemOnce, mbind at 1, M_bind at 1. rewrite R1. unfold mbind at 1, M_bind at 1.
    rewrite R2. by rewrite Hcfg. }
  case_decide as Hsame; [subst sv; by exists db2, c|].
  assert (sysState reliable (rows (MinionTable db)) (systemArgs sv) ∅ ∅ (db2, c)) as Hs by by split_and!.
  assert (∃ s3, when (negb (bool_decide (svRole cfg = svRole sv))) RemoveAll (db2, c) = Ok (tt, s3) ∧
    ∃ gone, stale sv cfg gone ∧ sysState reliable (rows (MinionTable db)) (systemArgs sv) gone ∅ s3)
    as (s3 & R3 & gone & Hstale & Hs3).
  { destruct (decide (svRole cfg = svRole sv)) as [Hr|Hr].
    - exists (db2, c). rewrite bool_decide_true by done. split; [done|]. exists ∅. split; [by right|done].
    - rewrite bool_decide_false by done. destruct (removeAll_rule _ _ Hrel _ _ _ (db2, c) Hs) as ([] & s3 & ? & ?).
      exists s3. split; [done|]. exists (dom images). split; [by left|done]. }
  assert (∃ s4, match svRole cfg with
        | Master => updateMaster sv (svIP cfg) (svEtcdIPs cfg) (svLeader cfg)
        | Worker => updateWorker sv (svIP cfg) (svLeaderIP cfg) (svEtcdIPs cfg)
        | _ => mret tt
        end s3 = Ok (tt, s4) ∧ updated reliable (rows (MinionTable db)) cfg s4 ∧
    (svRole cfg = Master → completeConfig cfg → svLeader cfg = false → dkNamed s4.2 !! Ovnnorthd = None))
    as (s4 & R4 & Hup & Hnorthd).
  { destruct (svRole cfg) eqn:Hrole.
    - exists s3. split_and!; [done| |done]. apply (updated_incomplete _ _ cfg ∅).
      { left. intros [_ Hf]. by rewrite Hrole in Hf. }
      eapply sysState_change; [|reflexivity|exact Hs3]. intros n Hn Hgone.
      destruct Hstale as [->|[_ Hr]]; [done|]. unfold systemArgs. by rewrite Hr, Hrole.
    - destruct (updateWorker_rule _ _ Hrel sv cfg gone Hrole Hstale s3 Hs3) as ([] & s4 & ? & ?). by exists s4.
    - destruct (updateMaster_rule _ _ Hrel sv cfg gone Hrole Hstale s3 Hs3) as ([] & s4 & ? & ? & ?).
      by exists s4. }
  destruct s4 as [db4 c4]. exists db4, c4. split_and!.
  - unfold mbind, M_bind. by rewrite R3, R4.
  - by destruct Hup as (up & (? & _) & _).
  - by destruct Hup as (up & (_ & ? & _) & _).
  - done.
Qed.

(** C15: The system containers are those of the current configuration. Whatever
    containers docker fails to start, a run of the supervisor returns with the
    configuration of the database as its state, and every system container that
    exists then was created with the image, the arguments and the host configuration
    that this configuration asks for, if that was so before the run: the containers
    of an old role are removed, and those with outdated arguments. *)
Theorem system_containers_current (sv : supervisor) (db : Database) (c : C) :
  dkHealthy c → allowed (systemArgs sv) (dkNamed c) →
  ∃ db' c', runSystemOnce sv (db, c) = Ok (configIn db, (db', c')) ∧
    dkHealthy c' ∧ allowed (systemArgs (configIn db)) (dkNamed c').
Proof.
  intros Hc Ha. destruct (runSystemOnce_run false sv db c) as (db' & c' & ? & ? & ? & _); [done..|].
  by exists db', c'.
Qed.

(** C34: If docker starts what it is asked for, then a run under a new and complete
    configuration leaves exactly the wanted system containers running: on a worker
    etcd, the two OVS daemons, swarm and the OVN controller; on a master etcd, ovsdb
    and swarm, and the OVN north daemon if and only if it is the leader. *)
Theorem system_containers_exact (sv : supervisor) (db : Database) (c : C) (m : Minion) :
  (∀ o c r c', dkHealthy c → dkRun o c = Ok (r, c') → r = None) →
  dkHealthy c → allowed (systemArgs sv) (dkNamed c) →
  rows (MinionTable db) = {[minionID m := m]} → sv ≠ configIn db → completeConfig (configIn db) →
  ∃ db' c', runSystemOnce sv (db, c) = Ok (configIn db, (db', c')) ∧
    ∀ name, name ∈ dom images → running (dkNamed c') name ↔ name ∈ wantedSystem (configIn db).
Proof.
  intros Hrel Hc Ha Hrows Hnew Hcomplete.
  destruct (runSystemOnce_run true sv db c) as (db' & c' & Hrun & _ & Hal & Hup); [done..|].
  destruct (Hup Hnew) as [(up & (_ & _ & _ & _ & Hrunning) & Hwanted) Hnorthd].
  exists db', c'. split; [done|]. intros name Hname. rewrite Hwanted in Hrunning; [|done|by rewrite Hrows, map_size_singleton].
  split; [|by apply Hrunning]. intros (c0 & h & Hc0 & _).
  destruct (Hal name c0 Hname Hc0) as (args & Hargs & _). clear Hup Hrunning.
  assert (svRole (configIn db) = Master → svLeader (configIn db) = false → name ≠ Ovnnorthd) as Hno.
  { intros Hm Hl ->. cbn [snd] in *. rewrite (Hnorthd Hm Hcomplete Hl) in Hc0. done. }
  revert Hargs Hno. unfold systemArgs, wantedSystem. destruct (svRole (configIn db)); [done|..].
  - intros Hargs _. repeat (case_decide; [set_solver|]). done.
  - intros Hargs Hno. destruct (svLeader (configIn db)).
    + repeat (case_decide; [set_solver|]). done.
    + specialize (Hno eq_refl eq_refl). repeat (case_decide; [set_solver|]). done.
Qed.

End Once.

(** ** The application containers *)

(** What docker determines of a row, and what it says of a container. *)
Definition appRow (c : Container) : string * Z * string * slice string :=
  (containerSchedID c, containerPid c, containerImage c, containerCommand c).

Definition appDocker (c : DockerContainer) : string * Z * string * slice string :=
  (dkID c, dkPid c, dkImage c, Some (dkPath c :: dkArgs c)).

(** What the rest of the minion determines of a row. *)
Definition appKept (c : Container) :
    string * string * slice string * option (gmap string string) * option (gset (string * string)) :=
  (containerIP c, containerMac c, containerLabels c, containerEnv c, containerExclusive c).

Lemma appScore_nonneg dbc dkc : (0 ≤ appScore dbc dkc)%Z ↔ containerSchedID dbc = dkID dkc.
Proof. unfold appScore. case_decide; split; intros; (lia || done || naive_solver). Qed.


(** ** Witnesses: a minion that becomes a worker, with a daemon in memory *)

Module SupervisorDemo.

#[local] Existing Instance mapToListRange.

Definition minion : Minion := mkMinion 1 "m1" Worker "10.9.0.2".
Definition etcdRow : Etcd := mkEtcd 2 (Some ["10.9.0.1"]) false "10.9.0.1".
Definition db : Database :=
  setTable (mkTable {[1 := minion]} ∅ 0 0)
    (setTable (mkTable {[2 := etcdRow]} ∅ 0 0) (setIdAlloc 2 newDatabase)).
Definition idle : supervisor := mkSupervisor RoleNone None "" "" false.
Definition dk : client (gmap string dcontainer) := mkClient ∅ ∅ 0.

Lemma dk_allowed : allowed (systemArgs idle) (dkNamed dk).
Proof.
  assert (dkNamed dk = ∅) as -> by reflexivity. intros name c _ Hc. by rewrite lookup_empty in Hc.
Qed.

(** An application container. *)
Definition app : DockerContainer := mkDocker "c1" "/web" "nginx" "" "nginx" ["-q"] 42 ∅ ∅.

(** A docker that keeps what it is asked for in a map and never fails. *)
#[global] Instance mapDocker : DockerAPI (gmap string sysContainer) := {|
  dkList := λ _ m, Ok (Some [], m);
  dkRun := λ o m, Ok (None, <[optName o := startWith (hostConfig o)
                              (default (createdFrom o) (m !! optName o))]> m);
  dkRemove := λ n m, Ok (None, delete n m);
  dkExec := λ _ _ m, Ok (None, m)
|}.

#[global] Instance mapLaws : DockerLaws (gmap string sysContainer).
Proof.
  refine {| dkNamed := λ m, m; dkHealthy := λ _, True |}; intros; eexists.
  - eexists. split; [done|]. split; [constructor|done].
  - done.
  - eexists. done.
Defined.

End SupervisorDemo.

#[local] Existing Instance mapToListRange.

Lemma system_containers_current_witness :
  ∃ db' c', runSystemOnce SupervisorDemo.idle (SupervisorDemo.db, SupervisorDemo.dk) =
    Ok (configIn SupervisorDemo.db, (db', c')) ∧
    allowed (systemArgs (configIn SupervisorDemo.db)) (dkNamed c').
Proof.
  destruct (system_containers_current SupervisorDemo.idle SupervisorDemo.db
    SupervisorDemo.dk) as (db' & c' & Hrun & _ & Ha);
    [exact MemoryDaemon.no_names|exact SupervisorDemo.dk_allowed|].
  exists db', c'. split; [exact Hrun|exact Ha].
Defined.

Lemma system_containers_exact_witness :
  ∃ db' c', runSystemOnce SupervisorDemo.idle
      (SupervisorDemo.db, ∅ : gmap string sysContainer) = Ok (configIn SupervisorDemo.db, (db', c')) ∧
    ∀ name, name ∈ dom images → running c' name ↔ name ∈ wantedSystem (configIn SupervisorDemo.db).
Proof.
  destruct (system_containers_exact (H0 := SupervisorDemo.mapLaws) SupervisorDemo.idle SupervisorDemo.db ∅
    SupervisorDemo.minion) as (db' & c' & Hrun & Hall).
  - intros o c r c' _ [= <- _]. reflexivity.
  - exact I.
  - intros name c _ Hc. discriminate Hc.
  - reflexivity.
  - discriminate.
  - split; vm_compute; discriminate.
  - exists db', c'. split; [exact Hrun|exact Hall].
Defined.

