(* ===== verification/NetIP.v ===== *)
(** * minion/network: addresses

    Model of what [src/minion/network/store.go] uses of the package [net]: parsing an
    address, its four bytes, and printing it; and of [parseIP] and [randomIP]. An
    address is an unsigned 32-bit integer, as in the source. *)

From stdpp Require Import base gmap list strings.
From Stdlib Require Import ZArith Lia.
From S2P Require Import Prelude.

Local Open Scope Z_scope.

(** ** Characters *)

Definition dot : Ascii.ascii := Ascii.ascii_of_nat 46.
Definition colon : Ascii.ascii := Ascii.ascii_of_nat 58.

Definition code (c : Ascii.ascii) : Z := Z.of_nat (Ascii.nat_of_ascii c).

Definition decDigit (c : Ascii.ascii) : option Z :=
  if (48 <=? code c) && (code c <=? 57) then Some (code c - 48) else None.

Definition hexDigit (c : Ascii.ascii) : option Z :=
  if (48 <=? code c) && (code c <=? 57) then Some (code c - 48)
  else if (97 <=? code c) && (code c <=? 102) then Some (code c - 97 + 10)
  else if (65 <=? code c) && (code c <=? 70) then Some (code c - 65 + 10)
  else None.

(** ** [net.ParseIP] *)

(** [dtoi] and [xtoi]: the number at the start of a string and what follows it. A
    number that is too big is an error, and so is no number at all. *)
Fixpoint digits (digit : Ascii.ascii → option Z) (base n : Z) (s : string) : option (Z * string) :=
  match s with
  | EmptyString => Some (n, s)
  | String c s' =>
      match digit c with
      | None => Some (n, s)
      | Some d => if 0xFFFFFF <=? n * base + d then None else digits digit base (n * base + d) s'
      end
  end.

Definition number (digit : Ascii.ascii → option Z) (base : Z) (s : string) : option (Z * string) :=
  match s with
  | String c _ => match digit c with Some _ => digits digit base 0 s | None => None end
  | EmptyString => None
  end.

Definition dtoi : string → option (Z * string) := number decDigit 10.
Definition xtoi : string → option (Z * string) := number hexDigit 16.

(** A byte in decimal. *)
Definition dtob (s : string) : option (Z * string) :=
  '(n, s') ← dtoi s; if 0xFF <? n then None else Some (n, s').

Definition expect (c : Ascii.ascii) (s : string) : option string :=
  match s with
  | String c' s' => if decide (c' = c) then Some s' else None
  | EmptyString => None
  end.

Definition parseIPv4 (s : string) : option (list Z) :=
  '(a, s) ← dtob s; s ← expect dot s;
  '(b, s) ← dtob s; s ← expect dot s;
  '(c, s) ← dtob s; s ← expect dot s;
  '(d, s) ← dtob s;
  match s with EmptyString => Some [a; b; c; d] | _ => None end.

Definition startsWith (c : Ascii.ascii) (s : string) : bool :=
  match s with String c' _ => bool_decide (c' = c) | EmptyString => false end.

(** The loop of [parseIPv6] over groups of digits: the bytes so far, the position of
    the ellipsis, and the string that is left. Every iteration but the last adds two
    bytes, so that eight are enough. *)
Fixpoint ipv6Loop (fuel : nat) (ip : list Z) (ellipsis : option nat) (s : string)
    : option (list Z * option nat * string) :=
  match fuel with
  | O => Some (ip, ellipsis, s)
  | S fuel' =>
      '(n, s1) ← xtoi s;
      if 0xFFFF <? n then None
      else if startsWith dot s1 then
        if (match ellipsis with None => negb (length ip =? 12)%nat | Some _ => false end) ||
           (12 <? length ip)%nat
        then None
        else ip4 ← parseIPv4 s; Some (ip ++ ip4, ellipsis, EmptyString)
      else
        let ip' := ip ++ [Z.shiftr n 8; Z.land n 0xFF] in
        match s1 with
        | EmptyString => Some (ip', ellipsis, EmptyString)
        | String c s2 =>
            if decide (c ≠ colon ∨ s2 = EmptyString) then None
            else if startsWith colon s2 then
              match ellipsis, s2 with
              | None, String _ EmptyString => Some (ip', Some (length ip'), EmptyString)
              | None, String _ s3 => ipv6Loop fuel' ip' (Some (length ip')) s3
              | _, _ => None
              end
            else ipv6Loop fuel' ip' ellipsis s2
        end
  end.

Definition parseIPv6 (s : string) : option (list Z) :=
  let '(ellipsis, s) :=
    match s with
    | String a (String b s') => if decide (a = colon ∧ b = colon) then (Some O, s') else (None, s)
    | _ => (None, s)
    end in
  if decide (ellipsis = Some O ∧ s = EmptyString) then Some (replicate 16 0)
  else
    '(ip, ellipsis, s) ← ipv6Loop 8 [] ellipsis s;
    match s with
    | String _ _ => None
    | EmptyString =>
        match ellipsis with
        | None => if (length ip <? 16)%nat then None else Some ip
        | Some e => if (length ip <? 16)%nat
                    then Some (take e ip ++ replicate (16 - length ip) 0 ++ drop e ip)
                    else None
        end
    end.

(** [net.ParseIP(s).To4()]: an address with a colon before any dot is an IPv6
    address, which has four bytes if it is a mapped IPv4 address. *)
Fixpoint isIPv6 (s : string) : option bool :=
  match s with
  | EmptyString => None
  | String c s' =>
      if decide (c = dot) then Some false
      else if decide (c = colon) then Some true
      else isIPv6 s'
  end.

Definition parseTo4 (s : string) : option (list Z) :=
  v6 ← isIPv6 s;
  if v6 : bool then
    ip ← parseIPv6 s;
    if decide (take 12 ip = replicate 10 0 ++ [0xFF; 0xFF]) then Some (drop 12 ip) else None
  else parseIPv4 s.

(** ** Bytes and integers: [binary.BigEndian] *)

Definition bytesToUint32 (b : list Z) : Z := foldl (λ n x, n * 256 + x) 0 b.

Definition uint32ToBytes (v : Z) : list Z :=
  [Z.land (Z.shiftr v 24) 0xFF; Z.land (Z.shiftr v 16) 0xFF; Z.land (Z.shiftr v 8) 0xFF; Z.land v 0xFF].

(** ** [net.IP.String] for four bytes *)

Definition digitChar (n : Z) : Ascii.ascii := Ascii.ascii_of_nat (48 + Z.to_nat n).

Definition itod (n : Z) : string :=
  if n <? 10 then String (digitChar n) ""
  else if n <? 100 then String (digitChar (n / 10)) (String (digitChar (n mod 10)) "")
  else String (digitChar (n / 100)) (String (digitChar (n / 10 mod 10)) (String (digitChar (n mod 10)) "")).

Definition ipString (b : list Z) : string := String.concat "." (itod <$> b).

(** ** [parseIP] and [randomIP] *)

Definition uint32 (z : Z) : Prop := 0 ≤ z < 2 ^ 32.

Definition parseIP (ipStr : string) (prefix mask : Z) : Z :=
  match parseTo4 ipStr with
  | None => 0
  | Some ip =>
      let ip32 := bytesToUint32 ip in
      if decide (Z.land ip32 mask ≠ prefix) then 0 else ip32
  end.

(** The loop of [randomIP]: [rand n] is the number that the [n]-th call of [rand32]
    returns; the result is the address, 0 on failure, and the number of calls. *)
Fixpoint randomIPLoop (rand : nat → Z) (tries calls : nat) (conflicts : gset Z) (prefix mask : Z)
    : Z * nat :=
  match tries with
  | O => (0, calls)
  | S tries' =>
      let ip32 := Z.lor (Z.land (rand calls) (Z.lxor mask 0xFFFFFFFF)) (Z.land prefix mask) in
      if decide (ip32 ∈ conflicts) then randomIPLoop rand tries' (S calls) conflicts prefix mask
      else (ip32, S calls)
  end.

Definition randomIP (rand : nat → Z) : nat → gset Z → Z → Z → Z * nat := randomIPLoop rand 256.

(** ** Lemmas *)

Lemma digits_dot n s m r :
  digits decDigit 10 n s = Some (m, ""%string) →
  digits decDigit 10 n (s ++ String dot r) = Some (m, String dot r).
Proof.
  revert n. induction s as [|c s IH]; intros n.
  - cbn [digits]. by intros [= ->].
  - rewrite string_app_cons. cbn [digits]. destruct (decDigit c) as [d|]; [|done]. case_match; [done|]. apply IH.
Qed.

Lemma dtob_dot s m r : dtob s = Some (m, ""%string) → dtob (s ++ String dot r) = Some (m, String dot r).
Proof.
  unfold dtob, dtoi, number. destruct s as [|c s]; [done|]. rewrite string_app_cons.
  destruct (decDigit c); [|done].
  destruct (digits decDigit 10 0 (String c s)) as [[n s']|] eqn:Hd; [|done]. cbn [mbind option_bind].
  case_match eqn:Hn; [done|]. intros [= -> ->]. rewrite <- string_app_cons, (digits_dot 0 (String c s) m r Hd). cbn. by rewrite Hn.
Qed.

(** Printing a byte and reading it again. *)
Lemma dtob_itod n : 0 ≤ n < 256 → dtob (itod n) = Some (n, ""%string).
Proof.
  intros Hn. assert (Forall (λ n, dtob (itod n) = Some (n, ""%string)) (seqZ 0 256)) as Hall.
  { apply (bool_decide_unpack _). vm_compute. exact I. }
  rewrite Forall_forall in Hall. apply Hall, elem_of_seqZ. lia.
Qed.

Lemma isIPv6_itod n s : 0 ≤ n < 256 → isIPv6 (itod n ++ String dot s) = Some false.
Proof.
  intros Hn. assert (Forall (λ n, isIPv6 (itod n) = None) (seqZ 0 256)) as Hall.
  { apply (bool_decide_unpack _). vm_compute. exact I. }
  rewrite Forall_forall in Hall. specialize (Hall n ltac:(apply elem_of_seqZ; lia)). revert Hall.
  induction (itod n) as [|c t IH]; [done|]. rewrite string_app_cons. cbn [isIPv6].
  case_decide; [done|]. case_decide; [done|]. exact IH.
Qed.

Definition byte (n : Z) : Prop := 0 ≤ n < 256.

(** [net.ParseIP] reads what [net.IP.String] prints. *)
Lemma parseTo4_ipString a b c d :
  byte a → byte b → byte c → byte d → parseTo4 (ipString [a; b; c; d]) = Some [a; b; c; d].
Proof.
  intros Ha Hb Hc Hd. unfold parseTo4.
  change (ipString [a; b; c; d]) with
    (itod a ++ String dot (itod b ++ String dot (itod c ++ String dot (itod d))))%string.
  rewrite isIPv6_itod by done. cbn [mbind option_bind]. unfold parseIPv4.
  rewrite (dtob_dot _ _ _ (dtob_itod a Ha)). cbn [mbind option_bind expect]. rewrite decide_True by done.
  cbn [mbind option_bind]. rewrite (dtob_dot _ _ _ (dtob_itod b Hb)). cbn [mbind option_bind expect].
  rewrite decide_True by done. cbn [mbind option_bind]. rewrite (dtob_dot _ _ _ (dtob_itod c Hc)).
  cbn [mbind option_bind expect]. rewrite decide_True by done. cbn [mbind option_bind].
  by rewrite (dtob_itod d Hd).
Qed.

Lemma uint32_bytes v : uint32 v →
  Forall byte (uint32ToBytes v) ∧ bytesToUint32 (uint32ToBytes v) = v.
Proof.
  intros Hv. unfold uint32ToBytes, bytesToUint32. change 0xFF with (Z.ones 8).
  rewrite !Z.land_ones, !Z.shiftr_div_pow2 by lia. split.
  - repeat constructor; apply Z.mod_pos_bound; lia.
  - cbn [foldl]. unfold uint32 in Hv. change (2 ^ 24) with (2 ^ 8 * 2 ^ 16). change (2 ^ 16) with (2 ^ 8 * 2 ^ 8).
    rewrite <- !Z.div_div by lia. set (p := 2 ^ 8) in *. change p with 256 in *.
    pose proof (Z.div_mod v 256 ltac:(lia)). pose proof (Z.div_mod (v / 256) 256 ltac:(lia)).
    pose proof (Z.div_mod (v / 256 / 256) 256 ltac:(lia)).
    assert (v / 256 / 256 / 256 < 256).
    { rewrite !Z.div_div by lia. apply Z.div_lt_upper_bound; lia. }
    rewrite (Z.mod_small (v / 256 / 256 / 256)) by (split; [repeat apply Z.div_pos; lia|lia]). lia.
Qed.

(** The address that [syncIPs] writes is the one that [parseIP] reads. *)
Lemma parseIP_ipString v prefix mask :
  uint32 v → Z.land v mask = prefix → parseIP (ipString (uint32ToBytes v)) prefix mask = v.
Proof.
  intros Hv Hp. destruct (uint32_bytes v Hv) as [Hb Heq]. unfold parseIP.
  unfold uint32ToBytes in Hb at 1. rewrite !Forall_cons in Hb. destruct Hb as (? & ? & ? & ? & _).
  unfold uint32ToBytes at 1. rewrite parseTo4_ipString by done.
  change [_; _; _; _] with (uint32ToBytes v). rewrite Heq. by rewrite decide_False by (by intros []).
Qed.

(** ** Bits *)

Lemma uint32_bits z : uint32 z ↔ 0 ≤ z ∧ ∀ n, 32 ≤ n → Z.testbit z n = false.
Proof.
  unfold uint32. split.
  - intros [H0 Hlt]. split; [done|]. intros n Hn. destruct (decide (z = 0)) as [->|Hne]; [apply Z.bits_0|].
    apply Z.bits_above_log2; [done|]. assert (Z.log2 z < 32) by (apply Z.log2_lt_pow2; lia). lia.
  - intros [H0 Hbits]. split; [done|]. destruct (decide (z = 0)) as [->|Hne]; [done|].
    apply Z.log2_lt_pow2; [lia|]. destruct (decide (Z.log2 z < 32)) as [|Hge]; [done|].
    pose proof (Z.bit_log2 z ltac:(lia)) as Hb. by rewrite Hbits in Hb by lia.
Qed.

Lemma uint32_land_l a b : uint32 a → 0 ≤ b → uint32 (Z.land a b).
Proof.
  intros [H0 Ha]%uint32_bits Hb. apply uint32_bits. split; [by apply Z.land_nonneg; left|].
  intros n Hn. by rewrite Z.land_spec, Ha.
Qed.

Lemma uint32_lor a b : uint32 a → uint32 b → uint32 (Z.lor a b).
Proof.
  intros [H0 Ha]%uint32_bits [H1 Hb]%uint32_bits. apply uint32_bits. split; [by apply Z.lor_nonneg|].
  intros n Hn. by rewrite Z.lor_spec, Ha, Hb.
Qed.

(** A random host part below a prefix stays below the prefix. *)
Lemma host_prefix x prefix mask :
  uint32 mask →
  Z.land (Z.lor (Z.land x (Z.lxor mask 0xFFFFFFFF)) (Z.land prefix mask)) mask = Z.land prefix mask.
Proof.
  intros [H0 Hm]%uint32_bits. apply Z.bits_inj'. intros n Hn.
  rewrite !Z.land_spec, Z.lor_spec, !Z.land_spec, Z.lxor_spec. change 0xFFFFFFFF with (Z.ones 32).
  rewrite Z.testbit_ones_nonneg by lia. destruct (decide (n < 32)).
  - rewrite (proj2 (Z.ltb_lt n 32)) by done. by destruct (Z.testbit x n), (Z.testbit mask n), (Z.testbit prefix n).
  - rewrite (Hm n) by lia. by rewrite !andb_false_r.
Qed.

(** ** [randomIP] *)

Section RandomIP.
Context (rand : nat → Z) (prefix mask : Z).
Hypothesis rand_uint32 : ∀ n, uint32 (rand n).
Hypothesis mask_uint32 : uint32 mask.
Hypothesis prefix_uint32 : uint32 prefix.
Hypothesis prefix_masked : Z.land prefix mask = prefix.

(** The address is in the prefix and not one of the conflicts; 0 is the failure. *)
Lemma randomIP_spec calls conflicts ip calls' :
  randomIP rand calls conflicts prefix mask = (ip, calls') →
  ip = 0 ∨ (uint32 ip ∧ Z.land ip mask = prefix ∧ ip ∉ conflicts).
Proof.
  unfold randomIP. generalize 256%nat as tries. intros tries. revert calls.
  induction tries as [|tries IH]; intros calls; cbn [randomIPLoop]; [by intros [= <- _]; left|].
  case_decide as Hc; [apply IH|]. intros [= <- _]. right. split_and!; [| |done].
  - apply uint32_lor; [|by rewrite prefix_masked]. apply uint32_land_l; [done|].
    apply Z.lxor_nonneg. unfold uint32 in mask_uint32. lia.
  - by rewrite host_prefix.
Qed.

(** It succeeds if one of the next 256 random numbers is not a conflict. *)
Lemma randomIP_succeeds calls conflicts i :
  (i < 256)%nat → prefix ≠ 0 →
  Z.lor (Z.land (rand (calls + i)) (Z.lxor mask 0xFFFFFFFF)) (Z.land prefix mask) ∉ conflicts →
  (randomIP rand calls conflicts prefix mask).1 ≠ 0.
Proof.
  unfold randomIP. generalize 256%nat as tries. intros tries. revert calls i.
  induction tries as [|tries IH]; intros calls i Hi Hp Hfree; [lia|]. cbn [randomIPLoop].
  case_decide as Hc.
  - destruct i as [|i]; [by rewrite Nat.add_0_r in Hfree|]. apply (IH (S calls) i); [lia|done|].
    by rewrite Nat.add_succ_l, <- Nat.add_succ_r.
  - cbn [fst]. intros H0. apply Hp. rewrite <- prefix_masked, <- (host_prefix (rand calls) prefix mask), H0 by done.
    apply Z.land_0_l.
Qed.

End RandomIP.
