(* ===== verification/Consensus.v ===== *)
(** * minion/consensus: the cluster's key-value store

    Model of the [Store] interface and the [Tree] type of
    [src/minion/consensus/consensus.go] and of the store in memory of
    [src/minion/consensus/mock.go]. What the network component relies on is the class
    [StoreLaws]: a store is a map from paths to values that is closed under prefixes.
    The store in memory obeys it. *)

From stdpp Require Import base gmap list strings.
From Stdlib Require Import ZArith Lia.
From S2P Require Import Prelude.

Local Open Scope string_scope.

(** ** Trees *)

Inductive Tree : Type := mkTree {
  treeKey : string;
  treeValue : string;
  treeChildren : gmap string Tree
}.

(** The operations of the interface; [false] and [None] are errors. *)
Class Store (W : Type) : Type := {
  stMkdir : string → M Empty_set W bool;
  stGetTree : string → M Empty_set W (option Tree);
  stGet : string → M Empty_set W (option string);
  stDelete : string → M Empty_set W bool;
  stCreate : string → string → M Empty_set W bool;
  stUpdate : string → string → M Empty_set W bool;
  stSet : string → string → M Empty_set W bool
}.

(** ** The store in memory

    The maps of a tree are shared by its copies, so that an assignment to the
    children of a node that was looked up changes the store; here the change is made
    along the path from the root. *)

Definition slash : Ascii.ascii := Ascii.ascii_of_nat 47.

Definition splitPath (path : string) : M Empty_set Tree (list string) :=
  match path with
  | EmptyString => panic "index out of range"
  | String c rest => if decide (c = slash) then mret (splitOn slash rest) else panic "invalid path"
  end.

Definition dirPath (path : string) : M Empty_set Tree (string * string) :=
  slice ← splitPath path;
  mret (String slash (joinOn slash (removelast slice)), List.last slice "").

(** The node at a path, as the loop of [getTree] finds it. *)
Fixpoint descend (ps : list string) (t : Tree) : option Tree :=
  match ps with
  | [] => Some t
  | p :: ps' => t' ← treeChildren t !! p; descend ps' t'
  end.

Definition getTree (path : string) : M Empty_set Tree (option Tree) :=
  if decide (path = "/") then root ← getS; mret (Some root)
  else ps ← splitPath path; root ← getS; mret (descend ps root).

Definition get (path : string) : M Empty_set Tree (option string) :=
  '(dir, node) ← dirPath path;
  tree ← getTree dir;
  mret (t ← tree; treeValue <$> treeChildren t !! node).

(** The loop of [mkdir]. *)
Fixpoint makeDirs (ps : list string) (t : Tree) : Tree :=
  match ps with
  | [] => t
  | p :: ps' =>
      mkTree (treeKey t) (treeValue t)
        (<[p := makeDirs ps' (default (mkTree p "" ∅) (treeChildren t !! p))]> (treeChildren t))
  end.

Definition mkdir (dir : string) : M Empty_set Tree bool :=
  if decide (dir = "/") then mret true
  else
    found ← get dir;
    match found with
    | Some _ => mret false
    | None => ps ← splitPath dir; _ ← modifyS (makeDirs ps); mret true
    end.

(** An assignment to, or a deletion from, the children of the node at a path. *)
Fixpoint changeAt (f : gmap string Tree → gmap string Tree) (ps : list string) (t : Tree) : Tree :=
  match ps with
  | [] => mkTree (treeKey t) (treeValue t) (f (treeChildren t))
  | p :: ps' =>
      mkTree (treeKey t) (treeValue t) (alter (changeAt f ps') p (treeChildren t))
  end.

Definition changeDir (f : gmap string Tree → gmap string Tree) (dir : string) : M Empty_set Tree unit :=
  if decide (dir = "/") then modifyS (changeAt f [])
  else ps ← splitPath dir; modifyS (changeAt f ps).

Definition createPrefix (path : string) : M Empty_set Tree (option Tree * string * string) :=
  '(dir, node) ← dirPath path;
  _ ← mkdir dir;
  tree ← getTree dir;
  mret (tree, dir, node).

Definition createKey (path value : string) : M Empty_set Tree bool :=
  '(tree, dir, node) ← createPrefix path;
  match tree with
  | None => mret false
  | Some t =>
      if decide (is_Some (treeChildren t !! node)) then mret false
      else _ ← changeDir (<[node := mkTree node value ∅]>) dir; mret true
  end.

Definition updateKey (path value : string) : M Empty_set Tree bool :=
  '(tree, dir, node) ← createPrefix path;
  match tree with
  | None => mret false
  | Some t =>
      match treeChildren t !! node with
      | None => mret false
      | Some n =>
          _ ← changeDir (<[node := mkTree (treeKey n) value (treeChildren n)]>) dir; mret true
      end
  end.

Definition deleteKey (path : string) : M Empty_set Tree bool :=
  '(dir, node) ← dirPath path;
  tree ← getTree dir;
  match tree with
  | None => mret false
  | Some t =>
      if decide (is_Some (treeChildren t !! node))
      then _ ← changeDir (delete node) dir; mret true
      else mret false
  end.

Definition setKey (path value : string) : M Empty_set Tree bool :=
  found ← get path;
  match found with
  | None => createKey path value
  | Some _ => updateKey path value
  end.

Definition NewMock : Tree := mkTree "" "" ∅.

#[global] Instance mockStore : Store Tree := {|
  stMkdir := mkdir;
  stGetTree := getTree;
  stGet := get;
  stDelete := deleteKey;
  stCreate := createKey;
  stUpdate := updateKey;
  stSet := setKey
|}.

(** ** What a store promises *)

(** A component of a path, and the path with these components. *)
Definition component (s : string) : Prop := s ≠ "" ∧ noSep slash s.
Definition pathString (ps : list string) : string := String slash (joinOn slash ps).

(** The key and the value of the node at a path of a tree. *)
Definition nodeAt (t : Tree) (q : list string) : option (string * string) :=
  (λ n, (treeKey n, treeValue n)) <$> descend q t.

Definition treePaths (t : Tree) (q : list string) : option string := snd <$> nodeAt t q.

(** The children of every node are stored under their keys. *)
Definition wellKeyed (t : Tree) : Prop :=
  ∀ q k n, nodeAt t (q ++ [k])%list = Some n → n.1 = k.

(** A store as a map from paths to values; a directory has some value. As long as the
    store is healthy, its operations do what they should. *)
Class StoreLaws (W : Type) `{Store W} : Type := {
  stPaths : W → list string → option string;
  stHealthy : W → Prop;
  stClosed : ∀ w ps p, stHealthy w → is_Some (stPaths w (ps ++ [p])%list) → is_Some (stPaths w ps);
  stMkdir_new : ∀ w ps, stHealthy w → Forall component ps → stPaths w ps = None →
    ∃ w', stMkdir (pathString ps) w = Ok (true, w') ∧ stHealthy w' ∧
      ∀ q, stPaths w' q = if decide (q `prefix_of` ps) then Some (default "" (stPaths w q))
                          else stPaths w q;
  stMkdir_old : ∀ w ps, stHealthy w → Forall component ps → is_Some (stPaths w ps) →
    ∃ ok w', stMkdir (pathString ps) w = Ok (ok, w') ∧ stHealthy w' ∧ ∀ q, stPaths w' q = stPaths w q;
  stGetTree_law : ∀ w ps, stHealthy w → Forall component ps →
    ∃ r w', stGetTree (pathString ps) w = Ok (r, w') ∧ stHealthy w' ∧
      (∀ q, stPaths w' q = stPaths w q) ∧
      match r with
      | None => stPaths w ps = None
      | Some t => wellKeyed t ∧ ∀ q, treePaths t q = stPaths w (ps ++ q)%list
      end;
  stSet_law : ∀ w ps k v, stHealthy w → Forall component (ps ++ [k])%list → is_Some (stPaths w ps) →
    (∀ q, q ≠ [] → stPaths w (ps ++ k :: q)%list = None) →
    ∃ w', stSet (pathString (ps ++ [k])%list) v w = Ok (true, w') ∧ stHealthy w' ∧
      ∀ q, stPaths w' q = if decide (q = ps ++ [k])%list then Some v else stPaths w q;
  stDelete_old : ∀ w ps k, stHealthy w → Forall component (ps ++ [k])%list →
    is_Some (stPaths w (ps ++ [k])%list) →
    ∃ w', stDelete (pathString (ps ++ [k])%list) w = Ok (true, w') ∧ stHealthy w' ∧
      ∀ q, stPaths w' q = if decide ((ps ++ [k])%list `prefix_of` q) then None else stPaths w q;
  stDelete_none : ∀ w ps k, stHealthy w → Forall component (ps ++ [k])%list →
    stPaths w (ps ++ [k])%list = None →
    ∃ w', stDelete (pathString (ps ++ [k])%list) w = Ok (false, w') ∧ stHealthy w' ∧
      ∀ q, stPaths w' q = stPaths w q
}.

(** ** The store in memory obeys the laws *)

Local Open Scope list_scope.

Lemma descend_app a b t : descend (a ++ b) t = descend a t ≫= descend b.
Proof.
  revert t. induction a as [|p a IH]; intros t; [done|]. cbn [app descend].
  destruct (treeChildren t !! p); [|done]. apply IH.
Qed.

Lemma nodeAt_cons t p q : nodeAt t (p :: q) = treeChildren t !! p ≫= λ c, nodeAt c q.
Proof. unfold nodeAt. cbn [descend]. by destruct (treeChildren t !! p). Qed.

Lemma nodeAt_app t a b : nodeAt t (a ++ b) = descend a t ≫= λ n, nodeAt n b.
Proof. unfold nodeAt. rewrite descend_app. by destruct (descend a t). Qed.

Lemma nodeAt_makeDirs ps t q :
  nodeAt (makeDirs ps t) q =
    if decide (q `prefix_of` ps) then Some (default (List.last q "", ""%string) (nodeAt t q))
    else nodeAt t q.
Proof.
  revert t q. induction ps as [|p ps IH]; intros t q; cbn [makeDirs].
  { case_decide as Hq; [|done]. by apply prefix_nil_inv in Hq as ->. }
  destruct q as [|x q]; [by rewrite decide_True by apply prefix_nil|].
  rewrite !nodeAt_cons. cbn [treeChildren]. destruct (decide (x = p)) as [->|Hne].
  - rewrite lookup_insert_eq. cbn [mbind option_bind]. rewrite IH.
    rewrite (decide_ext (p :: q `prefix_of` p :: ps) (q `prefix_of` ps))
      by (split; [apply prefix_cons_inv_2|apply prefix_cons]).
    destruct (treeChildren t !! p) as [c|]; cbn [mbind option_bind default from_option id].
    + case_decide; [|done]. f_equal. destruct (nodeAt c q) as [n|] eqn:Hn; [done|]. cbn.
      destruct q; [|done]. discriminate Hn.
    + destruct q as [|y q]; [by rewrite !decide_True by apply prefix_nil|]. rewrite nodeAt_cons. cbn [treeChildren].
      rewrite lookup_empty. done.
  - rewrite lookup_insert_ne by done. rewrite decide_False; [done|].
    intros Hp%prefix_cons_inv_1. done.
Qed.

(** A change of the children at a path is seen below that path only. *)
Lemma nodeAt_changeAt_below f ps t x r n :
  descend ps t = Some n →
  nodeAt (changeAt f ps t) (ps ++ x :: r) = f (treeChildren n) !! x ≫= λ c, nodeAt c r.
Proof.
  revert t. induction ps as [|p ps IH]; intros t; cbn [descend changeAt app].
  - intros [= ->]. by rewrite nodeAt_cons.
  - destruct (treeChildren t !! p) as [c|] eqn:Hc; [|done]. cbn [mbind option_bind]. intros Hn.
    rewrite nodeAt_cons. cbn [treeChildren]. rewrite lookup_alter_eq, Hc. cbn [fmap option_fmap option_map mbind option_bind].
    by apply IH.
Qed.

Lemma nodeAt_changeAt_other f ps t q :
  (∀ x r, q ≠ ps ++ x :: r) → nodeAt (changeAt f ps t) q = nodeAt t q.
Proof.
  revert t q. induction ps as [|p ps IH]; intros t q Hq; cbn [changeAt].
  - destruct q as [|x q]; [done|]. by destruct (Hq x q).
  - destruct q as [|x q]; [done|]. rewrite !nodeAt_cons. cbn [treeChildren].
    destruct (decide (p = x)) as [->|Hne]; [|by rewrite lookup_alter_ne].
    rewrite lookup_alter_eq. destruct (treeChildren t !! x) as [c|]; [|done]. cbn. apply IH.
    intros y r ->. by destruct (Hq y r).
Qed.

(** *** Paths *)

Lemma splitPath_pathString ps t :
  ps ≠ [] → Forall component ps → splitPath (pathString ps) t = Ok (ps, t).
Proof.
  intros Hne Hps. unfold splitPath, pathString. rewrite decide_True by done. destruct ps as [|p ps]; [done|].
  rewrite splitOn_joinOn; [done|]. eapply Forall_impl; [exact Hps|]. by intros s [_ ?].
Qed.

Lemma joinOn_empty ps : Forall component ps → joinOn slash ps = ""%string → ps = [].
Proof.
  intros Hps. destruct ps as [|p [|q ps]]; [done|..]; apply Forall_cons in Hps as [[Hp _] _].
  - done.
  - rewrite joinOn_cons. destruct p; [done|]. by rewrite string_app_cons.
Qed.

Lemma dirPath_pathString ps k t :
  Forall component (ps ++ [k]) → dirPath (pathString (ps ++ [k])) t = Ok ((pathString ps, k), t).
Proof.
  intros Hps. unfold dirPath, mbind, M_bind. rewrite splitPath_pathString by (done || by destruct ps).
  cbn [mret M_ret]. rewrite removelast_last, last_last. done.
Qed.

Lemma pathString_root ps : Forall component ps → pathString ps = "/" → ps = [].
Proof. intros Hps [= Heq]. by apply joinOn_empty. Qed.

Lemma getTree_pathString ps t :
  Forall component ps → getTree (pathString ps) t = Ok (descend ps t, t).
Proof.
  intros Hps. unfold getTree. case_decide as Hroot.
  - apply pathString_root in Hroot as ->; done.
  - unfold mbind, M_bind. rewrite splitPath_pathString; [done| |done]. by intros ->.
Qed.

Lemma get_pathString ps k t :
  Forall component (ps ++ [k]) → get (pathString (ps ++ [k])) t = Ok (treePaths t (ps ++ [k]), t).
Proof.
  intros Hps. unfold get, mbind, M_bind. rewrite dirPath_pathString by done.
  apply Forall_app in Hps as [Hps _]. rewrite getTree_pathString by done. cbn [mret M_ret].
  do 2 f_equal. unfold treePaths. rewrite nodeAt_app. destruct (descend ps t) as [n|]; [|done].
  cbn [mbind option_bind]. rewrite nodeAt_cons. by destruct (treeChildren n !! k).
Qed.

Lemma changeDir_pathString f ps t :
  Forall component ps → changeDir f (pathString ps) t = Ok (tt, changeAt f ps t).
Proof.
  intros Hps. unfold changeDir. case_decide as Hroot.
  - apply pathString_root in Hroot as ->; done.
  - unfold mbind, M_bind. rewrite splitPath_pathString; [done| |done]. by intros ->.
Qed.

Lemma treePaths_descend t ps : is_Some (treePaths t ps) ↔ is_Some (descend ps t).
Proof. unfold treePaths, nodeAt. by rewrite !fmap_is_Some. Qed.

Lemma mkdir_pathString ps t :
  Forall component ps →
  mkdir (pathString ps) t =
    match treePaths t ps with
    | Some _ => Ok (bool_decide (ps = []), t)
    | None => Ok (true, makeDirs ps t)
    end.
Proof.
  intros Hps. unfold mkdir. case_decide as Hroot.
  { apply pathString_root in Hroot as ->; done. }
  destruct ps as [|k ps _] using rev_ind; [by destruct Hroot|].
  unfold mbind, M_bind. rewrite get_pathString by done. destruct (treePaths t (ps ++ [k])) eqn:Hk.
  - rewrite bool_decide_false; [done|]. by destruct ps.
  - rewrite splitPath_pathString; [done|by destruct ps|done].
Qed.

(** Which paths lie below a node. *)
Lemma below_dec (ps q : list string) : (∃ x r, q = ps ++ x :: r) ∨ ∀ x r, q ≠ ps ++ x :: r.
Proof.
  destruct (decide (ps `prefix_of` q)) as [[[|x r] ->]|Hno]; [right|left; eauto|right].
  - intros x r Heq. rewrite app_nil_r in Heq. apply (f_equal length) in Heq. rewrite length_app in Heq.
    simpl in Heq. lia.
  - intros x r ->. apply Hno. by apply prefix_app_r.
Qed.

(** Writing one child. *)
Lemma nodeAt_insert ps k t n c q :
  descend ps t = Some n →
  (∀ r, r ≠ [] → nodeAt c r = treeChildren n !! k ≫= λ c0, nodeAt c0 r) →
  nodeAt (changeAt (<[k:=c]>) ps t) q =
    if decide (q = ps ++ [k]) then Some (treeKey c, treeValue c) else nodeAt t q.
Proof.
  intros Hn Hc. destruct (below_dec ps q) as [(x & r & ->)|Hq].
  - rewrite (nodeAt_changeAt_below _ _ _ _ _ n) by done. rewrite nodeAt_app, Hn. cbn [mbind option_bind].
    rewrite nodeAt_cons. destruct (decide (x = k)) as [->|Hne].
    + rewrite lookup_insert_eq. cbn [mbind option_bind]. destruct r as [|y r].
      * by rewrite decide_True.
      * rewrite decide_False; [by apply Hc|]. by intros [=]%app_inv_head.
    + rewrite lookup_insert_ne by done. rewrite decide_False; [done|]. by intros [=]%app_inv_head.
  - rewrite nodeAt_changeAt_other by done. by rewrite decide_False by apply Hq.
Qed.

Lemma nodeAt_delete ps k t n q :
  descend ps t = Some n →
  nodeAt (changeAt (delete k) ps t) q =
    if decide (ps ++ [k] `prefix_of` q) then None else nodeAt t q.
Proof.
  intros Hn. destruct (below_dec ps q) as [(x & r & ->)|Hq].
  - rewrite (nodeAt_changeAt_below _ _ _ _ _ n) by done. rewrite nodeAt_app, Hn. cbn [mbind option_bind].
    rewrite nodeAt_cons. destruct (decide (x = k)) as [->|Hne].
    + rewrite lookup_delete_eq, decide_True; [done|]. apply prefix_app. apply prefix_cons, prefix_nil.
    + rewrite lookup_delete_ne by done. rewrite decide_False; [done|].
      intros Hp%prefix_app_inv. by apply prefix_cons_inv_1 in Hp.
  - rewrite nodeAt_changeAt_other by done. rewrite decide_False; [done|]. intros [r ->].
    apply (Hq k r). by rewrite <- (assoc_L (++)).
Qed.

Lemma wellKeyed_if t t' :
  wellKeyed t →
  (∀ q, nodeAt t' q = nodeAt t q ∨ nodeAt t' q = None ∨ ∃ v, nodeAt t' q = Some (List.last q "", v)) →
  wellKeyed t'.
Proof.
  intros Ht Ht' q k n Hn. destruct (Ht' (q ++ [k])) as [Heq|[Heq|[v Heq]]]; rewrite Heq in Hn.
  - by eapply Ht.
  - done.
  - injection Hn as <-. by rewrite last_last.
Qed.

(** The directories of a path, made where they are missing. *)
Definition withDirs (ps : list string) (f : list string → option (string * string)) (q : list string)
    : option (string * string) :=
  if decide (q `prefix_of` ps) then Some (default (List.last q "", ""%string) (f q)) else f q.

Lemma descend_prefix q ps t : q `prefix_of` ps → is_Some (descend ps t) → is_Some (descend q t).
Proof.
  intros [r ->] [n Hn]. rewrite descend_app in Hn. destruct (descend q t); [eauto|done].
Qed.

Lemma withDirs_present ps t q :
  is_Some (descend ps t) → withDirs ps (nodeAt t) q = nodeAt t q.
Proof.
  intros Hps. unfold withDirs. case_decide as Hq; [|done]. unfold nodeAt.
  destruct (descend_prefix q ps t Hq Hps) as [n ->]. done.
Qed.

Lemma wellKeyed_makeDirs ps t : wellKeyed t → wellKeyed (makeDirs ps t).
Proof.
  intros Ht. apply (wellKeyed_if t); [done|]. intros q. rewrite nodeAt_makeDirs. case_decide; [|by left].
  destruct (nodeAt t q) as [n|]; [by left|]. right. right. eexists. done.
Qed.

Lemma descend_makeDirs ps t : is_Some (descend ps (makeDirs ps t)).
Proof.
  pose proof (nodeAt_makeDirs ps t ps) as Hn. rewrite decide_True in Hn by done.
  unfold nodeAt in Hn. destruct (descend ps (makeDirs ps t)); [eauto|done].
Qed.

Lemma createPrefix_run ps k t :
  wellKeyed t → Forall component (ps ++ [k]) →
  ∃ n t1, createPrefix (pathString (ps ++ [k])) t = Ok ((Some n, pathString ps, k), t1) ∧
    descend ps t1 = Some n ∧ wellKeyed t1 ∧ ∀ q, nodeAt t1 q = withDirs ps (nodeAt t) q.
Proof.
  intros Ht Hps. unfold createPrefix, mbind, M_bind. rewrite dirPath_pathString by done.
  apply Forall_app in Hps as [Hps _]. rewrite mkdir_pathString by done.
  destruct (treePaths t ps) as [v|] eqn:Hp.
  - assert (is_Some (descend ps t)) as [n Hn] by (apply treePaths_descend; eauto).
    exists n, t. rewrite getTree_pathString, Hn by done. split_and!; [done..|].
    intros q. by rewrite withDirs_present by eauto.
  - destruct (descend_makeDirs ps t) as [n Hn]. exists n, (makeDirs ps t).
    rewrite getTree_pathString, Hn by done.
    split_and!; [done|done|by apply wellKeyed_makeDirs|apply nodeAt_makeDirs].
Qed.

(** The path itself is not one of its directories. *)
Lemma withDirs_self ps k f : withDirs ps f (ps ++ [k]) = f (ps ++ [k]).
Proof.
  unfold withDirs. rewrite decide_False; [done|]. intros Hp%prefix_length. rewrite length_app in Hp.
  simpl in Hp. lia.
Qed.

Lemma nodeAt_child ps k t n :
  descend ps t = Some n → nodeAt t (ps ++ [k]) = (λ c, (treeKey c, treeValue c)) <$> treeChildren n !! k.
Proof.
  intros Hn. rewrite nodeAt_app, Hn. cbn [mbind option_bind]. rewrite nodeAt_cons.
  by destruct (treeChildren n !! k).
Qed.

(** What a write leaves: the value at the path, and the directories above it. *)
Definition written (ps : list string) (k v : string) (f : list string → option (string * string))
    (q : list string) : option (string * string) :=
  if decide (q = ps ++ [k]) then Some (k, v) else withDirs ps f q.

Lemma wellKeyed_insert ps k t n c :
  wellKeyed t → descend ps t = Some n → treeKey c = k →
  (∀ r, r ≠ [] → nodeAt c r = treeChildren n !! k ≫= λ c0, nodeAt c0 r) →
  wellKeyed (changeAt (<[k:=c]>) ps t).
Proof.
  intros Ht Hn Hk Hc. apply (wellKeyed_if t); [done|]. intros q. rewrite (nodeAt_insert ps k t n c q Hn Hc).
  case_decide as Hq; [|by left]. right. right. exists (treeValue c). by rewrite Hq, last_last, Hk.
Qed.

Lemma createKey_run ps k v t :
  wellKeyed t → Forall component (ps ++ [k]) →
  ∃ ok t', createKey (pathString (ps ++ [k])) v t = Ok (ok, t') ∧ wellKeyed t' ∧
    match nodeAt t (ps ++ [k]) with
    | Some _ => ok = false ∧ ∀ q, nodeAt t' q = withDirs ps (nodeAt t) q
    | None => ok = true ∧ ∀ q, nodeAt t' q = written ps k v (nodeAt t) q
    end.
Proof.
  intros Ht Hps. destruct (createPrefix_run ps k t Ht Hps) as (n & t1 & Hrun & Hn & Ht1 & Hdirs).
  pose proof (nodeAt_child ps k t1 n Hn) as Hchild. rewrite Hdirs, withDirs_self in Hchild.
  unfold createKey, mbind, M_bind. rewrite Hrun, Hchild.
  destruct (treeChildren n !! k) as [c|] eqn:Hc; cbn [fmap option_fmap option_map].
  - exists false, t1. rewrite decide_True by eauto. done.
  - rewrite decide_False by (by intros []). apply Forall_app in Hps as [Hps _].
    rewrite changeDir_pathString by done. eexists true, _. split; [done|].
    assert (∀ r, r ≠ [] → nodeAt (mkTree k v ∅) r = treeChildren n !! k ≫= λ c0, nodeAt c0 r) as Hleaf.
    { intros [|x r] Hr; [done|]. by rewrite Hc. }
    split_and!; [by eapply wellKeyed_insert|done|]. intros q. unfold written.
    rewrite (nodeAt_insert ps k t1 n _ q Hn Hleaf). case_decide; [done|]. apply Hdirs.
Qed.

Lemma updateKey_run ps k v t :
  wellKeyed t → Forall component (ps ++ [k]) →
  ∃ ok t', updateKey (pathString (ps ++ [k])) v t = Ok (ok, t') ∧ wellKeyed t' ∧
    match nodeAt t (ps ++ [k]) with
    | None => ok = false ∧ ∀ q, nodeAt t' q = withDirs ps (nodeAt t) q
    | Some _ => ok = true ∧ ∀ q, nodeAt t' q = written ps k v (nodeAt t) q
    end.
Proof.
  intros Ht Hps. destruct (createPrefix_run ps k t Ht Hps) as (n & t1 & Hrun & Hn & Ht1 & Hdirs).
  pose proof (nodeAt_child ps k t1 n Hn) as Hchild. unfold updateKey, mbind, M_bind. rewrite Hrun.
  destruct (treeChildren n !! k) as [c|] eqn:Hc; cbn [fmap option_fmap option_map] in Hchild.
  - assert (treeKey c = k) as Hk by (by apply (Ht1 ps k _ Hchild)). rewrite Hdirs, withDirs_self in Hchild.
    rewrite Hchild. apply Forall_app in Hps as [Hps _]. rewrite changeDir_pathString by done.
    eexists true, _. split; [done|].
    assert (∀ r, r ≠ [] → nodeAt (mkTree (treeKey c) v (treeChildren c)) r =
      treeChildren n !! k ≫= λ c0, nodeAt c0 r) as Hsame.
    { intros [|x r] Hr; [done|]. by rewrite Hc. }
    split_and!; [by eapply wellKeyed_insert|done|]. intros q. unfold written.
    rewrite (nodeAt_insert ps k t1 n _ q Hn Hsame). case_decide; [cbn; by rewrite Hk|]. apply Hdirs.
  - rewrite Hdirs, withDirs_self in Hchild. rewrite Hchild. by exists false, t1.
Qed.

Lemma setKey_run ps k v t :
  wellKeyed t → Forall component (ps ++ [k]) →
  ∃ t', setKey (pathString (ps ++ [k])) v t = Ok (true, t') ∧ wellKeyed t' ∧
    ∀ q, nodeAt t' q = written ps k v (nodeAt t) q.
Proof.
  intros Ht Hps. unfold setKey, mbind, M_bind. rewrite get_pathString by done. unfold treePaths.
  destruct (createKey_run ps k v t Ht Hps) as (ok1 & t1 & R1 & W1 & C1).
  destruct (updateKey_run ps k v t Ht Hps) as (ok2 & t2 & R2 & W2 & C2).
  destruct (nodeAt t (ps ++ [k])); cbn [fmap option_fmap option_map].
  - destruct C2 as [-> C2]. eauto.
  - destruct C1 as [-> C1]. eauto.
Qed.

Lemma deleteKey_run ps k t :
  wellKeyed t → Forall component (ps ++ [k]) →
  ∃ ok t', deleteKey (pathString (ps ++ [k])) t = Ok (ok, t') ∧ wellKeyed t' ∧
    (ok = true ↔ is_Some (nodeAt t (ps ++ [k]))) ∧
    ∀ q, nodeAt t' q = if decide (ps ++ [k] `prefix_of` q) then None else nodeAt t q.
Proof.
  intros Ht Hps. unfold deleteKey, mbind, M_bind. rewrite dirPath_pathString by done.
  apply Forall_app in Hps as [Hps _]. rewrite getTree_pathString by done.
  assert (nodeAt t (ps ++ [k]) = None →
    ∀ q, nodeAt t q = if decide (ps ++ [k] `prefix_of` q) then None else nodeAt t q) as Hnone.
  { intros Hk q. case_decide as Hq; [|done]. unfold nodeAt in Hk |- *.
    destruct (descend q t) eqn:Hd; [|done]. destruct (descend_prefix _ _ t Hq) as [n Hn]; [eauto|].
    by rewrite Hn in Hk. }
  destruct (descend ps t) as [n|] eqn:Hn.
  - rewrite (nodeAt_child ps k t n Hn) in *. destruct (treeChildren n !! k) as [c|] eqn:Hc.
    + rewrite decide_True by eauto. rewrite changeDir_pathString by done. eexists true, _.
      split; [done|]. split_and!; [|by split; [eauto|]|intros q; by apply (nodeAt_delete ps k t n)].
      apply (wellKeyed_if t); [done|]. intros q. rewrite (nodeAt_delete ps k t n q Hn). case_decide; auto.
    + rewrite decide_False by (by intros []). exists false, t. split_and!; [done|done| |by apply Hnone].
      split; [done|]. by intros [? [=]].
  - assert (nodeAt t (ps ++ [k]) = None) as Hk by (by rewrite nodeAt_app, Hn).
    exists false, t. split_and!; [done|done| |by apply Hnone]. rewrite Hk. split; [done|]. by intros [? [=]].
Qed.

#[global] Instance mockLaws : StoreLaws Tree.
Proof.
  unshelve refine {| stPaths := treePaths; stHealthy := wellKeyed |};
    cbn [stMkdir stGetTree stGet stDelete stCreate stUpdate stSet mockStore].
  - intros t ps p _ Hp. apply treePaths_descend. apply treePaths_descend in Hp.
    eapply descend_prefix; [|exact Hp]. by apply prefix_app_r.
  - intros t ps Ht Hps Hnone. rewrite mkdir_pathString, Hnone by done.
    exists (makeDirs ps t). split_and!; [done|by apply wellKeyed_makeDirs|]. intros q. unfold treePaths.
    rewrite nodeAt_makeDirs. case_decide; [|done]. by destruct (nodeAt t q).
  - intros t ps Ht Hps [v Hv]. rewrite mkdir_pathString, Hv by done. by eexists _, t.
  - intros t ps Ht Hps. rewrite getTree_pathString by done. exists (descend ps t), t. split_and!; [done..|].
    destruct (descend ps t) as [n|] eqn:Hn.
    + split; [intros q k m Hm; apply (Ht (ps ++ q) k); by rewrite <- (assoc_L (++)), nodeAt_app, Hn|].
      intros q. unfold treePaths. by rewrite nodeAt_app, Hn.
    + unfold treePaths, nodeAt. by rewrite Hn.
  - intros t ps k v Ht Hps Hparent Hleaf. destruct (setKey_run ps k v t Ht Hps) as (t' & Hrun & Ht' & Hq).
    exists t'. split_and!; [done|done|]. intros q. unfold treePaths. rewrite Hq. unfold written.
    case_decide; [done|]. rewrite withDirs_present; [done|]. by apply treePaths_descend.
  - intros t ps k Ht Hps Hk. destruct (deleteKey_run ps k t Ht Hps) as (ok & t' & Hrun & Ht' & Hok & Hq).
    assert (ok = true) as -> by (apply Hok; unfold treePaths in Hk; by apply fmap_is_Some in Hk).
    exists t'. split_and!; [done|done|]. intros q. unfold treePaths. rewrite Hq. by case_decide.
  - intros t ps k Ht Hps Hk. destruct (deleteKey_run ps k t Ht Hps) as (ok & t' & Hrun & Ht' & Hok & Hq).
    unfold treePaths in Hk. apply fmap_None in Hk. rewrite Hk in Hok.
    assert (ok = false) as -> by (destruct ok; [by destruct Hok as [[? [=]] _]|done]).
    exists t'. split_and!; [done|done|]. intros q. unfold treePaths. rewrite Hq. case_decide as Hp; [|done].
    unfold nodeAt in Hk |- *. destruct (descend q t) eqn:Hd; [|done].
    destruct (descend_prefix _ _ t Hp) as [n Hn]; [eauto|]. by rewrite Hn in Hk.
Defined.


Lemma NewMock_wellKeyed : wellKeyed NewMock.
Proof. intros q k n Hn. unfold nodeAt in Hn. rewrite descend_app in Hn. destruct q; done. Qed.

