(* ===== verification/NetStore.v ===== *)
(** * minion/network: the directories of the cluster's store

    Model of [src/minion/network/store.go]. The leader writes the containers and the
    labels, with the addresses it allocates for them, into two directories of the
    store; every minion reads them back into its database. *)

From stdpp Require Import base gmap list strings.
From Stdlib Require Import ZArith Lia.
From S2P Require Import Prelude Join DbRows Db DbProps Reconcile NetIP Consensus.

Local Open Scope Z_scope.

Definition labelDir : string := "/minion/labels".
Definition containerDir : string := "/minion/containers".
Definition gatewayIP : string := "10.0.0.1".

(** The first two levels of a tree of the store. *)
Abbreviation directory := (gmap string (gmap string string)).

(** [rand.Uint32]: the number that the [n]-th call returns. *)
Class Rand : Type := {
  rand32 : nat → Z;
  rand32_uint32 : ∀ n, uint32 (rand32 n)
}.

(** [json.Marshal] and [json.Unmarshal] for a slice of strings, which is unchanged,
    here nil, if the text is not valid. [jsonText] are the strings that survive both. *)
Class JSON : Type := {
  marshal : list string → string;
  unmarshal : string → slice string;
  jsonText : string → Prop;
  unmarshal_marshal : ∀ l, Forall jsonText l → unmarshal (marshal l) = Some l
}.

(** The world outside the database: the store, the number of random numbers drawn,
    and the number of loops over maps. *)
Record netWorld (W : Type) : Type := mkNetWorld {
  nwStore : W;
  nwRand : nat;
  nwLoops : nat
}.
Arguments mkNetWorld {W} _ _ _.
Arguments nwStore {W} _.
Arguments nwRand {W} _.
Arguments nwLoops {W} _.

(** The field of an entry of a directory: [dir[k][f]], which is empty if there is no
    such entry. *)
Definition dirField (dir : directory) (k f : string) : string :=
  default ""%string (m ← dir !! k; m !! f).

Definition prefixMask : Z := 0xffff0000.
Definition containerPrefix : Z := bytesToUint32 [10; 0; 0; 0].
Definition labelPrefix : Z := bytesToUint32 [10; 1; 0; 0].

(** [fmt.Sprintf("%s/%s", path, id)]. *)
Definition sub (path id : string) : string := (path ++ "/" ++ id)%string.

Section Net.
Context {W : Type} `{Store W} `{MapRange} `{Rand} `{JSON}.

Abbreviation N := (M Empty_set (netWorld W)).

Definition onStore {A} (c : M Empty_set W A) : N A := λ s,
  match c (nwStore s) with
  | Ok (a, w) => Ok (a, mkNetWorld w (nwRand s) (nwLoops s))
  | Err e => Err e
  | Panic why => Panic why
  | OutOfFuel => OutOfFuel
  end.

(** The entries of a map, in the order of the next loop. *)
Definition rangeNet {K V} `{Countable K} (m : gmap K V) : N (list (K * V)) := λ s,
  Ok (rangeOrder (nwLoops s) m, mkNetWorld (nwStore s) (nwRand s) (S (nwLoops s))).

Definition drawIP (conflicts : gset Z) (prefix mask : Z) : N Z := λ s,
  let '(ip, calls) := randomIP rand32 (nwRand s) conflicts prefix mask in
  Ok (ip, mkNetWorld (nwStore s) calls (nwLoops s)).

(** ** Directories *)

Definition addNode (dir : directory) (l1 : string * Tree) : N directory :=
  l2s ← rangeNet (treeChildren l1.2);
  let childMap := foldl (λ m (l2 : string * Tree), <[treeKey l2.2 := treeValue l2.2]> m) ∅ l2s in
  mret (<[treeKey l1.2 := childMap]> dir).

Definition getDirectory (path : string) : N (option directory) :=
  tree ← onStore (stGetTree path);
  match tree with
  | None => mret None
  | Some t =>
      l1s ← rangeNet (treeChildren t);
      dir ← foldEach addNode ∅ l1s;
      mret (Some dir)
  end.

Definition keys (dir : directory) : N (list string) :=
  entries ← rangeNet dir; mret entries.*1.

Definition idScore (left right : string) : Z := if decide (left ≠ right) then -1 else 0.

Definition dropEntry (path : string) (dir : directory) (id : string) : N directory :=
  _ ← onStore (stDelete (sub path id)); mret (delete id dir).

Definition addEntry (path : string) (dir : directory) (id : string) : N directory :=
  if decide (is_Some (dir !! id)) then mret dir
  else ok ← onStore (stMkdir (sub path id));
       mret (if ok : bool then <[id := ∅]> dir else dir).

Definition syncDir (dir : directory) (path : string) (idsArg : list string) : N directory :=
  dirKeys ← keys dir;
  let j := Join idScore dirKeys idsArg in
  dir ← foldEach (dropEntry path) dir (lonelyLefts j);
  foldEach (addEntry path) dir (lonelyRights j).

(** ** Addresses *)

(** The first loop of [syncIPs]: the addresses in use, and the entries without one. *)
Definition sortEntry (prefix mask : Z) (acc : gset Z * list string)
    (entry : string * gmap string string) : gset Z * list string :=
  let ip := parseIP (default ""%string (entry.2 !! "IP"%string)) prefix mask in
  if decide (ip ≠ 0) then ({[ip]} ∪ acc.1, acc.2) else (acc.1, acc.2 ++ [entry.1]).

(** The body of the second loop. *)
Definition assignIP (path : string) (prefix mask : Z) (acc : directory * gset Z) (k : string)
    : N (directory * gset Z) :=
  let '(dir, ipSet) := acc in
  ip32 ← drawIP ipSet prefix mask;
  let ipPath := sub (sub path k) "IP" in
  if decide (ip32 = 0) then
    _ ← onStore (stDelete ipPath);
    mret (alter (delete "IP"%string) k dir, ipSet)
  else
    let ipStr := ipString (uint32ToBytes ip32) in
    ok ← onStore (stSet ipPath ipStr);
    if ok : bool then
      match dir !! k with
      | None => panic "assignment to entry in nil map"
      | Some m => mret (<[k := <["IP"%string := ipStr]> m]> dir, {[ip32]} ∪ ipSet)
      end
    else mret (dir, ipSet).

Definition syncIPs (dir : directory) (path : string) (prefix : Z) : N directory :=
  entries ← rangeNet dir;
  let '(ipSet, unassigned) := foldl (sortEntry prefix prefixMask) (∅, []) entries in
  let ipSet := {[parseIP gatewayIP prefix prefixMask]} ∪ ipSet in
  '(dir, _) ← foldEach (assignIP path prefix prefixMask) (dir, ipSet) unassigned;
  mret dir.

(** ** Labels of containers *)

Definition idLabelMap (containers : list Container) : gmap string (slice string) :=
  foldl (λ m c, if decide (containerSchedID c ≠ ""%string)
                then <[containerSchedID c := containerLabels c]> m else m) ∅ containers.

Definition syncLabel (path : string) (idLabels : gmap string (slice string)) (dir : directory)
    (entry : string * gmap string string) : N directory :=
  let '(id, children) := entry in
  let labels := sortStrings (elems (default None (idLabels !! id))) in
  let js := marshal labels in
  if decide (js = default ""%string (children !! "Labels"%string)) then mret dir
  else
    ok ← onStore (stSet (sub (sub path id) "Labels") js);
    if ok : bool then
      match dir !! id with
      | None => panic "assignment to entry in nil map"
      | Some m => mret (<[id := <["Labels"%string := js]> m]> dir)
      end
    else mret dir.

Definition syncLabels (dir : directory) (path : string) (containers : list Container) : N directory :=
  entries ← rangeNet dir;
  foldEach (syncLabel path (idLabelMap containers)) dir entries.

(** ** The writers; [false] is an error. *)

Definition schedIDs (containers : list Container) : list string :=
  base.filter (λ i, i ≠ ""%string) (containerSchedID <$> containers).

Definition writeStoreContainers (containers : list Container) : N bool :=
  _ ← onStore (stMkdir containerDir);
  dir ← getDirectory containerDir;
  match dir with
  | None => mret false
  | Some dir =>
      dir ← syncDir dir containerDir (schedIDs containers);
      dir ← syncIPs dir containerDir containerPrefix;
      _ ← syncLabels dir containerDir containers;
      mret true
  end.

(** The containers of each label. *)
Definition labelMap (containers : list Container) : gmap string (list Container) :=
  foldl (λ m dbc, foldl (λ m label, <[label := default [] (m !! label) ++ [dbc]]> m) m
                    (elems (containerLabels dbc))) ∅ containers.

(** The body of the loop that marks labels with several containers. *)
Definition markMultiHost (dir : directory) (entry : string * list Container) : N directory :=
  let '(label, dbcs) := entry in
  let isMH := bool_decide (1 < length dbcs)%nat in
  if decide (bool_decide (is_Some (m ← dir !! label; m !! "MultiHost"%string)) = isMH) then mret dir
  else
    let path := sub (sub labelDir label) "MultiHost" in
    if isMH then
      match dir !! label with
      | None => panic "assignment to entry in nil map"
      | Some m =>
          _ ← onStore (stSet path "true");
          mret (<[label := <["MultiHost"%string := "true"%string]> m]> dir)
      end
    else
      _ ← onStore (stDelete path);
      mret (alter (delete "MultiHost"%string) label dir).

(** The body of the loop that sets the addresses of the other labels. *)
Definition setLabelIP (dir : directory) (entry : string * list Container) : N unit :=
  let '(label, dbcs) := entry in
  match dbcs with
  | [dbc] =>
      if decide (containerIP dbc = ""%string ∨
                 dirField dir (containerIP dbc) "IP" = containerIP dbc) then mret tt
      else _ ← onStore (stSet (sub (sub labelDir label) "IP") (containerIP dbc)); mret tt
  | _ => mret tt
  end.

Definition writeStoreLabels (containers : list Container) : N bool :=
  _ ← onStore (stMkdir labelDir);
  dir ← getDirectory labelDir;
  match dir with
  | None => mret false
  | Some dir =>
      dir ← syncDir dir labelDir (c ← containers; elems (containerLabels c));
      let lm := labelMap containers in
      entries ← rangeNet lm;
      dir ← foldEach markMultiHost dir entries;
      entries ← rangeNet lm;
      _ ← forEach (setLabelIP dir) entries;
      let multi := base.filter (λ p : string * gmap string string, is_Some (p.2 !! "MultiHost"%string)) dir in
      _ ← syncIPs multi labelDir labelPrefix;
      mret true
  end.

(** ** The readers *)

Definition hexChar (n : Z) : Ascii.ascii :=
  Ascii.ascii_of_nat (if n <? 10 then 48 + Z.to_nat n else 87 + Z.to_nat n).

(** [%02x] of a byte. *)
Definition hex2 (n : Z) : string := String (hexChar (n / 16)) (String (hexChar (n mod 16)) "").

Definition macOf (ip : list Z) : string := ("02:00:" ++ joinOn colon (hex2 <$> ip))%string.

Definition readContainer (worker : bool) (dir : directory) (c : Container) : Container :=
  let '(labels, ip, mac) :=
    match dir !! containerSchedID c with
    | None => (None, ""%string, containerMac c)
    | Some children =>
        let ip := default ""%string (children !! "IP"%string) in
        (unmarshal (default ""%string (children !! "Labels"%string)), ip,
         match parseTo4 ip with Some b => macOf b | None => containerMac c end)
    end in
  mkContainer (containerID c) (containerPid c) ip mac (containerSchedID c) (containerImage c)
    (containerCommand c) (if worker then labels else containerLabels c) (containerEnv c)
    (containerExclusive c).

Definition readContainerTransact (dir : directory) : DB unit :=
  minions ← SelectFrom (R := Minion) None;
  let worker := match minions with [m] => bool_decide (minionRole m = Worker) | _ => false end in
  containers ← SelectFrom (R := Container) None;
  forEach (λ c, Commit (readContainer worker dir c)) containers.

Definition labelScore (dbl : Label) (key : string) : Z := if decide (labelLabel dbl = key) then 0 else 1.

Definition readLabel (dir : directory) (key : string) (dbl : Label) : Label :=
  mkLabel (labelID dbl) key (dirField dir key "IP")
    (bool_decide (is_Some (m ← dir !! key; m !! "MultiHost"%string))).

(** [readLabelTransact], where [dirKeys] are the keys of the directory in the order
    of a loop over it. *)
Definition readLabelTransact (dir : directory) (dirKeys : list string) : DB unit :=
  labels ← SelectFrom (R := Label) None;
  reconcileRows (readLabel dir) labelScore labels dirKeys.

(** ** One round of each loop *)

Definition readStoreOnce : M Empty_set (Database * netWorld W) unit :=
  labels ← inWorld (getDirectory labelDir);
  containers ← inWorld (getDirectory containerDir);
  match labels, containers with
  | Some labels, Some containers =>
      dirKeys ← inWorld (keys labels);
      onDb (Transact (
        _ ← readContainerTransact containers;
        readLabelTransact labels dirKeys))
  | _, _ => mret tt
  end.

Definition writeStoreOnce : M Empty_set (Database * netWorld W) unit :=
  '(leader, containers) ← onDb (Transact (
    etcds ← SelectFrom (R := Etcd) None;
    containers ← SelectFrom (R := Container) None;
    mret (match etcds with [e] => etcdLeader e | _ => false end, containers)));
  if leader : bool then
    _ ← inWorld (writeStoreContainers containers);
    _ ← inWorld (writeStoreLabels containers);
    mret tt
  else mret tt.

End Net.
