(* ===== verification/NetStoreProps.v ===== *)
(** * minion/network: allocation of addresses

    Theorems on [syncIPs] of [NetStore]: the addresses it allocates are in the prefix,
    not the gateway's, and not in use, whatever operations of the store fail. *)

From stdpp Require Import base gmap list strings.
From Stdlib Require Import ZArith Lia.
From S2P Require Import Prelude NetIP Consensus NetStore.

Local Open Scope Z_scope.

(** The address of an entry, 0 if it has none in the prefix. *)
Definition ipOf (prefix : Z) (dir : directory) (k : string) : Z :=
  parseIP (dirField dir k "IP") prefix prefixMask.

(** A prefix of sixteen bits. *)
Definition goodPrefix (prefix : Z) : Prop :=
  uint32 prefix ∧ prefix ≠ 0 ∧ Z.land prefix prefixMask = prefix.

Lemma containerPrefix_good : goodPrefix containerPrefix.
Proof. split_and!; [by split|done|done]. Qed.

Lemma labelPrefix_good : goodPrefix labelPrefix.
Proof. split_and!; [by split|done|done]. Qed.

Lemma prefixMask_uint32 : uint32 prefixMask.
Proof. by split. Qed.

Lemma parseIP_cases s prefix mask :
  parseIP s prefix mask = 0 ∨ Z.land (parseIP s prefix mask) mask = prefix.
Proof.
  unfold parseIP. destruct (parseTo4 s) as [ip|]; [|by left].
  destruct (decide (Z.land (bytesToUint32 ip) mask = prefix)) as [Hp|Hp].
  - right. by rewrite decide_False by auto.
  - left. by rewrite decide_True.
Qed.

Lemma parseIP_empty prefix : parseIP "" prefix prefixMask = 0.
Proof. done. Qed.

Lemma alter_insert_Some {K V} `{Countable K} (f : V → V) k (m : gmap K V) v :
  m !! k = Some v → alter f k m = <[k := f v]> m.
Proof.
  intros Hk. apply map_eq. intros i. destruct (decide (k = i)) as [<-|Hne].
  - by rewrite lookup_alter_eq, lookup_insert_eq, Hk.
  - by rewrite lookup_alter_ne, lookup_insert_ne.
Qed.

(** ** The first loop *)

Lemma sortEntries_spec prefix (entries : list (string * gmap string string)) :
  let '(ips, unassigned) := foldl (sortEntry prefix prefixMask) (∅, []) entries in
  (∀ k m, (k, m) ∈ entries → let ip := parseIP (default ""%string (m !! "IP"%string)) prefix prefixMask in
     if decide (ip = 0) then k ∈ unassigned else ip ∈ ips) ∧
  unassigned = (base.filter (λ p : string * gmap string string,
    parseIP (default ""%string (p.2 !! "IP"%string)) prefix prefixMask = 0) entries).*1.
Proof.
  induction entries as [|[k m] entries IH] using rev_ind; [split; [|done]; intros k m Hin; inversion Hin|].
  rewrite foldl_app. cbn [foldl]. destruct (foldl _ _ entries) as [ips unassigned]. destruct IH as [Hall ->].
  unfold sortEntry. cbn [fst snd]. rewrite filter_app, fmap_app. case_decide as Hip.
  - rewrite (filter_cons_False _ (k, m)) by done. cbn [fmap list_fmap]. rewrite filter_nil, app_nil_r. split; [|done].
    intros k' m' [Hin|[= -> ->]%list_elem_of_singleton]%elem_of_app.
    + specialize (Hall k' m' Hin). cbv zeta in *. case_decide; [done|]. set_solver.
    + cbv zeta. rewrite decide_False by done. set_solver.
  - assert (parseIP (default ""%string (m !! "IP"%string)) prefix prefixMask = 0) as Hz by lia.
    rewrite (filter_cons_True _ (k, m)) by done. rewrite filter_nil. split; [|done].
    intros k' m' [Hin|[= -> ->]%list_elem_of_singleton]%elem_of_app.
    + specialize (Hall k' m' Hin). cbv zeta in *. case_decide; [set_solver|done].
    + cbv zeta. rewrite decide_True by done. set_solver.
Qed.

Section Alloc.
Context {W : Type} `{Store W} `{MapRange} `{Rand} `{JSON}.

(** What the second loop has done after the entries [done]: [ips] are addresses that
    it must not allocate. *)
Definition allocated (prefix : Z) (dir0 : directory) (done : list string) (acc : directory * gset Z) : Prop :=
  let '(dir, ips) := acc in
  dom dir = dom dir0 ∧
  (∀ k f, f ≠ "IP"%string → dirField dir k f = dirField dir0 k f) ∧
  (∀ k, k ∉ done → dir !! k = dir0 !! k) ∧
  parseIP gatewayIP prefix prefixMask ∈ ips ∧
  (∀ k, ipOf prefix dir k ≠ 0 → ipOf prefix dir k ∈ ips) ∧
  (∀ k, k ∈ done → ipOf prefix dir k ≠ 0 →
     uint32 (ipOf prefix dir k) ∧ ipOf prefix dir k ≠ parseIP gatewayIP prefix prefixMask ∧
     ∀ k', k' ≠ k → ipOf prefix dir k' ≠ ipOf prefix dir k).

Lemma dirField_insert dir k m k' f :
  dirField (<[k:=m]> dir) k' f = if decide (k = k') then default ""%string (m !! f) else dirField dir k' f.
Proof.
  unfold dirField. case_decide as Hk; [subst; by rewrite lookup_insert_eq|by rewrite lookup_insert_ne].
Qed.

(** An entry without a good address is given a new one, or left without. *)
Lemma allocated_step prefix dir0 done dir ips k m m' (new : gset Z) :
  allocated prefix dir0 done (dir, ips) → dir !! k = Some m → k ∉ done →
  (∀ f, f ≠ "IP"%string → m' !! f = m !! f) →
  let ip := parseIP (default ""%string (m' !! "IP"%string)) prefix prefixMask in
  (ip ≠ 0 → uint32 ip ∧ ip ∉ ips ∧ ip ∈ new) → ips ⊆ new →
  allocated prefix dir0 (k :: done) (<[k:=m']> dir, new).
Proof.
  intros (Hdom & Hf & Hout & Hgw & Hin & Huniq) Hk Hdone Hm' ip Hip Hsub.
  assert (∀ k', ipOf prefix (<[k:=m']> dir) k' = if decide (k = k') then ip else ipOf prefix dir k') as Hipof.
  { intros k'. unfold ipOf. rewrite dirField_insert. by case_decide. }
  split_and!.
  - rewrite dom_insert_L, <- Hdom. assert (k ∈ dom dir) by (apply elem_of_dom; eauto). set_solver.
  - intros k' f Hne. rewrite dirField_insert. case_decide as Heq; [|by apply Hf]. subst k'.
    rewrite Hm' by done. rewrite <- Hf by done. unfold dirField. by rewrite Hk.
  - intros k' [Hne Hk']%not_elem_of_cons. rewrite lookup_insert_ne by done. by apply Hout.
  - set_solver.
  - intros k'. rewrite Hipof. case_decide; intros Hnz; [by apply Hip|]. by apply Hsub, Hin.
  - intros k' Hk'. rewrite Hipof. case_decide as Heq; intros Hnz.
    + subst k'. destruct (Hip Hnz) as (Hu & Hfresh & _). split_and!; [done|by intros Hg; rewrite Hg in Hfresh|].
      intros k' Hne. rewrite Hipof, decide_False by done. intros Heq. apply Hfresh. rewrite <- Heq. apply Hin.
      by rewrite Heq.
    + assert (k' ∈ done) as Hk'' by set_solver. destruct (Huniq k' Hk'' Hnz) as (Hu & Hg & Hother).
      split_and!; [done|done|]. intros k2 Hne. rewrite Hipof. case_decide as Heq2; [|by apply Hother].
      intros Hsame. destruct Hip as (_ & Hfresh & _); [congruence|]. apply Hfresh. rewrite Hsame. by apply Hin.
Qed.

Lemma drawIP_spec prefix ips (s : netWorld W) :
  goodPrefix prefix →
  ∃ ip s', drawIP ips prefix prefixMask s = Ok (ip, s') ∧ nwStore s' = nwStore s ∧
    (ip = 0 ∨ (uint32 ip ∧ Z.land ip prefixMask = prefix ∧ ip ∉ ips)).
Proof.
  intros (Hu & Hnz & Hm). unfold drawIP.
  destruct (randomIP rand32 (nwRand s) ips prefix prefixMask) as [ip calls] eqn:Hr.
  eexists _, _. split_and!; [done|done|].
  eapply randomIP_spec; [apply rand32_uint32|apply prefixMask_uint32|done|done|exact Hr].
Qed.

(** What a step that returns has done. *)
Lemma assignIP_alloc path prefix dir0 done dir ips k (s s' : netWorld W) acc :
  goodPrefix prefix → allocated prefix dir0 done (dir, ips) →
  k ∈ dom dir0 → k ∉ done → ipOf prefix dir0 k = 0 →
  assignIP path prefix prefixMask (dir, ips) k s = Ok (acc, s') →
  allocated prefix dir0 (k :: done) acc.
Proof.
  intros Hp Ha Hk Hdone Hz. pose proof Ha as (Hdom & _ & Hout & _).
  rewrite <- Hdom in Hk. apply elem_of_dom in Hk as [m Hm].
  assert (parseIP (default ""%string (m !! "IP"%string)) prefix prefixMask = 0) as Hmz.
  { unfold ipOf, dirField in Hz. by rewrite <- (Hout k Hdone), Hm in Hz. }
  destruct (drawIP_spec prefix ips s Hp) as (ip & s1 & Hdraw & _ & Hip).
  unfold assignIP, mbind, M_bind. rewrite Hdraw. cbv zeta. case_decide as Hzero.
  - unfold onStore. destruct (stDelete _ _) as [[ok w]| | |]; try done. intros [= <- <-].
    rewrite (alter_insert_Some _ k dir m Hm). eapply allocated_step; [exact Ha|done|done| | |done].
    + intros f Hf. by rewrite lookup_delete_ne.
    + cbv zeta. by rewrite lookup_delete_eq.
  - unfold onStore. destruct (stSet _ _ _) as [[ok w]| | |]; try done.
    destruct Hip as [|(Hu & Hland & Hfresh)]; [done|]. destruct ok.
    + rewrite Hm. intros [= <- <-]. eapply allocated_step; [exact Ha|done|done| | |set_solver].
      * intros f Hf. by rewrite lookup_insert_ne.
      * cbv zeta. rewrite lookup_insert_eq. cbn [default from_option id]. rewrite parseIP_ipString by done.
        intros _. split_and!; [done|done|set_solver].
    + intros [= <- <-]. pose proof (allocated_step prefix dir0 done dir ips k m m ips Ha Hm Hdone) as Hstep.
      rewrite (insert_id dir k m Hm) in Hstep. apply Hstep; [done| |done]. cbv zeta. by rewrite Hmz.
Qed.

(** The loop, with an invariant [P] under which every step returns. *)
Section Loop.
Context (path : string) (prefix : Z) (P : directory → W → Prop).
Hypothesis prefix_good : goodPrefix prefix.
Hypothesis step_returns : ∀ dir ips k (s : netWorld W),
  P dir (nwStore s) → k ∈ dom dir →
  ∃ acc s', assignIP path prefix prefixMask (dir, ips) k s = Ok (acc, s') ∧ P acc.1 (nwStore s').

Lemma assignIPs_run dir0 ks done acc (s : netWorld W) :
  allocated prefix dir0 done acc → P acc.1 (nwStore s) →
  NoDup ks → (∀ k, k ∈ ks → k ∈ dom dir0 ∧ k ∉ done ∧ ipOf prefix dir0 k = 0) →
  ∃ acc' s' done', foldEach (assignIP path prefix prefixMask) acc ks s = Ok (acc', s') ∧
    P acc'.1 (nwStore s') ∧ allocated prefix dir0 done' acc' ∧ ∀ k, k ∈ done' ↔ k ∈ done ∨ k ∈ ks.
Proof.
  revert done acc s. induction ks as [|k ks IH]; intros done [dir ips] s Ha HP Hnd Hks.
  - exists (dir, ips), s, done. split_and!; [done|done|done|]. set_solver.
  - apply NoDup_cons in Hnd as [Hk Hnd]. destruct (Hks k) as (Hk1 & Hk2 & Hk3); [left|].
    destruct (step_returns dir ips k s) as (acc1 & s1 & Hrun & HP1); [done| |].
    { pose proof Ha as (Hdom & _). by rewrite Hdom. }
    assert (allocated prefix dir0 (k :: done) acc1) as Ha1 by (by eapply assignIP_alloc).
    destruct (IH (k :: done) acc1 s1 Ha1 HP1 Hnd) as (acc2 & s2 & done2 & Hrun2 & HP2 & Ha2 & Hd).
    { intros k' Hk'. destruct (Hks k') as (? & ? & ?); [by right|]. split_and!; [done| |done].
      intros [->|?]%elem_of_cons; done. }
    exists acc2, s2, done2. split_and!; [|done|done|].
    + cbn [foldEach]. unfold mbind, M_bind. by rewrite Hrun.
    + intros k'. rewrite Hd, !elem_of_cons. tauto.
Qed.

Lemma syncIPs_run (dir : directory) (s : netWorld W) :
  P dir (nwStore s) →
  ∃ dir' s', syncIPs dir path prefix s = Ok (dir', s') ∧ P dir' (nwStore s') ∧ dom dir' = dom dir ∧
    (∀ k f, f ≠ "IP"%string → dirField dir' k f = dirField dir k f) ∧
    (∀ k, ipOf prefix dir k ≠ 0 → dir' !! k = dir !! k) ∧
    (∀ k, ipOf prefix dir k = 0 → ipOf prefix dir' k ≠ 0 →
       uint32 (ipOf prefix dir' k) ∧ Z.land (ipOf prefix dir' k) prefixMask = prefix ∧
       ipOf prefix dir' k ≠ parseIP gatewayIP prefix prefixMask ∧
       ∀ k', k' ≠ k → ipOf prefix dir' k' ≠ ipOf prefix dir' k).
Proof.
  intros HP. set (entries := rangeOrder (nwLoops s) dir).
  pose proof (sortEntries_spec prefix entries) as Hsort.
  destruct (foldl (sortEntry prefix prefixMask) (∅, []) entries) as [ips ks] eqn:Hfold. destruct Hsort as [Hall Hks].
  assert (∀ k, ipOf prefix dir k ≠ 0 → ∃ m, (k, m) ∈ entries ∧
    ipOf prefix dir k = parseIP (default ""%string (m !! "IP"%string)) prefix prefixMask) as Hentry.
  { intros k Hnz. unfold ipOf, dirField in *. destruct (dir !! k) as [m|] eqn:Hm; [|done].
    exists m. split; [by apply elem_of_range|done]. }
  assert (∀ k, k ∈ ks ↔ k ∈ dom dir ∧ ipOf prefix dir k = 0) as Hunassigned.
  { intros k. rewrite Hks, list_elem_of_fmap. split.
    - intros ([k' m] & -> & [Hz Hin%elem_of_range]%list_elem_of_filter). cbn [fst snd] in *.
      split; [apply elem_of_dom; eauto|]. unfold ipOf, dirField. by rewrite Hin.
    - intros [[m Hm]%elem_of_dom Hz]. exists (k, m). split; [done|]. apply list_elem_of_filter.
      split; [|by apply elem_of_range]. unfold ipOf, dirField in Hz. by rewrite Hm in Hz. }
  set (ips' := {[parseIP gatewayIP prefix prefixMask]} ∪ ips).
  assert (allocated prefix dir [] (dir, ips')) as Ha.
  { split_and!; [done|done|done|set_solver| |].
    - intros k Hnz. destruct (Hentry k Hnz) as (m & Hin & Heq). specialize (Hall k m Hin). cbv zeta in Hall.
      rewrite <- Heq in Hall. rewrite decide_False in Hall by done. set_solver.
    - intros k Hin. inversion Hin. }
  destruct (assignIPs_run dir ks [] (dir, ips')
    (mkNetWorld (nwStore s) (nwRand s) (S (nwLoops s)))) as ([dir' ips2] & s' & seen & Hrun & HP' & Ha' & Hdone); [done|done| | |].
  { rewrite Hks. eapply sublist_NoDup; [|apply fmap_sublist, sublist_filter].
    subst entries. rewrite rangeOrder_perm. apply NoDup_fst_map_to_list. }
  { intros k [Hk Hz]%Hunassigned. split_and!; [done| |done]. apply not_elem_of_nil. }
  exists dir', s'. destruct Ha' as (Hdom & Hf & Hout & _ & _ & Huniq). split_and!; [|done|done|done|..].
  - unfold syncIPs, mbind, M_bind, rangeNet. fold entries. rewrite Hfold. fold ips'. by rewrite Hrun.
  - intros k Hnz. apply Hout. rewrite Hdone. intros [Hn|Hn]; [by apply not_elem_of_nil in Hn|].
    by apply Hunassigned in Hn as [_ ?].
  - intros k Hz Hnz. destruct (decide (k ∈ seen)) as [Hin|Hin].
    + destruct (Huniq k Hin Hnz) as (? & ? & ?). split_and!; [done| |done|done].
      destruct (parseIP_cases (dirField dir' k "IP") prefix prefixMask) as [Hc|Hc]; [by destruct Hnz|done].
    + destruct Hnz. unfold ipOf, dirField. rewrite (Hout k Hin). exact Hz.
Qed.

End Loop.

(** The operations of the store on addresses may fail, but they return. *)
Definition storeReturns (path : string) : Prop := ∀ (w : W) k v,
  (∃ ok w', stSet (sub (sub path k) "IP") v w = Ok (ok, w')) ∧
  (∃ ok w', stDelete (sub (sub path k) "IP") w = Ok (ok, w')).

Lemma assignIP_returns path prefix dir ips k (s : netWorld W) :
  storeReturns path → goodPrefix prefix → k ∈ dom dir →
  ∃ acc s', assignIP path prefix prefixMask (dir, ips) k s = Ok (acc, s') ∧ True.
Proof.
  intros Hst Hp [m Hm]%elem_of_dom. destruct (drawIP_spec prefix ips s Hp) as (ip & s1 & Hdraw & _).
  destruct (Hst (nwStore s1) k (ipString (uint32ToBytes ip))) as [(ok & w2 & Hset) (okd & wd & Hdel)].
  unfold assignIP, mbind, M_bind. rewrite Hdraw. cbv zeta. unfold onStore. case_decide.
  - rewrite Hdel. by eexists _, _.
  - rewrite Hset. destruct ok; [rewrite Hm|]; by eexists _, _.
Qed.


End Alloc.

(** ** Witness: a directory with one address and one entry without *)

(** The store in memory returns on every path that starts with a slash. *)
Lemma splitPath_slash rest (t : Tree) : splitPath (String slash rest) t = Ok (splitOn slash rest, t).
Proof. done. Qed.

Lemma getTree_slash rest (t : Tree) : ∃ r, getTree (String slash rest) t = Ok (r, t).
Proof. unfold getTree. case_decide; [by eexists|]. by eexists. Qed.

Lemma get_slash rest (t : Tree) : ∃ r, get (String slash rest) t = Ok (r, t).
Proof.
  unfold get, dirPath, mbind, M_bind. rewrite splitPath_slash. cbn [mret M_ret].
  destruct (getTree_slash (joinOn slash (removelast (splitOn slash rest))) t) as [r ->]. by eexists.
Qed.

Lemma mkdir_slash rest (t : Tree) : ∃ r t', mkdir (String slash rest) t = Ok (r, t').
Proof.
  unfold mkdir. case_decide; [by eexists _, _|]. unfold mbind, M_bind.
  destruct (get_slash rest t) as [[v|] ->]; by eexists _, _.
Qed.

Lemma changeDir_slash f rest (t : Tree) : ∃ t', changeDir f (String slash rest) t = Ok (tt, t').
Proof. unfold changeDir. case_decide; by eexists. Qed.

Lemma createPrefix_slash rest (t : Tree) :
  ∃ n d node t', createPrefix (String slash rest) t = Ok ((n, String slash d, node), t').
Proof.
  unfold createPrefix, dirPath, mbind, M_bind. rewrite splitPath_slash. cbn [mret M_ret].
  destruct (mkdir_slash (joinOn slash (removelast (splitOn slash rest))) t) as (r & t1 & ->).
  destruct (getTree_slash (joinOn slash (removelast (splitOn slash rest))) t1) as [n ->]. by eexists _, _, _, _.
Qed.

Lemma mock_returns path : storeReturns (W := Tree) (String slash path).
Proof.
  intros t k v. cbn [stSet stDelete mockStore].
  assert (∃ rest, sub (sub (String slash path) k) "IP" = String slash rest) as [rest ->] by by eexists.
  split.
  - unfold setKey, mbind, M_bind. destruct (get_slash rest t) as [r ->].
    destruct (createPrefix_slash rest t) as (n & d & node & t' & Hp).
    destruct r; unfold createKey, updateKey, mbind, M_bind; rewrite Hp; destruct n as [n|]; try by eexists _, _.
    + destruct (treeChildren n !! node) as [c|]; [|by eexists _, _].
      destruct (changeDir_slash (<[node := mkTree (treeKey c) v (treeChildren c)]>) d t') as [t2 ->]. by eexists _, _.
    + case_decide; [by eexists _, _|].
      destruct (changeDir_slash (<[node := mkTree node v ∅]>) d t') as [t2 ->]. by eexists _, _.
  - unfold deleteKey, dirPath, mbind, M_bind. rewrite splitPath_slash. cbn [mret M_ret].
    destruct (getTree_slash (joinOn slash (removelast (splitOn slash rest))) t) as [n ->].
    destruct n as [n|]; [|by eexists _, _]. case_decide; [|by eexists _, _].
    destruct (changeDir_slash (delete (List.last (splitOn slash rest) ""%string))
      (joinOn slash (removelast (splitOn slash rest))) t) as [t2 ->]. by eexists _, _.
Qed.

(** Random numbers that count. *)
Definition countingRand : Rand.
Proof.
  refine {| rand32 := λ n, Z.of_nat n `mod` 2 ^ 32 |}. intros n. apply Z.mod_pos_bound. lia.
Defined.

Definition twoEntries : directory :=
  {["a"%string := {["IP"%string := "10.0.0.9"%string]}; "b"%string := ∅]}.

