(* ===== verification/NetSync.v ===== *)
(** * minion/network: the directories in the store

    Theorems on the writers of [NetStore] with a store that obeys [StoreLaws]: the
    directory in memory mirrors the one in the store throughout, and a round of the
    leader makes the container directory hold exactly the scheduled containers, with
    their labels and distinct addresses. *)

From stdpp Require Import base gmap list strings.
From Stdlib Require Import ZArith Lia.
From S2P Require Import Prelude Join DbRows Db NetIP Consensus NetStore NetStoreProps.

Local Open Scope Z_scope.

(** ** Maps rebuilt from their entries *)

Lemma foldl_insert_union {K V A} `{Countable K} (key : A → K) (val : A → V) (l : list A) (m : gmap K V) :
  NoDup (key <$> l) →
  foldl (λ m x, <[key x := val x]> m) m l = list_to_map ((λ x, (key x, val x)) <$> l) ∪ m.
Proof.
  revert m. induction l as [|x l IH]; intros m Hnd.
  { change (m = ∅ ∪ m). by rewrite (left_id_L ∅ (∪)). }
  rewrite fmap_cons in Hnd. apply NoDup_cons in Hnd as [Hx Hnd]. cbn [foldl]. rewrite IH by done.
  rewrite fmap_cons. cbn [list_to_map foldr]. rewrite <- insert_union_l. rewrite <- insert_union_r; [done|].
  apply not_elem_of_list_to_map_1. by rewrite <- list_fmap_compose.
Qed.

Lemma list_to_map_entries {K V A} `{Countable K} (f : A → V) (m : gmap K A) (l : list (K * A)) :
  l ≡ₚ map_to_list m → list_to_map ((λ p, (p.1, f p.2)) <$> l) = f <$> m.
Proof.
  intros Hl. rewrite <- (list_to_map_to_list m), <- list_to_map_fmap. apply list_to_map_proper.
  - rewrite <- list_fmap_compose. rewrite Hl. apply NoDup_fst_map_to_list.
  - rewrite Hl. done.
Qed.

(** ** Paths of a directory *)

Section Sync.
Context {W : Type} `{Store W, !StoreLaws W} `{MapRange} `{Rand} `{JSON}.
Context (base : list string).
Hypothesis base_path : base ≠ [] ∧ Forall component base.

Local Open Scope list_scope.

Abbreviation path := (pathString base).

Lemma pathString_snoc (ps : list string) k : ps ≠ [] → sub (pathString ps) k = pathString (ps ++ [k]).
Proof.
  intros Hne. unfold sub, pathString. rewrite string_app_cons. f_equal. clear base_path.
  induction ps as [|p ps IH]; [done|]. destruct ps as [|q ps]; [done|].
  cbn [app]. rewrite !joinOn_cons, string_app_assoc. f_equal. rewrite string_app_cons. f_equal. by apply IH.
Qed.

Lemma sub_entry k : sub path k = pathString (base ++ [k]).
Proof. apply pathString_snoc, base_path. Qed.

Lemma sub_field k f : sub (sub path k) f = pathString (base ++ [k] ++ [f]).
Proof.
  rewrite sub_entry, pathString_snoc; [by rewrite (assoc_L (++))|]. by intros [_ [=]]%app_nil.
Qed.

(** The directory exists, its entries have proper names, and fields have no children. *)
Definition dirReady (w : W) : Prop :=
  stHealthy w ∧ is_Some (stPaths w base) ∧
  (∀ k, is_Some (stPaths w (base ++ [k])) → component k) ∧
  (∀ k f q, q ≠ [] → stPaths w (base ++ k :: f :: q) = None).

(** A directory in memory that shows the one in the store. *)
Definition mirrors (dir : directory) (w : W) : Prop :=
  dirReady w ∧
  (∀ k, is_Some (stPaths w (base ++ [k])) ↔ is_Some (dir !! k)) ∧
  (∀ k m f, dir !! k = Some m → stPaths w (base ++ [k; f]) = m !! f).

Lemma mirrors_none dir w k f : mirrors dir w → dir !! k = None → stPaths w (base ++ [k; f]) = None.
Proof.
  intros ((Hw & _) & Hk & _) Hnone. apply eq_None_not_Some. intros Hf.
  assert (is_Some (stPaths w (base ++ [k]))) as Hsome.
  { apply (stClosed w (base ++ [k]) f); [done|]. by rewrite <- (assoc_L (++)). }
  apply Hk in Hsome as [m Hm]. congruence.
Qed.

Lemma mirrors_component dir w k : mirrors dir w → k ∈ dom dir → component k.
Proof. intros ((_ & _ & Hc & _) & Hk & _) Hin%elem_of_dom. by apply Hc, Hk. Qed.

Lemma mirrors_insert_component dir w k m k' :
  mirrors dir w → component k → k' ∈ dom (<[k:=m]> dir) → component k'.
Proof.
  intros Hmir Hk Hk'. rewrite dom_insert in Hk'.
  apply elem_of_union in Hk' as [Heq%elem_of_singleton|Hk']; [by subst|by eapply mirrors_component].
Qed.

(** ** Reading a directory *)

Definition entryOf (t : Tree) : gmap string string := treeValue <$> treeChildren t.

Lemma addNode_run (dir : directory) k t (s : netWorld W) :
  wellKeyed t → treeKey t = k →
  ∃ s', addNode dir (k, t) s = Ok (<[k := entryOf t]> dir, s') ∧ nwStore s' = nwStore s.
Proof.
  intros Hwk Hk. unfold addNode, mbind, M_bind, rangeNet. cbn [snd mret M_ret].
  set (l2s := rangeOrder (nwLoops s) (treeChildren t)).
  assert (∀ p, p ∈ l2s → treeKey p.2 = p.1) as Hkeys.
  { intros [f c] Hin%elem_of_range. apply (Hwk [] f (treeKey c, treeValue c)).
    cbn [app]. rewrite nodeAt_cons, Hin. done. }
  exists (mkNetWorld (nwStore s) (nwRand s) (S (nwLoops s))). split; [|done]. rewrite Hk.
  assert (foldl (λ m (l2 : string * Tree), <[treeKey l2.2 := treeValue l2.2]> m) ∅ l2s =
          foldl (λ m (l2 : string * Tree), <[l2.1 := treeValue l2.2]> m) ∅ l2s) as ->.
  { generalize (∅ : gmap string string) as m. clearbody l2s. induction l2s as [|p l IH]; intros m; [done|].
    cbn [foldl]. rewrite (Hkeys p) by left. apply IH. intros p' Hp'. apply Hkeys. by right. }
  rewrite foldl_insert_union; [|subst l2s; rewrite rangeOrder_perm; apply NoDup_fst_map_to_list].
  rewrite (right_id_L ∅ (∪)), (list_to_map_entries treeValue (treeChildren t) l2s) by apply rangeOrder_perm.
  done.
Qed.

Lemma addNodes_run (l : list (string * Tree)) (dir : directory) (s : netWorld W) :
  (∀ k t, (k, t) ∈ l → wellKeyed t ∧ treeKey t = k) →
  ∃ s', foldEach addNode dir l s = Ok (foldl (λ d p, <[p.1 := entryOf p.2]> d) dir l, s') ∧
    nwStore s' = nwStore s.
Proof.
  revert dir s. induction l as [|[k t] l IH]; intros dir s Hl; [by exists s|].
  destruct (Hl k t) as [Hwk Hk]; [left|]. destruct (addNode_run dir k t s Hwk Hk) as (s1 & Hrun & Hs1).
  destruct (IH (<[k := entryOf t]> dir) s1) as (s2 & Hrun2 & Hs2); [intros; apply Hl; by right|].
  exists s2. cbn [foldEach]. unfold mbind, M_bind. rewrite Hrun. split; [exact Hrun2|congruence].
Qed.

(** The directory that [getDirectory] returns. *)
Lemma getDirectory_run (s : netWorld W) :
  dirReady (nwStore s) →
  ∃ dir s', getDirectory path s = Ok (Some dir, s') ∧ mirrors dir (nwStore s') ∧
    ∀ q, stPaths (nwStore s') q = stPaths (nwStore s) q.
Proof.
  intros (Hw & Hbase & Hcomp & Hflat).
  destruct (stGetTree_law (nwStore s) base Hw) as (r & w1 & Hrun & Hw1 & Hsame & Hr); [apply base_path|].
  destruct r as [t|]; [|rewrite Hr in Hbase; by destruct Hbase]. destruct Hr as [Hwk Ht].
  set (s1 := mkNetWorld w1 (nwRand s) (S (nwLoops s))). set (l1s := rangeOrder (nwLoops s) (treeChildren t)).
  destruct (addNodes_run l1s ∅ s1) as (s2 & Hadd & Hs2).
  { intros k c Hin%elem_of_range. split.
    - intros q f n Hn. apply (Hwk (k :: q) f n). cbn [app]. by rewrite nodeAt_cons, Hin.
    - apply (Hwk [] k (treeKey c, treeValue c)). cbn [app]. by rewrite nodeAt_cons, Hin. }
  assert (foldl (λ d p, <[p.1 := entryOf p.2]> d) ∅ l1s = entryOf <$> treeChildren t) as Hdir.
  { rewrite foldl_insert_union; [|subst l1s; rewrite rangeOrder_perm; apply NoDup_fst_map_to_list].
    rewrite (right_id_L ∅ (∪)). apply list_to_map_entries, rangeOrder_perm. }
  rewrite Hdir in Hadd. exists (entryOf <$> treeChildren t), s2. split.
  { unfold getDirectory, mbind, M_bind, onStore. rewrite Hrun. unfold rangeNet. cbn [nwStore nwRand nwLoops].
    fold s1 l1s. by rewrite Hadd. }
  rewrite Hs2. cbn [nwStore s1]. split; [|done]. unfold mirrors, dirReady.
  assert (∀ q, stPaths w1 (base ++ q) = treePaths t q) as Hpaths by (intros q; by rewrite Hsame, Ht).
  split_and!.
  - done.
  - by rewrite Hsame.
  - intros k. rewrite Hsame. apply Hcomp.
  - intros k f q Hq. rewrite Hsame. by apply Hflat.
  - intros k. rewrite Hpaths, lookup_fmap. unfold treePaths. rewrite nodeAt_cons.
    destruct (treeChildren t !! k); cbn; by rewrite ?is_Some_alt.
  - intros k m f Hm. rewrite Hpaths. rewrite lookup_fmap in Hm. unfold treePaths. rewrite nodeAt_cons.
    destruct (treeChildren t !! k) as [c|]; [|done]. cbn in Hm. injection Hm as <-. cbn [mbind option_bind].
    rewrite nodeAt_cons. unfold entryOf. rewrite lookup_fmap. by destruct (treeChildren c !! f).
Qed.

(** ** Single changes *)

Lemma base_prefix a b : base ++ a `prefix_of` base ++ b ↔ a `prefix_of` b.
Proof. split; [apply prefix_app_inv|apply prefix_app]. Qed.

Lemma entry_eq a b : base ++ a = base ++ b ↔ a = b.
Proof. split; [apply app_inv_head|by intros ->]. Qed.

Lemma component_path ks : Forall component ks → Forall component (base ++ ks).
Proof. intros Hks. apply Forall_app. split; [apply base_path|done]. Qed.

Lemma component_entry k : component k → Forall component (base ++ [k]).
Proof. intros Hk. apply component_path. by apply Forall_singleton. Qed.

Lemma component_field k f : component k → component f → Forall component ((base ++ [k]) ++ [f]).
Proof. intros Hk Hf. apply Forall_app. split; [by apply component_entry|by apply Forall_singleton]. Qed.

(** The store after a change, given its paths below the directory. *)
Lemma mirrors_intro dir w :
  stHealthy w → is_Some (stPaths w base) → (∀ k, k ∈ dom dir → component k) →
  (∀ k, is_Some (stPaths w (base ++ [k])) ↔ is_Some (dir !! k)) →
  (∀ k m f, dir !! k = Some m → stPaths w (base ++ [k; f]) = m !! f) →
  (∀ k f q, q ≠ [] → stPaths w (base ++ k :: f :: q) = None) → mirrors dir w.
Proof.
  intros Hw Hbase Hc Hk Hm Hflat. unfold mirrors, dirReady. split_and!; [done|done| |exact Hflat|exact Hk|exact Hm].
  intros k Hs. apply Hc, elem_of_dom. by apply Hk.
Qed.

Lemma setField_run dir w k m f v :
  mirrors dir w → dir !! k = Some m → component f →
  ∃ w', stSet (sub (sub path k) f) v w = Ok (true, w') ∧ mirrors (<[k := <[f:=v]> m]> dir) w'.
Proof.
  intros Hmir Hk Hf. pose proof Hmir as ((Hw & Hbase & _ & Hflat) & Hent & Hfld).
  assert (component k) as Hck by (eapply mirrors_component; [done|]; apply elem_of_dom; eauto).
  destruct (stSet_law w (base ++ [k]) f v) as (w' & Hrun & Hw' & Hp); [done| | | |].
  { by apply component_field. }
  { apply Hent. eauto. }
  { intros q Hq. rewrite <- (assoc_L (++)). by apply Hflat. }
  rewrite <- (assoc_L (++)) in Hrun. exists w'. rewrite sub_field. split; [exact Hrun|].
  assert (∀ q, stPaths w' (base ++ q) = if decide (q = [k; f]) then Some v else stPaths w (base ++ q)) as Hq.
  { intros q. rewrite Hp, <- (assoc_L (++)). cbn [app]. by rewrite (decide_ext _ _ _ _ (entry_eq q [k; f])). }
  apply mirrors_intro; [done|..].
  - rewrite <- (app_nil_r base), Hq, decide_False by done. by rewrite app_nil_r.
  - intros k'. by eapply mirrors_insert_component.
  - intros k'. rewrite Hq, decide_False by done. rewrite Hent, lookup_insert_is_Some'. naive_solver.
  - intros k' m' f' Hk'. rewrite Hq. apply lookup_insert_Some in Hk' as [[<- <-]|[Hne Hk']].
    + destruct (decide (f = f')) as [<-|Hnf].
      * by rewrite lookup_insert_eq, decide_True.
      * rewrite lookup_insert_ne, decide_False by (done || congruence). by apply Hfld.
    + rewrite decide_False by congruence. by apply Hfld.
  - intros k' f' q Hne. rewrite Hq, decide_False; [by apply Hflat|]. intros [= -> -> ->]. done.
Qed.

Lemma deleteField_run dir w k m f :
  mirrors dir w → dir !! k = Some m → component f →
  ∃ ok w', stDelete (sub (sub path k) f) w = Ok (ok, w') ∧ mirrors (<[k := delete f m]> dir) w'.
Proof.
  intros Hmir Hk Hf. pose proof Hmir as ((Hw & Hbase & _ & Hflat) & Hent & Hfld).
  assert (component k) as Hck by (eapply mirrors_component; [done|]; apply elem_of_dom; eauto).
  pose proof (component_field k f Hck Hf) as Hcomp.
  rewrite sub_field, (assoc_L (++)).
  assert (∃ ok w', stDelete (pathString ((base ++ [k]) ++ [f])) w = Ok (ok, w') ∧ stHealthy w' ∧
    ∀ q, stPaths w' (base ++ q) = if decide (q = [k; f]) then None else stPaths w (base ++ q))
    as (ok & w' & Hrun & Hw' & Hq).
  { destruct (stPaths w ((base ++ [k]) ++ [f])) as [v|] eqn:Hv.
    - destruct (stDelete_old w (base ++ [k]) f) as (w' & Hrun & Hw' & Hp); [done|done|eauto|].
      exists true, w'. split_and!; [done|done|]. intros q. rewrite Hp, <- (assoc_L (++)). cbn [app].
      rewrite (decide_ext _ _ _ _ (base_prefix [k; f] q)). destruct (decide (q = [k; f])) as [->|Hne].
      + by rewrite decide_True.
      + case_decide as Hpre; [|done]. destruct Hpre as [r ->]. symmetry. apply (Hflat k f r). by intros ->.
    - destruct (stDelete_none w (base ++ [k]) f) as (w' & Hrun & Hw' & Hp); [done|done|done|].
      exists false, w'. split_and!; [done|done|]. intros q. rewrite Hp. case_decide as Heq; [|done].
      subst q. by rewrite <- (assoc_L (++)) in Hv. }
  exists ok, w'. split; [done|]. apply mirrors_intro; [done|..].
  - rewrite <- (app_nil_r base), Hq, decide_False by done. by rewrite app_nil_r.
  - intros k'. by eapply mirrors_insert_component.
  - intros k'. rewrite Hq, decide_False by done. rewrite Hent, lookup_insert_is_Some'. naive_solver.
  - intros k' m' f' Hk'. rewrite Hq. apply lookup_insert_Some in Hk' as [[<- <-]|[Hne Hk']].
    + destruct (decide (f = f')) as [<-|Hnf].
      * by rewrite lookup_delete_eq, decide_True.
      * rewrite lookup_delete_ne, decide_False by (done || congruence). by apply Hfld.
    + rewrite decide_False by congruence. by apply Hfld.
  - intros k' f' q Hne. rewrite Hq, decide_False; [by apply Hflat|]. intros [= -> -> ->]. done.
Qed.

Lemma deleteEntry_run dir w k :
  mirrors dir w → k ∈ dom dir →
  ∃ w', stDelete (sub path k) w = Ok (true, w') ∧ mirrors (delete k dir) w'.
Proof.
  intros Hmir Hk. pose proof Hmir as ((Hw & Hbase & _ & Hflat) & Hent & Hfld).
  assert (component k) as Hck by (by eapply mirrors_component).
  destruct (stDelete_old w base k) as (w' & Hrun & Hw' & Hp); [done|by apply component_entry| |].
  { by apply Hent, elem_of_dom. }
  assert (∀ q, stPaths w' (base ++ q) = if decide ([k] `prefix_of` q) then None else stPaths w (base ++ q)) as Hq.
  { intros q. by rewrite Hp, (decide_ext _ _ _ _ (base_prefix [k] q)). }
  assert (∀ k' q, [k] `prefix_of` k' :: q ↔ k' = k) as Hpre.
  { intros k' q. split; [by intros ?%prefix_cons_inv_1|]. intros ->. apply prefix_cons, prefix_nil. }
  exists w'. rewrite sub_entry. split; [done|]. apply mirrors_intro; [done|..].
  - rewrite <- (app_nil_r base), Hq, decide_False by apply prefix_nil_not. by rewrite app_nil_r.
  - intros k' Hk'. eapply mirrors_component; [done|]. rewrite dom_delete in Hk'. set_solver.
  - intros k'. rewrite Hq, (decide_ext _ _ _ _ (Hpre k' [])). case_decide as Heq.
    + subst. rewrite lookup_delete_eq. by split; intros [? [=]].
    + by rewrite lookup_delete_ne.
  - intros k' m' f' [Hne Hk']%lookup_delete_Some. rewrite Hq, (decide_ext _ _ _ _ (Hpre k' [f'])).
    rewrite decide_False by done. by apply Hfld.
  - intros k' f' q Hne. rewrite Hq. case_decide; [done|]. by apply Hflat.
Qed.

Lemma newEntry_run dir w k :
  mirrors dir w → component k → dir !! k = None →
  ∃ w', stMkdir (sub path k) w = Ok (true, w') ∧ mirrors (<[k := ∅]> dir) w'.
Proof.
  intros Hmir Hck Hk. pose proof Hmir as ((Hw & Hbase & _ & Hflat) & Hent & Hfld).
  destruct (stMkdir_new w (base ++ [k])) as (w' & Hrun & Hw' & Hp); [done|by apply component_entry| |].
  { apply eq_None_not_Some. intros Hs%Hent. by rewrite Hk in Hs; destruct Hs. }
  exists w'. rewrite sub_entry. split; [done|]. apply mirrors_intro; [done|..].
  - rewrite Hp, decide_True by (by apply prefix_app_r). eauto.
  - intros k'. by eapply mirrors_insert_component.
  - intros k'. rewrite Hp, (decide_ext _ _ _ _ (base_prefix [k'] [k])), lookup_insert_is_Some'. case_decide as Hpre.
    + apply prefix_cons_inv_1 in Hpre as ->. naive_solver.
    + rewrite Hent. split; [by right|]. intros [<-|?]; [|done]. by destruct Hpre.
  - intros k' m' f' Hk'. rewrite Hp, (decide_ext _ _ _ _ (base_prefix [k'; f'] [k])).
    rewrite decide_False by (intros Hl%prefix_length; cbn in Hl; lia).
    apply lookup_insert_Some in Hk' as [[<- <-]|[Hne Hk']]; [|by apply Hfld].
    rewrite lookup_empty. by eapply mirrors_none.
  - intros k' f' q Hne. rewrite Hp, (decide_ext _ _ _ _ (base_prefix (k' :: f' :: q) [k])).
    rewrite decide_False by (intros Hl%prefix_length; cbn in Hl; lia). by apply Hflat.
Qed.

(** ** [syncDir] *)

Lemma dropEntries_run ids dir (s : netWorld W) :
  mirrors dir (nwStore s) → NoDup ids → (∀ k, k ∈ ids → k ∈ dom dir) →
  ∃ dir' s', foldEach (dropEntry path) dir ids s = Ok (dir', s') ∧ mirrors dir' (nwStore s') ∧
    ∀ k, dir' !! k = if decide (k ∈ ids) then None else dir !! k.
Proof.
  revert dir s. induction ids as [|id ids IH]; intros dir s Hmir Hnd Hids; [by exists dir, s|].
  apply NoDup_cons in Hnd as [Hid Hnd].
  destruct (deleteEntry_run dir (nwStore s) id Hmir) as (w1 & Hdel & Hmir1); [apply Hids; left|].
  set (s1 := mkNetWorld w1 (nwRand s) (nwLoops s)).
  destruct (IH (delete id dir) s1) as (dir' & s' & Hrun & Hmir' & Hlook); [done|done| |].
  { intros k Hk. rewrite dom_delete. apply elem_of_difference. split; [apply Hids; by right|].
    rewrite elem_of_singleton. by intros ->. }
  exists dir', s'. split_and!; [|done|].
  - cbn [foldEach]. unfold mbind, M_bind, dropEntry at 1, mbind, M_bind, onStore. rewrite Hdel. exact Hrun.
  - intros k. rewrite Hlook. destruct (decide (k = id)) as [->|Hne].
    + rewrite (decide_True (P := id ∈ id :: ids)) by left. case_decide; [done|apply lookup_delete_eq].
    + rewrite lookup_delete_ne by done. destruct (decide (k ∈ ids)).
      * by rewrite decide_True by (by right).
      * by rewrite decide_False by (by rewrite elem_of_cons; intros [?|?]).
Qed.

Lemma addEntries_run ids dir (s : netWorld W) :
  mirrors dir (nwStore s) → Forall component ids →
  ∃ dir' s', foldEach (addEntry path) dir ids s = Ok (dir', s') ∧ mirrors dir' (nwStore s') ∧
    ∀ k, dir' !! k = if decide (k ∈ ids ∧ dir !! k = None) then Some ∅ else dir !! k.
Proof.
  revert dir s. induction ids as [|id ids IH]; intros dir s Hmir Hids.
  { exists dir, s. split_and!; [done|done|]. intros k. rewrite decide_False; [done|]. by intros [Hk%not_elem_of_nil _]. }
  apply Forall_cons in Hids as [Hid Hids].
  assert (∃ dir1 s1, addEntry path dir id s = Ok (dir1, s1) ∧ mirrors dir1 (nwStore s1) ∧
    ∀ k, dir1 !! k = if decide (k = id ∧ dir !! k = None) then Some ∅ else dir !! k)
    as (dir1 & s1 & Hadd & Hmir1 & Hlook1).
  { unfold addEntry. case_decide as Hsome.
    - exists dir, s. split_and!; [done|done|]. intros k. rewrite decide_False; [done|].
      intros [-> Hnone]. rewrite Hnone in Hsome. by destruct Hsome.
    - apply eq_None_not_Some in Hsome.
      destruct (newEntry_run dir (nwStore s) id Hmir Hid Hsome) as (w1 & Hmk & Hmir1).
      exists (<[id:=∅]> dir), (mkNetWorld w1 (nwRand s) (nwLoops s)). split_and!; [|done|].
      + unfold mbind, M_bind, onStore. by rewrite Hmk.
      + intros k. destruct (decide (k = id)) as [->|Hne].
        * by rewrite lookup_insert_eq, decide_True.
        * rewrite lookup_insert_ne, decide_False by naive_solver. done. }
  destruct (IH dir1 s1 Hmir1 Hids) as (dir' & s' & Hrun & Hmir' & Hlook).
  exists dir', s'. split_and!; [|done|].
  - cbn [foldEach]. unfold mbind, M_bind. rewrite Hadd. exact Hrun.
  - intros k. rewrite Hlook, Hlook1. destruct (decide (k = id ∧ dir !! k = None)) as [[-> Hk]|Hno].
    + rewrite (decide_False (P := id ∈ ids ∧ Some ∅ = None)) by naive_solver.
      rewrite decide_True; [done|]. split; [left|done].
    + apply decide_ext. rewrite elem_of_cons. naive_solver.
Qed.

Lemma idScore_nonneg a b : 0 ≤ idScore a b ↔ a = b.
Proof. unfold idScore. case_decide; split; intros; (lia || done || naive_solver). Qed.

Lemma syncDir_run ids dir (s : netWorld W) :
  mirrors dir (nwStore s) → Forall component ids →
  ∃ dir' s', syncDir dir path ids s = Ok (dir', s') ∧ mirrors dir' (nwStore s') ∧
    dom dir' = list_to_set ids ∧
    (∀ k, k ∈ ids → dir' !! k = Some (default ∅ (dir !! k))).
Proof.
  intros Hmir Hids. set (ks := (rangeOrder (nwLoops s) dir).*1).
  assert (ks ≡ₚ (map_to_list dir).*1) as Hks by (subst ks; by rewrite rangeOrder_perm).
  assert (∀ k, k ∈ ks ↔ is_Some (dir !! k)) as Hkdom.
  { intros k. rewrite Hks, list_elem_of_fmap. split.
    - intros ([k' m] & -> & Hin%elem_of_map_to_list). eauto.
    - intros [m Hm]. exists (k, m). by rewrite elem_of_map_to_list. }
  assert (NoDup ks) as Hnd by (rewrite Hks; apply NoDup_fst_map_to_list).
  set (j := Join idScore ks ids).
  assert (∀ k, k ∈ lonelyLefts j ↔ k ∈ ks ∧ k ∉ ids) as Hlefts.
  { intros k. pose proof (scoredJoin_lonelyLefts id id idScore ks ids (λ l r _ _, idScore_nonneg l r) k) as Hl.
    rewrite !list_fmap_id in Hl. by apply Hl. }
  assert (∀ k, k ∈ ids → k ∈ ks ∨ k ∈ lonelyRights j) as Hrights.
  { intros k Hk. pose proof (Join_right_keys id id idScore ks ids (λ l r _ _, idScore_nonneg l r)) as Hr.
    rewrite !list_fmap_id in Hr. rewrite <- Hr, elem_of_app in Hk. destruct Hk as [Hk|Hk]; [left|by right].
    apply list_elem_of_fmap in Hk as ([a b] & -> & Hp). by apply (Join_pair_elems idScore ks ids a b). }
  destruct (dropEntries_run (lonelyLefts j) dir (mkNetWorld (nwStore s) (nwRand s) (S (nwLoops s))))
    as (dir1 & s1 & Hrun1 & Hmir1 & Hlook1); [done| | |].
  { pose proof (Join_lefts idScore ks ids) as Hl. rewrite <- Hl in Hnd. by apply NoDup_app in Hnd as (_ & _ & ?). }
  { intros k [Hk _]%Hlefts. by apply elem_of_dom, Hkdom. }
  destruct (addEntries_run (lonelyRights j) dir1 s1) as (dir2 & s2 & Hrun2 & Hmir2 & Hlook2); [done| |].
  { apply Forall_forall. intros k Hk. rewrite Forall_forall in Hids. apply Hids.
    by apply (proj2 (Join_lonely_elems idScore ks ids k k)). }
  exists dir2, s2.
  assert (∀ k, k ∈ ids → dir2 !! k = Some (default ∅ (dir !! k))) as Hin.
  { intros k Hk. rewrite Hlook2, Hlook1. rewrite (decide_False (P := k ∈ lonelyLefts j)) by (by intros [_ ?]%Hlefts).
    destruct (dir !! k) as [m|] eqn:Hm; [by rewrite decide_False by naive_solver|]. rewrite decide_True; [done|].
    split; [|done]. destruct (Hrights k Hk) as [Hk'|?]; [|done]. apply Hkdom in Hk' as [? ?]. congruence. }
  split_and!; [|done| |done].
  - unfold syncDir, keys, mbind, M_bind, rangeNet. cbn [mret M_ret]. fold ks. fold j. by rewrite Hrun1.
  - apply set_eq. intros k. rewrite elem_of_dom, elem_of_list_to_set. split.
    + intros Hs. destruct (decide (k ∈ ids)) as [|Hno]; [done|]. exfalso. rewrite Hlook2, Hlook1 in Hs.
      rewrite decide_False in Hs.
      * case_decide as Hl; [by destruct Hs|]. apply Hl, Hlefts. split; [by apply Hkdom|done].
      * intros [Hk _]. by apply Hno, (proj2 (Join_lonely_elems idScore ks ids k k)).
    + intros Hk. rewrite Hin by done. eauto.
Qed.

(** ** Addresses and labels *)

Lemma field_component f : bool_decide (f ≠ ""%string ∧ slash ∉ String.list_ascii_of_string f) = true → component f.
Proof. by intros ?%bool_decide_eq_true. Qed.

Lemma assignIP_mirrors prefix dir ips k (s : netWorld W) :
  goodPrefix prefix → mirrors dir (nwStore s) → k ∈ dom dir →
  ∃ acc s', assignIP path prefix prefixMask (dir, ips) k s = Ok (acc, s') ∧ mirrors acc.1 (nwStore s').
Proof.
  intros Hp Hmir [m Hm]%elem_of_dom. assert (component "IP") as HIP by by apply field_component.
  destruct (drawIP_spec prefix ips s Hp) as (ip & s1 & Hdraw & Hs1 & _). rewrite <- Hs1 in Hmir.
  destruct (setField_run dir (nwStore s1) k m "IP" (ipString (uint32ToBytes ip)) Hmir Hm HIP) as (w2 & Hset & Hmir2).
  destruct (deleteField_run dir (nwStore s1) k m "IP" Hmir Hm HIP) as (ok & w3 & Hdel & Hmir3).
  unfold assignIP, mbind, M_bind. rewrite Hdraw. cbv zeta. unfold onStore. case_decide.
  - rewrite Hdel. eexists _, _. split; [done|]. cbn [fst nwStore]. by rewrite (alter_insert_Some _ k dir m Hm).
  - rewrite Hset, Hm. by eexists _, _.
Qed.

(** The labels of a container, as they are written. *)
Definition labelText (containers : list Container) (id : string) : string :=
  marshal (sortStrings (elems (default None (idLabelMap containers !! id)))).

Lemma syncLabel_run containers dir id m (s : netWorld W) :
  mirrors dir (nwStore s) → dir !! id = Some m →
  ∃ m' s', syncLabel path (idLabelMap containers) dir (id, m) s = Ok (<[id := m']> dir, s') ∧
    mirrors (<[id := m']> dir) (nwStore s') ∧
    default ""%string (m' !! "Labels"%string) = labelText containers id ∧
    ∀ f, f ≠ "Labels"%string → m' !! f = m !! f.
Proof.
  intros Hmir Hm. assert (component "Labels") as HL by by apply field_component.
  unfold syncLabel. case_decide as Heq.
  - exists m, s. rewrite (insert_id dir id m Hm). done.
  - destruct (setField_run dir (nwStore s) id m "Labels" (labelText containers id) Hmir Hm HL) as (w' & Hset & Hmir').
    unfold labelText in Hset.
    eexists _, (mkNetWorld w' (nwRand s) (nwLoops s)). split_and!.
    + unfold mbind, M_bind, onStore. rewrite Hset, Hm. done.
    + exact Hmir'.
    + by rewrite lookup_insert_eq.
    + intros f Hf. by rewrite lookup_insert_ne.
Qed.

Lemma syncLabels_loop containers l dir (s : netWorld W) :
  mirrors dir (nwStore s) → NoDup l.*1 → (∀ id m, (id, m) ∈ l → dir !! id = Some m) →
  ∃ dir' s', foldEach (syncLabel path (idLabelMap containers)) dir l s = Ok (dir', s') ∧
    mirrors dir' (nwStore s') ∧ dom dir' = dom dir ∧
    (∀ id f, f ≠ "Labels"%string → dirField dir' id f = dirField dir id f) ∧
    (∀ id, id ∈ l.*1 → dirField dir' id "Labels" = labelText containers id) ∧
    (∀ id, id ∉ l.*1 → dir' !! id = dir !! id).
Proof.
  revert dir s. induction l as [|[id m] l IH]; intros dir s Hmir Hnd Hl.
  { exists dir, s. split_and!; try done. intros id Hid. by apply not_elem_of_nil in Hid. }
  rewrite fmap_cons in *. apply NoDup_cons in Hnd as [Hid Hnd]. cbn [fst] in Hid.
  assert (dir !! id = Some m) as Hm by (apply Hl; left).
  destruct (syncLabel_run containers dir id m s Hmir Hm) as (m' & s1 & Hrun & Hmir1 & Hlab & Hoth).
  destruct (IH (<[id:=m']> dir) s1) as (dir' & s' & Hrun' & Hmir' & Hdom & Hf & Hin & Hout); [done|done| |].
  { intros id' m0 Hin. rewrite lookup_insert_ne; [apply Hl; by right|]. intros <-. apply Hid.
    apply list_elem_of_fmap. by exists (id, m0). }
  exists dir', s'. split_and!.
  - cbn [foldEach]. unfold mbind, M_bind. rewrite Hrun. exact Hrun'.
  - done.
  - rewrite Hdom. apply dom_insert_lookup_L. eauto.
  - intros id' f Hne. rewrite Hf by done. rewrite dirField_insert. case_decide as Heq; [|done]. subst id'.
    unfold dirField. by rewrite Hm, Hoth.
  - intros id' [->|Hid']%elem_of_cons; [|by apply Hin]. cbn [fst]. unfold dirField. rewrite Hout by done.
    by rewrite lookup_insert_eq.
  - intros id' [Hne Hid']%not_elem_of_cons. rewrite Hout by done. cbn [fst] in Hne. by rewrite lookup_insert_ne.
Qed.

Lemma syncLabels_run containers dir (s : netWorld W) :
  mirrors dir (nwStore s) →
  ∃ dir' s', syncLabels dir path containers s = Ok (dir', s') ∧ mirrors dir' (nwStore s') ∧
    dom dir' = dom dir ∧ (∀ id f, f ≠ "Labels"%string → dirField dir' id f = dirField dir id f) ∧
    (∀ id, id ∈ dom dir → dirField dir' id "Labels" = labelText containers id).
Proof.
  intros Hmir. set (l := rangeOrder (nwLoops s) dir).
  destruct (syncLabels_loop containers l dir (mkNetWorld (nwStore s) (nwRand s) (S (nwLoops s))))
    as (dir' & s' & Hrun & Hmir' & Hdom & Hf & Hin & _); [done| | |].
  { subst l. rewrite rangeOrder_perm. apply NoDup_fst_map_to_list. }
  { intros id m Hin. by apply elem_of_range in Hin. }
  exists dir', s'. split_and!; try done. intros id [m Hm]%elem_of_dom. apply Hin, list_elem_of_fmap.
  exists (id, m). split; [done|]. by apply elem_of_range.
Qed.

(** ** The directory itself *)

(** The directory may be missing. *)
Definition dirClean (w : W) : Prop :=
  stHealthy w ∧ (∀ k, is_Some (stPaths w (base ++ [k])) → component k) ∧
  (∀ k f q, q ≠ [] → stPaths w (base ++ k :: f :: q) = None).

Lemma mkdirBase_run (w : W) :
  dirClean w →
  ∃ ok w', stMkdir path w = Ok (ok, w') ∧ dirReady w' ∧
    ∀ q, q ≠ [] → stPaths w' (base ++ q) = stPaths w (base ++ q).
Proof.
  intros (Hw & Hc & Hflat). destruct (stPaths w base) as [v|] eqn:Hb.
  - destruct (stMkdir_old w base Hw) as (ok & w' & Hrun & Hw' & Hp); [apply base_path|eauto|].
    exists ok, w'. unfold dirReady. split_and!; [done|done| | | |].
    + rewrite Hp, Hb. eauto.
    + intros k. rewrite Hp. apply Hc.
    + intros k f q Hq. rewrite Hp. by apply Hflat.
    + intros q _. apply Hp.
  - destruct (stMkdir_new w base Hw) as (w' & Hrun & Hw' & Hp); [apply base_path|done|].
    assert (∀ q, q ≠ [] → stPaths w' (base ++ q) = stPaths w (base ++ q)) as Hsame.
    { intros q Hq. rewrite Hp, decide_False; [done|]. intros Hl%prefix_length. rewrite length_app in Hl.
      destruct q; [done|]. cbn in Hl. lia. }
    exists true, w'. unfold dirReady. split_and!; [done|done| | | |done].
    + rewrite Hp, decide_True by done. eauto.
    + intros k. rewrite Hsame by done. apply Hc.
    + intros k f q Hq. rewrite Hsame by done. by apply Hflat.
Qed.

(** The store determines the directory that mirrors it. *)
Lemma mirrors_inj dir1 dir2 w : mirrors dir1 w → mirrors dir2 w → dir1 = dir2.
Proof.
  intros (_ & E1 & F1) (_ & E2 & F2). apply map_eq. intros k.
  destruct (dir1 !! k) as [m1|] eqn:H1', (dir2 !! k) as [m2|] eqn:H2'; [|exfalso|exfalso|done].
  - f_equal. apply map_eq. intros f. by rewrite <- (F1 k m1 f), <- (F2 k m2 f).
  - destruct (proj1 (E2 k) (proj2 (E1 k) ltac:(eauto))). congruence.
  - destruct (proj1 (E1 k) (proj2 (E2 k) ltac:(eauto))). congruence.
Qed.

Lemma mirrors_field dir w k f : mirrors dir w → dirField dir k f = default ""%string (stPaths w (base ++ [k; f])).
Proof.
  intros Hmir. unfold dirField. destruct (dir !! k) as [m|] eqn:Hk.
  - destruct Hmir as (_ & _ & Hf). by rewrite (Hf k m f Hk).
  - by rewrite (mirrors_none dir w k f Hmir Hk).
Qed.

End Sync.

(** ** The container directory *)

Definition containerBase : list string := ["minion"%string; "containers"%string].

Lemma containerBase_path : containerBase ≠ [] ∧ Forall component containerBase.
Proof. split; [done|]. repeat apply Forall_cons_2; by apply field_component || apply Forall_nil_2. Qed.

(** The address of an entry in the store, 0 if it has none in the prefix. *)
Definition storedIP {W} `{Store W, !StoreLaws W} (w : W) (id : string) : Z :=
  parseIP (default ""%string (stPaths w (containerBase ++ [id; "IP"%string]))) containerPrefix prefixMask.

Lemma idLabelMap_lookup containers c :
  NoDup (schedIDs containers) → c ∈ containers → containerSchedID c ≠ ""%string →
  idLabelMap containers !! containerSchedID c = Some (containerLabels c).
Proof.
  unfold idLabelMap. induction containers as [|x containers IH] using rev_ind; intros Hnd Hc Hne.
  { by apply not_elem_of_nil in Hc. }
  unfold schedIDs in *. rewrite fmap_app, filter_app in Hnd. rewrite foldl_app. cbn [foldl].
  apply NoDup_app in Hnd as (Hnd & Hdisj & _). case_decide as Hx.
  - apply elem_of_app in Hc as [Hc|Heq%list_elem_of_singleton]; [|subst x; apply lookup_insert_eq].
    rewrite lookup_insert_ne; [by apply IH|]. intros Heq. apply (Hdisj (containerSchedID c)).
    + apply list_elem_of_filter. split; [done|]. apply list_elem_of_fmap. eauto.
    + apply list_elem_of_filter. split; [done|]. rewrite <- Heq. apply list_elem_of_fmap. exists x.
      split; [done|]. by apply list_elem_of_singleton.
  - apply elem_of_app in Hc as [Hc|Heq%list_elem_of_singleton]; [by apply IH|]. subst x. done.
Qed.

(** [labelText] for the containers in use. *)
Lemma labelText_lookup `{JSON} containers c :
  NoDup (schedIDs containers) → c ∈ containers → containerSchedID c ≠ ""%string →
  labelText containers (containerSchedID c) = marshal (sortStrings (elems (containerLabels c))).
Proof.
  intros Hnd Hc Hne. unfold labelText. f_equal. f_equal. f_equal.
  exact (f_equal (default None) (idLabelMap_lookup containers c Hnd Hc Hne)).
Qed.

Section Containers.
Context {W : Type} `{Store W, !StoreLaws W} `{MapRange} `{Rand} `{JSON}.

Lemma writeStoreContainers_run (containers : list Container) (s : netWorld W) :
  dirClean containerBase (nwStore s) → Forall component (schedIDs containers) →
  ∃ dir s', writeStoreContainers containers s = Ok (true, s') ∧ mirrors containerBase dir (nwStore s') ∧
    dom dir = list_to_set (schedIDs containers) ∧
    (∀ id, id ∈ schedIDs containers → dirField dir id "Labels" = labelText containers id) ∧
    (∀ id, id ∈ schedIDs containers → storedIP (nwStore s) id ≠ 0 →
       ipOf containerPrefix dir id = storedIP (nwStore s) id) ∧
    (∀ id, storedIP (nwStore s) id = 0 → ipOf containerPrefix dir id ≠ 0 →
       uint32 (ipOf containerPrefix dir id) ∧ Z.land (ipOf containerPrefix dir id) prefixMask = containerPrefix ∧
       ipOf containerPrefix dir id ≠ parseIP gatewayIP containerPrefix prefixMask ∧
       ∀ id', id' ≠ id → ipOf containerPrefix dir id' ≠ ipOf containerPrefix dir id).
Proof.
  intros Hclean Hids. pose proof containerBase_path as Hbase. pose proof containerPrefix_good as Hp.
  destruct (mkdirBase_run containerBase Hbase (nwStore s) Hclean) as (ok & w1 & Hmk & Hready & Hsame).
  set (s1 := mkNetWorld w1 (nwRand s) (nwLoops s)).
  destruct (getDirectory_run containerBase Hbase s1 Hready) as (d2 & s2 & Hget & Hmir2 & Hpaths2).
  destruct (syncDir_run containerBase Hbase (schedIDs containers) d2 s2 Hmir2 Hids)
    as (d3 & s3 & Hdir & Hmir3 & Hdom3 & Hent3).
  destruct (syncIPs_run (pathString containerBase) containerPrefix (mirrors containerBase) Hp
    (λ d ips k s, assignIP_mirrors containerBase Hbase containerPrefix d ips k s Hp) d3 s3 Hmir3)
    as (d4 & s4 & Hips & Hmir4 & Hdom4 & Hf4 & Hkeep4 & Huniq4).
  destruct (syncLabels_run containerBase Hbase containers d4 s4 Hmir4) as (d5 & s5 & Hlab & Hmir5 & Hdom5 & Hf5 & Hin5).
  assert (∀ id, ipOf containerPrefix d5 id = ipOf containerPrefix d4 id) as Hip5
    by (intros id; unfold ipOf; by rewrite Hf5).
  (* the addresses before the round *)
  assert (∀ id, id ∈ schedIDs containers → ipOf containerPrefix d3 id = storedIP (nwStore s) id) as Hold.
  { intros id Hid. unfold ipOf, storedIP.
    assert (dirField d3 id "IP" = dirField d2 id "IP") as ->.
    { unfold dirField. rewrite (Hent3 id Hid). by destruct (d2 !! id). }
    rewrite (mirrors_field containerBase d2 (nwStore s2) id "IP" Hmir2). f_equal. f_equal.
    rewrite Hpaths2. by apply Hsame. }
  exists d5, s5. split_and!.
  - unfold writeStoreContainers. unfold mbind, M_bind. unfold onStore at 1.
    change containerDir with (pathString containerBase). rewrite Hmk. fold s1.
    by rewrite Hget, Hdir, Hips, Hlab.
  - done.
  - by rewrite Hdom5, Hdom4, Hdom3.
  - intros id Hid. apply Hin5. rewrite Hdom4, Hdom3. by apply elem_of_list_to_set.
  - intros id Hid Hnz. rewrite Hip5. rewrite <- (Hold id Hid) in *. unfold ipOf, dirField. by rewrite (Hkeep4 id).
  - intros id Hz. rewrite Hip5. intros Hnz.
    assert (id ∈ schedIDs containers) as Hid.
    { assert (id ∈ dom d4) as Hin; [|rewrite Hdom4, Hdom3 in Hin; by apply elem_of_list_to_set in Hin].
      apply elem_of_dom. unfold ipOf, dirField in Hnz. destruct (d4 !! id); [eauto|done]. }
    destruct (Huniq4 id) as (Hu & Hl & Hg & Hother); [by rewrite Hold|done|].
    split_and!; [done|done|done|]. intros id' Hne. rewrite Hip5. by apply Hother.
Qed.

End Containers.

Section ContainerProps.
Context {W : Type} `{Store W, !StoreLaws W} `{MapRange} `{Rand} `{JSON}.


(** C37: What the leader writes of a container is what a worker reads: after a round of
    the leader, a worker that reads the directory gives the row of the container
    exactly the container's labels, sorted, and the address that the store has for it. *)
Theorem labels_reach_workers (containers : list Container) (c row : Container) (s : netWorld W) :
  dirClean containerBase (nwStore s) → Forall component (schedIDs containers) →
  NoDup (schedIDs containers) → c ∈ containers → containerSchedID c ≠ ""%string →
  containerSchedID row = containerSchedID c → Forall jsonText (elems (containerLabels c)) →
  ∃ s1 dir s2, writeStoreContainers containers s = Ok (true, s1) ∧
    getDirectory containerDir s1 = Ok (Some dir, s2) ∧
    containerLabels (readContainer true dir row) = Some (sortStrings (elems (containerLabels c))) ∧
    parseIP (containerIP (readContainer true dir row)) containerPrefix prefixMask =
      storedIP (nwStore s1) (containerSchedID c).
Proof.
  intros Hclean Hids Hnd Hc Hne Hrow Hjson.
  destruct (writeStoreContainers_run containers s Hclean Hids) as (dir & s1 & Hrun & Hmir & Hdom & Hlab & _).
  destruct (getDirectory_run containerBase containerBase_path s1) as (dir2 & s2 & Hget & Hmir2 & Hsame); [apply Hmir|].
  assert (containerSchedID c ∈ schedIDs containers) as Hin.
  { apply list_elem_of_filter. split; [done|]. apply list_elem_of_fmap. eauto. }
  assert (∀ f, dirField dir2 (containerSchedID c) f = dirField dir (containerSchedID c) f) as Hfields.
  { intros f. rewrite (mirrors_field containerBase dir2 _ _ f Hmir2), (mirrors_field containerBase dir _ _ f Hmir).
    by rewrite Hsame. }
  assert (is_Some (dir2 !! containerSchedID c)) as [m Hm].
  { apply Hmir2. rewrite Hsame. apply Hmir. apply elem_of_dom. rewrite Hdom. by apply elem_of_list_to_set. }
  exists s1, dir2, s2. split_and!; [done|exact Hget| |].
  - unfold readContainer. rewrite Hrow, Hm. cbn [containerLabels].
    pose proof (Hfields "Labels"%string) as HL. rewrite (Hlab _ Hin) in HL. unfold dirField in HL. rewrite Hm in HL.
    cbn [mbind option_bind] in HL. rewrite HL, labelText_lookup by done.
    apply unmarshal_marshal. by rewrite sortStrings_perm.
  - unfold readContainer. rewrite Hrow, Hm. cbn [containerIP]. unfold storedIP. f_equal.
    rewrite <- (mirrors_field containerBase dir _ _ "IP" Hmir), <- Hfields. unfold dirField. by rewrite Hm.
Qed.

End ContainerProps.

(** ** Witnesses: two containers and the empty store *)

Module NetDemo.

Definition comma : Ascii.ascii := Ascii.ascii_of_nat 44.
Definition bracket : Ascii.ascii := Ascii.ascii_of_nat 93.

(** A text format for lists of strings. *)
Definition textJSON : JSON.
Proof.
  refine {|
    marshal := λ l, match l with [] => "[]"%string | _ => joinOn comma l end;
    unmarshal := λ s, if decide (s = "[]"%string) then Some [] else Some (splitOn comma s);
    jsonText := λ s, noSep comma s ∧ noSep bracket s
  |}.
  intros [|a l] Hl; [done|]. rewrite decide_False.
  - f_equal. apply splitOn_joinOn. eapply Forall_impl; [exact Hl|]. by intros s [? _].
  - intros Heq. assert (splitOn comma "[]" = a :: l) as Hs.
    { rewrite <- Heq. apply splitOn_joinOn. eapply Forall_impl; [exact Hl|]. by intros s [? _]. }
    injection Hs as <- <-. apply Forall_cons in Hl as [[_ Hb] _]. apply Hb. vm_compute. right. left.
Defined.

Definition web : Container := mkContainer 1 0 "" "" "c1" "nginx" None (Some ["web"; "app"]%string) None None.
Definition sql : Container := mkContainer 2 0 "" "" "c2" "mysql" None (Some ["db"%string]) None None.

Lemma clean : dirClean (W := Tree) containerBase NewMock.
Proof.
  split_and!; [exact NewMock_wellKeyed| |]; [|done]. intros k [v Hv]. done.
Qed.

Lemma ids : Forall component (schedIDs [web; sql]).
Proof. repeat apply Forall_cons_2; by apply field_component || apply Forall_nil_2. Qed.

Lemma ids_NoDup : NoDup (schedIDs [web; sql]).
Proof. apply (bool_decide_unpack _). reflexivity. Qed.

Lemma web_text : Forall (@jsonText textJSON) (elems (containerLabels web)).
Proof.
  apply Forall_forall. intros l Hl. assert (l = "web"%string ∨ l = "app"%string) as Hcase by set_solver.
  destruct Hcase as [-> | ->]; split; apply (bool_decide_unpack _); reflexivity.
Qed.

End NetDemo.


Lemma labels_reach_workers_witness :
  ∃ s1 dir s2, writeStoreContainers (H0 := mapToListRange) (H1 := countingRand) (H2 := NetDemo.textJSON)
      [NetDemo.web; NetDemo.sql] (mkNetWorld NewMock 0 0) = Ok (true, s1) ∧
    getDirectory (H0 := mapToListRange) containerDir s1 = Ok (Some dir, s2) ∧
    containerLabels (readContainer (H2 := NetDemo.textJSON) true dir NetDemo.web) = Some ["app"; "web"]%string.
Proof.
  destruct (labels_reach_workers (H0 := mapToListRange) (H1 := countingRand) (H2 := NetDemo.textJSON)
    [NetDemo.web; NetDemo.sql] NetDemo.web NetDemo.web (mkNetWorld NewMock 0 0)) as (s1 & dir & s2 & Hw & Hg & Hl & _).
  - exact NetDemo.clean.
  - exact NetDemo.ids.
  - exact NetDemo.ids_NoDup.
  - left.
  - discriminate.
  - reflexivity.
  - exact NetDemo.web_text.
  - exists s1, dir, s2. split; [exact Hw|]. split; [exact Hg|]. rewrite Hl. reflexivity.
Defined.
