(* ===== verification/Ovsdb.v ===== *)
(** * ovsdb: the client of the Open vSwitch database

    Model of [src/ovsdb/ovsdb.go] and of what it uses of the package [libovsdb]
    ([src/vendor/github.com/socketplane/libovsdb]): values in the notation of
    RFC 7047, operations, and the client, over an interface for the server. *)

From stdpp Require Import base gmap list strings.
From Stdlib Require Import ZArith Lia.
From S2P Require Import Prelude.

Local Open Scope Z_scope.

(** ** Values *)

(** A decoded JSON value, [interface{}] in Go; the numbers of the columns that the
    client reads are integers. *)
Inductive json : Type :=
| JNull
| JStr (s : string)
| JNum (z : Z)
| JBool (b : bool)
| JArr (l : list json).

(** [Row]. A missing column reads as nil. *)
Abbreviation Row := (gmap string json).
Definition column (row : Row) (c : string) : json := default JNull (row !! c).

(** The values that the client gives to conditions and mutations. *)
Inductive goValue : Type :=
| GoString (s : string)
| GoInt (z : Z)
| GoBool (b : bool)
| GoUUID (u : string)
| GoStrings (l : list string)
| GoStringMap (m : gmap string string).

Definition dash : Ascii.ascii := Ascii.ascii_of_nat 45.

Definition lowerHex (c : Ascii.ascii) : bool :=
  let n := Ascii.nat_of_ascii c in
  bool_decide ((48 ≤ n ∧ n ≤ 57) ∨ (97 ≤ n ∧ n ≤ 102))%nat.

(** [UUID.validateUUID]: groups of 8, 4, 4, 4 and 12 hexadecimal digits. *)
Definition validUUID (u : string) : bool :=
  bool_decide (String.length <$> splitOn dash u = [8; 4; 4; 4; 12]%nat) &&
  forallb (λ g, forallb lowerHex (String.list_ascii_of_string g)) (splitOn dash u).

(** [UUID.MarshalJSON]. *)
Definition uuidJSON (u : string) : json :=
  JArr [JStr (if validUUID u then "uuid" else "named-uuid"); JStr u].

(** [OvsSet.MarshalJSON] and [OvsMap.MarshalJSON]; the client builds maps with one
    entry, so that the order of the entries does not matter. *)
Definition setJSON (l : list json) : json := JArr [JStr "set"; JArr l].
Definition mapJSON (m : gmap string string) : json :=
  JArr [JStr "map"; JArr ((λ p : string * string, JArr [JStr p.1; JStr p.2]) <$> map_to_list m)].

Definition valueJSON (v : goValue) : json :=
  match v with
  | GoString s => JStr s
  | GoInt z => JNum z
  | GoBool b => JBool b
  | GoUUID u => uuidJSON u
  | GoStrings l => setJSON (JStr <$> l)
  | GoStringMap m => mapJSON m
  end.

(** ** Operations and their results *)

Record Operation : Type := mkOperation {
  opOp : string;
  opTable : string;
  opRow : Row;
  opMutations : list json;
  opWhere : list json;
  opUUIDName : string
}.

Record OperationResult : Type := mkResult {
  resCount : Z;
  resError : string;
  resRows : list Row
}.

(** The server: connecting to it, and a transaction, which returns [None] if the
    request failed. *)
Class OvsServer (W : Type) : Type := {
  ovsConnect : W → bool * W;
  ovsTransact : string → list Operation → W → option (list OperationResult) * W
}.

Record LPort : Type := mkLPort {
  lportName : string;
  lportAddresses : list string
}.

Record Acl : Type := mkAcl {
  aclUUID : string;
  aclPriority : Z;
  aclDirection : string;
  aclMatch : string;
  aclAction : string;
  aclLog : bool
}.

(** Errors; their text is only logged. *)
Inductive ovsErr : Type := ExistError | OvsError.

Definition IsExist (e : ovsErr) : bool := match e with ExistError => true | OvsError => false end.

(** [if err != nil { return err }]. *)
Definition tryBind {E W A B} (k : A → M E W (ovsErr + B)) (c : M E W (ovsErr + A)) : M E W (ovsErr + B) :=
  r ← c; match r with inl e => mret (inl e) | inr a => k a end.

Notation "x ←? y ; z" := (tryBind (λ x, z) y)
  (at level 20, y at level 100, z at level 200, only parsing).

(** ** Conditions and mutations *)

Definition newCondition (column function : string) (value : goValue) : json :=
  if decide (column = "_uuid"%string) then
    match value with
    | GoUUID u | GoString u => JArr [JStr column; JStr function; uuidJSON u]
    | _ => JNull
    end
  else JArr [JStr column; JStr function; valueJSON value].

(** [newMutation]; [None] is its panic. *)
Definition newMutation (column mutator : string) (value : goValue) : option json :=
  match value with
  | GoUUID u => Some (JArr [JStr column; JStr mutator; setJSON [uuidJSON u]])
  | GoStrings _ | GoStringMap _ => Some (JArr [JStr column; JStr mutator; valueJSON value])
  | _ => None
  end.

Definition selectOp (table : string) (conds : list json) : Operation :=
  mkOperation "select" table ∅ [] conds "".
Definition insertOp (table : string) (row : Row) (uuidName : string) : Operation :=
  mkOperation "insert" table row [] [] uuidName.
Definition deleteOp (table : string) (conds : list json) : Operation :=
  mkOperation "delete" table ∅ [] conds "".
Definition mutateOp (table : string) (mutations conds : list json) : Operation :=
  mkOperation "mutate" table ∅ mutations conds "".
Definition updateOp (table : string) (row : Row) (conds : list json) : Operation :=
  mkOperation "update" table row [] conds "".

Definition errorCheck (results : list OperationResult) (expectedResponses : nat) (expectedCount : Z)
    : option ovsErr :=
  if decide (length results < expectedResponses)%nat then Some OvsError
  else if decide (Exists (λ r, resError r ≠ ""%string) results) then Some OvsError
  else if decide (foldr Z.add 0 (resCount <$> results) ≠ expectedCount) then Some OvsError
  else None.

Section Client.
Context {W : Type} `{OvsServer W}.

Abbreviation OVS := (M Empty_set W).

Definition onServer {A} (f : W → A * W) : OVS A := λ w, Ok (f w).

(** Type assertions, and an index into a slice. *)
Definition asStr (j : json) : OVS string :=
  match j with JStr s => mret s | _ => panic "interface conversion" end.
Definition asNum (j : json) : OVS Z :=
  match j with JNum z => mret z | _ => panic "interface conversion" end.
Definition asBool (j : json) : OVS bool :=
  match j with JBool b => mret b | _ => panic "interface conversion" end.
Definition asArr (j : json) : OVS (list json) :=
  match j with JArr l => mret l | _ => panic "interface conversion" end.
Definition index {A} (l : list A) (i : nat) : OVS A :=
  match l !! i with Some a => mret a | None => panic "index out of range" end.

Definition Open : OVS bool := onServer ovsConnect.

(** [ovsdb.Transact]. *)
Definition transact (db : string) (ops : list Operation) : OVS (ovsErr + list OperationResult) :=
  r ← onServer (ovsTransact db ops);
  mret match r with Some results => inr results | None => inl OvsError end.

(** A transaction and the check of its results. *)
Definition transactCheck (db : string) (ops : list Operation) (responses : nat) (count : Z)
    : OVS (ovsErr + unit) :=
  results ←? transact db ops;
  mret match errorCheck results responses count with Some e => inl e | None => inr tt end.

Definition mutation (column mutator : string) (value : goValue) : OVS json :=
  match newMutation column mutator value with
  | Some m => mret m
  | None => panic "unhandled value in mutation"
  end.

Definition selectRows (db table : string) (conds : list json) : OVS (ovsErr + list Row) :=
  results ←? transact db [selectOp table conds];
  r ← index results 0;
  mret (inr (resRows r)).

(** The [GoUuid] of [x.([]interface{})[1].(string)]. *)
Definition uuidOf (j : json) : OVS string :=
  l ← asArr j; u ← index l 1; asStr u.

(** [t, ok := oSet.([]interface{}); ok && t[0] == "set"]. *)
Definition isTagged (tag : string) (j : json) : OVS (option (list json)) :=
  match j with
  | JArr t =>
      hd ← index t 0;
      mret match hd with JStr s => if decide (s = tag) then Some t else None | _ => None end
  | _ => mret None
  end.

Definition ovsStringSetToSlice (oSet : json) : OVS (list string) :=
  t ← isTagged "set" oSet;
  match t with
  | Some t => inner ← index t 1; vs ← asArr inner; mapEach asStr vs
  | None => s ← asStr oSet; mret [s]
  end.

Definition ovsUUIDSetToSlice (oSet : json) : OVS (list string) :=
  t ← isTagged "set" oSet;
  match t with
  | Some t => inner ← index t 1; vs ← asArr inner; mapEach uuidOf vs
  | None => u ← uuidOf oSet; mret [u]
  end.

(** The loop of [ovsStringMapToMap]. *)
Fixpoint mapPairs (ret : gmap string string) (kvs : list json) : OVS (ovsErr + gmap string string) :=
  match kvs with
  | [] => mret (inr ret)
  | JArr kv :: kvs' =>
      k ← index kv 0;
      match k with
      | JStr key =>
          v ← index kv 1;
          match v with
          | JStr val => mapPairs (<[key := val]> ret) kvs'
          | _ => mret (inl OvsError)
          end
      | _ => mret (inl OvsError)
      end
  | _ :: _ => mret (inl OvsError)
  end.

Definition ovsStringMapToMap (oMap : json) : OVS (ovsErr + gmap string string) :=
  match oMap with
  | JArr wrap =>
      hd ← index wrap 0;
      match hd with
      | JStr tag =>
          if decide (tag = "map"%string) then
            content ← index wrap 1;
            match content with
            | JArr brokenMap => mapPairs ∅ brokenMap
            | _ => mret (inl OvsError)
            end
          else mret (inl OvsError)
      | _ => mret (inl OvsError)
      end
  | _ => mret (inl OvsError)
  end.

Definition getFromMapInRow (row : Row) (column key : string) : OVS (ovsErr + string) :=
  match row !! column with
  | None => mret (inl ExistError)
  | Some val =>
      goMap ←? ovsStringMapToMap val;
      mret match goMap !! key with Some v => inr v | None => inl ExistError end
  end.

(** ** OVN: logical switches, ports and access control lists *)

Definition northbound : string := "OVN_Northbound".

Definition ListSwitches : OVS (ovsErr + list string) :=
  results ←? selectRows northbound "Logical_Switch" [newCondition "_uuid" "!=" (GoString "_")];
  names ← mapEach (λ r : Row, asStr (column r "name")) results;
  mret (inr names).

Definition CreateSwitch (lswitch : string) : OVS (ovsErr + unit) :=
  check ←? selectRows northbound "Logical_Switch" [newCondition "name" "==" (GoString lswitch)];
  match check with
  | _ :: _ => mret (inl ExistError)
  | [] => transactCheck northbound
            [insertOp "Logical_Switch" {["name"%string := JStr lswitch]} ""] 1 2
  end.

Definition DeleteSwitch (lswitch : string) : OVS (ovsErr + unit) :=
  transactCheck northbound
    [deleteOp "Logical_Switch" [newCondition "name" "==" (GoString lswitch)]] 1 1.

(** The body of the loop of [ListPorts]. *)
Definition addLPort (lports : list LPort) (uuid : string) : OVS (ovsErr + list LPort) :=
  results ←? selectRows northbound "Logical_Port" [newCondition "_uuid" "==" (GoString uuid)];
  match results with
  | [] => mret (inr lports)
  | lport :: _ =>
      name ← asStr (column lport "name");
      addresses ← ovsStringSetToSlice (column lport "addresses");
      mret (inr (lports ++ [mkLPort name addresses]))
  end.

(** A loop whose body may return an error from the function. *)
Fixpoint tryEach {A B} (f : B → A → OVS (ovsErr + B)) (acc : B) (l : list A) : OVS (ovsErr + B) :=
  match l with
  | [] => mret (inr acc)
  | x :: l' => acc' ←? f acc x; tryEach f acc' l'
  end.

Definition ListPorts (lswitch : string) : OVS (ovsErr + list LPort) :=
  results ←? selectRows northbound "Logical_Switch" [newCondition "name" "==" (GoString lswitch)];
  match results with
  | [] => mret (inr [])
  | r :: _ => ports ← ovsUUIDSetToSlice (column r "ports"); tryEach addLPort [] ports
  end.

Definition CreatePort (lswitch name mac ip : string) : OVS (ovsErr + unit) :=
  rows ←? selectRows northbound "Logical_Port" [newCondition "name" "==" (GoString name)];
  match rows with
  | _ :: _ => mret (inl ExistError)
  | [] =>
      let port : Row := <["addresses"%string := setJSON [JStr (mac ++ " " ++ ip)]]>
                          {["name"%string := JStr name]} in
      m ← mutation "ports" "insert" (GoUUID "dilportadd");
      transactCheck northbound
        [insertOp "Logical_Port" port "dilportadd";
         mutateOp "Logical_Switch" [m] [newCondition "name" "==" (GoString lswitch)]] 2 1
  end.

Definition DeletePort (lswitch name : string) : OVS (ovsErr + unit) :=
  rows ←? selectRows northbound "Logical_Port" [newCondition "name" "==" (GoString name)];
  match rows with
  | [] => mret (inr tt)
  | row :: _ =>
      uuid ← uuidOf (column row "_uuid");
      m ← mutation "ports" "delete" (GoUUID uuid);
      transactCheck northbound
        [deleteOp "Logical_Port" [newCondition "_uuid" "==" (GoUUID uuid)];
         mutateOp "Logical_Switch" [m] [newCondition "name" "==" (GoString lswitch)]] 2 2
  end.

(** The ACL of a row. *)
Definition readAcl (result : Row) : OVS Acl :=
  uuid ← uuidOf (column result "_uuid");
  priority ← asNum (column result "priority");
  direction ← asStr (column result "direction");
  amatch ← asStr (column result "match");
  action ← asStr (column result "action");
  log ← asBool (column result "log");
  mret (mkAcl uuid priority direction amatch action log).

Definition addAcls (acls : list Acl) (aid : string) : OVS (ovsErr + list Acl) :=
  results ←? selectRows northbound "ACL" [newCondition "_uuid" "==" (GoString aid)];
  new ← mapEach readAcl results;
  mret (inr (acls ++ new)).

Definition ListACLs (lswitch : string) : OVS (ovsErr + list Acl) :=
  results ←? selectRows northbound "Logical_Switch" [newCondition "name" "==" (GoString lswitch)];
  match results with
  | [] => mret (inr [])
  | r :: _ => aids ← ovsUUIDSetToSlice (column r "acls"); tryEach addAcls [] aids
  end.

(** The row of a new ACL. [math.Max] works on floats, which are exact for priorities
    below [2 ^ 53]. *)
Definition aclRow (dir : string) (priority : Z) (amatch action : string) (doLog : bool) : Row :=
  let acl : Row := if decide (dir ≠ "*"%string) then {["direction"%string := JStr dir]} else ∅ in
  let acl := if decide (amatch ≠ "*"%string) then <["match"%string := JStr amatch]> acl else acl in
  <["log"%string := JBool doLog]> (<["action"%string := JStr action]>
    (<["priority"%string := JNum (Z.max 0 priority)]> acl)).

Definition CreateACL (lswitch dir : string) (priority : Z) (amatch action : string) (doLog : bool)
    : OVS (ovsErr + unit) :=
  m ← mutation "acls" "insert" (GoUUID "diacladd");
  transactCheck northbound
    [insertOp "ACL" (aclRow dir priority amatch action doLog) "diacladd";
     mutateOp "Logical_Switch" [m] [newCondition "name" "==" (GoString lswitch)]] 2 1.

(** The conditions of [DeleteACL]. *)
Definition aclMatches (dir : string) (priority : Z) (amatch : string) (acl : Acl) : bool :=
  bool_decide ((dir = "*"%string ∨ aclDirection acl = dir) ∧
               (amatch = "*"%string ∨ aclMatch acl = amatch) ∧
               (priority < 0 ∨ aclPriority acl = priority)).

(** The body of its loop. *)
Definition deleteAcl (lswitch dir : string) (priority : Z) (amatch : string) (_ : unit) (acl : Acl)
    : OVS (ovsErr + unit) :=
  if aclMatches dir priority amatch acl then
    m ← mutation "acls" "delete" (GoUUID (aclUUID acl));
    transactCheck northbound
      [deleteOp "ACL" [newCondition "_uuid" "==" (GoUUID (aclUUID acl))];
       mutateOp "Logical_Switch" [m] [newCondition "name" "==" (GoString lswitch)]] 2 2
  else mret (inr tt).

Definition DeleteACL (lswitch dir : string) (priority : Z) (amatch : string) : OVS (ovsErr + unit) :=
  acls ←? ListACLs lswitch;
  tryEach (deleteAcl lswitch dir priority amatch) tt acls.

(** ** Open vSwitch: bridges, ports and interfaces *)

Definition openVSwitch : string := "Open_vSwitch".

Definition getOFGeneric (table name : string) : OVS (ovsErr + list Row) :=
  results ←? selectRows openVSwitch table [newCondition "name" "==" (GoString name)];
  mret match results with [] => inl ExistError | _ => inr results end.

Definition DeleteOFPort (bridge name : string) : OVS (ovsErr + unit) :=
  rows ←? selectRows openVSwitch "Port" [newCondition "name" "==" (GoString name)];
  match rows with
  | [] => mret (inr tt)
  | row :: _ =>
      uuid ← uuidOf (column row "_uuid");
      m ← mutation "ports" "delete" (GoUUID uuid);
      transactCheck openVSwitch
        [deleteOp "Port" [newCondition "name" "==" (GoString name)];
         mutateOp "Bridge" [m] [newCondition "name" "==" (GoString bridge)]] 2 2
  end.

(** [GetOFPortNo] makes three attempts. *)
Fixpoint portNoAttempts (n : nat) (name : string) : OVS (ovsErr + Z) :=
  match n with
  | O => mret (inl ExistError)
  | S n' =>
      results ←? getOFGeneric "Interface" name;
      row ← index results 0;
      match column row "ofport" with
      | JNum port => mret (inr port)
      | _ => portNoAttempts n' name
      end
  end.

Definition GetOFPortNo (name : string) : OVS (ovsErr + Z) := portNoAttempts 3 name.

Definition CreateOFPort (bridge name : string) : OVS (ovsErr + unit) :=
  m ← mutation "ports" "insert" (GoUUID "diportadd");
  transactCheck openVSwitch
    [insertOp "Interface" {["name"%string := JStr name]} "diifaceadd";
     insertOp "Port" (<["interfaces"%string := setJSON [uuidJSON "diifaceadd"]]>
                        {["name"%string := JStr name]}) "diportadd";
     mutateOp "Bridge" [m] [newCondition "name" "==" (GoString bridge)]] 2 1.

Definition addOFPort (ports : list string) (uuid : string) : OVS (ovsErr + list string) :=
  results ←? selectRows openVSwitch "Port" [newCondition "_uuid" "==" (GoString uuid)];
  row ← index results 0;
  name ← asStr (column row "name");
  mret (inr (ports ++ [name])).

Definition ListOFPorts (bridge : string) : OVS (ovsErr + list string) :=
  results ←? selectRows openVSwitch "Bridge" [newCondition "name" "==" (GoString bridge)];
  match results with
  | [] => mret (inr [])
  | r :: _ => uuids ← ovsUUIDSetToSlice (column r "ports"); tryEach addOFPort [] uuids
  end.

(** The loop of [GetDefaultOFInterface]. *)
Fixpoint findInterface (port : string) (uuids : list string) : OVS (ovsErr + Row) :=
  match uuids with
  | [] => mret (inl OvsError)
  | uuid :: uuids' =>
      results ←? selectRows openVSwitch "Interface" [newCondition "_uuid" "==" (GoString uuid)];
      row ← index results 0;
      name ← asStr (column row "name");
      if decide (name = port) then mret (inr row) else findInterface port uuids'
  end.

Definition GetDefaultOFInterface (port : string) : OVS (ovsErr + Row) :=
  results ←? selectRows openVSwitch "Port" [newCondition "name" "==" (GoString port)];
  match results with
  | [] => mret (inl OvsError)
  | r :: _ => uuids ← ovsUUIDSetToSlice (column r "interfaces"); findInterface port uuids
  end.

Definition GetOFInterfaceType (iface : Row) : OVS (ovsErr + string) :=
  match iface !! "type"%string with
  | None => mret (inl ExistError)
  | Some val => s ← asStr val; mret (inr s)
  end.

Definition GetOFInterfacePeer (iface : Row) : OVS (ovsErr + string) :=
  getFromMapInRow iface "options" "peer".
Definition GetOFInterfaceAttachedMAC (iface : Row) : OVS (ovsErr + string) :=
  getFromMapInRow iface "external_ids" "attached-mac".
Definition GetOFInterfaceIfaceID (iface : Row) : OVS (ovsErr + string) :=
  getFromMapInRow iface "external_ids" "iface-id".

Definition addToOFInterface (name : string) (mut : json) : OVS (ovsErr + unit) :=
  transactCheck openVSwitch
    [mutateOp "Interface" [mut] [newCondition "name" "==" (GoString name)]] 1 1.

Definition updateOFInterface (name : string) (update : Row) : OVS (ovsErr + unit) :=
  transactCheck openVSwitch
    [updateOp "Interface" update [newCondition "name" "==" (GoString name)]] 1 1.

Definition SetOFInterfacePeer (name peer : string) : OVS (ovsErr + unit) :=
  mut ← mutation "options" "insert" (GoStringMap {["peer"%string := peer]});
  addToOFInterface name mut.

Definition SetBridgeMac (lswitch mac : string) : OVS (ovsErr + unit) :=
  mut ← mutation "other_config" "insert" (GoStringMap {["hwaddr"%string := mac]});
  transactCheck openVSwitch
    [mutateOp "Bridge" [mut] [newCondition "name" "==" (GoString lswitch)]] 1 1.

Definition SetOFInterfaceAttachedMAC (name mac : string) : OVS (ovsErr + unit) :=
  mut ← mutation "external_ids" "insert" (GoStringMap {["attached-mac"%string := mac]});
  addToOFInterface name mut.

Definition SetOFInterfaceIfaceID (name ifaceID : string) : OVS (ovsErr + unit) :=
  mut ← mutation "external_ids" "insert" (GoStringMap {["iface-id"%string := ifaceID]});
  addToOFInterface name mut.

Definition SetOFInterfaceType (name ifaceType : string) : OVS (ovsErr + unit) :=
  updateOFInterface name {["type"%string := JStr ifaceType]}.

End Client.
