(* ===== verification/OvsServer.v ===== *)
(** * The Open vSwitch database server

    What [ovsdb-server] promises to its clients (RFC 7047): tables of typed rows, and
    transactions, as far as the client in [Ovsdb] uses them. The server is not part of
    the program; [OvsLaws] states its documented behaviour, and the last part of the
    file is a small server that obeys it. *)

From stdpp Require Import base gmap list strings sorting.
From Stdlib Require Import ZArith Lia.
From S2P Require Import Prelude Ovsdb.

Local Open Scope Z_scope.

(** ** Data: columns hold sets of atoms, or maps *)

Inductive atom : Type :=
| AStr (s : string)
| ANum (z : Z)
| ABool (b : bool)
| AUuid (u : string).

#[global] Instance atom_eq_dec : EqDecision atom.
Proof. solve_decision. Defined.

#[global] Instance atom_countable : Countable atom.
Proof.
  apply (inj_countable'
    (λ a, match a with AStr s => inl (inl s) | ANum z => inl (inr z) | ABool b => inr (inl b) | AUuid u => inr (inr u) end)
    (λ x, match x with inl (inl s) => AStr s | inl (inr z) => ANum z | inr (inl b) => ABool b | inr (inr u) => AUuid u end)).
  by intros [].
Defined.

Inductive datum : Type :=
| DSet (s : gset atom)
| DMap (m : gmap string string).

#[global] Instance datum_eq_dec : EqDecision datum.
Proof. solve_decision. Defined.

Definition scalar (a : atom) : datum := DSet {[a]}.

(** The rows of a database, by table and UUID. *)
Abbreviation srow := (gmap string datum).
Abbreviation database := (gmap (string * string) srow).

(** ** The JSON notation of a datum *)

Definition atomJSON (a : atom) : json :=
  match a with
  | AStr s => JStr s
  | ANum z => JNum z
  | ABool b => JBool b
  | AUuid u => JArr [JStr "uuid"; JStr u]
  end.

Definition atomsJSON (l : list atom) : json :=
  match l with [a] => atomJSON a | _ => setJSON (atomJSON <$> l) end.

Definition pairJSON (p : string * string) : json := JArr [JStr p.1; JStr p.2].

(** The elements of a set, and the pairs of a map, come in any order. *)
Inductive encodes : datum → json → Prop :=
| encodes_set s l : l ≡ₚ elements s → encodes (DSet s) (atomsJSON l)
| encodes_map m l : l ≡ₚ map_to_list m → encodes (DMap m) (JArr [JStr "map"; JArr (pairJSON <$> l)]).

Definition encodesRow (u : string) (r : srow) (row : Row) : Prop :=
  row !! "_uuid"%string = Some (atomJSON (AUuid u)) ∧
  ∀ c, c ≠ "_uuid"%string → option_Forall2 encodes (r !! c) (row !! c).

(** Reading it, where [names] are the UUIDs of the rows inserted so far. *)
Definition jsonAtom (names : gmap string string) (j : json) : option atom :=
  match j with
  | JStr s => Some (AStr s)
  | JNum z => Some (ANum z)
  | JBool b => Some (ABool b)
  | JArr [JStr tag; JStr u] =>
      if decide (tag = "uuid"%string) then Some (AUuid u)
      else if decide (tag = "named-uuid"%string) then AUuid <$> names !! u
      else None
  | _ => None
  end.

Definition jsonPair (j : json) : option (string * string) :=
  match j with JArr [JStr k; JStr v] => Some (k, v) | _ => None end.

Definition jsonDatum (names : gmap string string) (j : json) : option datum :=
  match j with
  | JArr [JStr tag; JArr l] =>
      if decide (tag = "set"%string) then (λ as_, DSet (list_to_set as_)) <$> mapM (jsonAtom names) l
      else if decide (tag = "map"%string) then (λ ps, DMap (list_to_map ps)) <$> mapM jsonPair l
      else None
  | _ => scalar <$> jsonAtom names j
  end.

(** ** Operations *)

(** A condition compares a column with a scalar. *)
Definition condHolds (names : gmap string string) (u : string) (r : srow) (cond : json) : bool :=
  match cond with
  | JArr [JStr col; JStr function; v] =>
      let have := if decide (col = "_uuid"%string) then Some (scalar (AUuid u)) else r !! col in
      let equal := bool_decide (have = jsonDatum names v) in
      if decide (function = "=="%string) then equal else negb equal
  | _ => false
  end.

Definition matching (names : gmap string string) (op : Operation) (d : database) : database :=
  base.filter (λ p, p.1.1 = opTable op ∧ forallb (condHolds names p.1.2 p.2) (opWhere op) = true) d.

(** A mutation of a set adds or removes elements; one of a map adds the pairs whose
    keys the map does not have. *)
Definition mutateDatum (mutator : string) (value old : datum) : datum :=
  match value, old with
  | DSet s, DSet s0 => if decide (mutator = "insert"%string) then DSet (s0 ∪ s) else DSet (s0 ∖ s)
  | DMap m, DMap m0 => if decide (mutator = "insert"%string) then DMap (m0 ∪ m) else old
  | _, _ => old
  end.

Definition mutateRow (names : gmap string string) (r : srow) (m : json) : srow :=
  match m with
  | JArr [JStr col; JStr mutator; v] =>
      match jsonDatum names v with
      | Some value => alter (mutateDatum mutator value) col r
      | None => r
      end
  | _ => r
  end.

(** What an operation reports: the number of rows, or the rows themselves. *)
Inductive opOutcome : Type :=
| Changed (n : nat)
| Selected (rows : database).

(** One operation, given the defaults of the columns and the UUID for a new row. *)
Definition execOp (defaults : string → srow) (u : string) (names : gmap string string) (op : Operation)
    (d : database) : opOutcome * gmap string string * database :=
  let hits := matching names op d in
  if decide (opOp op = "select"%string) then (Selected hits, names, d)
  else if decide (opOp op = "insert"%string) then
    (Changed 0, <[opUUIDName op := u]> names,
     <[(opTable op, u) := omap (jsonDatum names) (opRow op) ∪ defaults (opTable op)]> d)
  else if decide (opOp op = "delete"%string) then (Changed (size hits), names, d ∖ hits)
  else if decide (opOp op = "update"%string) then
    (Changed (size hits), names, ((λ r, omap (jsonDatum names) (opRow op) ∪ r) <$> hits) ∪ d)
  else (Changed (size hits), names, ((λ r, foldl (mutateRow names) r (opMutations op)) <$> hits) ∪ d).

(** A transaction, with a UUID per operation. *)
Fixpoint execOps (defaults : string → srow) (names : gmap string string) (uops : list (string * Operation))
    (d : database) : list opOutcome * database :=
  match uops with
  | [] => ([], d)
  | (u, op) :: uops' =>
      let '(out, names', d') := execOp defaults u names op d in
      let '(outs, d'') := execOps defaults names' uops' d' in
      (out :: outs, d'')
  end.

Definition reports (out : opOutcome) (r : OperationResult) : Prop :=
  resError r = ""%string ∧
  match out with
  | Changed n => resCount r = Z.of_nat n
  | Selected rows =>
      resCount r = 0 ∧
      ∃ l, l ≡ₚ map_to_list rows ∧ Forall2 (λ p row, encodesRow p.1.2 p.2 row) l (resRows r)
  end.

(** ** Operations that the server executes: well-formed, on known named UUIDs *)

Definition jsonOK (names : gset string) (j : json) : bool :=
  bool_decide (is_Some (jsonDatum (gset_to_gmap ""%string names) j)).

Definition condOK (names : gset string) (cond : json) : bool :=
  match cond with
  | JArr [JStr _; JStr function; v] =>
      bool_decide (function = "=="%string ∨ function = "!="%string) && jsonOK names v
  | _ => false
  end.

Definition mutationOK (names : gset string) (m : json) : bool :=
  match m with
  | JArr [JStr _; JStr mutator; v] =>
      bool_decide (mutator = "insert"%string ∨ mutator = "delete"%string) && jsonOK names v
  | _ => false
  end.

Definition supported (names : gset string) (op : Operation) : bool :=
  bool_decide (opOp op ∈ ["select"; "insert"; "delete"; "update"; "mutate"]%string) &&
  forallb (condOK names) (opWhere op) && forallb (mutationOK names) (opMutations op) &&
  forallb (λ p : string * json, jsonOK names p.2) (map_to_list (opRow op)).

Fixpoint supportedOps (names : gset string) (ops : list Operation) : bool :=
  match ops with
  | [] => true
  | op :: ops' => supported names op && supportedOps ({[opUUIDName op]} ∪ names) ops'
  end.

(** ** The behaviour of the server *)

(** A row refers to another by a UUID in one of its columns. *)
Definition refersTo (r : srow) (u : string) : Prop := ∃ c s, r !! c = Some (DSet s) ∧ AUuid u ∈ s.

(** The server deletes rows that no row refers to, except those of tables [kept]. *)
Definition collected (kept : string → bool) (d d' : database) : Prop :=
  d' ⊆ d ∧
  ∀ t u r, d !! (t, u) = Some r → d' !! (t, u) = None →
    kept t = false ∧ ∀ k r', d' !! k = Some r' → ¬ refersTo r' u.

Section Laws.
Context (defaults : string → string → srow) (kept : string → string → bool).

(** New rows get new UUIDs. *)
Definition freshFor (d : database) (us : list string) : Prop :=
  NoDup us ∧ ∀ u, u ∈ us → validUUID u = true ∧ ∀ t, d !! (t, u) = None.

(** The transaction was executed. *)
Definition executed (db : string) (ops : list Operation) (st st' : string → database)
    (outs : list opOutcome) : Prop :=
  ∃ us d', length us = length ops ∧ freshFor (st db) us ∧
    execOps (defaults db) ∅ (zip us ops) (st db) = (outs, d') ∧
    collected (kept db) d' (st' db) ∧ ∀ db', db' ≠ db → st' db' = st db'.

(** The reply to a transaction: it was executed, or it failed and had no effect, which
    reading rows does not, or the connection failed before or after that. *)
Inductive transacted (db : string) (ops : list Operation) (st st' : string → database)
    : option (list OperationResult) → Prop :=
| tx_done outs rs :
    executed db ops st st' outs → Forall2 reports outs rs → transacted db ops st st' (Some rs)
| tx_aborted rs :
    Exists (λ op, opOp op ≠ "select"%string) ops → Exists (λ r, resError r ≠ ""%string) rs →
    st' = st → transacted db ops st st' (Some rs)
| tx_lost : st' = st → transacted db ops st st' None
| tx_lost_reply outs : executed db ops st st' outs → transacted db ops st st' None.

End Laws.

Class OvsLaws (W : Type) `{OvsServer W} : Type := {
  ovDb : W → string → database;
  ovDefaults : string → string → srow;
  ovKept : string → string → bool;
  ov_connect : ∀ w, ovDb (ovsConnect w).2 = ovDb w;
  ov_transact : ∀ db ops w, supportedOps ∅ ops = true →
    transacted ovDefaults ovKept db ops (ovDb w) (ovDb (ovsTransact db ops w).2) (ovsTransact db ops w).1
}.

(** ** A server that obeys the laws *)

Module RefServer.

Definition hexDigit (n : N) : Ascii.ascii :=
  Ascii.ascii_of_N (if (n <? 10)%N then 48 + n else 87 + n)%N.

Fixpoint hexDigits (k : nat) (n : N) (acc : string) : string :=
  match k with
  | O => acc
  | S k' => hexDigits k' (n / 16)%N (String (hexDigit (n mod 16)%N) acc)
  end.

Definition uuidAt (n : nat) : string := "00000000-0000-0000-0000-" ++ hexDigits 12 (N.of_nat n) "".

(** The contents of the databases, and the number of UUIDs used. *)
Record server : Type := mkServer {
  srvData : gmap string database;
  srvUUIDs : nat
}.

Definition contents (w : server) (db : string) : database := default ∅ (srvData w !! db).

Definition datumJSON (d : datum) : json :=
  match d with
  | DSet s => atomsJSON (elements s)
  | DMap m => JArr [JStr "map"; JArr (pairJSON <$> map_to_list m)]
  end.

Definition rowJSON (u : string) (r : srow) : Row :=
  <["_uuid"%string := atomJSON (AUuid u)]> (datumJSON <$> r).

Definition replyOf (out : opOutcome) : OperationResult :=
  match out with
  | Changed n => mkResult (Z.of_nat n) "" []
  | Selected rows => mkResult 0 "" ((λ p : string * string * srow, rowJSON p.1.2 p.2) <$> map_to_list rows)
  end.

Definition unusedUUIDs (d : database) (us : list string) : bool :=
  bool_decide (NoDup us) && forallb validUUID us &&
  forallb (λ p : string * string * srow, bool_decide (p.1.2 ∉ us)) (map_to_list d).

Section Server.
Context (defaults : string → string → srow).

Definition run (db : string) (ops : list Operation) (w : server)
    : option (list OperationResult) * server :=
  let us := uuidAt <$> seq (srvUUIDs w) (length ops) in
  if unusedUUIDs (contents w db) us then
    let '(outs, d) := execOps (defaults db) ∅ (zip us ops) (contents w db) in
    (Some (replyOf <$> outs), mkServer (<[db := d]> (srvData w)) (srvUUIDs w + length ops))
  else (None, w).

Definition refServer : OvsServer server := {| ovsConnect w := (true, w); ovsTransact := run |}.

Lemma rowJSON_encodes u r : encodesRow u r (rowJSON u r).
Proof.
  split; [apply lookup_insert_eq|]. intros c Hc. unfold rowJSON.
  rewrite lookup_insert_ne, lookup_fmap by done. destruct (r !! c) as [[s|m]|]; repeat constructor; done.
Qed.

Lemma replyOf_reports out : reports out (replyOf out).
Proof.
  destruct out as [n|rows]; [done|]. split; [done|]. split; [done|]. eexists. split; [done|].
  apply Forall2_fmap_r, Forall_Forall2_diag, Forall_true. intros p. apply rowJSON_encodes.
Qed.

Lemma unusedUUIDs_fresh d us : unusedUUIDs d us = true → freshFor d us.
Proof.
  intros [[Hnd%bool_decide_eq_true Hv]%andb_true_iff Hd]%andb_true_iff. split; [done|]. intros u Hu. split.
  - rewrite forallb_forall in Hv. apply Hv. by apply list_elem_of_In.
  - intros t. destruct (d !! (t, u)) as [r|] eqn:Hl; [|done]. rewrite forallb_forall in Hd.
    apply elem_of_map_to_list, list_elem_of_In, Hd in Hl. by apply bool_decide_eq_true in Hl.
Qed.

Lemma collected_refl kept d : collected kept d d.
Proof. split; [done|]. intros t u r H1 H2. congruence. Qed.

Definition refLaws : @OvsLaws server refServer.
Proof.
  refine {| ovDb := contents; ovDefaults := defaults; ovKept := λ _ _, true |}; [done|].
  intros db ops w _. cbn [ovsTransact refServer]. unfold run. destruct (unusedUUIDs _ _) eqn:Hun; [|by apply tx_lost].
  destruct (execOps _ _ _ _) as [outs d] eqn:Hex. cbn [fst snd].
  eapply tx_done; [|apply Forall2_fmap_r, Forall_Forall2_diag, Forall_true, replyOf_reports].
  exists (uuidAt <$> seq (srvUUIDs w) (length ops)), d. split_and!.
  - by rewrite length_fmap, length_seq.
  - by apply unusedUUIDs_fresh.
  - done.
  - unfold contents. cbn [srvData]. rewrite lookup_insert_eq. apply collected_refl.
  - intros db' Hne. unfold contents. cbn [srvData]. by rewrite lookup_insert_ne.
Defined.

End Server.

End RefServer.
