(* ===== verification/OvsdbProps.v ===== *)
(** * ovsdb: what the client does to a logical switch

    The client of [Ovsdb] against any server that obeys [OvsLaws]. The ports and the
    access control lists of a logical switch are rows of tables of their own that the
    row of the switch refers to; the operations of the client list, add and delete
    them. *)

From stdpp Require Import base gmap list strings sorting.
From Stdlib Require Import ZArith Lia.
From S2P Require Import Prelude Ovsdb OvsServer.

Local Open Scope Z_scope.

(** ** Conditions *)

Definition strCol (r : srow) (c s : string) : Prop := r !! c = Some (scalar (AStr s)).

#[global] Instance strCol_dec r c s : Decision (strCol r c s).
Proof. unfold strCol. apply _. Defined.

Lemma condHolds_str names u r c s :
  c ≠ "_uuid"%string → condHolds names u r (newCondition c "==" (GoString s)) = true ↔ strCol r c s.
Proof.
  intros Hc. unfold newCondition. rewrite decide_False by done. cbn [condHolds valueJSON].
  rewrite (decide_False (P := c = _)) by done. rewrite decide_True by done. by rewrite bool_decide_eq_true.
Qed.

Lemma DSet_inj s t : DSet s = DSet t → s = t.
Proof. by intros [=]. Qed.

Lemma scalar_inj a b : scalar a = scalar b ↔ a = b.
Proof. split; [|by intros ->]. intros Heq%DSet_inj. set_solver. Qed.

Lemma strCol_inj r c s t : strCol r c s → strCol r c t → s = t.
Proof.
  unfold strCol. intros H1 H2. assert (scalar (AStr s) = scalar (AStr t)) as Heq%scalar_inj by congruence. by injection Heq.
Qed.

Lemma jsonAtom_valid names u : validUUID u = true → jsonAtom names (uuidJSON u) = Some (AUuid u).
Proof. intros Hu. unfold uuidJSON. rewrite Hu. cbn [jsonAtom]. by rewrite decide_True. Qed.

Lemma jsonAtom_named names u : validUUID u = false → jsonAtom names (uuidJSON u) = AUuid <$> names !! u.
Proof. intros Hu. unfold uuidJSON. rewrite Hu. cbn [jsonAtom]. by rewrite decide_False, decide_True. Qed.

Lemma jsonDatum_ref names u v :
  jsonAtom names (uuidJSON u) = Some (AUuid v) → jsonDatum names (setJSON [uuidJSON u]) = Some (scalar (AUuid v)).
Proof.
  intros Hu. unfold setJSON. cbn [jsonDatum]. rewrite decide_True by done. cbn [mapM]. rewrite Hu. cbn.
  unfold scalar. by rewrite union_empty_r_L.
Qed.

Lemma condHolds_uuid names u r v x :
  v = GoUUID x ∨ v = GoString x → validUUID x = true →
  condHolds names u r (newCondition "_uuid" "==" v) = true ↔ u = x.
Proof.
  intros Hv Hx. assert (newCondition "_uuid" "==" v = JArr [JStr "_uuid"; JStr "=="; uuidJSON x]) as ->.
  { by destruct Hv as [-> | ->]. }
  cbn [condHolds]. rewrite !decide_True by done. rewrite bool_decide_eq_true.
  unfold uuidJSON. rewrite Hx. cbn. split; [|by intros ->].
  intros Heq%(inj Some)%scalar_inj. by injection Heq.
Qed.

Lemma matching_lookup names op d k r :
  matching names op d !! k = Some r ↔
  d !! k = Some r ∧ k.1 = opTable op ∧ forallb (condHolds names k.2 r) (opWhere op) = true.
Proof. unfold matching. rewrite map_lookup_filter_Some. done. Qed.

Lemma matching_one names op d cond k r :
  opWhere op = [cond] →
  matching names op d !! k = Some r ↔ d !! k = Some r ∧ k.1 = opTable op ∧ condHolds names k.2 r cond = true.
Proof. intros Hw. rewrite matching_lookup, Hw. cbn [forallb]. by rewrite andb_true_r. Qed.

(** The number of rows of a map with at most one. *)
Lemma size_at_most_one (m : database) (k : string * string) (r : srow) :
  (∀ k' r', m !! k' = Some r' → k' = k) → m !! k = Some r → size m = 1%nat.
Proof.
  intros Hk Hr. assert (m = {[k := r]}) as ->; [|by rewrite map_size_singleton].
  apply map_eq. intros k'. destruct (decide (k' = k)) as [->|Hne]; [by rewrite lookup_singleton_eq|].
  rewrite lookup_singleton_ne by done. apply eq_None_not_Some. intros [r' Hr']. eauto.
Qed.

(** ** Replies *)

Section Replies.
Context {W : Type} `{OvsServer W, !OvsLaws W}.

Abbreviation OVS := (M Empty_set W).

(** The rows of a select, in some order. *)
Definition rowsOf (d : database) (rows : list Row) : Prop :=
  ∃ l, l ≡ₚ map_to_list d ∧ Forall2 (λ p row, encodesRow p.1.2 p.2 row) l rows.

Definition others (db : string) (w w' : W) : Prop := ∀ db', db' ≠ db → ovDb w' db' = ovDb w db'.

Lemma selectRows_run db table conds w :
  forallb (condOK ∅) conds = true →
  ∃ r w', selectRows db table conds w = Ok (r, w') ∧
    collected (ovKept db) (ovDb w db) (ovDb w' db) ∧ others db w w' ∧
    ∀ rows, r = inr rows → rowsOf (matching ∅ (selectOp table conds) (ovDb w db)) rows.
Proof.
  intros Hc. unfold selectRows, tryBind, mbind, M_bind, transact, onServer. unfold mbind, M_bind.
  assert (supportedOps ∅ [selectOp table conds] = true) as Hs.
  { cbn [supportedOps]. unfold supported. cbn [opOp opWhere opMutations opRow selectOp]. by rewrite Hc. }
  pose proof (ov_transact db [selectOp table conds] w Hs) as Hlaw.
  assert (∀ outs, executed ovDefaults ovKept db [selectOp table conds] (ovDb w)
      (ovDb (ovsTransact db [selectOp table conds] w).2) outs →
    outs = [Selected (matching ∅ (selectOp table conds) (ovDb w db))] ∧
    collected (ovKept db) (ovDb w db) (ovDb (ovsTransact db [selectOp table conds] w).2 db) ∧
    others db w (ovsTransact db [selectOp table conds] w).2) as Hexec.
  { intros outs (us & d' & Hlen & _ & Hex & Hcol & Hoth). destruct us as [|u [|]]; [done| |done].
    cbn in Hex. injection Hex as <- <-. split_and!; done. }
  destruct (ovsTransact db [selectOp table conds] w) as [reply w'] eqn:Htx. cbn [fst snd] in *.
  inversion Hlaw as [outs rs Hexed Hrep Heq|rs Hsel Herr Hst Heq|Hst Heq|outs Hexed Heq].
  - destruct (Hexec outs Hexed) as (-> & Hcol & Hoth). inversion Hrep as [|? r ? ? Hr Hnil]; subst.
    inversion Hnil; subst. cbn. eexists _, w'. split; [done|]. split; [done|]. split; [done|].
    intros rows [= <-]. destruct Hr as (_ & _ & Hl). exact Hl.
  - apply Exists_cons in Hsel as [Hop|Hop%Exists_nil]; done.
  - eexists _, w'. split; [done|]. rewrite Hst. split; [by split; [|congruence]|]. split; [|done].
    intros db' _. by rewrite Hst.
  - destruct (Hexec outs Hexed) as (_ & Hcol & Hoth). eexists _, w'. by split_and!.
Qed.

Lemma errorCheck_None rs n c :
  errorCheck rs n c = None → Forall (λ r, resError r = ""%string) rs ∧ foldr Z.add 0 (resCount <$> rs) = c.
Proof.
  unfold errorCheck. case_decide as Hn; [done|]. case_decide as He; [done|]. case_decide as Hc; [done|].
  intros _. split; [|lia]. apply Forall_forall. intros r Hr. apply dec_stable. intros Hne.
  apply He, Exists_exists. eauto.
Qed.

(** A transaction that changes rows, and the check of its results. *)
Lemma transactCheck_run db ops n c w :
  supportedOps ∅ ops = true →
  ∃ r w', transactCheck db ops n c w = Ok (r, w') ∧
    ((r ≠ inr tt ∧ ovDb w' = ovDb w) ∨
     ∃ outs, executed ovDefaults ovKept db ops (ovDb w) (ovDb w') outs ∧
       (r = inr tt → Forall (λ out, ∃ k, out = Changed k) outs →
        Z.of_nat (sum_list_with (λ out, match out with Changed k => k | _ => O end) outs) = c)).
Proof.
  intros Hs. pose proof (ov_transact db ops w Hs) as Hlaw.
  unfold transactCheck, tryBind, mbind, M_bind, transact, onServer. unfold mbind, M_bind.
  destruct (ovsTransact db ops w) as [reply w'] eqn:Htx. cbn [fst snd] in *. unfold mret, M_ret.
  inversion Hlaw as [outs rs Hexed Hrep Heq|rs Hsel Herr Hst Heq|Hst Heq|outs Hexed Heq]; subst reply.
  - eexists _, w'. split; [done|]. right. exists outs. split; [done|].
    destruct (errorCheck rs n c) eqn:Hcheck; [done|]. intros _ Hch.
    apply errorCheck_None in Hcheck as [_ Hsum]. rewrite <- Hsum. clear -Hrep Hch.
    induction Hrep as [|out r outs rs [_ Hr] Hrep IH]; [done|]. apply Forall_cons in Hch as [(k & ->) Hch].
    cbn. rewrite Nat2Z.inj_add, IH by done. by rewrite Hr.
  - eexists _, w'. split; [done|]. left. split; [|by subst]. destruct (errorCheck rs n c) eqn:Hcheck; [done|].
    apply errorCheck_None in Hcheck as [Hok _]. exfalso. apply Exists_exists in Herr as (r & Hr & Hne).
    rewrite Forall_forall in Hok. by apply Hne, Hok.
  - eexists _, w'. split; [done|]. left. by split.
  - eexists _, w'. split; [done|]. right. exists outs. by split.
Qed.

End Replies.

(** ** A logical switch and its children *)

Definition LS : string := "Logical_Switch".
Definition LP : string := "Logical_Port".
Definition ACLs : string := "ACL".

Definition refSet (us : gset string) : datum := DSet (set_map AUuid us).

Lemma refSet_elem (us : gset string) (u : string) : AUuid u ∈ (set_map AUuid us : gset atom) ↔ u ∈ us.
Proof. rewrite elem_of_map. naive_solver. Qed.

Lemma refSet_inj (us vs : gset string) : refSet us = refSet vs → us = vs.
Proof. intros Heq%DSet_inj. apply set_eq. intros u. by rewrite <- !refSet_elem, Heq. Qed.

(** The switch [sw] refers in the column [col] to the row [p] of the table [ct]. *)
Definition child (sw col ct : string) (d : database) (p : string) (pr : srow) : Prop :=
  ∃ u r ps, d !! (LS, u) = Some r ∧ strCol r "name" sw ∧ r !! col = Some (refSet ps) ∧ p ∈ ps ∧
    d !! (ct, p) = Some pr.

Definition aclOf (u : string) (r : srow) (a : Acl) : Prop :=
  aclUUID a = u ∧ r !! "priority"%string = Some (scalar (ANum (aclPriority a))) ∧
  strCol r "direction" (aclDirection a) ∧ strCol r "match" (aclMatch a) ∧
  strCol r "action" (aclAction a) ∧ r !! "log"%string = Some (scalar (ABool (aclLog a))).

(** The tables have the columns of the schema, there is at most one switch with the
    name, and the names of ports are unique. *)
Record ovnTyped (sw : string) (d : database) : Prop := mkOvnTyped {
  ok_switch : ∀ u r, d !! (LS, u) = Some r → ∃ n ps aids, strCol r "name" n ∧
    r !! "ports"%string = Some (refSet ps) ∧ r !! "acls"%string = Some (refSet aids);
  ok_unique : ∀ u u' r r', d !! (LS, u) = Some r → d !! (LS, u') = Some r' →
    strCol r "name" sw → strCol r' "name" sw → u = u';
  ok_port : ∀ p r, d !! (LP, p) = Some r → ∃ n (addrs : gset string), strCol r "name" n ∧
    r !! "addresses"%string = Some (DSet (set_map AStr addrs));
  ok_names : ∀ p p' r r' n, d !! (LP, p) = Some r → d !! (LP, p') = Some r' →
    strCol r "name" n → strCol r' "name" n → p = p';
  ok_acl : ∀ p r, d !! (ACLs, p) = Some r → ∃ a, aclOf p r a;
  ok_uuid : ∀ t u, is_Some (d !! (t, u)) → validUUID u = true
}.

(** The columns that refer to children. *)
Definition childKind (col ct : string) : Prop :=
  (col, ct) = ("ports"%string, LP) ∨ (col, ct) = ("acls"%string, ACLs).

(** The switch refers to rows that exist. *)
Record ovnOK (sw : string) (d : database) : Prop := mkOvnOK {
  ok_typed :> ovnTyped sw d;
  ok_refs : ∀ u r ps p col ct, childKind col ct →
    d !! (LS, u) = Some r → strCol r "name" sw → r !! col = Some (refSet ps) → p ∈ ps →
    is_Some (d !! (ct, p))
}.

(** The database after [f] was applied to a column of the switch. *)
Definition touch (sw col : string) (f : datum → datum) (d : database) : database :=
  map_imap (λ k r, Some (if decide (k.1 = LS ∧ strCol r "name" sw) then alter f col r else r)) d.

Lemma touch_lookup sw col f d k :
  touch sw col f d !! k =
  (λ r, if decide (k.1 = LS ∧ strCol r "name" sw) then alter f col r else r) <$> d !! k.
Proof. unfold touch. rewrite map_lookup_imap. by destruct (d !! k). Qed.

Lemma touch_other sw col f d k : k.1 ≠ LS → touch sw col f d !! k = d !! k.
Proof.
  intros Hk. rewrite touch_lookup. destruct (d !! k); [|done]. cbn. rewrite decide_False; [done|naive_solver].
Qed.

Lemma touch_switch sw col f d u r :
  touch sw col f d !! (LS, u) = Some r ↔
  ∃ r0, d !! (LS, u) = Some r0 ∧ r = if decide (strCol r0 "name" sw) then alter f col r0 else r0.
Proof.
  rewrite touch_lookup, fmap_Some. apply exist_proper. intros r0. cbn [fst].
  destruct (decide (strCol r0 "name" sw)); [rewrite decide_True by done|rewrite decide_False by naive_solver]; done.
Qed.

Lemma strCol_alter r f col c s : c ≠ col → strCol (alter f col r) c s ↔ strCol r c s.
Proof. intros Hne. unfold strCol. by rewrite lookup_alter_ne. Qed.

(** Garbage collection does not touch the switch and its children. *)
Section Collect.
Context (kept : string → bool) (sw : string).
Hypothesis Hkept : kept LS = true.

Lemma collected_sub d d' k r : collected kept d d' → d' !! k = Some r → d !! k = Some r.
Proof. intros [Hsub _] Hr. by apply (lookup_weaken _ _ _ _ Hr). Qed.

Lemma collected_switch d d' u r : collected kept d d' → d' !! (LS, u) = Some r ↔ d !! (LS, u) = Some r.
Proof.
  intros Hcol. split; [by apply collected_sub|]. intros Hr.
  destruct (d' !! (LS, u)) as [r'|] eqn:Hr'; [apply (collected_sub _ _ _ _ Hcol) in Hr'; congruence|].
  destruct Hcol as [_ Hgone]. destruct (Hgone LS u r Hr Hr'). congruence.
Qed.

Lemma collected_child d d' col ct p pr :
  collected kept d d' → child sw col ct d' p pr ↔ child sw col ct d p pr.
Proof.
  intros Hcol. split; intros (u & r & ps & Hu & Hn & Hc & Hp & Hpr); exists u, r, ps; split_and!; try done.
  - by apply (collected_switch d d').
  - by apply (collected_sub d d').
  - by apply (collected_switch d d').
  - destruct (d' !! (ct, p)) as [pr'|] eqn:Hp'.
    + apply (collected_sub _ _ _ _ Hcol) in Hp'. congruence.
    + exfalso. destruct Hcol as [Hsub Hgone]. destruct (Hgone ct p pr Hpr Hp') as [_ Hno].
      apply (Hno (LS, u) r); [by apply (collected_switch d d')|]. exists col. eexists. split; [exact Hc|].
      by apply refSet_elem.
Qed.

Lemma sub_typed d d' : (∀ k r, d' !! k = Some r → d !! k = Some r) → ovnTyped sw d → ovnTyped sw d'.
Proof.
  intros Hin Hok. constructor.
  - intros u r Hr%Hin. by apply (ok_switch sw d Hok u).
  - intros u u' r r' Hr%Hin Hr'%Hin. by apply (ok_unique sw d Hok).
  - intros p r Hr%Hin. by apply (ok_port sw d Hok p).
  - intros p p' r r' n Hr%Hin Hr'%Hin. by apply (ok_names sw d Hok).
  - intros p r Hr%Hin. by apply (ok_acl sw d Hok).
  - intros t u [r Hr%Hin]. apply (ok_uuid sw d Hok t). eauto.
Qed.

Lemma collected_ok d d' : collected kept d d' → ovnOK sw d → ovnOK sw d'.
Proof.
  intros Hcol Hok. assert (∀ k r, d' !! k = Some r → d !! k = Some r) as Hin by (intros k r; by apply collected_sub).
  constructor; [by apply (sub_typed d); [|apply Hok]|].
  intros u r ps p col ct Hkind Hr Hn Hc Hp. apply Hin in Hr.
  destruct (ok_refs sw d Hok u r ps p col ct Hkind Hr Hn Hc Hp) as [pr Hpr].
  assert (child sw col ct d' p pr) as (? & ? & ? & ? & ? & ? & ? & Hpr');
    [apply (collected_child d d' col ct p pr Hcol); by exists u, r, ps|eauto].
Qed.

End Collect.

(** ** Adding and deleting a child *)

(** A map whose entries have the same key. *)
Lemma size_le_one (m : database) :
  (∀ k k' r r', m !! k = Some r → m !! k' = Some r' → k = k') →
  (size m ≤ 1)%nat ∧ (size m = 1%nat → ∃ k r, m !! k = Some r).
Proof.
  intros Hk. destruct (decide (m = ∅)) as [->|Hne].
  - rewrite map_size_empty. split; [lia|done].
  - apply map_choose in Hne as (k & r & Hr). split; [|eauto].
    rewrite (size_at_most_one m k r); [done| |done]. intros k' r' Hr'. by apply (Hk k' k r' r).
Qed.

Lemma childKind_facts col ct : childKind col ct → col ≠ "name"%string ∧ ct ≠ LS ∧ ct ≠ "_uuid"%string.
Proof. intros [[= -> ->]|[= -> ->]]; done. Qed.

Lemma childKind_ne col ct col' ct' : childKind col ct → childKind col' ct' → col' ≠ col → ct' ≠ ct.
Proof. by intros [[= -> ->]|[= -> ->]] [[= -> ->]|[= -> ->]]. Qed.

Lemma ok_column sw d col ct u r :
  ovnTyped sw d → childKind col ct → d !! (LS, u) = Some r → ∃ ps, r !! col = Some (refSet ps).
Proof.
  intros Hok Hk Hr. destruct (ok_switch sw d Hok u r Hr) as (n & ps & aids & _ & Hp & Ha).
  destruct Hk as [[= -> ->]|[= -> ->]]; eauto.
Qed.

Section Children.
Context (sw col ct : string).
Hypothesis Hkind : childKind col ct.

Definition named (d : database) : Prop := ∃ u r, d !! (LS, u) = Some r ∧ strCol r "name" sw.

(** The mutation of the switch. *)
Definition switchCond : json := newCondition "name" "==" (GoString sw).

Definition refMutation (mutator : string) (u : string) : json :=
  JArr [JStr col; JStr mutator; setJSON [uuidJSON u]].

Lemma switch_hits names ms d k r :
  matching names (mutateOp LS ms [switchCond]) d !! k = Some r ↔
  d !! k = Some r ∧ k.1 = LS ∧ strCol r "name" sw.
Proof. rewrite (matching_one _ _ _ switchCond) by done. cbn [opTable mutateOp]. unfold switchCond. by rewrite condHolds_str. Qed.

Lemma switch_hits_size names ms d :
  ovnTyped sw d → (size (matching names (mutateOp LS ms [switchCond]) d) ≤ 1)%nat ∧
    (size (matching names (mutateOp LS ms [switchCond]) d) = 1%nat → named d).
Proof.
  intros Hok. destruct (size_le_one (matching names (mutateOp LS ms [switchCond]) d)) as [Hle Hone].
  - intros [t u] [t' u'] r r' (Hr & Ht & Hn)%switch_hits (Hr' & Ht' & Hn')%switch_hits. cbn in Ht, Ht'. subst.
    f_equal. by apply (ok_unique sw d Hok u u' r r').
  - split; [done|]. intros Hs. destruct (Hone Hs) as ([t u] & r & (Hr & Ht & Hn)%switch_hits). cbn in Ht. subst.
    by exists u, r.
Qed.

Lemma mutate_touch u0 defs names mutator v value d :
  jsonDatum names v = Some value →
  execOp defs u0 names (mutateOp LS [JArr [JStr col; JStr mutator; v]] [switchCond]) d =
  (Changed (size (matching names (mutateOp LS [JArr [JStr col; JStr mutator; v]] [switchCond]) d)), names,
   touch sw col (mutateDatum mutator value) d).
Proof.
  intros Hv. unfold execOp. cbn [opOp mutateOp]. rewrite !decide_False by done. f_equal.
  apply map_eq. intros k. rewrite lookup_union, lookup_fmap, touch_lookup. cbn [opMutations mutateOp foldl mutateRow].
  destruct (matching _ _ d !! k) as [r|] eqn:Hm.
  - apply switch_hits in Hm as (Hr & Hk & Hn). rewrite Hr, Hv. cbn. rewrite decide_True by done. by destruct (d !! k).
  - cbn. rewrite left_id_L by apply _. destruct (d !! k) as [r|] eqn:Hr; [|done]. cbn.
    rewrite decide_False; [done|]. intros [Hk Hn].
    assert (matching names (mutateOp LS [JArr [JStr col; JStr mutator; v]] [switchCond]) d !! k = Some r) as Hm';
      [by apply switch_hits|congruence].
Qed.

Lemma touch_child f g d p pr :
  (∀ ps, f (refSet ps) = refSet (g ps)) → (∀ u r, d !! (LS, u) = Some r → ∃ ps, r !! col = Some (refSet ps)) →
  child sw col ct (touch sw col f d) p pr ↔
  ∃ u r ps, d !! (LS, u) = Some r ∧ strCol r "name" sw ∧ r !! col = Some (refSet ps) ∧ p ∈ g ps ∧
    d !! (ct, p) = Some pr.
Proof.
  intros Hf Hty. destruct (childKind_facts col ct Hkind) as (Hcol & Hct & _). unfold child. split.
  - intros (u & r & ps & (r0 & Hr0 & ->)%touch_switch & Hn & Hc & Hp & Hpr). rewrite touch_other in Hpr by done.
    destruct (Hty u r0 Hr0) as [ps0 Hps0]. case_decide as Hn0; [|done].
    rewrite lookup_alter_eq, Hps0 in Hc. cbn in Hc. rewrite Hf in Hc. injection Hc as Hc.
    apply (f_equal (λ s, DSet s)) in Hc. apply refSet_inj in Hc. subst ps.
    by exists u, r0, ps0.
  - intros (u & r & ps & Hr & Hn & Hc & Hp & Hpr). exists u, (alter f col r), (g ps). split_and!.
    + apply touch_switch. exists r. by rewrite decide_True.
    + by apply strCol_alter.
    + by rewrite lookup_alter_eq, Hc, <- Hf.
    + done.
    + by rewrite touch_other.
Qed.

Lemma touch_child_other f d col' ct' p pr :
  col' ≠ col → ct' ≠ LS → child sw col' ct' (touch sw col f d) p pr ↔ child sw col' ct' d p pr.
Proof.
  intros Hne Hct'. destruct (childKind_facts col ct Hkind) as (Hcol & _). unfold child. split.
  - intros (u & r & ps & (r0 & Hr0 & ->)%touch_switch & Hn & Hc & Hp & Hpr). rewrite touch_other in Hpr by done.
    exists u, r0, ps. case_decide; [|done]. rewrite lookup_alter_ne in Hc by done. done.
  - intros (u & r & ps & Hr & Hn & Hc & Hp & Hpr). exists u, (alter f col r), ps. split_and!; try done.
    + apply touch_switch. exists r. by rewrite decide_True.
    + by apply strCol_alter.
    + by rewrite lookup_alter_ne.
    + by rewrite touch_other.
Qed.

Lemma mutate_insert_ref u ps : mutateDatum "insert" (scalar (AUuid u)) (refSet ps) = refSet (ps ∪ {[u]}).
Proof. unfold refSet, scalar. cbn. f_equal. by rewrite set_map_union_L, set_map_singleton_L. Qed.

Lemma mutate_delete_ref u ps : mutateDatum "delete" (scalar (AUuid u)) (refSet ps) = refSet (ps ∖ {[u]}).
Proof.
  unfold refSet, scalar. cbn. f_equal. apply set_eq. intros [s|z|b|v]; rewrite ?elem_of_difference; set_solver.
Qed.

Lemma touch_typed f g d :
  (∀ ps, f (refSet ps) = refSet (g ps)) → ovnTyped sw d → ovnTyped sw (touch sw col f d).
Proof.
  intros Hf Hok. destruct (childKind_facts col ct Hkind) as (Hcol & Hct & _).
  assert (∀ u r, touch sw col f d !! (LS, u) = Some r → ∃ r0, d !! (LS, u) = Some r0 ∧
    (strCol r "name" sw → strCol r0 "name" sw)) as Hsw.
  { intros u r (r0 & Hr0 & ->)%touch_switch. exists r0. split; [done|]. by case_decide. }
  constructor.
  - intros u r (r0 & Hr0 & ->)%touch_switch. destruct (ok_switch sw d Hok u r0 Hr0) as (n & ps & aids & Hn & Hp & Ha).
    case_decide; [|by exists n, ps, aids].
    destruct Hkind as [[= -> ->]|[= -> ->]]; [exists n, (g ps), aids|exists n, ps, (g aids)];
      (split; [by apply strCol_alter|]); rewrite lookup_alter_eq, lookup_alter_ne by done; rewrite ?Hp, ?Ha; cbn;
      by rewrite Hf.
  - intros u u' r r' (r0 & Hr0 & Hi0)%Hsw (r1 & Hr1 & Hi1)%Hsw Hn Hn'. apply (ok_unique sw d Hok u u' r0 r1); auto.
  - intros p r. rewrite touch_other by done. apply (ok_port sw d Hok).
  - intros p p' r r' n. rewrite !touch_other by done. apply (ok_names sw d Hok).
  - intros p r. rewrite touch_other by done. apply (ok_acl sw d Hok).
  - intros t u Hs. rewrite touch_lookup in Hs. apply fmap_is_Some in Hs. by apply (ok_uuid sw d Hok t).
Qed.

(** The references after it: through the characterisation of the children. *)
Lemma touch_refs f g d :
  (∀ ps, f (refSet ps) = refSet (g ps)) → ovnTyped sw d →
  (∀ u r ps p, d !! (LS, u) = Some r → strCol r "name" sw → r !! col = Some (refSet ps) → p ∈ g ps →
    is_Some (d !! (ct, p))) →
  (∀ u r ps p col' ct', childKind col' ct' → col' ≠ col → d !! (LS, u) = Some r → strCol r "name" sw →
    r !! col' = Some (refSet ps) → p ∈ ps → is_Some (d !! (ct', p))) →
  ovnOK sw (touch sw col f d).
Proof.
  intros Hf Hok Hnew Hother. constructor; [by apply (touch_typed f g)|].
  intros u r ps p col' ct' Hk (r0 & Hr0 & ->)%touch_switch Hn Hc Hp. rewrite touch_other by apply (childKind_facts col' ct' Hk).
  case_decide as Hn0; [|done]. destruct (decide (col' = col)) as [->|Hne].
  - rewrite lookup_alter_eq in Hc. destruct (ok_column sw d col ct u r0 Hok Hkind Hr0) as [ps0 Hps0].
    rewrite Hps0 in Hc. cbn in Hc. rewrite Hf in Hc.
    assert (ps = g ps0) as -> by (apply refSet_inj; congruence).
    assert (ct' = ct) as -> by (destruct Hk as [[=]|[=]], Hkind as [[=]|[=]]; congruence). eauto.
  - rewrite lookup_alter_ne in Hc by done. eauto.
Qed.

(** Adding a row and a reference to it. *)
Definition addOps (row : Row) (nm : string) : list Operation :=
  [insertOp ct row nm; mutateOp LS [refMutation "insert" nm] [switchCond]].

Definition newRow (defs : string → srow) (row : Row) : srow := omap (jsonDatum ∅) row ∪ defs ct.

Lemma add_exec defs u1 u2 row nm d outs d1 :
  validUUID nm = false → ovnTyped sw (<[(ct, u1) := newRow defs row]> d) →
  execOps defs ∅ (zip [u1; u2] (addOps row nm)) d = (outs, d1) →
  d1 = touch sw col (mutateDatum "insert" (scalar (AUuid u1))) (<[(ct, u1) := newRow defs row]> d) ∧
  ∃ n, outs = [Changed 0; Changed n] ∧ (n = 1%nat → named d).
Proof.
  intros Hnm Hok. destruct (childKind_facts col ct Hkind) as (_ & Hct & _).
  cbn [addOps zip execOps]. unfold execOp at 1. cbn [opOp insertOp opTable opRow opUUIDName].
  rewrite decide_False, decide_True by done. fold (newRow defs row).
  unfold refMutation. rewrite (mutate_touch _ _ _ _ _ (scalar (AUuid u1))).
  - intros [= <- <-]. split; [done|]. eexists. split; [done|]. intros Hn.
    destruct (proj2 (switch_hits_size _ _ _ Hok) Hn) as (u & r & Hr & Hs). exists u, r.
    rewrite lookup_insert_ne in Hr by congruence. done.
  - apply jsonDatum_ref. by rewrite jsonAtom_named, lookup_insert_eq.
Qed.

Lemma add_effect defs u1 row d (d1 := touch sw col (mutateDatum "insert" (scalar (AUuid u1)))
    (<[(ct, u1) := newRow defs row]> d)) :
  ovnOK sw d → (∀ t, d !! (t, u1) = None) → ovnTyped sw (<[(ct, u1) := newRow defs row]> d) →
  ovnOK sw d1 ∧
  (∀ p pr, child sw col ct d1 p pr ↔
     child sw col ct d p pr ∨ (p = u1 ∧ pr = newRow defs row ∧ named d)) ∧
  (∀ col' ct' p pr, childKind col' ct' → col' ≠ col → child sw col' ct' d1 p pr ↔ child sw col' ct' d p pr).
Proof.
  intros Hok Hfresh Htyped. destruct (childKind_facts col ct Hkind) as (_ & Hct & _). split_and!.
  - apply (touch_refs _ (λ ps, ps ∪ {[u1]})); [apply mutate_insert_ref|done| |].
    + intros u r ps p Hr Hn Hc [Hp|Hp%elem_of_singleton]%elem_of_union.
      * rewrite lookup_insert_ne in Hr by congruence. destruct (ok_refs sw d Hok u r ps p col ct Hkind Hr Hn Hc Hp) as [pr Hpr].
        rewrite lookup_insert_ne by congruence. eauto.
      * subst p. rewrite lookup_insert_eq. eauto.
    + intros u r ps p col' ct' Hk Hne Hr Hn Hc Hp. rewrite lookup_insert_ne in Hr by congruence.
      destruct (ok_refs sw d Hok u r ps p col' ct' Hk Hr Hn Hc Hp) as [pr Hpr]. rewrite lookup_insert_ne by congruence. eauto.
  - intros p pr. unfold d1. rewrite (touch_child _ (λ ps, ps ∪ {[u1]}));
      [|apply mutate_insert_ref|intros u r Hr; by apply (ok_column sw _ col ct u r Htyped)].
    split.
    + intros (u & r & ps & Hr & Hn & Hc & [Hp|Hp%elem_of_singleton]%elem_of_union & Hpr);
        rewrite lookup_insert_ne in Hr by congruence.
      * left. destruct (ok_refs sw d Hok u r ps p col ct Hkind Hr Hn Hc Hp) as [pr' Hpr'].
        rewrite lookup_insert_ne in Hpr by congruence. by exists u, r, ps.
      * right. subst p. rewrite lookup_insert_eq in Hpr. split; [done|]. split; [congruence|]. by exists u, r.
    + intros [(u & r & ps & Hr & Hn & Hc & Hp & Hpr)|(-> & -> & u & r & Hr & Hn)].
      * exists u, r, ps. rewrite !lookup_insert_ne by congruence. set_solver.
      * destruct (ok_column sw d col ct u r Hok Hkind Hr) as [ps Hps]. exists u, r, ps.
        rewrite lookup_insert_ne, lookup_insert_eq by congruence. set_solver.
  - intros col' ct' p pr Hk Hne. unfold d1. destruct (childKind_facts col' ct' Hk) as (_ & Hct' & _).
    rewrite touch_child_other by done.
    pose proof (childKind_ne col ct col' ct' Hkind Hk Hne) as Hcc.
    unfold child. split; intros (u & r & ps & Hr & Hn & Hc & Hp & Hpr); exists u, r, ps; split_and!; try done.
    + by rewrite lookup_insert_ne in Hr by congruence.
    + by rewrite lookup_insert_ne in Hpr by congruence.
    + by rewrite lookup_insert_ne by congruence.
    + by rewrite lookup_insert_ne by congruence.
Qed.

(** Deleting a row and the reference to it. *)
Definition delOps (x : string) : list Operation :=
  [deleteOp ct [newCondition "_uuid" "==" (GoUUID x)]; mutateOp LS [refMutation "delete" x] [switchCond]].

Lemma del_exec defs u1 u2 x d outs d1 :
  validUUID x = true → ovnTyped sw d →
  execOps defs ∅ (zip [u1; u2] (delOps x)) d = (outs, d1) →
  d1 = touch sw col (mutateDatum "delete" (scalar (AUuid x))) (base.delete (ct, x) d) ∧
  ∃ m n, outs = [Changed m; Changed n].
Proof.
  intros Hx Hok. destruct (childKind_facts col ct Hkind) as (_ & Hct & _).
  cbn [delOps zip execOps]. unfold execOp at 1. cbn [opOp deleteOp opTable opRow opUUIDName].
  rewrite !decide_False, decide_True by done.
  assert (d ∖ matching ∅ (deleteOp ct [newCondition "_uuid" "==" (GoUUID x)]) d = base.delete (ct, x) d) as Hd.
  { apply map_eq. intros k. destruct (decide (k = (ct, x))) as [->|Hne].
    - rewrite lookup_delete_eq. apply lookup_difference_None. destruct (d !! (ct, x)) as [r|] eqn:Hr; [right|by left].
      exists r. apply matching_one with (cond := newCondition "_uuid" "==" (GoUUID x)); [done|].
      split_and!; [done|done|]. by apply (condHolds_uuid _ _ _ _ x); [left| |].
    - rewrite lookup_delete_ne by done. destruct (d !! k) as [r|] eqn:Hr; [|apply lookup_difference_None; by left].
      apply lookup_difference_Some. split; [done|]. apply eq_None_not_Some. intros [r' Hr'].
      apply (matching_one _ _ _ (newCondition "_uuid" "==" (GoUUID x))) in Hr' as (_ & Hk & Hu); [|done].
      apply (condHolds_uuid _ _ _ _ x) in Hu; [|by left|done]. apply Hne. destruct k. cbn in *. congruence. }
  rewrite Hd. unfold refMutation. rewrite (mutate_touch _ _ _ _ _ (scalar (AUuid x))).
  - intros [= <- <-]. split; [done|]. eauto.
  - by apply jsonDatum_ref, jsonAtom_valid.
Qed.

Lemma del_effect x d (d1 := touch sw col (mutateDatum "delete" (scalar (AUuid x))) (base.delete (ct, x) d)) :
  ovnOK sw d →
  ovnOK sw d1 ∧
  (∀ p pr, child sw col ct d1 p pr ↔ child sw col ct d p pr ∧ p ≠ x) ∧
  (∀ col' ct' p pr, childKind col' ct' → col' ≠ col → child sw col' ct' d1 p pr ↔ child sw col' ct' d p pr).
Proof.
  intros Hok. destruct (childKind_facts col ct Hkind) as (_ & Hct & _).
  assert (ovnTyped sw (base.delete (ct, x) d)) as Htyped.
  { apply (sub_typed sw d); [|apply Hok]. intros k r [_ Hr]%lookup_delete_Some. done. }
  split_and!.
  - apply (touch_refs _ (λ ps, ps ∖ {[x]})); [apply mutate_delete_ref|done| |].
    + intros u r ps p Hr Hn Hc [Hp Hpx]%elem_of_difference. rewrite lookup_delete_ne in Hr by congruence.
      destruct (ok_refs sw d Hok u r ps p col ct Hkind Hr Hn Hc Hp) as [pr Hpr].
      rewrite lookup_delete_ne by set_solver. eauto.
    + intros u r ps p col' ct' Hk Hne Hr Hn Hc Hp. rewrite lookup_delete_ne in Hr by congruence.
      destruct (ok_refs sw d Hok u r ps p col' ct' Hk Hr Hn Hc Hp) as [pr Hpr].
      pose proof (childKind_ne col ct col' ct' Hkind Hk Hne) as Hcc.
      rewrite lookup_delete_ne by congruence. eauto.
  - intros p pr. unfold d1. rewrite (touch_child _ (λ ps, ps ∖ {[x]}));
      [|apply mutate_delete_ref|intros u r Hr; by apply (ok_column sw _ col ct u r Htyped)].
    split.
    + intros (u & r & ps & Hr & Hn & Hc & [Hp Hpx]%elem_of_difference & Hpr).
      rewrite lookup_delete_ne in Hr by congruence. rewrite lookup_delete_ne in Hpr by set_solver.
      split; [by exists u, r, ps|set_solver].
    + intros [(u & r & ps & Hr & Hn & Hc & Hp & Hpr) Hpx]. exists u, r, ps.
      rewrite !lookup_delete_ne by congruence. set_solver.
  - intros col' ct' p pr Hk Hne. unfold d1. destruct (childKind_facts col' ct' Hk) as (_ & Hct' & _).
    rewrite touch_child_other by done.
    pose proof (childKind_ne col ct col' ct' Hkind Hk Hne) as Hcc.
    unfold child. split; intros (u & r & ps & Hr & Hn & Hc & Hp & Hpr); exists u, r, ps; split_and!; try done.
    + by rewrite lookup_delete_ne in Hr by congruence.
    + by rewrite lookup_delete_ne in Hpr by congruence.
    + by rewrite lookup_delete_ne by congruence.
    + by rewrite lookup_delete_ne by congruence.
Qed.

End Children.

(** ** Reading the replies *)

Lemma perm_singleton {A} (l : list A) x : l ≡ₚ [x] → l = [x].
Proof. intros Hp. by apply Permutation_singleton_r in Hp. Qed.

Lemma encodes_scalar a j : encodes (scalar a) j → j = atomJSON a.
Proof.
  intros Henc. inversion Henc as [s l Hl|]; subst. rewrite elements_singleton in Hl.
  apply perm_singleton in Hl as ->. done.
Qed.

Lemma column_encodes u r row c d :
  encodesRow u r row → c ≠ "_uuid"%string → r !! c = Some d → encodes d (column row c).
Proof.
  intros [_ Hrow] Hc Hd. specialize (Hrow c Hc). rewrite Hd in Hrow. inversion Hrow as [? j Henc Heq|].
  unfold column. by rewrite <- H.
Qed.

Lemma column_scalar u r row c a :
  encodesRow u r row → c ≠ "_uuid"%string → r !! c = Some (scalar a) → column row c = atomJSON a.
Proof. intros Henc Hc Hd. by apply encodes_scalar, (column_encodes u r). Qed.

Lemma column_uuid u r row : encodesRow u r row → column row "_uuid" = atomJSON (AUuid u).
Proof. intros [Hu _]. unfold column. by rewrite Hu. Qed.

Section Decode.
Context {W : Type}.

Abbreviation OVS := (M Empty_set W).

Lemma mapEach_pure {A B} (f : A → OVS B) (g : A → B) l w :
  (∀ x, x ∈ l → ∀ w, f x w = Ok (g x, w)) → mapEach f l w = Ok (g <$> l, w).
Proof.
  revert w. induction l as [|x l IH]; intros w Hf; [done|]. cbn [mapEach]. unfold mbind, M_bind.
  rewrite Hf by left. rewrite IH; [done|]. intros y Hy. apply Hf. by right.
Qed.

Lemma uuidOf_atom u (w : W) : uuidOf (atomJSON (AUuid u)) w = Ok (u, w).
Proof. done. Qed.

Lemma set_elems_map {B} (f : B → atom) `{Countable B} `{!Inj (=) (=) f} (s : gset B) l :
  l ≡ₚ elements (set_map f s : gset atom) → ∃ l', l = f <$> l' ∧ l' ≡ₚ elements s.
Proof.
  intros Hl. assert (elements (set_map f s : gset atom) ≡ₚ f <$> elements s) as Heq.
  { apply NoDup_Permutation; [apply NoDup_elements|apply NoDup_fmap_2; [done|apply NoDup_elements]|].
    intros x. rewrite elem_of_elements, elem_of_map, list_elem_of_fmap. by setoid_rewrite elem_of_elements. }
  rewrite Heq in Hl. apply Permutation_map_inv in Hl as (l' & -> & Hl'). by exists l'.
Qed.

(** The strings of atoms, as the client decodes them. *)
Definition plainStr (j : json) : string := match j with JStr s | JArr [_; JStr s] => s | _ => "" end.

Lemma plainStr_fmap (f : string → atom) (l : list string) :
  (∀ s, plainStr (atomJSON (f s)) = s) → plainStr <$> (atomJSON <$> (f <$> l)) = l.
Proof. intros Hf. induction l as [|x l IH]; [done|]. cbn. by rewrite Hf, IH. Qed.

(** Both decoders of sets are loops over the elements. *)
Lemma setToSlice_run (dec : json → OVS string) (f : string → atom) (ss : gset string) j w
    (slice := λ oSet, t ← isTagged "set" oSet;
      match t with
      | Some t => inner ← index t 1; vs ← asArr inner; mapEach dec vs
      | None => s ← dec oSet; mret [s]
      end) :
  Inj (=) (=) f → (∀ s w, dec (atomJSON (f s)) w = Ok (s, w)) →
  (∀ s (w : W), isTagged "set" (atomJSON (f s)) w = Ok (None, w)) → (∀ s, plainStr (atomJSON (f s)) = s) →
  encodes (DSet (set_map f ss)) j → ∃ l, slice j w = Ok (l, w) ∧ l ≡ₚ elements ss.
Proof.
  intros Hinj Hdec Htag Hplain Henc. inversion Henc as [s l Hl|]; subst.
  apply set_elems_map in Hl as (l' & -> & Hl'); [|done]. exists l'. split; [|done].
  assert (∀ l0, slice (setJSON (atomJSON <$> (f <$> l0))) w = Ok (l0, w)) as Hset.
  { intros l0. unfold slice, setJSON, mbind, M_bind. cbn [isTagged]. unfold mbind, M_bind.
    unfold index at 1. cbn [lookup list_lookup]. unfold mret, M_ret. rewrite decide_True by done.
    unfold index. cbn [lookup list_lookup]. unfold mret, M_ret. cbn [asArr]. unfold mret, M_ret.
    rewrite (mapEach_pure _ plainStr), plainStr_fmap; [done..|].
    intros x (a & -> & (s0 & -> & _)%list_elem_of_fmap)%list_elem_of_fmap w0. by rewrite Hdec, Hplain. }
  destruct l' as [|u [|v l']]; [apply (Hset [])| |apply (Hset (u :: v :: l'))].
  unfold slice, mbind, M_bind. cbn [atomsJSON fmap list_fmap]. by rewrite Htag, Hdec.
Qed.

Lemma ovsUUIDSetToSlice_run us j (w : W) :
  encodes (refSet us) j → ∃ l, ovsUUIDSetToSlice j w = Ok (l, w) ∧ l ≡ₚ elements us.
Proof. apply (setToSlice_run uuidOf AUuid); [by intros ?? [=]|done..]. Qed.

Lemma ovsStringSetToSlice_run (ss : gset string) j (w : W) :
  encodes (DSet (set_map AStr ss)) j → ∃ l, ovsStringSetToSlice j w = Ok (l, w) ∧ l ≡ₚ elements ss.
Proof. apply (setToSlice_run asStr AStr); [by intros ?? [=]|done..]. Qed.

Lemma readAcl_run u r row a (w : W) : encodesRow u r row → aclOf u r a → readAcl row w = Ok (a, w).
Proof.
  intros Henc (Hu & Hp & Hd & Hm & Hact & Hl). unfold readAcl, mbind, M_bind.
  rewrite (column_uuid u r row Henc), uuidOf_atom. unfold strCol in *.
  rewrite (column_scalar u r row "priority" _ Henc ltac:(done) Hp), (column_scalar u r row "direction" _ Henc ltac:(done) Hd),
    (column_scalar u r row "match" _ Henc ltac:(done) Hm), (column_scalar u r row "action" _ Henc ltac:(done) Hact),
    (column_scalar u r row "log" _ Henc ltac:(done) Hl).
  cbn. unfold mret, M_ret. rewrite <- Hu. by destruct a.
Qed.

End Decode.

(** ** The client *)

(** What the client relies on of the schema of OVN. *)
Class OvnSchema (W : Type) `{OvsLaws W} : Prop := {
  schema_kept : ovKept northbound LS = true;
  schema_ports : ovDefaults northbound LS !! "ports"%string = Some (refSet ∅);
  schema_acls : ovDefaults northbound LS !! "acls"%string = Some (refSet ∅)
}.

Section Client.
Context {W : Type} `{OvsServer W, !OvsLaws W, !OvnSchema W} (sw : string).

Abbreviation OVN w := (ovDb w northbound).

Definition hasPort (d : database) (n : string) : Prop :=
  ∃ p pr, child sw "ports" LP d p pr ∧ strCol pr "name" n.
Definition hasAcl (d : database) (a : Acl) : Prop :=
  ∃ pr, child sw "acls" ACLs d (aclUUID a) pr ∧ aclOf (aclUUID a) pr a.

(** The switch has the same ports, or the same ACLs. *)
Definition samePorts (w w' : W) : Prop := ∀ p pr, child sw "ports" LP (OVN w') p pr ↔ child sw "ports" LP (OVN w) p pr.
Definition sameAcls (w w' : W) : Prop := ∀ p pr, child sw "acls" ACLs (OVN w') p pr ↔ child sw "acls" ACLs (OVN w) p pr.

Lemma kind_ports : childKind "ports" LP.
Proof. by left. Qed.
Lemma kind_acls : childKind "acls" ACLs.
Proof. by right. Qed.

Lemma samePorts_hasPort w w' n : samePorts w w' → hasPort (OVN w') n ↔ hasPort (OVN w) n.
Proof. intros Hs. unfold hasPort. by setoid_rewrite (Hs _ _). Qed.

Lemma sameAcls_hasAcl w w' a : sameAcls w w' → hasAcl (OVN w') a ↔ hasAcl (OVN w) a.
Proof. intros Hs. unfold hasAcl. by setoid_rewrite (Hs _ _). Qed.

(** A step that leaves the switch as it is. *)
Definition steady (w w' : W) : Prop := ovnOK sw (OVN w') ∧ samePorts w w' ∧ sameAcls w w'.

Lemma steady_trans w w1 w2 : steady w w1 → steady w1 w2 → steady w w2.
Proof.
  intros (_ & Hp & Ha) (Hok & Hp' & Ha'). split_and!; [done| |]; intros p pr.
  - by rewrite (Hp' p pr).
  - by rewrite (Ha' p pr).
Qed.

Lemma steady_refl w : ovnOK sw (OVN w) → steady w w.
Proof. by intros Hok. Qed.

(** Reading rows. *)
Lemma select_step table conds w :
  forallb (condOK ∅) conds = true → ovnOK sw (OVN w) →
  ∃ r w', selectRows northbound table conds w = Ok (r, w') ∧ steady w w' ∧
    ∀ rows, r = inr rows → rowsOf (matching ∅ (selectOp table conds) (OVN w)) rows.
Proof.
  intros Hc Hok. destruct (selectRows_run northbound table conds w Hc) as (r & w' & Hrun & Hcol & _ & Hrows).
  exists r, w'. split; [done|]. split; [|done]. split_and!.
  - by apply (collected_ok _ sw schema_kept (OVN w)).
  - intros p pr. by apply (collected_child _ sw schema_kept).
  - intros p pr. by apply (collected_child _ sw schema_kept).
Qed.

Lemma rowsOf_nil d : rowsOf d [] → d = ∅.
Proof.
  intros (l & Hl & Hrows). apply Forall2_nil_inv_r in Hrows as ->. apply Permutation_nil_l in Hl.
  by apply map_to_list_empty_iff.
Qed.

Lemma rowsOf_cons d row rows : rowsOf d (row :: rows) → ∃ k r, d !! k = Some r ∧ encodesRow k.2 r row.
Proof.
  intros (l & Hl & Hrows). apply Forall2_cons_inv_r in Hrows as ([k r] & l' & Hrow & _ & ->).
  exists k, r. split; [|done]. apply elem_of_map_to_list. rewrite <- Hl. left.
Qed.

(** Rows by name, and by UUID. *)
Lemma by_name table n d k r :
  matching ∅ (selectOp table [newCondition "name" "==" (GoString n)]) d !! k = Some r ↔
  d !! k = Some r ∧ k.1 = table ∧ strCol r "name" n.
Proof. rewrite (matching_one _ _ _ (newCondition "name" "==" (GoString n))) by done. by rewrite condHolds_str. Qed.

Lemma by_uuid table x d k r :
  validUUID x = true →
  matching ∅ (selectOp table [newCondition "_uuid" "==" (GoString x)]) d !! k = Some r ↔
  d !! k = Some r ∧ k = (table, x).
Proof.
  intros Hx. rewrite (matching_one _ _ _ (newCondition "_uuid" "==" (GoString x))) by done.
  rewrite (condHolds_uuid _ _ _ _ x) by (done || by right). destruct k. cbn. naive_solver.
Qed.

Lemma nameCond_ok names n : condOK names (newCondition "name" "==" (GoString n)) = true.
Proof. done. Qed.

Lemma uuidCond_ok names v x :
  v = GoUUID x ∨ v = GoString x → validUUID x = true → condOK names (newCondition "_uuid" "==" v) = true.
Proof.
  intros Hv Hx. assert (newCondition "_uuid" "==" v = JArr [JStr "_uuid"; JStr "=="; uuidJSON x]) as ->.
  { by destruct Hv as [-> | ->]. }
  cbn [condOK]. apply andb_true_iff. split; [done|]. unfold jsonOK, uuidJSON. rewrite Hx. done.
Qed.

(** A loop that may return an error. *)
Lemma tryEach_run {A B} (I : list A → B → W → Prop) (J : W → Prop) (f : B → A → M Empty_set W (ovsErr + B)) l acc w :
  (∀ x l acc w, I (x :: l) acc w → ∃ r w', f acc x w = Ok (r, w') ∧
    match r with inl _ => J w' | inr acc' => I l acc' w' end) →
  I l acc w → ∃ r w', tryEach f acc l w = Ok (r, w') ∧ match r with inl _ => J w' | inr acc' => I [] acc' w' end.
Proof.
  intros Hf. revert acc w. induction l as [|x l IH]; intros acc w HI; [by exists (inr acc), w|].
  cbn [tryEach]. unfold tryBind, mbind, M_bind. destruct (Hf x l acc w HI) as ([e|acc'] & w' & Hrun & HI'); rewrite Hrun.
  - by exists (inl e), w'.
  - apply (IH acc' w' HI').
Qed.

Lemma addLPort_run acc u pr n w :
  ovnOK sw (OVN w) → child sw "ports" LP (OVN w) u pr → strCol pr "name" n →
  ∃ r w', addLPort acc u w = Ok (r, w') ∧ steady w w' ∧
    ∀ acc', r = inr acc' → lportName <$> acc' = (lportName <$> acc) ++ [n].
Proof.
  intros Hok (su & sr & ps & _ & _ & _ & _ & Hu) Hn. pose proof (ok_uuid sw _ Hok LP u ltac:(eauto)) as Hv.
  destruct (select_step "Logical_Port" [newCondition "_uuid" "==" (GoString u)] w) as (r & w' & Hrun & Hst & Hrows);
    [cbn [forallb]; by rewrite (uuidCond_ok ∅ _ u); [|right|]|done|].
  unfold addLPort, tryBind, mbind, M_bind. rewrite Hrun. destruct r as [e|rows]; [by exists (inl e), w'|].
  specialize (Hrows rows eq_refl). destruct rows as [|row rows].
  { apply rowsOf_nil in Hrows. exfalso.
    assert (matching ∅ (selectOp LP [newCondition "_uuid" "==" (GoString u)]) (OVN w) !! (LP, u) = Some pr) as Hm
      by by apply by_uuid. fold LP in Hrows. by rewrite Hrows in Hm. }
  apply rowsOf_cons in Hrows as (k & r & (Hr & ->)%by_uuid & Henc); [|done]. fold LP in Hr.
  assert (r = pr) as -> by congruence. cbn [snd] in Henc.
  rewrite (column_scalar u pr row "name" _ Henc ltac:(done) Hn). cbn [atomJSON asStr]. unfold mret at 1, M_ret at 1.
  destruct (ok_port sw _ Hok u pr Hu) as (n' & addrs & _ & Haddr).
  destruct (ovsStringSetToSlice_run addrs (column row "addresses") w') as (l & Hl & _);
    [by apply (column_encodes u pr)|]. rewrite Hl. exists (inr (acc ++ [mkLPort n l])), w'.
  split; [done|]. split; [done|]. intros acc' [= <-]. by rewrite fmap_app.
Qed.

(** The row of the switch, if there is one. *)
Lemma switch_select w :
  ovnOK sw (OVN w) →
  ∃ r w', selectRows northbound "Logical_Switch" [newCondition "name" "==" (GoString sw)] w = Ok (r, w') ∧
    steady w w' ∧
    ∀ rows, r = inr rows → match rows with
      | [] => ¬ named sw (OVN w)
      | row :: _ => ∃ u r, OVN w !! (LS, u) = Some r ∧ strCol r "name" sw ∧ encodesRow u r row
      end.
Proof.
  intros Hok. destruct (select_step "Logical_Switch" [newCondition "name" "==" (GoString sw)] w) as (r & w' & Hrun & Hst & Hrows);
    [done|done|]. exists r, w'. split; [done|]. split; [done|]. intros rows Heq. specialize (Hrows rows Heq).
  destruct rows as [|row rows].
  - apply rowsOf_nil in Hrows. intros (u & r0 & Hr0 & Hn).
    pose proof (proj2 (by_name "Logical_Switch" sw (OVN w) (LS, u) r0) (conj Hr0 (conj eq_refl Hn))) as Hm.
    by rewrite Hrows in Hm.
  - apply rowsOf_cons in Hrows as ([t u] & r0 & (Hr & Ht & Hn)%by_name & Henc). cbn in Ht, Henc. subst t. by exists u, r0.
Qed.

(** The children of the switch are those of its row. *)
Lemma child_of_row d col ct u r ps p pr :
  ovnOK sw d → d !! (LS, u) = Some r → strCol r "name" sw → r !! col = Some (refSet ps) →
  child sw col ct d p pr ↔ p ∈ ps ∧ d !! (ct, p) = Some pr.
Proof.
  intros Hok Hr Hn Hc. split.
  - intros (u' & r' & ps' & Hr' & Hn' & Hc' & Hp & Hpr). assert (u' = u) as -> by by apply (ok_unique sw d Hok u' u r' r).
    assert (r' = r) as -> by congruence. assert (ps' = ps) as -> by (apply refSet_inj; congruence). done.
  - intros [Hp Hpr]. by exists u, r, ps.
Qed.

(** The list of ports names exactly the ports of the switch. *)
Lemma ListPorts_run w :
  ovnOK sw (OVN w) →
  ∃ r w', ListPorts sw w = Ok (r, w') ∧ steady w w' ∧
    ∀ l, r = inr l → ∀ n, n ∈ lportName <$> l ↔ hasPort (OVN w) n.
Proof.
  intros Hok. unfold ListPorts, tryBind, mbind, M_bind.
  destruct (switch_select w Hok) as (r & w1 & Hrun & Hst & Hrows). rewrite Hrun.
  destruct r as [e|rows]; [by exists (inl e), w1|]. specialize (Hrows rows eq_refl). destruct rows as [|row rows].
  { exists (inr []), w1. split; [done|]. split; [done|]. intros l [= <-] n. split; [by intros ?%not_elem_of_nil|].
    intros (p & pr & (u & r & ps & Hr & Hn & _) & _). destruct Hrows. by exists u, r. }
  destruct Hrows as (u & sr & Hr & Hn & Henc). destruct (ok_column sw _ "ports" LP u sr Hok kind_ports Hr) as [ps Hps].
  destruct (ovsUUIDSetToSlice_run ps (column row "ports") w1) as (us & Hus & Hperm);
    [by apply (column_encodes u sr)|]. rewrite Hus.
  destruct (tryEach_run (λ l acc w', steady w w' ∧ l ⊆ us ∧
      ∀ n, hasPort (OVN w) n ↔ n ∈ lportName <$> acc ∨ ∃ p pr, p ∈ l ∧ OVN w !! (LP, p) = Some pr ∧ strCol pr "name" n)
    (steady w) addLPort us [] w1) as (r & w2 & Hloop & HI).
  - intros p l acc w2 (Hst2 & Hin & Hnames). assert (p ∈ ps) as Hp.
    { apply elem_of_elements. rewrite <- Hperm. apply Hin. left. }
    destruct (ok_refs sw _ Hok u sr ps p "ports" LP kind_ports Hr Hn Hps Hp) as [pr Hpr].
    destruct (ok_port sw _ Hok p pr Hpr) as (n & addrs & Hpn & _).
    destruct (addLPort_run acc p pr n w2) as (r & w3 & Hrun3 & Hst3 & Hacc); [apply Hst2| |done|].
    { destruct Hst2 as (_ & Hsame & _). apply Hsame. by exists u, sr, ps. }
    exists r, w3. split; [done|]. assert (steady w w3) by by apply (steady_trans w w2).
    destruct r as [e|acc']; [done|]. split; [done|]. split; [set_solver|]. intros n'. rewrite Hnames, (Hacc acc' eq_refl).
    rewrite elem_of_app, list_elem_of_singleton. split.
    + intros [?|(p' & pr' & [->|Hp']%elem_of_cons & Hpr' & Hn')]; [by left; left| |right; by exists p', pr'].
      left. right. assert (pr' = pr) as -> by congruence. by apply (strCol_inj pr "name").
    + intros [[?|Hnn]|(p' & pr' & Hp' & ?)]; [by left|subst n'; right; exists p, pr; set_solver|right; exists p', pr'; set_solver].
  - split; [done|]. split; [done|]. intros n. unfold hasPort. setoid_rewrite (child_of_row (OVN w) "ports" LP u sr ps _ _ Hok Hr Hn Hps).
    setoid_rewrite Hperm. setoid_rewrite elem_of_elements. set_solver.
  - exists r, w2. split; [done|]. destruct r as [e|l]; [done|]. destruct HI as (Hst2 & _ & Hnames). split; [done|].
    intros l' [= <-] n. rewrite Hnames. set_solver.
Qed.

End Client.
