(* ===== verification/Ovn.v ===== *)
(** * ovsdb: ports and access control lists of a logical switch

    The operations of [Ovsdb] that change the children of a logical switch: what each
    does to the ports and the ACLs of the switch, whether it succeeds or not. *)

From stdpp Require Import base gmap list strings sorting.
From Stdlib Require Import ZArith Lia.
From S2P Require Import Prelude Ovsdb OvsServer OvsdbProps.

Local Open Scope Z_scope.

Section Ovn.
Context {W : Type} `{OvsServer W, !OvsLaws W, !OvnSchema W} (sw : string).

Abbreviation OVN w := (ovDb w northbound).

(** The columns of a new row. *)
Lemma newRow_lookup ct defs (row : Row) c j d :
  row !! c = Some j → jsonDatum ∅ j = Some d → newRow ct defs row !! c = Some d.
Proof. intros Hc Hd. unfold newRow. apply lookup_union_Some_l. by rewrite lookup_omap, Hc. Qed.

Lemma newRow_default ct defs (row : Row) c d :
  row !! c = None → defs ct !! c = Some d → newRow ct defs row !! c = Some d.
Proof. intros Hc Hd. unfold newRow. rewrite lookup_union_r; [done|]. by rewrite lookup_omap, Hc. Qed.

(** Inserting a row that has the columns of its table. *)
Lemma typed_insert d t u r :
  ovnTyped sw d → d !! (t, u) = None → validUUID u = true →
  (t = LS → (∃ n ps aids, strCol r "name" n ∧ r !! "ports"%string = Some (refSet ps) ∧
     r !! "acls"%string = Some (refSet aids)) ∧ (strCol r "name" sw → ¬ named sw d)) →
  (t = LP → ∃ n (addrs : gset string), strCol r "name" n ∧ r !! "addresses"%string = Some (DSet (set_map AStr addrs)) ∧
     ∀ p pr, d !! (LP, p) = Some pr → ¬ strCol pr "name" n) →
  (t = ACLs → ∃ a, aclOf u r a) →
  ovnTyped sw (<[(t, u) := r]> d).
Proof.
  intros Hok Hnew Hu Hls Hlp Hacl.
  assert (∀ k x, <[(t, u) := r]> d !! k = Some x → (k = (t, u) ∧ x = r) ∨ (k ≠ (t, u) ∧ d !! k = Some x)) as Hin.
  { intros k x Hx%lookup_insert_Some. naive_solver. }
  constructor.
  - intros u' r' [[[= Ht ->] ->]|[_ Hr]]%Hin; [by apply Hls|by apply (ok_switch sw d Hok u')].
  - intros u1 u2 r1 r2 [[[= Ht ->] ->]|[_ Hr1]]%Hin [[[= Ht2 ->] ->]|[_ Hr2]]%Hin Hn1 Hn2; [done| | |].
    + destruct (Hls ltac:(done)) as [_ Hno]. destruct (Hno Hn1). by exists u2, r2.
    + destruct (Hls ltac:(done)) as [_ Hno]. destruct (Hno Hn2). by exists u1, r1.
    + by apply (ok_unique sw d Hok u1 u2 r1 r2).
  - intros p pr [[[= Ht ->] ->]|[_ Hr]]%Hin; [|by apply (ok_port sw d Hok p)].
    destruct (Hlp ltac:(done)) as (n & addrs & Hn & Ha & _). eauto.
  - intros p1 p2 r1 r2 n [[[= Ht ->] ->]|[_ Hr1]]%Hin [[[= Ht2 ->] ->]|[_ Hr2]]%Hin Hn1 Hn2; [done| | |].
    + destruct (Hlp ltac:(done)) as (n' & addrs & Hn & _ & Hno).
      assert (n' = n) as -> by by apply (strCol_inj r "name"). by destruct (Hno p2 r2 Hr2).
    + destruct (Hlp ltac:(done)) as (n' & addrs & Hn & _ & Hno).
      assert (n' = n) as -> by by apply (strCol_inj r "name"). by destruct (Hno p1 r1 Hr1).
    + by apply (ok_names sw d Hok p1 p2 r1 r2 n).
  - intros p pr [[[= Ht ->] ->]|[_ Hr]]%Hin; [by apply Hacl|by apply (ok_acl sw d Hok p)].
  - intros t' u' [x [[[= -> ->] ->]|[_ Hr]]%Hin]; [done|]. apply (ok_uuid sw d Hok t'). eauto.
Qed.

(** The children of a column, and those of the other column. *)
Definition sameChildren (col ct : string) (w w' : W) : Prop :=
  ∀ p pr, child sw col ct (OVN w') p pr ↔ child sw col ct (OVN w) p pr.

(** A transaction that adds a child: it did, or it failed, or both. *)
Lemma add_step col ct row nm w :
  childKind col ct → ovnOK sw (OVN w) → validUUID nm = false → supportedOps ∅ (addOps sw col ct row nm) = true →
  (∀ u, (∀ t, OVN w !! (t, u) = None) → validUUID u = true →
     ovnTyped sw (<[(ct, u) := newRow ct (ovDefaults northbound) row]> (OVN w))) →
  ∃ r w', transactCheck northbound (addOps sw col ct row nm) 2 1 w = Ok (r, w') ∧ ovnOK sw (OVN w') ∧
    (∀ col' ct', childKind col' ct' → col' ≠ col → sameChildren col' ct' w w') ∧
    ((r ≠ inr tt ∧ sameChildren col ct w w') ∨
     ∃ u, (∀ t, OVN w !! (t, u) = None) ∧ (r = inr tt → named sw (OVN w)) ∧
       ∀ p pr, child sw col ct (OVN w') p pr ↔ child sw col ct (OVN w) p pr ∨
         (p = u ∧ pr = newRow ct (ovDefaults northbound) row ∧ named sw (OVN w))).
Proof.
  intros Hkind Hok Hnm Hsup Htyped.
  destruct (transactCheck_run northbound (addOps sw col ct row nm) 2 1 w Hsup) as (r & w' & Hrun & Hcase).
  exists r, w'. split; [done|]. destruct Hcase as [[Hr Heq]|(outs & (us & d1 & Hlen & [_ Hfresh] & Hex & Hcol & _) & Hcount)].
  { rewrite Heq. split; [done|]. unfold sameChildren. rewrite Heq. split; [done|]. by left. }
  destruct us as [|u1 [|u2 [|]]]; try done. destruct (Hfresh u1 ltac:(left)) as [Hv Hu1].
  specialize (Htyped u1 Hu1 Hv).
  destruct (add_exec sw col ct Hkind _ u1 u2 row nm _ outs d1 Hnm Htyped Hex) as (-> & n & -> & Hnamed).
  destruct (add_effect sw col ct Hkind (ovDefaults northbound) u1 row (OVN w) Hok Hu1 Htyped) as (Hok1 & Hch & Hoth).
  split; [by apply (collected_ok _ sw schema_kept _ _ Hcol)|]. split.
  { intros col' ct' Hk Hne p pr. rewrite (collected_child _ sw schema_kept _ _ _ _ _ _ Hcol). by apply Hoth. }
  right. exists u1. split; [done|]. split.
  - intros ->. apply Hnamed. specialize (Hcount eq_refl). cbn in Hcount. lapply Hcount; [lia|].
    repeat constructor; eauto.
  - intros p pr. by rewrite (collected_child _ sw schema_kept _ _ _ _ _ _ Hcol), Hch.
Qed.

(** A transaction that deletes a child. *)
Lemma del_step col ct x w :
  childKind col ct → ovnOK sw (OVN w) → validUUID x = true →
  ∃ r w', transactCheck northbound (delOps sw col ct x) 2 2 w = Ok (r, w') ∧ ovnOK sw (OVN w') ∧
    (∀ col' ct', childKind col' ct' → col' ≠ col → sameChildren col' ct' w w') ∧
    ((r ≠ inr tt ∧ sameChildren col ct w w') ∨
     ∀ p pr, child sw col ct (OVN w') p pr ↔ child sw col ct (OVN w) p pr ∧ p ≠ x).
Proof.
  intros Hkind Hok Hx. assert (supportedOps ∅ (delOps sw col ct x) = true) as Hsup.
  { unfold delOps. cbn [supportedOps]. unfold supported. cbn [opOp opWhere opMutations opRow deleteOp mutateOp forallb].
    rewrite (uuidCond_ok _ _ x) by (done || by left). cbn [mutationOK refMutation]. unfold jsonOK.
    rewrite (jsonDatum_ref _ x x) by by apply jsonAtom_valid. done. }
  destruct (transactCheck_run northbound (delOps sw col ct x) 2 2 w Hsup) as (r & w' & Hrun & Hcase).
  exists r, w'. split; [done|]. destruct Hcase as [[Hr Heq]|(outs & (us & d1 & Hlen & _ & Hex & Hcol & _) & _)].
  { rewrite Heq. split; [done|]. unfold sameChildren. rewrite Heq. split; [done|]. by left. }
  destruct us as [|u1 [|u2 [|]]]; try done.
  destruct (del_exec sw col ct Hkind _ u1 u2 x _ outs d1 Hx Hok Hex) as (-> & _).
  destruct (del_effect sw col ct Hkind x (OVN w) Hok) as (Hok1 & Hch & Hoth).
  split; [by apply (collected_ok _ sw schema_kept _ _ Hcol)|]. split.
  { intros col' ct' Hk Hne p pr. rewrite (collected_child _ sw schema_kept _ _ _ _ _ _ Hcol). by apply Hoth. }
  right. intros p pr. by rewrite (collected_child _ sw schema_kept _ _ _ _ _ _ Hcol), Hch.
Qed.

(** ** Ports *)

Lemma port_select name w :
  ovnOK sw (OVN w) →
  ∃ r w', selectRows northbound "Logical_Port" [newCondition "name" "==" (GoString name)] w = Ok (r, w') ∧
    steady sw w w' ∧
    ∀ rows, r = inr rows → match rows with
      | [] => ∀ p pr, OVN w' !! (LP, p) = Some pr → ¬ strCol pr "name" name
      | row :: _ => ∃ p pr, OVN w !! (LP, p) = Some pr ∧ strCol pr "name" name ∧ encodesRow p pr row
      end.
Proof.
  intros Hok. destruct (selectRows_run northbound "Logical_Port" [newCondition "name" "==" (GoString name)] w eq_refl)
    as (r & w' & Hrun & Hcol & _ & Hrows).
  exists r, w'. split; [done|]. split.
  { split_and!; [by apply (collected_ok _ sw schema_kept (OVN w))|..]; intros p pr;
      by apply (collected_child _ sw schema_kept). }
  intros rows Heq. specialize (Hrows rows Heq). destruct rows as [|row rows].
  - apply rowsOf_nil in Hrows. intros p pr Hpr%(collected_sub _ _ _ _ _ Hcol) Hn.
    pose proof (proj2 (by_name "Logical_Port" name (OVN w) (LP, p) pr) (conj Hpr (conj eq_refl Hn))) as Hm.
    by rewrite Hrows in Hm.
  - apply rowsOf_cons in Hrows as ([t p] & pr & (Hr & Ht & Hn)%by_name & Henc). cbn in Ht, Henc. subst t. by exists p, pr.
Qed.

Lemma steady_hasPort w w' n : steady sw w w' → hasPort sw (OVN w') n ↔ hasPort sw (OVN w) n.
Proof. intros (_ & Hp & _). by apply samePorts_hasPort. Qed.

Lemma CreatePort_run name mac ip w :
  ovnOK sw (OVN w) →
  ∃ r w', CreatePort sw name mac ip w = Ok (r, w') ∧ ovnOK sw (OVN w') ∧ sameAcls sw w w' ∧
    (∀ n, hasPort sw (OVN w) n → hasPort sw (OVN w') n) ∧
    (∀ n, hasPort sw (OVN w') n → hasPort sw (OVN w) n ∨ n = name) ∧
    (r = inr tt → hasPort sw (OVN w') name).
Proof.
  intros Hok. unfold CreatePort, tryBind. unfold mbind at 1, M_bind at 1.
  destruct (port_select name w Hok) as (r & w1 & Hrun & Hst & Hrows). rewrite Hrun.
  assert (∀ n, hasPort sw (OVN w1) n ↔ hasPort sw (OVN w) n) as Hsame by (intros n; by apply steady_hasPort).
  destruct Hst as (Hok1 & Hp1 & Ha1).
  assert (∀ e : ovsErr, ∃ r w', Ok (E := Empty_set) (inl (B := unit) e, w1) = Ok (r, w') ∧ ovnOK sw (OVN w') ∧ sameAcls sw w w' ∧
    (∀ n, hasPort sw (OVN w) n → hasPort sw (OVN w') n) ∧
    (∀ n, hasPort sw (OVN w') n → hasPort sw (OVN w) n ∨ n = name) ∧
    (r = inr tt → hasPort sw (OVN w') name)) as Herr.
  { intros e. exists (inl e), w1. split_and!; try done; intros n; rewrite Hsame; auto. }
  destruct r as [e|rows]; [apply Herr|]. destruct rows as [|row rows]; [|apply Herr]. clear Herr.
  specialize (Hrows [] eq_refl). set (row := <["addresses"%string := _]> _).
  destruct (add_step "ports" LP row "dilportadd" w1) as (r & w2 & Hrun2 & Hok2 & Hoth & Hcase).
  - by left.
  - done.
  - reflexivity.
  - reflexivity.
  - intros u Hu Hv. apply typed_insert; [by apply Hok1|by apply Hu|done|done| |done].
    intros _. exists name, {[(mac ++ " " ++ ip)%string]}. split_and!; [| |done].
    + by apply (newRow_lookup LP _ row "name" (JStr name)).
    + apply (newRow_lookup LP _ row "addresses" (setJSON [JStr (mac ++ " " ++ ip)])); [done|].
      unfold setJSON. cbn [jsonDatum]. rewrite decide_True by done. cbn.
      by rewrite set_map_singleton_L, union_empty_r_L.
  - cbn [mutation newMutation]. unfold mbind, M_bind, mret, M_ret. fold (refMutation "ports" "insert" "dilportadd").
    unfold addOps, switchCond, LS, LP in Hrun2. rewrite Hrun2. exists r, w2. split; [done|]. split; [done|]. split.
    { intros p pr. rewrite (Hoth "acls"%string ACLs kind_acls ltac:(done) p pr). apply Ha1. }
    destruct Hcase as [[Hr Hch]|(u & Hu & Hnamed & Hch)].
    + assert (∀ n, hasPort sw (OVN w2) n ↔ hasPort sw (OVN w) n) as Hs.
      { intros n. rewrite <- Hsame. by apply samePorts_hasPort. }
      split_and!; [intros n; by rewrite Hs|intros n; rewrite Hs; auto|done].
    + unfold hasPort in *. setoid_rewrite Hch. split_and!.
      * intros n (p & pr & Hc & Hn)%Hsame. eauto 6.
      * intros n (p & pr & [Hc|(-> & -> & _)] & Hn); [left; apply Hsame; eauto|right].
        apply (strCol_inj _ "name" _ _ Hn). by apply (newRow_lookup LP _ row "name" (JStr name)).
      * intros Hr. exists u, (newRow LP (ovDefaults northbound) row). split; [by right; auto|].
        by apply (newRow_lookup LP _ row "name" (JStr name)).
Qed.

Lemma DeletePort_run name w :
  ovnOK sw (OVN w) →
  ∃ r w', DeletePort sw name w = Ok (r, w') ∧ ovnOK sw (OVN w') ∧ sameAcls sw w w' ∧
    (∀ n, hasPort sw (OVN w') n → hasPort sw (OVN w) n) ∧
    (∀ n, n ≠ name → hasPort sw (OVN w) n → hasPort sw (OVN w') n) ∧
    (r = inr tt → ¬ hasPort sw (OVN w') name).
Proof.
  intros Hok. unfold DeletePort, tryBind. unfold mbind at 1, M_bind at 1.
  destruct (port_select name w Hok) as (r & w1 & Hrun & Hst & Hrows). rewrite Hrun.
  assert (∀ n, hasPort sw (OVN w1) n ↔ hasPort sw (OVN w) n) as Hsame by (intros n; by apply steady_hasPort).
  destruct Hst as (Hok1 & Hp1 & Ha1).
  destruct r as [e|rows].
  { exists (inl e), w1. split_and!; try done; intros n; rewrite Hsame; auto. }
  specialize (Hrows rows eq_refl). destruct rows as [|row rows].
  { exists (inr tt), w1. split_and!; try done; try (intros n; rewrite Hsame; auto; done).
    intros _ (p & pr & (u & sr & ps & _ & _ & _ & _ & Hpr) & Hn). by apply (Hrows p pr). }
  destruct Hrows as (x & xr & Hx & Hxn & Henc). pose proof (ok_uuid sw _ Hok LP x ltac:(eauto)) as Hv.
  rewrite (column_uuid x xr row Henc). unfold mbind at 1, M_bind at 1. rewrite uuidOf_atom. cbn [mutation newMutation].
  unfold mbind, M_bind, mret, M_ret. fold (refMutation "ports" "delete" x).
  destruct (del_step "ports" LP x w1) as (r & w2 & Hrun2 & Hok2 & Hoth & Hcase); [by left|done|done|].
  unfold delOps, switchCond, LS, LP in Hrun2. rewrite Hrun2. exists r, w2. split; [done|]. split; [done|]. split.
  { intros p pr. rewrite (Hoth "acls"%string ACLs kind_acls ltac:(done) p pr). apply Ha1. }
  destruct Hcase as [[Hr Hch]|Hch].
  + assert (∀ n, hasPort sw (OVN w2) n ↔ hasPort sw (OVN w) n) as Hs.
    { intros n. rewrite <- Hsame. by apply samePorts_hasPort. }
    split_and!; [intros n; by rewrite Hs|intros n; rewrite Hs; auto|done].
  + assert (∀ n, hasPort sw (OVN w2) n ↔ ∃ p pr, (child sw "ports" LP (OVN w) p pr ∧ p ≠ x) ∧ strCol pr "name" n) as Hs.
    { intros n. unfold hasPort. setoid_rewrite Hch. by setoid_rewrite (Hp1 _ _). }
    setoid_rewrite Hs. split_and!.
    * intros n (p & pr & [Hc _] & Hn). by exists p, pr.
    * intros n Hne (p & pr & Hc & Hn). exists p, pr. split; [|done]. split; [done|]. intros ->.
      destruct Hc as (u & sr & ps & _ & _ & _ & _ & Hpr). assert (pr = xr) as -> by congruence.
      apply Hne. by apply (strCol_inj xr "name").
    * intros _ (p & pr & [(u & sr & ps & _ & _ & _ & _ & Hpr) Hpx] & Hn). apply Hpx.
      by apply (ok_names sw _ Hok p x pr xr name).
Qed.

(** ** The switch *)

Lemma insert_exec defs u t row nm d :
  execOps defs ∅ (zip [u] [insertOp t row nm]) d = ([Changed 0], <[(t, u) := newRow t defs row]> d).
Proof. reflexivity. Qed.

(** [CreateSwitch] leaves the ports and the ACLs of the switch as they are. *)
Lemma CreateSwitch_run w :
  ovnOK sw (OVN w) → ∃ r w', CreateSwitch sw w = Ok (r, w') ∧ steady sw w w'.
Proof.
  intros Hok. unfold CreateSwitch, tryBind. unfold mbind at 1, M_bind at 1.
  destruct (selectRows_run northbound "Logical_Switch" [newCondition "name" "==" (GoString sw)] w eq_refl)
    as (r & w1 & Hrun & Hcol & _ & Hrows). rewrite Hrun.
  assert (steady sw w w1) as Hst.
  { split_and!; [by apply (collected_ok _ sw schema_kept (OVN w))|..]; intros p pr;
      by apply (collected_child _ sw schema_kept). }
  destruct r as [e|rows]; [by exists (inl e), w1|]. specialize (Hrows rows eq_refl).
  destruct rows as [|row rows]; [|by exists (inl ExistError), w1]. apply rowsOf_nil in Hrows.
  assert (¬ named sw (OVN w1)) as Hno.
  { intros (u & r & Hr%(collected_sub _ _ _ _ _ Hcol) & Hn).
    pose proof (proj2 (by_name "Logical_Switch" sw (OVN w) (LS, u) r) (conj Hr (conj eq_refl Hn))) as Hm.
    by rewrite Hrows in Hm. }
  assert (supportedOps ∅ [insertOp "Logical_Switch" {["name"%string := JStr sw]} ""] = true) as Hsup by reflexivity.
  destruct (transactCheck_run northbound _ 1 2 w1 Hsup) as (r & w2 & Hrun2 & Hcase).
  rewrite Hrun2. exists r, w2. split; [done|]. apply (steady_trans sw w w1 w2 Hst).
  destruct Hst as (Hok1 & _).
  destruct Hcase as [[_ Heq]|(outs & (us & d1 & Hlen & [_ Hfresh] & Hex & Hcol2 & _) & _)].
  { unfold steady, samePorts, sameAcls. rewrite Heq. split; [exact Hok1|]. split; intros p pr; reflexivity. }
  destruct us as [|u [|]]; [discriminate Hlen| |discriminate Hlen]. destruct (Hfresh u ltac:(left)) as [Hv Hu].
  rewrite insert_exec in Hex. set (new := newRow LS (ovDefaults northbound) {["name"%string := JStr sw]}).
  assert (d1 = <[(LS, u) := new]> (OVN w1)) as -> by (symmetry; exact (f_equal snd Hex)).
  clear Hex Hsup Hrows Hrun2.
  assert (new !! "ports"%string = Some (refSet ∅) ∧ new !! "acls"%string = Some (refSet ∅) ∧ strCol new "name" sw) as (Hp & Ha & Hn).
  { split_and!; [apply newRow_default; [done|apply schema_ports]|apply newRow_default; [done|apply schema_acls]|].
    by apply (newRow_lookup LS _ _ "name" (JStr sw)). }
  assert (∀ col ct p pr, childKind col ct → ¬ child sw col ct (<[(LS, u) := new]> (OVN w1)) p pr) as Hnone.
  { intros col ct p pr Hk (u' & r' & ps & Hr' & Hn' & Hc & Hps & _). apply lookup_insert_Some in Hr' as [[_ <-]|[_ Hr']].
    - assert (ps = ∅) as -> by (destruct Hk as [[= -> ->]|[= -> ->]]; apply refSet_inj; congruence).
      by apply not_elem_of_empty in Hps.
    - apply Hno. by exists u', r'. }
  assert (∀ col ct p pr, childKind col ct → child sw col ct (OVN w2) p pr ↔ child sw col ct (OVN w1) p pr) as Hch.
  { intros col ct p pr Hk. rewrite (collected_child _ sw schema_kept _ _ _ _ _ _ Hcol2). split.
    - by intros Hc%(Hnone col ct p pr Hk).
    - intros (u' & r' & ps & Hr' & Hn' & _). destruct Hno. by exists u', r'. }
  split_and!; [|intros p pr; apply Hch, kind_ports|intros p pr; apply Hch, kind_acls].
  apply (collected_ok _ sw schema_kept _ _ Hcol2). constructor.
  - apply typed_insert; [apply Hok1|apply Hu|done| |done|done]. intros _. split; [|done]. by exists sw, ∅, ∅.
  - intros u' r' ps p col ct Hk Hr' Hn' Hc Hps. apply lookup_insert_Some in Hr' as [[_ <-]|[_ Hr']].
    + assert (ps = ∅) as -> by (destruct Hk as [[= -> ->]|[= -> ->]]; apply refSet_inj; congruence).
      by apply not_elem_of_empty in Hps.
    + destruct Hno. by exists u', r'.
Qed.

(** ** Access control lists *)

Lemma aclOf_inj u r a b : aclOf u r a → aclOf u r b → a = b.
Proof.
  intros (Hu & Hp & Hd & Hm & Hact & Hl) (Hu' & Hp' & Hd' & Hm' & Hact' & Hl').
  assert (ANum (aclPriority a) = ANum (aclPriority b)) as Hpe by (apply scalar_inj; congruence).
  assert (ABool (aclLog a) = ABool (aclLog b)) as Hle by (apply scalar_inj; congruence).
  pose proof (strCol_inj _ _ _ _ Hd Hd'). pose proof (strCol_inj _ _ _ _ Hm Hm'). pose proof (strCol_inj _ _ _ _ Hact Hact').
  destruct a, b. cbn in *. congruence.
Qed.

Lemma steady_hasAcl w w' a : steady sw w w' → hasAcl sw (OVN w') a ↔ hasAcl sw (OVN w) a.
Proof. intros (_ & _ & Ha). by apply sameAcls_hasAcl. Qed.

(** The ACL of a child. *)
Lemma child_acl d p pr : ovnOK sw d → child sw "acls" ACLs d p pr → ∃ a, aclUUID a = p ∧ aclOf p pr a ∧ hasAcl sw d a.
Proof.
  intros Hok Hc. destruct Hc as (u & r & ps & Hr & Hn & Hcol & Hp & Hpr) eqn:Heq.
  destruct (ok_acl sw d Hok p pr Hpr) as [a Ha]. exists a. pose proof Ha as (Hu & _). split; [done|]. split; [done|].
  exists pr. rewrite Hu. split; [|done]. by exists u, r, ps.
Qed.

Lemma addAcls_run acc a w :
  ovnOK sw (OVN w) → hasAcl sw (OVN w) a →
  ∃ r w', addAcls acc (aclUUID a) w = Ok (r, w') ∧ steady sw w w' ∧ ∀ acc', r = inr acc' → acc' = acc ++ [a].
Proof.
  intros Hok (pr & (su & sr & ps & _ & _ & _ & _ & Hu) & Ha). pose proof (ok_uuid sw _ Hok ACLs _ ltac:(eauto)) as Hv.
  destruct (select_step sw "ACL" [newCondition "_uuid" "==" (GoString (aclUUID a))] w) as (r & w' & Hrun & Hst & Hrows);
    [cbn [forallb]; by rewrite (uuidCond_ok ∅ _ (aclUUID a)); [|right|]|done|].
  unfold addAcls, tryBind. unfold mbind at 1, M_bind at 1. rewrite Hrun. destruct r as [e|rows]; [by exists (inl e), w'|].
  specialize (Hrows rows eq_refl).
  assert (matching ∅ (selectOp "ACL" [newCondition "_uuid" "==" (GoString (aclUUID a))]) (OVN w) = {[(ACLs, aclUUID a) := pr]}) as Hm.
  { apply map_eq. intros k. destruct (decide (k = (ACLs, aclUUID a))) as [->|Hne].
    - rewrite lookup_singleton_eq. by apply by_uuid.
    - rewrite lookup_singleton_ne by done. apply eq_None_not_Some. intros [r (_ & Hk)%by_uuid]; done. }
  rewrite Hm in Hrows. destruct Hrows as (l & Hl & Hrows). rewrite map_to_list_singleton in Hl.
  apply perm_singleton in Hl as ->. apply Forall2_cons_inv_l in Hrows as (row & rows' & Henc & Hnil & ->).
  apply Forall2_nil_inv_l in Hnil as ->. cbn [mapEach]. unfold mbind, M_bind.
  rewrite (readAcl_run _ pr row a w' Henc Ha). exists (inr (acc ++ [a])), w'. split; [done|]. split; [done|]. by intros acc' [= <-].
Qed.

(** The list of ACLs is exactly that of the switch. *)
Lemma ListACLs_run w :
  ovnOK sw (OVN w) →
  ∃ r w', ListACLs sw w = Ok (r, w') ∧ steady sw w w' ∧
    ∀ l, r = inr l → NoDup (aclUUID <$> l) ∧ ∀ a, a ∈ l ↔ hasAcl sw (OVN w) a.
Proof.
  intros Hok. unfold ListACLs, tryBind. unfold mbind at 1, M_bind at 1.
  destruct (switch_select sw w Hok) as (r & w1 & Hrun & Hst & Hrows). rewrite Hrun.
  destruct r as [e|rows]; [by exists (inl e), w1|]. specialize (Hrows rows eq_refl). destruct rows as [|row rows].
  { exists (inr []), w1. split; [done|]. split; [done|]. intros l [= <-]. split; [constructor|]. intros a.
    split; [by intros ?%not_elem_of_nil|]. intros (pr & (u & r & ps & Hr & Hn & _) & _). destruct Hrows. by exists u, r. }
  destruct Hrows as (u & sr & Hr & Hn & Henc). destruct (ok_column sw _ "acls" ACLs u sr Hok kind_acls Hr) as [ps Hps].
  destruct (ovsUUIDSetToSlice_run ps (column row "acls") w1) as (us & Hus & Hperm);
    [by apply (column_encodes u sr)|]. unfold mbind at 1, M_bind at 1. rewrite Hus.
  assert (∀ p, p ∈ us → ∃ a, aclUUID a = p ∧ hasAcl sw (OVN w) a) as Hacls.
  { intros p Hp. rewrite Hperm in Hp. apply elem_of_elements in Hp.
    destruct (ok_refs sw _ Hok u sr ps p "acls" ACLs kind_acls Hr Hn Hps Hp) as [pr Hpr].
    destruct (child_acl (OVN w) p pr Hok) as (a & Ha & _ & Hhas); [by exists u, sr, ps|]. by exists a. }
  destruct (tryEach_run (λ l acc w', steady sw w w' ∧ us = (aclUUID <$> acc) ++ l ∧ Forall (hasAcl sw (OVN w)) acc)
    (steady sw w) addAcls us [] w1) as (r & w2 & Hloop & HI).
  - intros p l acc w2 (Hst2 & -> & Hacc). destruct (Hacls p) as (a & <- & Ha); [set_solver|].
    destruct (addAcls_run acc a w2) as (r & w3 & Hrun3 & Hst3 & Hacc3); [apply Hst2|by apply (steady_hasAcl w)|].
    exists r, w3. split; [done|]. assert (steady sw w w3) by by apply (steady_trans sw w w2).
    destruct r as [e|acc']; [done|]. rewrite (Hacc3 acc' eq_refl). split; [done|]. split.
    + by rewrite fmap_app, <- app_assoc.
    + apply Forall_app. by split; [|apply Forall_singleton].
  - done.
  - exists r, w2. split; [done|]. destruct r as [e|l]; [done|]. destruct HI as (Hst2 & Heq & Hall). split; [done|].
    rewrite app_nil_r in Heq. intros l' [= <-]. rewrite <- Heq. split; [by rewrite Hperm; apply NoDup_elements|].
    intros a. split; [rewrite Forall_forall in Hall; apply Hall|]. intros Ha.
    assert (aclUUID a ∈ us) as Hin.
    { destruct Ha as (pr & Hc & _). rewrite Hperm, elem_of_elements.
      by apply (child_of_row sw (OVN w) "acls" ACLs u sr ps _ pr Hok Hr Hn Hps) in Hc as [? _]. }
    rewrite Heq in Hin. apply list_elem_of_fmap in Hin as (b & Hab & Hb). rewrite Forall_forall in Hall.
    destruct (Hall b Hb) as (pr & Hc & Hbof), Ha as (pr' & Hc' & Haof). rewrite Hab in *.
    destruct Hc as (?&?&?&?&?&?&?&Hpr), Hc' as (?&?&?&?&?&?&?&Hpr').
    assert (pr' = pr) as -> by congruence. by rewrite (aclOf_inj _ _ _ _ Haof Hbof).
Qed.

Lemma aclRow_columns dir priority amatch action doLog u defs :
  dir ≠ "*"%string → amatch ≠ "*"%string →
  aclOf u (newRow ACLs defs (aclRow dir priority amatch action doLog))
    (mkAcl u (Z.max 0 priority) dir amatch action doLog).
Proof.
  intros Hd Hm. unfold aclRow. rewrite !decide_True by done. set (row := <["log"%string := _]> _).
  split; [done|]. cbn [aclPriority aclDirection aclMatch aclAction aclLog].
  split_and!; [apply (newRow_lookup ACLs _ row "priority" (JNum (Z.max 0 priority)))|
    apply (newRow_lookup ACLs _ row "direction" (JStr dir))|apply (newRow_lookup ACLs _ row "match" (JStr amatch))|
    apply (newRow_lookup ACLs _ row "action" (JStr action))|apply (newRow_lookup ACLs _ row "log" (JBool doLog))]; done.
Qed.

Lemma CreateACL_run dir priority amatch action doLog w :
  ovnOK sw (OVN w) → dir ≠ "*"%string → amatch ≠ "*"%string →
  ∃ r w' u (new := mkAcl u (Z.max 0 priority) dir amatch action doLog),
    CreateACL sw dir priority amatch action doLog w = Ok (r, w') ∧ ovnOK sw (OVN w') ∧ samePorts sw w w' ∧
    (∀ a, hasAcl sw (OVN w) a → aclUUID a ≠ u) ∧
    (∀ a, hasAcl sw (OVN w) a → hasAcl sw (OVN w') a) ∧
    (∀ a, hasAcl sw (OVN w') a → hasAcl sw (OVN w) a ∨ a = new) ∧
    (r = inr tt → hasAcl sw (OVN w') new).
Proof.
  intros Hok Hd Hm. unfold CreateACL. cbn [mutation newMutation]. unfold mbind, M_bind, mret, M_ret.
  set (row := aclRow dir priority amatch action doLog).
  destruct (add_step "acls" ACLs row "diacladd" w) as (r & w' & Hrun & Hok' & Hoth & Hcase).
  - by right.
  - done.
  - reflexivity.
  - unfold row, aclRow. rewrite !decide_True by done. reflexivity.
  - intros u Hu Hv. apply typed_insert; [apply Hok|apply Hu|done|done|done|]. intros _. eexists. by apply aclRow_columns.
  - fold (refMutation "acls" "insert" "diacladd"). unfold addOps, switchCond, LS, ACLs in Hrun. rewrite Hrun.
    assert (samePorts sw w w') as Hports by (intros p pr; by apply (Hoth "ports"%string LP kind_ports)).
    destruct Hcase as [[Hr Hch]|(u & Hu & Hnamed & Hch)].
    + (* a UUID that no ACL has *)
      exists r, w', ""%string. cbv zeta. pose proof (λ a, sameAcls_hasAcl sw w w' a Hch) as Hs.
      split_and!; [done|done|done| |intros a; by rewrite Hs|intros a; rewrite Hs; auto|done].
      intros a (pr & (?&?&?&?&?&?&?&Hpr) & _) Heq.
      assert (validUUID (aclUUID a) = true) as Hv by (apply (ok_uuid sw _ Hok ACLs); eauto). rewrite Heq in Hv. discriminate Hv.
    + exists r, w', u. cbv zeta. split_and!; [done|done|done| | | |].
      * intros a (pr & (?&?&?&?&?&?&?&Hpr) & _) Heq. by rewrite Heq, Hu in Hpr.
      * intros a (pr & Hc & Ha). exists pr. split; [|done]. apply Hch. by left.
      * intros a (pr & Hc & Ha). apply Hch in Hc as [Hc|(Hau & -> & _)]; [left; by exists pr|right].
        apply (aclOf_inj u (newRow ACLs (ovDefaults northbound) row)); [by rewrite Hau in Ha|by apply aclRow_columns].
      * intros Hr. exists (newRow ACLs (ovDefaults northbound) row). cbn [aclUUID]. split; [apply Hch; by right; auto|].
        by apply aclRow_columns.
Qed.

(** Deleting one of them. *)
Lemma deleteAcl_run dir priority amatch a w :
  ovnOK sw (OVN w) → validUUID (aclUUID a) = true → aclMatches dir priority amatch a = true →
  ∃ r w', deleteAcl sw dir priority amatch tt a w = Ok (r, w') ∧ ovnOK sw (OVN w') ∧ samePorts sw w w' ∧
    (∀ b, hasAcl sw (OVN w') b → hasAcl sw (OVN w) b) ∧
    (∀ b, aclUUID b ≠ aclUUID a → hasAcl sw (OVN w) b → hasAcl sw (OVN w') b) ∧
    (r = inr tt → ∀ b, hasAcl sw (OVN w') b → aclUUID b ≠ aclUUID a).
Proof.
  intros Hok Hv Hm. unfold deleteAcl. rewrite Hm. cbn [mutation newMutation]. unfold mbind, M_bind, mret, M_ret.
  fold (refMutation "acls" "delete" (aclUUID a)).
  destruct (del_step "acls" ACLs (aclUUID a) w) as (r & w' & Hrun & Hok' & Hoth & Hcase); [by right|done|done|].
  unfold delOps, switchCond, LS, ACLs in Hrun. rewrite Hrun. exists r, w'. split; [done|]. split; [done|]. split.
  { intros p pr. by apply (Hoth "ports"%string LP kind_ports). }
  destruct Hcase as [[Hr Hch]|Hch].
  - pose proof (λ b, sameAcls_hasAcl sw w w' b Hch) as Hs. split_and!; [intros b; by rewrite Hs|intros b _; by rewrite Hs|done].
  - split_and!.
    + intros b (pr & [Hc _]%Hch & Hb). by exists pr.
    + intros b Hne (pr & Hc & Hb). exists pr. split; [by apply Hch|done].
    + intros _ b (pr & [_ Hne]%Hch & _). done.
Qed.

Lemma DeleteACL_run dir priority amatch w :
  ovnOK sw (OVN w) →
  ∃ r w', DeleteACL sw dir priority amatch w = Ok (r, w') ∧ ovnOK sw (OVN w') ∧ samePorts sw w w' ∧
    (∀ a, hasAcl sw (OVN w') a → hasAcl sw (OVN w) a) ∧
    (∀ a, aclMatches dir priority amatch a = false → hasAcl sw (OVN w) a → hasAcl sw (OVN w') a) ∧
    (r = inr tt → ∀ a, hasAcl sw (OVN w') a → aclMatches dir priority amatch a = false).
Proof.
  intros Hok. unfold DeleteACL, tryBind. unfold mbind at 1, M_bind at 1.
  destruct (ListACLs_run w Hok) as (r & w1 & Hrun & Hst & Hl). rewrite Hrun.
  pose proof (λ a, steady_hasAcl w w1 a Hst) as Hs1. destruct Hst as (Hok1 & Hp1 & _).
  destruct r as [e|l].
  { exists (inl e), w1. split_and!; try done; intros a; by rewrite Hs1. }
  destruct (Hl l eq_refl) as [Hnd Hin].
  set (J := λ w2, ovnOK sw (OVN w2) ∧ samePorts sw w w2 ∧ (∀ a, hasAcl sw (OVN w2) a → hasAcl sw (OVN w) a) ∧
    (∀ a, aclMatches dir priority amatch a = false → hasAcl sw (OVN w) a → hasAcl sw (OVN w2) a)).
  destruct (tryEach_run (λ l' (_ : unit) w2, J w2 ∧ (∃ l0, l = l0 ++ l') ∧
      ∀ a, hasAcl sw (OVN w2) a → aclMatches dir priority amatch a = true → a ∈ l') J
    (deleteAcl sw dir priority amatch) l tt w1) as (r & w2 & Hloop & HI).
  - intros a l' [] w2 ((Hok2 & Hp2 & Hsub & Hkeep) & [l0 Hl0] & Hleft).
    assert (hasAcl sw (OVN w) a) as Ha by (apply Hin; set_solver).
    destruct (aclMatches dir priority amatch a) eqn:Hma.
    + destruct (deleteAcl_run dir priority amatch a w2) as (r & w3 & Hrun3 & Hok3 & Hp3 & Hsub3 & Hkeep3 & Hgone3); [done| |done|].
      { destruct Ha as (pr & (?&?&?&?&?&?&?&Hpr) & _). apply (ok_uuid sw _ Hok ACLs). eauto. }
      exists r, w3. split; [done|].
      assert (J w3) as HJ.
      { split_and!; [done|intros p pr; by rewrite (Hp3 p pr)|auto|]. intros b Hb Hbw. apply Hkeep3; [|by apply Hkeep].
        intros Heq. apply Hin in Hbw, Ha. assert (b = a) as ->; [|congruence].
        clear -Hnd Hbw Ha Heq. apply list_elem_of_lookup in Hbw as [i Hi], Ha as [j Hj].
        assert (i = j) as -> by (apply (NoDup_lookup _ i j (aclUUID a) Hnd); rewrite list_lookup_fmap; [by rewrite Hi, <- Heq|by rewrite Hj]).
        congruence. }
      destruct r as [e|[]]; [done|]. split; [done|]. split.
      { exists (l0 ++ [a]). by rewrite <- app_assoc. }
      intros b Hb Hmb. assert (b ∈ a :: l') as [->|]%elem_of_cons by auto; [|done]. by destruct (Hgone3 eq_refl a Hb).
    + unfold deleteAcl. rewrite Hma. exists (inr tt), w2. split; [done|]. split; [done|]. split.
      { exists (l0 ++ [a]). by rewrite <- app_assoc. }
      intros b Hb Hmb. assert (b ∈ a :: l') as [->|]%elem_of_cons by auto; [congruence|done].
  - split; [|split; [by exists []|]].
    + split_and!; [done|done|intros a; by rewrite Hs1|intros a _; by rewrite Hs1].
    + intros a Ha%Hs1 _. by apply Hin.
  - exists r, w2. split; [done|].
    assert (J w2 ∧ (r = inr tt → ∀ a, hasAcl sw (OVN w2) a → aclMatches dir priority amatch a = false)) as [(?&?&?&?) ?];
      [|by split_and!].
    destruct r as [e|[]]; [done|]. destruct HI as (HJ & _ & Hleft). split; [done|]. intros _ a Ha.
    destruct (aclMatches dir priority amatch a) eqn:Hma; [|done]. by apply Hleft, not_elem_of_nil in Hma.
Qed.

End Ovn.
