(* ===== verification/NetMaster.v ===== *)
(** * minion/network: the leader

    Model of [src/minion/network/network.go]: [runMaster], in which the leader of the
    cluster gives OVN a logical port for every label with several containers and for
    every container, and [updateACLs], which makes the access control lists of OVN
    allow exactly the connections of the policy. *)

From stdpp Require Import base gmap list strings pretty.
From Stdlib Require Import ZArith Lia.
From S2P Require Import Prelude Join DbRows Db DbProps Ovsdb NetStore.

Local Open Scope Z_scope.

Definition labelMac : string := "0a:00:00:00:00:00".
Definition lSwitch : string := "di".
Definition diBridge : string := "di-int".
Definition ovnBridge : string := "br-int".
Definition gatewayMAC : string := "02:00:0a:00:00:01".

(** ** The access control lists that the policy asks for *)

Definition labelIPMap (labels : list Label) : gmap string string :=
  foldl (λ m l, <[labelLabel l := labelIP l]> m) ∅ labels.

(** [ip4.src==a && ip4.dst==b && (icmp || min <= udp.x <= max || min <= tcp.x <= max)]. *)
Definition aclText (src dst side : string) (min max : Z) : string :=
  "ip4.src==" ++ src ++ " && ip4.dst==" ++ dst ++ " && (icmp || " ++
  pretty min ++ " <= udp." ++ side ++ " <= " ++ pretty max ++ " || " ++
  pretty min ++ " <= tcp." ++ side ++ " <= " ++ pretty max ++ ")".

(** The matches of a connection: packets from the container to the label, and back. *)
Definition connMatches (labelIPs : gmap string string) (conn : Connection) (fromDbc : Container) : list string :=
  let fromIP := containerIP fromDbc in
  let toIP := default ""%string (labelIPs !! connectionTo conn) in
  [aclText fromIP toIP "dst" (connectionMinPort conn) (connectionMaxPort conn);
   aclText toIP fromIP "src" (connectionMinPort conn) (connectionMaxPort conn)].

(** [matchSet]; the containers of a label are [labelMap] of the store. *)
Definition matchSet (connections : list Connection) (labels : list Label) (containers : list Container)
    : gset string :=
  let labelIPs := labelIPMap labels in
  let labelDbcMap := labelMap containers in
  foldl (λ s conn,
    foldl (λ s fromDbc, list_to_set (connMatches labelIPs conn fromDbc) ∪ s) s
      (default [] (labelDbcMap !! connectionFrom conn))) ∅ connections.

Definition dropAcls : list Acl :=
  [mkAcl "" 0 "to-lport" "ip" "drop" false; mkAcl "" 0 "from-lport" "ip" "drop" false].

Definition allowAcls (amatch : string) : list Acl :=
  [mkAcl "" 1 "to-lport" amatch "allow" false; mkAcl "" 1 "from-lport" amatch "allow" false].

(** What an ACL is compared by. *)
Definition aclKey (a : Acl) : Z * string * string * string :=
  (aclPriority a, aclDirection a, aclAction a, aclMatch a).

Definition aclScore (acl ovsc : Acl) : Z := if decide (aclKey acl = aclKey ovsc) then 0 else -1.

(** The errors that are logged. *)
Definition logged (r : ovsErr + unit) : list ovsErr := match r with inl e => [e] | inr _ => [] end.

(** The server, and the number of loops over maps so far. *)
Record ovsWorld (W : Type) : Type := mkOvsWorld {
  owServer : W;
  owLoops : nat
}.
Arguments mkOvsWorld {W} _ _.
Arguments owServer {W} _.
Arguments owLoops {W} _.

Section Master.
Context {W : Type} `{OvsServer W} `{MapRange}.

Abbreviation V := (M Empty_set (ovsWorld W)).

Definition onOvs {A} (c : M Empty_set W A) : V A := λ s,
  match c (owServer s) with
  | Ok (a, w) => Ok (a, mkOvsWorld w (owLoops s))
  | Err e => Err e
  | Panic why => Panic why
  | OutOfFuel => OutOfFuel
  end.

(** A loop over a set. *)
Definition rangeKeys (m : gset string) : V (list string) := λ s,
  Ok ((rangeOrder (owLoops s) (gset_to_gmap tt m)).*1, mkOvsWorld (owServer s) (S (owLoops s))).

Definition createAcl (errs : list ovsErr) (acl : Acl) : V (list ovsErr) :=
  r ← onOvs (CreateACL lSwitch (aclDirection acl) (aclPriority acl) (aclMatch acl) (aclAction acl) (aclLog acl));
  mret (errs ++ logged r).

Definition removeAcl (errs : list ovsErr) (acl : Acl) : V (list ovsErr) :=
  r ← onOvs (DeleteACL lSwitch (aclDirection acl) (aclPriority acl) (aclMatch acl));
  mret (errs ++ logged r).

(** [updateACLs], which returns the errors that it logs. *)
Definition updateACLs (connections : list Connection) (labels : list Label) (containers : list Container)
    : V (list ovsErr) :=
  ok ← onOvs Open;
  if ok : bool then
    listed ← onOvs (ListACLs lSwitch);
    match listed with
    | inl e => mret [e]
    | inr ovsdbACLs =>
        matches ← rangeKeys (matchSet connections labels containers);
        let acls := dropAcls ++ (matches ≫= allowAcls) in
        let j := Join aclScore acls ovsdbACLs in
        errs ← foldEach createAcl [] (lonelyLefts j);
        foldEach removeAcl errs (lonelyRights j)
    end
  else mret [OvsError].

(** ** Logical ports *)

(** The body of the loop over the labels: the garbage left, and the errors. *)
Definition labelPort (acc : gset string * list ovsErr) (dbl : Label) : V (gset string * list ovsErr) :=
  let '(garbage, errs) := acc in
  if labelMultiHost dbl then
    if decide (labelLabel dbl ∈ garbage) then mret (garbage ∖ {[labelLabel dbl]}, errs)
    else r ← onOvs (CreatePort lSwitch (labelLabel dbl) labelMac (labelIP dbl));
         mret (garbage, errs ++ logged r)
  else mret acc.

Definition containerPort (acc : gset string * list ovsErr) (dbc : Container) : V (gset string * list ovsErr) :=
  let '(garbage, errs) := acc in
  if decide (containerSchedID dbc ∈ garbage) then mret (garbage ∖ {[containerSchedID dbc]}, errs)
  else r ← onOvs (CreatePort "di" (containerSchedID dbc) (containerMac dbc) (containerIP dbc));
       mret (garbage, errs ++ logged r).

Definition dropPort (errs : list ovsErr) (lport : string) : V (list ovsErr) :=
  r ← onOvs (DeletePort lSwitch lport); mret (errs ++ logged r).

Definition wantsLabel (l : Label) : bool := bool_decide (labelIP l ≠ ""%string).
Definition wantsContainer (c : Container) : bool :=
  bool_decide (containerSchedID c ≠ ""%string ∧ containerMac c ≠ ""%string ∧ containerIP c ≠ ""%string).

(** What [runMaster] does with the rows that it read. *)
Definition configureOVN (labels : list Label) (containers : list Container) (connections : list Connection)
    : V (list ovsErr) :=
  ok ← onOvs Open;
  if ok : bool then
    _ ← onOvs (CreateSwitch lSwitch);
    lports ← onOvs (ListPorts lSwitch);
    match lports with
    | inl e => mret [e]
    | inr lportSlice =>
        acc ← foldEach labelPort (list_to_set (lportName <$> lportSlice), []) labels;
        '(garbage, errs) ← foldEach containerPort acc containers;
        names ← rangeKeys garbage;
        errs ← foldEach dropPort errs names;
        aclErrs ← updateACLs connections labels containers;
        mret (errs ++ aclErrs)
    end
  else mret [OvsError].

Definition masterTxn : DB (list Etcd * list Label * list Container * list Connection) :=
  etcds ← SelectFrom (R := Etcd) None;
  labels ← SelectFrom (R := Label) (Some wantsLabel);
  containers ← SelectFrom (R := Container) (Some wantsContainer);
  connections ← SelectFrom (R := Connection) None;
  mret (etcds, labels, containers, connections).

(** [runMaster], which returns the errors that it logs. *)
Definition runMaster : M Empty_set (Database * ovsWorld W) (list ovsErr) :=
  '(etcds, labels, containers, connections) ← onDb (Transact masterTxn);
  if match etcds with [e] => etcdLeader e | _ => false end
  then inWorld (configureOVN labels containers connections)
  else mret [].

End Master.
