(* ===== verification/NetMasterProps.v ===== *)
(** * minion/network: what the leader makes of OVN

    After a run of the leader that logs no error, the logical ports of the switch are
    those of the labels and containers, and its access control lists are those of the
    connections, for any server that obeys its laws. *)

From stdpp Require Import base gmap list strings pretty.
From Stdlib Require Import ZArith Lia.
From S2P Require Import Prelude Join DbRows Db DbProps Ovsdb OvsServer OvsdbProps Ovn NetStore NetMaster Reconcile.

Local Open Scope Z_scope.

Lemma elem_of_two {A} (x a b : A) : x ∈ [a; b] ↔ x = a ∨ x = b.
Proof. set_solver. Qed.

(** ** The matches of the policy *)

Lemma labelMap_inner (dbc c : Container) ls (m : gmap string (list Container)) l :
  c ∈ default [] (foldl (λ m label, <[label := default [] (m !! label) ++ [dbc]]> m) m ls !! l) ↔
  c ∈ default [] (m !! l) ∨ (l ∈ ls ∧ c = dbc).
Proof.
  revert m. induction ls as [|x ls IH]; intros m; cbn [foldl]; [set_solver|]. rewrite IH.
  destruct (decide (l = x)) as [->|Hne].
  - rewrite lookup_insert_eq. cbn. set_solver.
  - rewrite lookup_insert_ne by done. set_solver.
Qed.

Lemma labelMap_elem containers l c :
  c ∈ default [] (labelMap containers !! l) ↔ c ∈ containers ∧ l ∈ elems (containerLabels c).
Proof.
  unfold labelMap. induction containers as [|x cs IH] using rev_ind; [cbn; set_solver|].
  rewrite foldl_app. cbn [foldl]. rewrite labelMap_inner, IH. set_solver.
Qed.

(** A match allows the packets of a connection between a container that has the label
    the connection starts from and the label it goes to. *)
Lemma matchSet_elem connections labels containers m :
  m ∈ matchSet connections labels containers ↔
  ∃ conn c, conn ∈ connections ∧ c ∈ containers ∧ connectionFrom conn ∈ elems (containerLabels c) ∧
    m ∈ connMatches (labelIPMap labels) conn c.
Proof.
  unfold matchSet. cbv zeta.
  assert (∀ conn cs (s : gset string), m ∈ foldl (λ s fromDbc, list_to_set (connMatches (labelIPMap labels) conn fromDbc) ∪ s) s cs ↔
    m ∈ s ∨ ∃ c, c ∈ cs ∧ m ∈ connMatches (labelIPMap labels) conn c) as Hin.
  { intros conn cs. induction cs as [|c cs IH]; intros s; cbn [foldl]; [set_solver|].
    rewrite IH, elem_of_union, elem_of_list_to_set. set_solver. }
  induction connections as [|conn conns IH] using rev_ind; [cbn; set_solver|].
  rewrite foldl_app. cbn [foldl]. rewrite Hin, IH. setoid_rewrite labelMap_elem. split.
  - intros [(conn' & c & ? & ?)|(c & [? ?] & ?)]; [exists conn', c|exists conn, c]; set_solver.
  - intros (conn' & c & [?|Heq%list_elem_of_singleton]%elem_of_app & ? & ? & ?); [left; by exists conn', c|subst; right; by exists c].
Qed.

Lemma aclText_head a b side min max : ∃ s, aclText a b side min max = String (Ascii.Ascii true false false true false true true false) s.
Proof. by eexists. Qed.

Lemma matchSet_text connections labels containers m :
  m ∈ matchSet connections labels containers → m ≠ "*"%string.
Proof.
  intros (conn & c & _ & _ & _ & Hm)%matchSet_elem. unfold connMatches in Hm.
  apply elem_of_two in Hm as [-> | ->]; intros Heq;
    match type of Heq with aclText ?a ?b ?s ?x ?y = _ => destruct (aclText_head a b s x y) as [? Ht] end; congruence.
Qed.

(** ** The lists that are wanted *)

Definition wantedAcls (matches : list string) : list Acl := dropAcls ++ (matches ≫= allowAcls).

(** What the lists of the leader look like. *)
Definition aclForm (a : Acl) : Prop :=
  aclDirection a ≠ "*"%string ∧ aclMatch a ≠ "*"%string ∧ 0 ≤ aclPriority a ∧
  aclAction a = if aclPriority a =? 0 then "drop"%string else "allow"%string.

Lemma wantedAcls_elem matches a :
  a ∈ wantedAcls matches ↔ a ∈ dropAcls ∨ ∃ m, m ∈ matches ∧ a ∈ allowAcls m.
Proof. unfold wantedAcls. rewrite elem_of_app, list_elem_of_bind. naive_solver. Qed.

Lemma wantedAcls_form matches a :
  (∀ m, m ∈ matches → m ≠ "*"%string) → a ∈ wantedAcls matches → aclForm a ∧ aclLog a = false.
Proof.
  intros Hm [Ha|(m & Hin & Ha)]%wantedAcls_elem; apply elem_of_two in Ha as [-> | ->];
    repeat split; try done; by apply Hm.
Qed.

Lemma wantedAcls_NoDup matches : NoDup matches → NoDup (aclKey <$> wantedAcls matches).
Proof.
  intros Hnd. unfold wantedAcls. rewrite fmap_app. apply NoDup_app. split; [apply (bool_decide_unpack _); reflexivity|].
  split.
  - intros k (a & -> & Ha)%list_elem_of_fmap (b & Hk & (m & Hb & _)%list_elem_of_bind)%list_elem_of_fmap.
    apply elem_of_two in Ha as [-> | ->], Hb as [-> | ->]; discriminate Hk.
  - induction Hnd as [|m ms Hm Hnd IH]; [constructor|]. cbn [mbind list_bind]. rewrite fmap_app. apply NoDup_app.
    split; [|split; [|exact IH]].
    + cbn. apply NoDup_cons. split; [|apply NoDup_singleton]. by intros [=]%list_elem_of_singleton.
    + intros k (a & -> & Ha)%list_elem_of_fmap (b & Hk & (m' & Hb & Hm')%list_elem_of_bind)%list_elem_of_fmap.
      assert (aclMatch a = m) as <- by (apply elem_of_two in Ha as [-> | ->]; done).
      assert (aclMatch b = m') as <- by (apply elem_of_two in Hb as [-> | ->]; done).
      unfold aclKey in Hk. congruence.
Qed.

Section Acls.
Context {W : Type} `{OvsServer W, !OvsLaws W, !OvnSchema W} `{MapRange}.

(** The contents of OVN. *)
Definition ovnOf (s : ovsWorld W) : database := ovDb (owServer s) northbound.

Definition acl (s : ovsWorld W) (a : Acl) : Prop := hasAcl lSwitch (ovnOf s) a.
Definition port (s : ovsWorld W) (n : string) : Prop := hasPort lSwitch (ovnOf s) n.

(** The lists have the form of the leader's, and no two have the same direction,
    priority and match. *)
Definition aclsOK (s : ovsWorld W) : Prop :=
  (∀ a, acl s a → aclForm a) ∧
  (∀ a b, acl s a → acl s b → aclDirection a = aclDirection b → aclPriority a = aclPriority b →
     aclMatch a = aclMatch b → a = b).

Lemma onOvs_run {A} (c : M Empty_set W A) s a w :
  c (owServer s) = Ok (a, w) → onOvs c s = Ok (a, mkOvsWorld w (owLoops s)).
Proof. intros Hc. unfold onOvs. by rewrite Hc. Qed.

(** The key of a list of the leader's form tells its action. *)
Lemma form_key a b :
  aclForm a → aclForm b → aclDirection a = aclDirection b → aclPriority a = aclPriority b → aclMatch a = aclMatch b →
  aclKey a = aclKey b.
Proof. intros (_ & _ & _ & Ha) (_ & _ & _ & Hb) Hd Hp Hm. unfold aclKey. by rewrite Ha, Hb, Hd, Hp, Hm. Qed.

Lemma key_inj a b : aclKey a = aclKey b →
  aclDirection a = aclDirection b ∧ aclPriority a = aclPriority b ∧ aclMatch a = aclMatch b.
Proof. unfold aclKey. intros [= ? ? ? ?]. done. Qed.

(** The first loop of [updateACLs]. *)
Lemma create_loop news s :
  ovnOK lSwitch (ovnOf s) → aclsOK s → NoDup (aclKey <$> news) →
  (∀ a, a ∈ news → aclForm a ∧ aclLog a = false ∧ ∀ b, acl s b → aclKey b ≠ aclKey a) →
  ∃ errs s', foldEach createAcl [] news s = Ok (errs, s') ∧ ovnOK lSwitch (ovnOf s') ∧ aclsOK s' ∧
    (∀ n, port s' n ↔ port s n) ∧ (∀ a, acl s a → acl s' a) ∧
    (∀ a, acl s' a → acl s a ∨ aclKey a ∈ aclKey <$> news) ∧
    (errs = [] → ∀ a, a ∈ news → ∃ b, acl s' b ∧ aclKey b = aclKey a).
Proof.
  intros Hok Haok Hnd Hnews.
  apply (foldEach_run (λ seen errs s', ovnOK lSwitch (ovnOf s') ∧ aclsOK s' ∧
    (∀ n, port s' n ↔ port s n) ∧ (∀ a, acl s a → acl s' a) ∧
    (∀ a, acl s' a → acl s a ∨ aclKey a ∈ aclKey <$> seen) ∧
    (errs = [] → ∀ a, a ∈ seen → ∃ b, acl s' b ∧ aclKey b = aclKey a)) createAcl news [] s).
  2: { split_and!; try done; [by left|]. intros _ a. by intros ?%not_elem_of_nil. }
  intros x seen rest errs s1 Hl (Hok1 & Haok1 & Hp1 & Hkeep1 & Hnew1 & Hall1).
  destruct (Hnews x) as (Hform & Hlog & Hno); [rewrite Hl; apply elem_of_app; right; left|]. pose proof Hform as (Hd & Hm & Hpr & _).
  destruct (CreateACL_run lSwitch (aclDirection x) (aclPriority x) (aclMatch x) (aclAction x) (aclLog x) (owServer s1) Hok1 Hd Hm)
    as (r & w & u & Hrun & Hok2 & Hp2 & Hfresh & Hkeep2 & Hnew2 & Hadd).
  cbv zeta in Hnew2, Hadd. set (s2 := mkOvsWorld w (owLoops s1)).
  set (new := mkAcl u (Z.max 0 (aclPriority x)) _ _ _ _) in Hnew2, Hadd.
  exists (errs ++ logged r), s2. split; [unfold createAcl, mbind, M_bind; rewrite (onOvs_run _ _ _ _ Hrun); reflexivity|].
  clear Hrun. assert (new = mkAcl u (aclPriority x) (aclDirection x) (aclMatch x) (aclAction x) (aclLog x)) as Hnew.
  { unfold new. by rewrite Z.max_r. }
  assert (aclKey new = aclKey x) as Hkey by (by rewrite Hnew).
  assert (∀ a, acl s2 a → acl s1 a ∨ a = new) as Hin2 by done.
  assert (aclForm new) as Hnewform.
  { by rewrite Hnew. }
  assert (∀ a, acl s1 a → aclKey a ≠ aclKey x) as Hno1.
  { intros a [Ha|Ha]%Hnew1; [by apply Hno|]. intros Heq. rewrite Heq in Ha. rewrite Hl, fmap_app, fmap_cons in Hnd.
    apply NoDup_app in Hnd as (_ & Hnd & _). apply (Hnd _ Ha). left. }
  split_and!.
  - done.
  - destruct Haok1 as [Hf1 Hu1]. split; [by intros a [?| ->]%Hin2; [apply Hf1|]|].
    intros a b [Ha| ->]%Hin2 [Hb| ->]%Hin2 He1 He2 He3; [by apply Hu1| | |done].
    + destruct (Hno1 a Ha). rewrite <- Hkey. apply form_key; auto.
    + destruct (Hno1 b Hb). rewrite <- Hkey. symmetry. apply form_key; auto.
  - intros n. rewrite <- Hp1. apply (samePorts_hasPort lSwitch (owServer s1) w n Hp2).
  - intros a Ha. apply Hkeep2. by apply Hkeep1.
  - intros a [Ha| ->]%Hin2; [|right; rewrite Hkey, fmap_app; apply elem_of_app; right; left].
    destruct (Hnew1 a Ha); [by left|right]. rewrite fmap_app. apply elem_of_app. by left.
  - intros [-> Hr]%app_nil a [Ha|Ha%list_elem_of_singleton]%elem_of_app.
    + destruct (Hall1 eq_refl a Ha) as (b & Hb & Hk). exists b. split; [by apply Hkeep2|done].
    + subst a. exists new. split; [|done]. apply Hadd. destruct r as [e|[]]; [done|done].
Qed.

Lemma form_matches a b :
  aclForm a → aclMatches (aclDirection a) (aclPriority a) (aclMatch a) b = true ↔
  aclDirection b = aclDirection a ∧ aclPriority b = aclPriority a ∧ aclMatch b = aclMatch a.
Proof.
  intros (Hd & Hm & Hp & _). unfold aclMatches. rewrite bool_decide_eq_true. split.
  - intros ([?|?] & [?|?] & [?|?]); (done || lia).
  - intros (? & ? & ?). auto.
Qed.

(** The second loop: it leaves the lists whose keys are wanted. *)
Lemma remove_loop olds (wanted : list (Z * string * string * string)) errs0 s :
  ovnOK lSwitch (ovnOf s) → aclsOK s → (∀ a, a ∈ olds → aclForm a ∧ aclKey a ∉ wanted) →
  ∃ errs s', foldEach removeAcl errs0 olds s = Ok (errs, s') ∧ ovnOK lSwitch (ovnOf s') ∧ aclsOK s' ∧
    (∀ n, port s' n ↔ port s n) ∧ (∀ a, acl s' a → acl s a) ∧
    (∀ a, acl s a → aclKey a ∈ wanted → acl s' a) ∧
    (errs = [] → errs0 = [] ∧ ∀ a, acl s' a → aclKey a ∉ aclKey <$> olds).
Proof.
  intros Hok Haok Holds.
  apply (foldEach_run (λ seen errs s', ovnOK lSwitch (ovnOf s') ∧ aclsOK s' ∧
    (∀ n, port s' n ↔ port s n) ∧ (∀ a, acl s' a → acl s a) ∧
    (∀ a, acl s a → aclKey a ∈ wanted → acl s' a) ∧
    (errs = [] → errs0 = [] ∧ ∀ a, acl s' a → aclKey a ∉ aclKey <$> seen)) removeAcl olds errs0 s).
  2: { split_and!; try done. intros ->. split; [done|]. intros a _. by intros ?%not_elem_of_nil. }
  intros x seen rest errs s1 Hl (Hok1 & Haok1 & Hp1 & Hsub1 & Hkeep1 & Hgone1).
  destruct (Holds x) as (Hform & Hno); [rewrite Hl; apply elem_of_app; right; left|].
  destruct (DeleteACL_run lSwitch (aclDirection x) (aclPriority x) (aclMatch x) (owServer s1) Hok1)
    as (r & w & Hrun & Hok2 & Hp2 & Hsub2 & Hkeep2 & Hgone2).
  set (s2 := mkOvsWorld w (owLoops s1)).
  exists (errs ++ logged r), s2. split; [unfold removeAcl, mbind, M_bind; rewrite (onOvs_run _ _ _ _ Hrun); reflexivity|].
  clear Hrun. assert (∀ a, acl s1 a → aclMatches (aclDirection x) (aclPriority x) (aclMatch x) a = true → aclKey a = aclKey x) as Hkey.
  { intros a Ha (H1 & H2 & H3)%form_matches; [|done]. apply form_key; [by apply Haok1|done..]. }
  split_and!.
  - done.
  - destruct Haok1 as [Hf1 Hu1]. split; [intros a Ha%Hsub2; by apply Hf1|]. intros a b Ha%Hsub2 Hb%Hsub2. by apply Hu1.
  - intros n. rewrite <- Hp1. apply (samePorts_hasPort lSwitch (owServer s1) w n Hp2).
  - intros a Ha%Hsub2. by apply Hsub1.
  - intros a Ha Hw. apply Hkeep2; [|by apply Hkeep1]. apply not_true_is_false. intros Hm.
    apply Hno. by rewrite <- (Hkey a (Hkeep1 a Ha Hw) Hm).
  - intros [-> Hr]%app_nil. destruct (Hgone1 eq_refl) as [-> Hseen]. split; [done|]. intros a Ha.
    rewrite fmap_app. intros [Hin|Hin%list_elem_of_singleton]%elem_of_app; [by apply (Hseen a); [apply Hsub2|]|].
    destruct r as [e|[]]; [done|]. pose proof (Hgone2 eq_refl a Ha) as Hf. apply not_true_iff_false in Hf. apply Hf.
    apply form_matches; [done|]. by apply key_inj in Hin.
Qed.

Lemma Open_run w : ∃ ok w', Open w = Ok (ok, w') ∧ ovDb w' = ovDb w.
Proof.
  unfold Open, onServer. pose proof (ov_connect w) as Hc. destruct (ovsConnect w) as [ok w']. by exists ok, w'.
Qed.

(** The keys that the policy asks for. *)
Definition wantedKeys (connections : list Connection) (labels : list Label) (containers : list Container)
    (k : Z * string * string * string) : Prop :=
  k ∈ aclKey <$> dropAcls ∨
  ∃ m, m ∈ matchSet connections labels containers ∧ k ∈ aclKey <$> allowAcls m.

Lemma wantedAcls_keys matches k :
  k ∈ aclKey <$> wantedAcls matches ↔ k ∈ aclKey <$> dropAcls ∨ ∃ m, m ∈ matches ∧ k ∈ aclKey <$> allowAcls m.
Proof.
  rewrite list_elem_of_fmap. setoid_rewrite wantedAcls_elem. split.
  - intros (a & -> & [Ha|(m & Hm & Ha)]); [left|right; exists m; split; [done|]]; by apply list_elem_of_fmap_2.
  - intros [(a & -> & Ha)%list_elem_of_fmap|(m & Hm & (a & -> & Ha)%list_elem_of_fmap)]; eauto 6.
Qed.

Lemma rangeKeys_run (m : gset string) (s : ovsWorld W) :
  ∃ l s', rangeKeys m s = Ok (l, s') ∧ owServer s' = owServer s ∧ NoDup l ∧ ∀ x, x ∈ l ↔ x ∈ m.
Proof.
  eexists _, _. split; [reflexivity|]. split; [done|].
  assert ((rangeOrder (owLoops s) (gset_to_gmap tt m)).*1 ≡ₚ elements m) as Hp.
  { rewrite rangeOrder_perm. apply NoDup_Permutation; [apply NoDup_fst_map_to_list|apply NoDup_elements|]. intros x.
    rewrite elem_of_elements, list_elem_of_fmap. split.
    - intros ([y []] & -> & Hy%elem_of_map_to_list). by apply lookup_gset_to_gmap_Some in Hy as [? _].
    - intros Hx. exists (x, tt). split; [done|]. apply elem_of_map_to_list. by apply lookup_gset_to_gmap_Some. }
  split; [rewrite Hp; apply NoDup_elements|]. intros x. rewrite Hp. apply elem_of_elements.
Qed.

Lemma updateACLs_run connections labels containers s :
  ovnOK lSwitch (ovnOf s) → aclsOK s →
  ∃ errs s', updateACLs connections labels containers s = Ok (errs, s') ∧ ovnOK lSwitch (ovnOf s') ∧ aclsOK s' ∧
    (∀ n, port s' n ↔ port s n) ∧
    (errs = [] → ∀ k, (∃ a, acl s' a ∧ aclKey a = k) ↔ wantedKeys connections labels containers k).
Proof.
  intros Hok Haok. unfold updateACLs. destruct (Open_run (owServer s)) as (ok & w0 & Hopen & Hdb0).
  unfold mbind at 1, M_bind at 1. rewrite (onOvs_run _ _ _ _ Hopen). set (s0 := mkOvsWorld w0 (owLoops s)).
  assert (ovnOf s0 = ovnOf s) as Heq0 by (unfold ovnOf, s0; cbn; by rewrite Hdb0).
  assert (∀ a, acl s0 a ↔ acl s a) as Ha0 by (intros a; unfold acl; by rewrite Heq0).
  assert (∀ n, port s0 n ↔ port s n) as Hp0 by (intros n; unfold port; by rewrite Heq0).
  assert (aclsOK s0) as Haok0 by (unfold aclsOK; setoid_rewrite Ha0; exact Haok).
  rewrite <- Heq0 in Hok. clear Haok Hopen.
  destruct ok; [|by exists [OvsError], s0].
  destruct (ListACLs_run lSwitch w0 Hok) as (listed & w1 & Hlist & Hst & Hl). unfold mbind at 1, M_bind at 1.
  rewrite (onOvs_run _ s0 _ _ Hlist). set (s1 := mkOvsWorld w1 (owLoops s0)).
  assert (∀ a, acl s1 a ↔ acl s0 a) as Ha1 by (intros a; apply (steady_hasAcl lSwitch w0 w1 a Hst)).
  assert (∀ n, port s1 n ↔ port s n) as Hp1 by (intros n; rewrite <- Hp0; apply (steady_hasPort lSwitch w0 w1 n Hst)).
  assert (aclsOK s1) as Haok1 by (unfold aclsOK; setoid_rewrite Ha1; exact Haok0).
  destruct Hst as (Hok1 & _). clear Hlist.
  destruct listed as [e|ovs]; [by exists [e], s1|]. destruct (Hl ovs eq_refl) as [Hndu Hovs].
  destruct (rangeKeys_run (matchSet connections labels containers) s1) as (ms & s2 & Hms & Hsrv & Hndm & Hinm).
  unfold mbind at 1, M_bind at 1. rewrite Hms. fold (wantedAcls ms). cbv zeta. clear Hms.
  assert (ovnOf s2 = ovnOf s1) as Heq2 by (unfold ovnOf; by rewrite Hsrv).
  assert (∀ a, acl s2 a ↔ a ∈ ovs) as Ha2 by (intros a; rewrite Hovs; unfold acl in *; rewrite Heq2; apply Ha1).
  assert (∀ n, port s2 n ↔ port s n) as Hp2 by (intros n; rewrite <- Hp1; unfold port; by rewrite Heq2).
  assert (aclsOK s2) as Haok2 by (unfold aclsOK, acl in *; by rewrite Heq2).
  assert (ovnOK lSwitch (ovnOf s2)) as Hok2 by (rewrite Heq2; exact Hok1). clear Hok1 Ha0 Ha1 Hp0 Hp1 Haok0 Haok1 Hovs Heq0 Heq2 Hsrv.
  assert (NoDup (aclKey <$> ovs)) as Hndk.
  { apply NoDup_fmap_2_strong; [|by apply (NoDup_fmap_1 aclUUID)]. intros a b Ha%Ha2 Hb%Ha2 (? & ? & ?)%key_inj.
    by apply (proj2 Haok2). }
  set (j := Join aclScore (wantedAcls ms) ovs).
  assert (∀ l r, l ∈ wantedAcls ms → r ∈ ovs → 0 ≤ aclScore l r ↔ aclKey l = aclKey r) as Hscore.
  { intros l r _ _. unfold aclScore. case_decide; split; intros; (lia || done). }
  pose proof (wantedAcls_NoDup ms Hndm) as Hndw.
  pose proof (λ k, scoredJoin_lonelyLefts aclKey aclKey aclScore _ _ Hscore k Hndw) as Hleft.
  pose proof (λ k, scoredJoin_lonelyRights aclKey aclKey aclScore _ _ Hscore k Hndk) as Hright. fold j in Hleft, Hright.
  destruct (create_loop (lonelyLefts j) s2) as (errs & s3 & Hc & Hok3 & Haok3 & Hp3 & Hkeep3 & Hnew3 & Hall3).
  { done. }
  { done. }
  { pose proof (Join_left_keys aclKey aclScore (wantedAcls ms) ovs) as Hk. rewrite <- Hk in Hndw. by apply NoDup_app in Hndw as (_ & _ & ?). }
  { intros a Ha. assert (a ∈ wantedAcls ms) as Haw by by apply (Join_lonely_elems aclScore (wantedAcls ms) ovs a a).
    destruct (wantedAcls_form ms a) as [? ?]; [intros m Hm%Hinm; by apply matchSet_text in Hm|done|]. split_and!; [done..|].
    intros b Hb%Ha2 Heq. apply (list_elem_of_fmap_2 aclKey) in Ha, Hb. apply Hleft in Ha as [_ Hno]. by rewrite Heq in Hb. }
  destruct (remove_loop (lonelyRights j) (aclKey <$> wantedAcls ms) errs s3)
    as (errs' & s4 & Hr & Hok4 & Haok4 & Hp4 & Hsub4 & Hkeep4 & Hgone4).
  { done. }
  { done. }
  { intros a Ha. assert (a ∈ ovs) as Hao by by apply (Join_lonely_elems aclScore (wantedAcls ms) ovs a a).
    split; [by apply Haok2, Ha2|]. apply (list_elem_of_fmap_2 aclKey) in Ha. by apply Hright in Ha as [_ ?]. }
  exists errs', s4. split; [unfold mbind, M_bind; by rewrite Hc, Hr|]. split_and!; [done|done|intros n; by rewrite Hp4, Hp3|].
  intros Herrs k. destruct (Hgone4 Herrs) as [-> Hgone]. specialize (Hall3 eq_refl).
  assert (wantedKeys connections labels containers k ↔ k ∈ aclKey <$> wantedAcls ms) as ->.
  { rewrite wantedAcls_keys. unfold wantedKeys. by setoid_rewrite Hinm. }
  split.
  - intros (a & Ha & <-). pose proof (Hsub4 a Ha) as Ha3. destruct (Hnew3 a Ha3) as [Hold|Hk]; [|by apply Hleft in Hk as [? _]].
    destruct (decide (aclKey a ∈ aclKey <$> wantedAcls ms)) as [|Hno]; [done|]. destruct (Hgone a Ha).
    apply Hright. split; [|done]. by apply list_elem_of_fmap_2, Ha2.
  - intros Hk. destruct (decide (k ∈ aclKey <$> ovs)) as [(a & -> & Ha)%list_elem_of_fmap|Hno].
    + exists a. split; [|done]. apply Hkeep4; [|done]. by apply Hkeep3, Ha2.
    + assert (k ∈ aclKey <$> lonelyLefts j) as (a & -> & Ha)%list_elem_of_fmap by by apply Hleft.
      destruct (Hall3 a Ha) as (b & Hb & Heq). exists b. split; [|done]. apply Hkeep4; [done|]. by rewrite Heq.
Qed.

End Acls.

Section Ports.
Context {W : Type} `{OvsServer W, !OvsLaws W, !OvnSchema W} `{MapRange}.

(** A port that is wanted is not garbage, and exists. *)
Definition ensurePort (name mac ip : string) (acc : gset string * list ovsErr)
    : M Empty_set (ovsWorld W) (gset string * list ovsErr) :=
  let '(garbage, errs) := acc in
  if decide (name ∈ garbage) then mret (garbage ∖ {[name]}, errs)
  else r ← onOvs (CreatePort lSwitch name mac ip); mret (garbage, errs ++ logged r).

(** What the two loops keep: [seen] are the names so far, [garbage0] the ports that
    there were. *)
Definition portsInv (s : ovsWorld W) (garbage0 : gset string) (seen : list string)
    (acc : gset string * list ovsErr) (s' : ovsWorld W) : Prop :=
  ovnOK lSwitch (ovnOf s') ∧ (∀ a, acl s' a ↔ acl s a) ∧ (∀ n, port s n → port s' n) ∧
  (∀ n, port s' n → port s n ∨ n ∈ seen) ∧ acc.1 = garbage0 ∖ list_to_set seen ∧
  (acc.2 = [] → ∀ n, n ∈ seen → port s' n).

Lemma ensurePort_run s garbage0 seen acc s1 name mac ip :
  (∀ n, n ∈ garbage0 → port s n) → portsInv s garbage0 seen acc s1 →
  ∃ acc' s', ensurePort name mac ip acc s1 = Ok (acc', s') ∧ portsInv s garbage0 (seen ++ [name]) acc' s'.
Proof.
  intros Hg (Hok & Ha & Hkeep & Hnew & Hgarb & Hall). destruct acc as [garbage errs]. cbn [fst snd] in Hgarb, Hall.
  unfold ensurePort. case_decide as Hin.
  - exists (garbage ∖ {[name]}, errs), s1. split; [done|]. unfold portsInv. cbn [fst snd]. split_and!; try done.
    + intros n Hn. destruct (Hnew n Hn); [by left|right]. apply elem_of_app. by left.
    + rewrite Hgarb. clear. set_solver.
    + intros He n [Hn|Hn%list_elem_of_singleton]%elem_of_app; [by apply Hall|]. subst n. apply Hkeep, Hg.
      rewrite Hgarb in Hin. by apply elem_of_difference in Hin as [? _].
  - destruct (CreatePort_run lSwitch name mac ip (owServer s1) Hok) as (r & w & Hrun & Hok2 & Ha2 & Hkeep2 & Hnew2 & Hadd).
    set (s2 := mkOvsWorld w (owLoops s1)). exists (garbage, errs ++ logged r), s2.
    split; [unfold mbind, M_bind; rewrite (onOvs_run _ _ _ _ Hrun); reflexivity|]. clear Hrun.
    unfold portsInv. cbn [fst snd]. split_and!.
    + done.
    + intros a. rewrite <- Ha. apply (sameAcls_hasAcl lSwitch (owServer s1) w a Ha2).
    + intros n Hn. by apply Hkeep2, Hkeep.
    + intros n [Hn| ->]%Hnew2; [|right; apply elem_of_app; right; left].
      destruct (Hnew n Hn); [by left|right]. apply elem_of_app. by left.
    + rewrite Hgarb in *. clear -Hin. set_solver.
    + intros [-> Hr]%app_nil n [Hn|Hn%list_elem_of_singleton]%elem_of_app; [by apply Hkeep2, Hall|]. subst n.
      apply Hadd. by destruct r as [e|[]].
Qed.

(** The names of the ports that the leader wants. *)
Definition labelNames (labels : list Label) : list string :=
  labelLabel <$> base.filter (λ l, labelMultiHost l = true) labels.

Lemma label_loop s garbage0 seen acc s1 labels :
  (∀ n, n ∈ garbage0 → port s n) → portsInv s garbage0 seen acc s1 →
  ∃ acc' s', foldEach labelPort acc labels s1 = Ok (acc', s') ∧
    portsInv s garbage0 (seen ++ labelNames labels) acc' s'.
Proof.
  intros Hg HI. apply (foldEach_run (λ ls acc s', portsInv s garbage0 (seen ++ labelNames ls) acc s') labelPort).
  - intros x ls rest acc1 s2 _ HI1. destruct (labelMultiHost x) eqn:Hmh.
    + destruct (ensurePort_run s garbage0 (seen ++ labelNames ls) acc1 s2 (labelLabel x) labelMac (labelIP x) Hg HI1)
        as (acc2 & s3 & Hrun & HI2).
      exists acc2, s3. split; [unfold labelPort; rewrite Hmh; by destruct acc1|].
      unfold labelNames in *. rewrite filter_app, filter_cons_True by done. rewrite fmap_app. by rewrite app_assoc.
    + exists acc1, s2. split; [unfold labelPort; rewrite Hmh; by destruct acc1|].
      unfold labelNames in *. rewrite filter_app, filter_cons_False by congruence. by rewrite app_nil_r.
  - by rewrite app_nil_r.
Qed.

Lemma container_loop s garbage0 seen acc s1 containers :
  (∀ n, n ∈ garbage0 → port s n) → portsInv s garbage0 seen acc s1 →
  ∃ acc' s', foldEach containerPort acc containers s1 = Ok (acc', s') ∧
    portsInv s garbage0 (seen ++ (containerSchedID <$> containers)) acc' s'.
Proof.
  intros Hg HI.
  apply (foldEach_run (λ cs acc s', portsInv s garbage0 (seen ++ (containerSchedID <$> cs)) acc s') containerPort).
  - intros x cs rest acc1 s2 _ HI1.
    destruct (ensurePort_run s garbage0 _ acc1 s2 (containerSchedID x) (containerMac x) (containerIP x) Hg HI1)
      as (acc2 & s3 & Hrun & HI2).
    exists acc2, s3. split; [exact Hrun|]. by rewrite fmap_app, app_assoc.
  - by rewrite app_nil_r.
Qed.

(** The last loop. *)
Lemma garbage_loop names errs0 s :
  ovnOK lSwitch (ovnOf s) →
  ∃ errs s', foldEach dropPort errs0 names s = Ok (errs, s') ∧ ovnOK lSwitch (ovnOf s') ∧ (∀ a, acl s' a ↔ acl s a) ∧
    (∀ n, port s' n → port s n) ∧ (∀ n, n ∉ names → port s n → port s' n) ∧
    (errs = [] → errs0 = [] ∧ ∀ n, n ∈ names → ¬ port s' n).
Proof.
  intros Hok. apply (foldEach_run (λ seen errs s', ovnOK lSwitch (ovnOf s') ∧ (∀ a, acl s' a ↔ acl s a) ∧
    (∀ n, port s' n → port s n) ∧ (∀ n, n ∉ seen → port s n → port s' n) ∧
    (errs = [] → errs0 = [] ∧ ∀ n, n ∈ seen → ¬ port s' n)) dropPort names errs0 s).
  2: { split_and!; try done. intros ->. split; [done|]. intros n Hn. by apply not_elem_of_nil in Hn. }
  intros x seen rest errs s1 _ (Hok1 & Ha1 & Hsub1 & Hkeep1 & Hgone1).
  destruct (DeletePort_run lSwitch x (owServer s1) Hok1) as (r & w & Hrun & Hok2 & Ha2 & Hsub2 & Hkeep2 & Hgone2).
  set (s2 := mkOvsWorld w (owLoops s1)). exists (errs ++ logged r), s2.
  split; [unfold dropPort, mbind, M_bind; rewrite (onOvs_run _ _ _ _ Hrun); reflexivity|]. clear Hrun. split_and!.
  - done.
  - intros a. rewrite <- Ha1. apply (sameAcls_hasAcl lSwitch (owServer s1) w a Ha2).
  - intros n Hn%Hsub2. by apply Hsub1.
  - intros n [Hn Hx]%not_elem_of_app Hp. apply Hkeep2; [|by apply Hkeep1]. intros ->. by apply Hx, list_elem_of_singleton.
  - intros [-> Hr]%app_nil. destruct (Hgone1 eq_refl) as [-> Hg]. split; [done|].
    intros n [Hn|Hn%list_elem_of_singleton]%elem_of_app Hp; [by apply (Hg n Hn), Hsub2|]. subst n.
    destruct r as [e|[]]; [done|]. by apply Hgone2.
Qed.

(** The whole configuration. *)
Lemma configureOVN_run labels containers connections s :
  ovnOK lSwitch (ovnOf s) → aclsOK s →
  ∃ errs s', configureOVN labels containers connections s = Ok (errs, s') ∧ ovnOK lSwitch (ovnOf s') ∧ aclsOK s' ∧
    (errs = [] →
     (∀ n, port s' n ↔ n ∈ labelNames labels ++ (containerSchedID <$> containers)) ∧
     ∀ k, (∃ a, acl s' a ∧ aclKey a = k) ↔ wantedKeys connections labels containers k).
Proof.
  intros Hok Haok. unfold configureOVN. destruct (Open_run (owServer s)) as (ok & w0 & Hopen & Hdb0).
  unfold mbind at 1, M_bind at 1. rewrite (onOvs_run _ _ _ _ Hopen). set (s0 := mkOvsWorld w0 (owLoops s)).
  assert (ovnOf s0 = ovnOf s) as Heq0 by (unfold ovnOf, s0; cbn; by rewrite Hdb0).
  assert (ovnOK lSwitch (ovnOf s0)) as Hok0 by by rewrite Heq0.
  assert (aclsOK s0) as Haok0 by (unfold aclsOK, acl in *; by rewrite Heq0). clear Hopen.
  destruct ok; [|by exists [OvsError], s0].
  destruct (CreateSwitch_run lSwitch w0 Hok0) as (r1 & w1 & Hsw & Hst1). unfold mbind at 1, M_bind at 1.
  rewrite (onOvs_run _ s0 _ _ Hsw). set (s1 := mkOvsWorld w1 (owLoops s0)). clear Hsw.
  destruct (ListPorts_run lSwitch w1) as (r2 & w2 & Hlp & Hst2 & Hports); [apply Hst1|]. unfold mbind at 1, M_bind at 1.
  rewrite (onOvs_run _ s1 _ _ Hlp). set (s2 := mkOvsWorld w2 (owLoops s1)). clear Hlp.
  assert (∀ a, acl s2 a ↔ acl s0 a) as Ha2.
  { intros a. apply (steady_hasAcl lSwitch w0 w2). by apply (steady_trans lSwitch w0 w1 w2). }
  assert (aclsOK s2) as Haok2 by (unfold aclsOK; setoid_rewrite Ha2; exact Haok0).
  assert (ovnOK lSwitch (ovnOf s2)) as Hok2 by apply Hst2.
  destruct r2 as [e|lports]; [by exists [e], s2|]. specialize (Hports lports eq_refl).
  set (g0 := list_to_set (lportName <$> lports) : gset string).
  assert (∀ n, n ∈ g0 ↔ port s2 n) as Hg0.
  { intros n. unfold g0. rewrite elem_of_list_to_set, Hports. symmetry. by apply (steady_hasPort lSwitch w1 w2). }
  assert (portsInv s2 g0 [] (g0, []) s2) as HI0.
  { unfold portsInv. cbn [fst snd]. split_and!; try done; [by left|clear; set_solver|]. intros _ n Hn. by apply not_elem_of_nil in Hn. }
  destruct (label_loop s2 g0 [] (g0, []) s2 labels) as (acc3 & s3 & H3 & HI3); [by intros n; apply Hg0|done|].
  destruct (container_loop s2 g0 (labelNames labels) acc3 s3 containers) as ([garbage errs4] & s4 & H4 & HI4); [by intros n; apply Hg0|done|].
  unfold mbind at 1, M_bind at 1. rewrite H3. unfold mbind at 1, M_bind at 1. rewrite H4. clear H3 H4 HI3 HI0.
  cbn [app] in HI4. set (names := labelNames labels ++ (containerSchedID <$> containers)) in *.
  destruct HI4 as (Hok4 & Ha4 & Hkeep4 & Hnew4 & Hgarb4 & Hall4). cbn [fst snd] in Hgarb4, Hall4.
  destruct (rangeKeys_run garbage s4) as (gl & s5 & Hgl & Hsrv5 & _ & Hingl).
  unfold mbind at 1, M_bind at 1. rewrite Hgl. clear Hgl.
  assert (ovnOf s5 = ovnOf s4) as Heq5 by (unfold ovnOf; by rewrite Hsrv5).
  destruct (garbage_loop gl errs4 s5) as (errs6 & s6 & H6 & Hok6 & Ha6 & Hsub6 & Hkeep6 & Hgone6); [by rewrite Heq5|].
  unfold mbind at 1, M_bind at 1. rewrite H6. clear H6.
  assert (∀ n, port s5 n ↔ port s4 n) as Hp5 by (intros n; unfold port; by rewrite Heq5).
  assert (∀ a, acl s6 a ↔ acl s2 a) as Ha26.
  { intros a. rewrite Ha6, <- Ha4. unfold acl. by rewrite Heq5. }
  assert (aclsOK s6) as Haok6 by (unfold aclsOK; setoid_rewrite Ha26; exact Haok2).
  destruct (updateACLs_run connections labels containers s6 Hok6 Haok6) as (errs7 & s7 & H7 & Hok7 & Haok7 & Hp7 & Hacl7).
  unfold mbind, M_bind. rewrite H7. clear H7. exists (errs6 ++ errs7), s7. split; [done|]. split; [done|]. split; [done|].
  intros [-> ->]%app_nil. destruct (Hgone6 eq_refl) as [-> Hgone]. specialize (Hall4 eq_refl). split; [|by apply Hacl7].
  intros n. rewrite Hp7. split.
  - intros Hn. destruct (decide (n ∈ names)) as [|Hno]; [done|]. exfalso. apply (Hgone n); [|done].
    apply Hingl. rewrite Hgarb4. apply elem_of_difference. split; [|by rewrite elem_of_list_to_set].
    apply Hsub6, Hp5, Hnew4 in Hn as [Hn|]; [by apply Hg0|done].
  - intros Hn. apply Hkeep6; [|by apply Hp5, Hall4]. intros Hg%Hingl. rewrite Hgarb4 in Hg.
    apply elem_of_difference in Hg as [_ Hg]. by rewrite elem_of_list_to_set in Hg.
Qed.

End Ports.

Section Run.
Context {W : Type} `{OvsServer W, !OvsLaws W, !OvnSchema W} `{MapRange}.

(** The rows of a table that a check accepts. *)
Definition selected {R} `{Db.Row R} (check : R → bool) (db : Database) : list R :=
  base.filter (λ r, check r = true) (map_to_list (rows (getTable (R := R) db))).*2.

Lemma select_selected {R} `{RowLaws R, !RowFrame R} (check : option (R → bool)) db :
  ∃ l, SelectFrom check db = Ok (l, countLoop db) ∧ l ≡ₚ selected (checkRow check) db.
Proof.
  destruct (SelectFrom check db) as [[l db']| | |] eqn:Hs; [|discriminate Hs..].
  pose proof (SelectFrom_Ok check db l db' Hs) as [-> _]. exists l. split; [done|]. by apply (SelectFrom_perm check db l _ Hs).
Qed.

Lemma selected_countLoop {R} `{RowLaws R, !RowFrame R} (check : R → bool) db : selected check (countLoop db) = selected check db.
Proof. unfold selected. by rewrite getTable_countLoop. Qed.

Lemma masterTxn_run db :
  ∃ etcds labels containers connections db', masterTxn db = Ok ((etcds, labels, containers, connections), db') ∧
    etcds ≡ₚ selected (λ _, true) db ∧ labels ≡ₚ selected wantsLabel db ∧
    containers ≡ₚ selected wantsContainer db ∧ connections ≡ₚ selected (λ _, true) db.
Proof.
  destruct (select_selected (R := Etcd) None db) as (etcds & H1 & Hp1).
  destruct (select_selected (R := Label) (Some wantsLabel) (countLoop db)) as (labels & H2 & Hp2).
  destruct (select_selected (R := Container) (Some wantsContainer) (countLoop (countLoop db))) as (containers & H3 & Hp3).
  destruct (select_selected (R := Connection) None (countLoop (countLoop (countLoop db)))) as (connections & H4 & Hp4).
  rewrite !selected_countLoop in *. exists etcds, labels, containers, connections. eexists.
  split; [|by split_and!]. unfold masterTxn, mbind, M_bind. by rewrite H1, H2, H3, H4.
Qed.


End Run.

(** ** Witnesses: the server of [RefServer], with the defaults of OVN's schema *)

Module OvnDemo.

#[local] Existing Instance mapToListRange.

Definition defaults (_ table : string) : srow :=
  if decide (table = LS) then {["ports"%string := refSet ∅; "acls"%string := refSet ∅]} else ∅.

#[local] Instance server : OvsServer RefServer.server := RefServer.refServer defaults.
#[local] Instance laws : OvsLaws RefServer.server := RefServer.refLaws defaults.
#[local] Instance schema : OvnSchema RefServer.server.
Proof. by split. Qed.

(** An OVN without switches, and one in which two leaders have created the same list. *)
Definition empty : ovsWorld RefServer.server := mkOvsWorld (RefServer.mkServer ∅ 0) 0.

Lemma empty_ok : ovnOK lSwitch (ovnOf empty).
Proof.
  assert (ovnOf empty = ∅) as -> by reflexivity.
  split; [split|]; intros *; rewrite ?lookup_empty; try done.
Qed.

Lemma empty_acls : aclsOK empty.
Proof.
  assert (∀ a, ¬ acl empty a) as Hno.
  { intros a (pr & (u & r & ps & Hr & _) & _). assert (ovnOf empty = ∅) as Heq by reflexivity. by rewrite Heq in Hr. }
  split; [by intros a Ha%Hno|by intros a b Ha%Hno].
Qed.

Definition createTwice : M Empty_set RefServer.server unit :=
  _ ← CreateSwitch lSwitch;
  _ ← CreateACL lSwitch "to-lport" 0 "ip" "drop" false;
  _ ← CreateACL lSwitch "to-lport" 0 "ip" "drop" false;
  _ ← CreateACL lSwitch "from-lport" 0 "ip" "drop" false;
  mret tt.

Definition twice : ovsWorld RefServer.server :=
  mkOvsWorld (finalState (RefServer.mkServer ∅ 0) (createTwice (RefServer.mkServer ∅ 0))) 0.

(** The keys that [ListACLs] returns. *)
Definition listedKeys (s : ovsWorld RefServer.server) : list (Z * string * string * string) :=
  match ListACLs lSwitch (owServer s) with Ok (inr l, _) => aclKey <$> l | _ => [] end.

Definition leader : Etcd := mkEtcd 1 None true "10.9.0.1".
Definition web : Container :=
  mkContainer 2 7 "10.0.0.2" "02:00:0a:00:00:02" "c1" "nginx" None (Some ["web"%string]) None None.
Definition dbLabel : Label := mkLabel 3 "db" "10.1.0.1" true.
Definition conn : Connection := mkConnection 4 "web" "db" 80 80.

Definition database0 : Database :=
  setTable (mkTable {[1 := leader]} ∅ 0 0) (setTable (mkTable {[2 := web]} ∅ 0 0)
    (setTable (mkTable {[3 := dbLabel]} ∅ 0 0) (setTable (mkTable {[4 := conn]} ∅ 0 0)
      (setIdAlloc 4 newDatabase)))).

End OvnDemo.


(** When two leaders have created the same access control list, the next run of
    [updateACLs] deletes it, without an error, although the policy wants it: the second
    copy matches no list of the policy, and [DeleteACL] deletes both. *)
Theorem duplicate_acl_lost :
  count_occ (prod_eq_dec) (OvnDemo.listedKeys OvnDemo.twice) (0, "to-lport", "drop", "ip")%string = 2%nat ∧
  ∃ s', updateACLs (H := OvnDemo.server) (H0 := mapToListRange) [] [] [] OvnDemo.twice = Ok ([], s') ∧
    (0, "to-lport", "drop", "ip")%string ∉ OvnDemo.listedKeys s'.
Proof.
  split; [vm_compute; reflexivity|]. eexists. split; [vm_compute; reflexivity|].
  apply (bool_decide_unpack _). vm_compute. exact I.
Qed.
