(* ===== verification/Regexp.v ===== *)
(** * Regular expressions

    The part of Go's [regexp] that the network worker uses: leftmost-first matching,
    with greedy repetition and capturing groups, over the characters of a string. *)

From stdpp Require Import base gmap list strings.
From Stdlib Require Import ZArith Lia.
From S2P Require Import Prelude.

Abbreviation text := (list Ascii.ascii).
Definition chars : string → text := String.list_ascii_of_string.
Definition unchars : text → string := String.string_of_list_ascii.

Inductive regexp : Type :=
| Chr (p : Ascii.ascii → bool)
| Seq (a b : regexp)
| Alt (a b : regexp)
| Star (a : regexp)
| Group (n : nat) (a : regexp).

(** ** Classes of characters *)

Definition between (lo hi : nat) (c : Ascii.ascii) : bool :=
  let n := Ascii.nat_of_ascii c in (lo <=? n)%nat && (n <=? hi)%nat.

Definition isUpper : Ascii.ascii → bool := between 65 90.
Definition isDigit : Ascii.ascii → bool := between 48 57.
Definition isWord (c : Ascii.ascii) : bool :=
  isDigit c || isUpper c || between 97 122 c || between 95 95 c.
(** Tab, newline, form feed, carriage return and space. *)
Definition isSpace (c : Ascii.ascii) : bool :=
  between 9 10 c || between 12 13 c || between 32 32 c.
Definition notNewline (c : Ascii.ascii) : bool := negb (between 10 10 c).

(** ** Derived expressions *)

Definition lit (c : Ascii.ascii) : regexp := Chr (λ d, bool_decide (c = d)).
Definition plus (a : regexp) : regexp := Seq a (Star a).

(** A sequence of characters, in front of an expression. *)
Fixpoint litStr (s : text) (k : regexp) : regexp :=
  match s with [] => k | c :: s' => Seq (lit c) (litStr s' k) end.

(** From one to [n] times. *)
Fixpoint upTo (n : nat) (a : regexp) : regexp :=
  match n with
  | O | 1%nat => a
  | S n' => Alt (Seq a (upTo n' a)) a
  end.

(** ** Matching *)

Abbreviation groups := (gmap nat text).

(** The iterations of a star that the matcher [m] makes, none of them empty; the length
    of the text is enough fuel. *)
Fixpoint starF {A} (m : text → groups → (text → groups → option A) → option A) (n : nat) (s : text)
    (caps : groups) (k : text → groups → option A) : option A :=
  match n with
  | O => k s caps
  | S n' =>
      match m s caps (λ s' caps', if (length s' <? length s)%nat then starF m n' s' caps' k else None) with
      | Some x => Some x
      | None => k s caps
      end
  end.

(** [matchRe r s caps k]: [r] at the beginning of [s], and [k] after it; the first way
    that succeeds. *)
Fixpoint matchRe {A} (r : regexp) (s : text) (caps : groups) (k : text → groups → option A) : option A :=
  match r with
  | Chr p => match s with c :: s' => if p c then k s' caps else None | [] => None end
  | Seq a b => matchRe a s caps (λ s' caps', matchRe b s' caps' k)
  | Alt a b => match matchRe a s caps k with Some x => Some x | None => matchRe b s caps k end
  | Star a => starF (matchRe a) (length s) s caps k
  | Group n a =>
      matchRe a s caps (λ s' caps', k s' (<[n := take (length s - length s') s]> caps'))
  end.

(** A match: the text before it, the text matched, its groups and the text after it. *)
Record found : Type := mkFound {
  fBefore : text;
  fText : text;
  fGroups : groups;
  fAfter : text
}.

Definition matchHere (r : regexp) (before s : text) : option found :=
  matchRe r s ∅ (λ s' caps, Some (mkFound before (take (length s - length s') s) caps s')).

(** The leftmost match. *)
Fixpoint findFrom (r : regexp) (before s : text) : option found :=
  match matchHere r before s with
  | Some f => Some f
  | None => match s with [] => None | c :: s' => findFrom r (before ++ [c]) s' end
  end.

Definition find (r : regexp) (s : text) : option found := findFrom r [] s.

(** [FindAll]: the matches from left to right that do not overlap, none of them empty;
    every one is at least one character long, so that the length of the text is enough
    fuel. *)
Fixpoint findAllF (fuel : nat) (r : regexp) (s : text) : list found :=
  match fuel with
  | O => []
  | S fuel' =>
      match find r s with
      | Some f => if decide (fText f = []) then [] else f :: findAllF fuel' r (fAfter f)
      | None => []
      end
  end.

Definition findAll (r : regexp) (s : text) : list found := findAllF (length s) r s.

(** [Split]: the texts around the matches. *)
Fixpoint splitF (fuel : nat) (r : regexp) (s : text) : list text :=
  match fuel with
  | O => [s]
  | S fuel' =>
      match find r s with
      | Some f => if decide (fText f = []) then [s] else fBefore f :: splitF fuel' r (fAfter f)
      | None => [s]
      end
  end.

Definition split (r : regexp) (s : text) : list text := splitF (length s) r s.

(** The text of a group of a match. *)
Definition group (f : found) (n : nat) : string := unchars (default [] (fGroups f !! n)).

(** ** Functions of [strings] *)

(** [strings.TrimSpace], on ASCII. *)
Definition trimChar (c : Ascii.ascii) : bool := isSpace c || between 11 11 c.

Fixpoint dropWhile (p : Ascii.ascii → bool) (s : text) : text :=
  match s with [] => [] | c :: s' => if p c then dropWhile p s' else s end.

Definition trimBoth (p : Ascii.ascii → bool) (s : text) : text :=
  reverse (dropWhile p (reverse (dropWhile p s))).

Definition trimSpace (s : string) : string := unchars (trimBoth trimChar (chars s)).

(** [strings.Trim] with one character to cut. *)
Definition trimOf (c : Ascii.ascii) (s : string) : string :=
  unchars (trimBoth (λ d, bool_decide (c = d)) (chars s)).

(** [strings.Fields]. *)
Fixpoint fieldsF (cur : text) (s : text) : list text :=
  match s with
  | [] => match cur with [] => [] | _ => [cur] end
  | c :: s' =>
      if trimChar c then match cur with [] => fieldsF [] s' | _ => cur :: fieldsF [] s' end
      else fieldsF (cur ++ [c]) s'
  end.

Definition fields (s : string) : list string := unchars <$> fieldsF [] (chars s).

(** ** Lemmas *)

(** Facts about classes of characters, from their codes. *)
Ltac char_class :=
  unfold notNewline, trimChar, isSpace, isWord, isUpper, isDigit, between in *;
  repeat match goal with
  | H : context [(_ <=? _)%nat] |- _ => revert H
  end;
  repeat match goal with
  | |- context [(?a <=? ?b)%nat] => destruct (Nat.leb_spec a b)
  end; cbn; (done || lia).

Section MatchLemmas.
Context {A : Type}.
Implicit Types k : text → groups → option A.

Lemma matchRe_ext r s caps k1 k2 :
  (∀ s' caps', k1 s' caps' = k2 s' caps') → matchRe r s caps k1 = matchRe r s caps k2.
Proof.
  revert s caps k1 k2. induction r as [p|a IHa b IHb|a IHa b IHb|a IHa|n a IHa]; intros s caps k1 k2 Hk; cbn [matchRe].
  - destruct s; [done|]. by destruct (p a).
  - apply IHa. intros. by apply IHb.
  - rewrite (IHa s caps k1 k2 Hk). by rewrite (IHb s caps k1 k2 Hk).
  - generalize (length s) as n. intros n. revert s caps. induction n as [|n IHn]; intros s caps; cbn [starF]; [done|].
    rewrite (IHa s caps _ (λ s' caps', if (length s' <? length s)%nat then starF (matchRe a) n s' caps' k2 else None)).
    + by rewrite Hk.
    + intros s' caps'. destruct (_ <? _)%nat; [apply IHn|done].
  - apply IHa. intros. apply Hk.
Qed.

(** Nothing matches when nothing may follow. *)
Lemma matchRe_none r s caps k : (∀ s' caps', k s' caps' = None) → matchRe r s caps k = None.
Proof.
  revert s caps k. induction r as [p|a IHa b IHb|a IHa b IHb|a IHa|n a IHa]; intros s caps k Hk; cbn [matchRe].
  - destruct s; [done|]. by destruct (p a).
  - apply IHa. intros. by apply IHb.
  - by rewrite IHa, IHb.
  - generalize (length s) as n. intros n. revert s caps. induction n as [|n IHn]; intros s caps; cbn [starF]; [done|].
    rewrite IHa; [done|]. intros s' caps'. by destruct (_ <? _)%nat.
  - by apply IHa.
Qed.

(** The fuel of a star is enough. *)
Lemma starF_fuel r n s caps k :
  (length s ≤ n)%nat → starF (matchRe r) (S n) s caps k = starF (matchRe r) n s caps k.
Proof.
  revert s caps. induction n as [|n IH]; intros s caps Hn.
  - destruct s; [|cbn in Hn; lia]. cbn [starF]. by rewrite matchRe_none.
  - change (starF (matchRe r) (S (S n)) s caps k) with
      (match matchRe r s caps (λ s' caps', if (length s' <? length s)%nat then starF (matchRe r) (S n) s' caps' k else None) with
       | Some x => Some x | None => k s caps end).
    change (starF (matchRe r) (S n) s caps k) with
      (match matchRe r s caps (λ s' caps', if (length s' <? length s)%nat then starF (matchRe r) n s' caps' k else None) with
       | Some x => Some x | None => k s caps end).
    erewrite matchRe_ext; [reflexivity|]. intros s' caps'. cbn beta.
    destruct (Nat.ltb_spec (length s') (length s)); [|done]. apply IH. lia.
Qed.

Lemma starF_length r n s caps k :
  (length s ≤ n)%nat → starF (matchRe r) n s caps k = starF (matchRe r) (length s) s caps k.
Proof.
  intros Hn. induction Hn as [|n Hn IH]; [done|]. by rewrite starF_fuel.
Qed.

(** One iteration, or none. *)
Lemma matchRe_star r s caps k :
  matchRe (Star r) s caps k =
  match matchRe r s caps (λ s' caps', if (length s' <? length s)%nat then matchRe (Star r) s' caps' k else None) with
  | Some x => Some x
  | None => k s caps
  end.
Proof.
  cbn [matchRe]. rewrite <- (starF_fuel r (length s) s caps k) by done. cbn [starF].
  erewrite matchRe_ext; [reflexivity|]. intros s' caps'. cbn beta. destruct (Nat.ltb_spec (length s') (length s)); [|done].
  apply starF_length. lia.
Qed.

(** A class, repeated: a word of the class, if nothing matches after a part of it. *)
Section Class.
Context (p : Ascii.ascii → bool).

Definition stops (t : text) : Prop := ∀ c t', t = c :: t' → p c = false.

Lemma star_nil caps k : matchRe (Star (Chr p)) [] caps k = k [] caps.
Proof. done. Qed.

Lemma star_cons c s caps k :
  matchRe (Star (Chr p)) (c :: s) caps k =
  if p c then match matchRe (Star (Chr p)) s caps k with Some x => Some x | None => k (c :: s) caps end
  else k (c :: s) caps.
Proof.
  rewrite matchRe_star. cbn [matchRe length]. rewrite (proj2 (Nat.ltb_lt _ _)) by lia. by destruct (p c).
Qed.

Lemma plus_cons c s caps k :
  matchRe (plus (Chr p)) (c :: s) caps k = if p c then matchRe (Star (Chr p)) s caps k else None.
Proof. done. Qed.

Lemma star_stop t caps k : stops t → matchRe (Star (Chr p)) t caps k = k t caps.
Proof. intros Ht. destruct t as [|c t]; [done|]. by rewrite star_cons, (Ht c t). Qed.

Lemma star_word w t caps k :
  Forall (λ c, p c = true) w → stops t → (∀ w1 w2, w = w1 ++ w2 → w2 ≠ [] → k (w2 ++ t) caps = None) →
  matchRe (Star (Chr p)) (w ++ t) caps k = k t caps.
Proof.
  intros Hw Ht. induction Hw as [|c w Hc Hw IH]; intros Hk; [by apply star_stop|].
  cbn [app]. rewrite star_cons, Hc, IH.
  - destruct (k t caps); [done|]. by apply (Hk [] (c :: w)).
  - intros w1 w2 -> Hne. by apply (Hk (c :: w1) w2).
Qed.

(** The first of the ways that succeed is the longest. *)
Lemma star_greedy w t caps k x :
  Forall (λ c, p c = true) w → stops t → k t caps = Some x → matchRe (Star (Chr p)) (w ++ t) caps k = Some x.
Proof.
  intros Hw Ht Hk. induction Hw as [|c w Hc Hw IH]; [by rewrite star_stop|].
  cbn [app]. by rewrite star_cons, Hc, IH.
Qed.

(** All of a text, if what follows accepts its end. *)
Lemma star_all w caps k x :
  Forall (λ c, p c = true) w → k [] caps = Some x → matchRe (Star (Chr p)) w caps k = Some x.
Proof. intros Hw Hk. rewrite <- (app_nil_r w). by apply star_greedy. Qed.

Lemma plus_word w t caps k :
  w ≠ [] → Forall (λ c, p c = true) w → stops t →
  (∀ w1 w2, w = w1 ++ w2 → w1 ≠ [] → w2 ≠ [] → k (w2 ++ t) caps = None) →
  matchRe (plus (Chr p)) (w ++ t) caps k = k t caps.
Proof.
  intros Hne Hw Ht Hk. destruct Hw as [|c w Hc Hw]; [done|]. cbn [app]. rewrite plus_cons, Hc.
  apply star_word; [done..|]. intros w1 w2 -> Hne2. by apply (Hk (c :: w1) w2).
Qed.

(** A single character of the class. *)
Lemma plus_one c t caps k : p c = true → stops t → matchRe (plus (Chr p)) (c :: t) caps k = k t caps.
Proof. intros Hc Ht. rewrite plus_cons, Hc. by apply star_stop. Qed.

Lemma plus_greedy w t caps k x :
  w ≠ [] → Forall (λ c, p c = true) w → stops t → k t caps = Some x →
  matchRe (plus (Chr p)) (w ++ t) caps k = Some x.
Proof.
  intros Hne Hw Ht Hk. destruct Hw as [|c w Hc Hw]; [done|]. cbn [app]. rewrite plus_cons, Hc. by apply star_greedy.
Qed.

(** Nothing matches when nothing may follow any end of the text. *)
Lemma star_none s caps k :
  (∀ w s', s = w ++ s' → k s' caps = None) → matchRe (Star (Chr p)) s caps k = None.
Proof.
  induction s as [|c s IH]; intros Hk; [by apply (Hk [])|]. rewrite star_cons.
  rewrite (Hk [] (c :: s)) by done. destruct (p c); [|done]. rewrite IH; [done|]. intros w s' ->. by apply (Hk (c :: w)).
Qed.

Lemma plus_none s caps k :
  (∀ w s', s = w ++ s' → k s' caps = None) → matchRe (plus (Chr p)) s caps k = None.
Proof.
  intros Hk. destruct s as [|c s]; [done|]. rewrite plus_cons. destruct (p c); [|done]. apply star_none.
  intros w s' ->. by apply (Hk (c :: w)).
Qed.

Lemma plus_stop t caps k : stops t → matchRe (plus (Chr p)) t caps k = None.
Proof. intros Ht. destruct t as [|c t]; [done|]. by rewrite plus_cons, (Ht c t). Qed.

End Class.

End MatchLemmas.

Lemma take_before (w t : text) : take (length (w ++ t) - length t) (w ++ t) = w.
Proof. rewrite length_app, Nat.add_sub. apply take_app_length. Qed.

Lemma chars_app a b : chars (a ++ b)%string = chars a ++ chars b.
Proof. induction a as [|c a IH]; [done|]. rewrite string_app_cons. cbn. by rewrite IH. Qed.

Lemma unchars_chars s : unchars (chars s) = s.
Proof. apply String.string_of_list_ascii_of_string. Qed.

Lemma chars_unchars t : chars (unchars t) = t.
Proof. apply String.list_ascii_of_string_of_list_ascii. Qed.

Lemma chars_inj a b : chars a = chars b → a = b.
Proof. intros Heq. by rewrite <- (unchars_chars a), Heq, unchars_chars. Qed.

(** A text that does not begin or end with what is to be cut. *)
Lemma dropWhile_stops p s : stops p s → dropWhile p s = s.
Proof. intros Hs. destruct s as [|c s]; [done|]. cbn. by rewrite (Hs c s). Qed.

Lemma trimBoth_stops p s : stops p s → stops p (reverse s) → trimBoth p s = s.
Proof. intros Hs Hr. unfold trimBoth. by rewrite (dropWhile_stops p s Hs), dropWhile_stops, reverse_involutive. Qed.

Lemma stops_Forall p s : Forall (λ c, p c = false) s → stops p s.
Proof. intros Hs c t ->. by inversion Hs. Qed.

Lemma trimBoth_Forall p s : Forall (λ c, p c = false) s → trimBoth p s = s.
Proof. intros Hs. apply trimBoth_stops; apply stops_Forall; [done|]. by apply Forall_reverse. Qed.
