(* ===== verification/Host.v ===== *)
(** * minion/network: links of the host

    Model of [src/minion/network/link.go] and of the helpers of
    [src/minion/network/worker.go] that run commands: virtual links, their addresses
    and their state, through the [ip] command. The host is the interface [Host]. *)

From stdpp Require Import base gmap list strings pretty.
From Stdlib Require Import ZArith Lia.
From S2P Require Import Prelude Docker DockerClient Regexp.

Local Open Scope Z_scope.

(** ** The host *)

(** What [cmd.Run] returns: the output, a non-zero exit code, or another error. *)
Inductive cmdResult : Type := Output (stdout : string) | ExitError | ExecError.

(** [os.Lstat] and [os.Stat]: not there, an error, or a file, which may be a link. *)
Inductive fileInfo : Type := NotExist | FileError | FileThere (symlink : bool).

(** Commands, files, and docker; [None] and [false] are errors. *)
Class Host (W : Type) : Type := {
  hostExec : list string → W → cmdResult * W;
  hostReadDir : string → W → option (list string) * W;
  hostLstat : string → W → fileInfo * W;
  hostStat : string → W → fileInfo * W;
  hostReadlink : string → W → (fileInfo + string) * W;
  hostRemove : string → W → bool * W;
  hostSymlink : string → string → W → bool * W;
  hostReadFile : string → W → option string * W;
  hostInterface : string → W → option bool * W;
  dockerExec : string → list string → W → option string * W;
  dockerList : string → W → option nat * W;
  dockerGet : string → string → W → option string * W;
  dockerPut : string → string → string → string → W → bool * W
}.

(** The world of the worker: the host, and the number of loops over maps so far. *)
Record hostWorld (W : Type) : Type := mkHostWorld {
  hwHost : W;
  hwLoops : nat
}.
Arguments mkHostWorld {W} _ _.
Arguments hwHost {W} _.
Arguments hwLoops {W} _.

Definition nsPath : string := "/var/run/netns".
Definition innerVeth : string := "eth0".
Definition loopback : string := "lo".
Definition innerMTU : Z := 1450.

Definition space : Ascii.ascii := Ascii.ascii_of_nat 32.

(** A device: [netdev]. *)
Record netdev : Type := mkNetdev {
  ndName : string;
  ndUp : bool;
  ndPeerNS : string;
  ndPeerMTU : Z
}.

(** [strconv.Atoi]. *)
Fixpoint digits (acc : Z) (s : text) : option Z :=
  match s with
  | [] => Some acc
  | c :: s' => if isDigit c then digits (10 * acc + Z.of_nat (Ascii.nat_of_ascii c - 48)) s' else None
  end.

Definition atoi (s : string) : option Z :=
  let '(sign, ds) := match chars s with
                     | c :: s' => if between 45 45 c then (-1, s') else if between 43 43 c then (1, s') else (1, c :: s')
                     | [] => (1, [])
                     end in
  match ds with
  | [] => None
  | _ => n ← digits 0 ds; if decide (int64 (sign * n)) then Some (sign * n) else None
  end.

Section Links.
Context {W : Type} `{Host W}.

Abbreviation HW := (M Empty_set (hostWorld W)).

Definition onHost {A} (f : W → A * W) : HW A := λ s,
  let '(a, w) := f (hwHost s) in Ok (a, mkHostWorld w (hwLoops s)).

(** [shVerbose]: the words of the command. *)
Definition shVerbose (command : string) : HW cmdResult := onHost (hostExec (splitOn space command)).

(** [sh]: whether it succeeded. *)
Definition succeeded (r : cmdResult) : bool := match r with Output _ => true | _ => false end.
Definition sh (command : string) : HW bool := r ← shVerbose command; mret (succeeded r).

Definition ipExecVerbose (namespace command : string) : HW cmdResult :=
  let cmd := ("ip " ++ command)%string in
  shVerbose (if decide (namespace = ""%string) then cmd else ("ip netns exec " ++ namespace ++ " " ++ cmd)%string).

Definition ipExec (namespace command : string) : HW bool :=
  r ← ipExecVerbose namespace command; mret (succeeded r).

(** [out[0:n]]. *)
Definition prefixOf (n : nat) (s : string) : HW string :=
  if (String.length s <? n)%nat then panic "slice bounds out of range"
  else mret (String.substring 0 n s).

Definition tempVethPairName (out : string) : HW string :=
  p ← prefixOf 13 out; mret (p ++ "_i")%string.

(** ** Links; [None] is an error *)

Definition linkExists (namespace name : string) : HW (option bool) :=
  let cmd := ("ip link show " ++ name)%string in
  r ← shVerbose (if decide (namespace = ""%string) then cmd
                 else ("ip netns exec " ++ namespace ++ " " ++ cmd)%string);
  mret match r with
       | ExecError => None
       | ExitError => Some false
       | Output stdout => Some (bool_decide (stdout ≠ ""%string))
       end.

Definition linkDelete (namespace name : string) : HW bool := ipExec namespace ("link delete " ++ name).

(** The word after [query]. *)
Fixpoint wordAfter (query : string) (words : list string) : option string :=
  match words with
  | w :: words' => if decide (w = query) then head words' else wordAfter query words'
  | [] => None
  end.

Definition linkQuery (namespace name query : string) : HW (option string) :=
  r ← ipExecVerbose namespace ("link show " ++ name);
  mret match r with
       | Output stdout => wordAfter query (fields stdout)
       | _ => None
       end.

Definition getLinkMTU (namespace name : string) : HW (option Z) :=
  res ← linkQuery namespace name "mtu"; mret (res ≫= atoi).

Definition getMac (namespace dev : string) : HW (option string) := linkQuery namespace dev "link/ether".

Definition setMac (namespace dev mac : string) : HW bool :=
  ipExec namespace ("link set dev " ++ dev ++ " address " ++ mac).

Definition delVeth (config : netdev) : HW bool := linkDelete "" (ndName config).

(** The two steps of [modVeth] on the inner device: [false] ends it with an error. *)
Definition moveInner (tmpPeer peerNS : string) : HW bool :=
  ok ← linkExists "" tmpPeer;
  match ok with
  | None => mret false
  | Some true => ipExec "" ("link set " ++ tmpPeer ++ " netns " ++ peerNS)
  | Some false => mret true
  end.

Definition renameInner (tmpPeer peerNS : string) : HW bool :=
  ok ← linkExists peerNS tmpPeer;
  match ok with
  | None => mret false
  | Some there =>
      if decide (there = true ∧ tmpPeer ≠ innerVeth)
      then ipExec peerNS ("link set dev " ++ tmpPeer ++ " name " ++ innerVeth)
      else mret true
  end.

Definition setUpDown (target : netdev) : HW bool :=
  let state := if ndUp target then "up"%string else "down"%string in
  ok ← ipExec "" ("link set " ++ ndName target ++ " " ++ state);
  if ok : bool then ipExec (ndPeerNS target) ("link set " ++ innerVeth ++ " " ++ state) else mret false.

Definition modVeth (current target : netdev) : HW bool :=
  if decide (ndName current ≠ ndName target) then panic "unmatched veths, cannot modify"
  else
    tmpPeer ← tempVethPairName (ndName target);
    moved ← moveInner tmpPeer (ndPeerNS target);
    if negb moved then mret false else
    renamed ← renameInner tmpPeer (ndPeerNS target);
    if negb renamed then mret false else
    mtu ← (if decide (ndPeerMTU current = ndPeerMTU target) then mret true
           else ipExec (ndPeerNS target) ("link set dev " ++ innerVeth ++ " mtu " ++ pretty innerMTU));
    if negb mtu then mret false else
    if decide (ndUp current = ndUp target) then mret true else setUpDown target.

Definition addVeth (config : netdev) : HW bool :=
  tmpPeer ← tempVethPairName (ndName config);
  ok ← ipExec "" ("link add " ++ ndName config ++ " type veth peer name " ++ tmpPeer);
  if ok : bool then modVeth (mkNetdev (ndName config) false "" 0) config else mret false.

Definition vethRE : regexp :=
  Seq (plus (Chr isDigit)) (litStr (chars ": ")
    (Seq (Group 1 (plus (Chr isWord))) (litStr (chars "@") (Star (Chr notNewline))))).

(** A line of [ip link show type veth]: [None] is an error, [Some None] a line to skip. *)
Definition vethLine (line : string) : option (option string) :=
  match chars line with
  | c :: _ => if isSpace c then Some None
              else f ← matchHere vethRE [] (chars line); Some (Some (group f 1))
  | [] => None
  end.

Definition listVeths : HW (option (list string)) :=
  r ← ipExecVerbose "" "link show type veth";
  mret match r with
       | Output stdout => lines ← scanLines stdout; names ← mapM vethLine lines; Some (omap id names)
       | _ => None
       end.

Definition inetRE : regexp :=
  Seq (Alt (litStr (chars "ine") (lit (Ascii.ascii_of_nat 116))) (litStr (chars "inet") (lit (Ascii.ascii_of_nat 54))))
    (Seq (lit space) (Group 1 (plus (Chr (λ c, negb (isSpace c)))))).

Definition listIP (namespace dev : string) : HW (option (list string)) :=
  r ← ipExecVerbose namespace ("addr list dev " ++ dev);
  mret match r with
       | Output stdout => Some ((λ f, group f 1) <$> findAll inetRE (chars stdout))
       | _ => None
       end.

Definition addIP (namespace ip dev : string) : HW bool :=
  ipExec namespace ("addr add " ++ ip ++ " dev " ++ dev).
Definition delIP (namespace ip dev : string) : HW bool :=
  ipExec namespace ("addr del " ++ ip ++ " dev " ++ dev).

(** [^\d+:\s dev :\s<.*,UP.*>.*]. *)
Definition stateRE (dev : string) : regexp :=
  Seq (plus (Chr isDigit)) (litStr (chars ":") (Seq (Chr isSpace) (litStr (chars (dev ++ ":"))
    (Seq (Chr isSpace) (litStr (chars "<") (Seq (Star (Chr notNewline)) (litStr (chars ",UP")
      (Seq (Star (Chr notNewline)) (litStr (chars ">") (Star (Chr notNewline))))))))))).

Definition linkIsUp (namespace dev : string) : HW (option bool) :=
  r ← ipExecVerbose namespace ("link show " ++ dev);
  mret match r with
       | Output stdout => Some (bool_decide (is_Some (matchHere (stateRE dev) [] (chars stdout))))
       | _ => None
       end.

Definition upLink (namespace dev : string) : HW bool :=
  up ← linkIsUp namespace dev;
  match up with
  | None => mret false
  | Some true => mret true
  | Some false => ipExec namespace ("link set dev " ++ dev ++ " up")
  end.

End Links.
