(* ===== verification/WorkerRules.v ===== *)
(** * minion/network: the rules and the files of a worker

    Model of the part of [src/minion/network/worker.go] that computes what a worker
    must have, and that reads what it has: rules of [iptables], OpenFlow rules, and the
    hosts file of a container. *)

From stdpp Require Import base gmap list strings pretty.
From Stdlib Require Import ZArith Lia.
From S2P Require Import Prelude Util DbRows DslAst DockerClient Regexp Host NetStore NetMaster.

Local Open Scope Z_scope.
Local Open Scope string_scope.

Definition comma : Ascii.ascii := Ascii.ascii_of_nat 44.

(** ** Rules of iptables *)

Record ipRule : Type := mkIpRule {
  irCmd : string;
  irChain : string;
  irOpts : string
}.

#[global] Instance ipRule_eq_dec : EqDecision ipRule.
Proof. solve_decision. Defined.

(** [(-[A-Z]+)\s+([A-Z]+)]. *)
Definition cmdRE : regexp :=
  Seq (Group 1 (litStr (chars "-") (plus (Chr isUpper))))
    (Seq (plus (Chr isSpace)) (Group 2 (plus (Chr isUpper)))).

(** [-(?:[A-Z]+\s+)+[A-Z]+\s+(.* )]. *)
Definition optsRE : regexp :=
  litStr (chars "-") (Seq (plus (Seq (plus (Chr isUpper)) (plus (Chr isSpace))))
    (Seq (plus (Chr isUpper)) (Seq (plus (Chr isSpace)) (Group 1 (Star (Chr notNewline)))))).

(** [makeIPRule]; [None] is an error. *)
Definition makeIPRule (inputRule : string) : option ipRule :=
  cmdMatch ← find cmdRE (chars inputRule);
  let opts := match find optsRE (chars inputRule) with
              | Some optsMatch => trimSpace (group optsMatch 1)
              | None => ""
              end in
  Some (mkIpRule (trimSpace (group cmdMatch 1)) (trimSpace (group cmdMatch 2)) opts).

Definition baseRules : list string :=
  ["-P PREROUTING ACCEPT"; "-P INPUT ACCEPT"; "-P OUTPUT ACCEPT"; "-P POSTROUTING ACCEPT";
   "-A POSTROUTING -s 10.0.0.0/8 -o eth0 -j MASQUERADE"].

Definition protocols : list string := ["tcp"; "udp"].

(** The ports of each address on which it can receive packets from the internet. *)
Definition natPorts (containers : list Container) (connections : list Connection) : gmap string (gset Z) :=
  foldl (λ m dbc,
    foldl (λ m conn,
      if decide (connectionFrom conn ≠ PublicInternetLabel) then m
      else foldl (λ m l,
             if decide (connectionTo conn ≠ l) then m
             else <[containerIP dbc := {[connectionMinPort conn]} ∪ default ∅ (m !! containerIP dbc)]> m)
           m (elems (containerLabels dbc)))
      m connections)
    ∅ containers.

Definition dnatRule (ip : string) (port : Z) (protocol : string) : string :=
  "-A PREROUTING -i eth0 -p " ++ protocol ++ " -m " ++ protocol ++ " --dport " ++ pretty port ++
  " -j DNAT --to-destination " ++ ip ++ ":" ++ pretty port.

Definition natScore (left right : ipRule) : Z := if decide (left = right) then 0 else -1%Z.

(** ** OpenFlow rules *)

Record OFRule : Type := mkOFRule {
  ofTable : string;
  ofMatch : string;
  ofActions : string
}.

#[global] Instance OFRule_eq_dec : EqDecision OFRule.
Proof. solve_decision. Defined.

(** [table=\d+], [actions=(\S+)] and [\w+\([^\)]+\)]. *)
Definition tableRE : regexp := litStr (chars "table=") (plus (Chr isDigit)).
Definition actRE : regexp := litStr (chars "actions=") (Group 1 (plus (Chr (λ c, negb (isSpace c))))).
Definition funcRE : regexp :=
  Seq (plus (Chr isWord)) (litStr (chars "(")
    (Seq (plus (Chr (λ c, negb (between 41 41 c)))) (lit (Ascii.ascii_of_nat 41)))).

(** The actions of a rule: those without arguments, split at the commas, and those with
    arguments. *)
Definition actionList (actions : string) : list string :=
  let noFuncs := (trimOf comma ∘ unchars) <$> split funcRE (chars actions) in
  let argMatches := a ← noFuncs; if decide (a = "") then [] else splitOn comma a in
  argMatches ++ ((λ f, unchars (fText f)) <$> findAll funcRE (chars actions)).

(** The result of [makeOFRule]. *)
Inductive ofResult : Type := OFOk (r : OFRule) | OFError | OFPanic.

Definition makeOFRule (flowEntry : string) : ofResult :=
  match find tableRE (chars flowEntry) with
  | None => OFError
  | Some t =>
      match reverse (splitOn space flowEntry) with
      | actions :: amatch :: _ =>
          match find actRE (chars actions) with
          | None => OFError
          | Some a =>
              OFOk (mkOFRule (unchars (fText t))
                (joinOn comma (sortStrings (splitOn comma amatch)))
                (joinOn comma (sortStrings (actionList (group a 1)))))
          end
      | _ => OFPanic
      end
  end.

(** Ports of a container to and from the internet. *)
Definition webPorts (dbc : Container) (connections : list Connection) : gset Z * gset Z :=
  foldl (λ acc l,
    foldl (λ acc conn,
      if decide (connectionFrom conn = l ∧ connectionTo conn = PublicInternetLabel)
      then ({[connectionMinPort conn]} ∪ acc.1, acc.2)
      else if decide (connectionFrom conn = PublicInternetLabel ∧ connectionTo conn = l)
      then (acc.1, {[connectionMinPort conn]} ∪ acc.2)
      else acc) acc connections) (∅, ∅) (elems (containerLabels dbc)).

(** The rules of the ports of a container, for the orders [toWeb] and [fromWeb] of the
    loops over them. *)
Definition egressRule (ofVeth : Z) (gatewayMac protocol port : string) : string :=
  "table=0 priority=5000,in_port=" ++ pretty ofVeth ++ "," ++ protocol ++ "," ++ port ++
  ",dl_dst=" ++ gatewayMac ++ " actions=LOCAL".
Definition ingressRule (ofVeth : Z) (dbcMac protocol port : string) : string :=
  "table=0 priority=5000,in_port=LOCAL," ++ protocol ++ "," ++ port ++
  ",dl_dst=" ++ dbcMac ++ " actions=" ++ pretty ofVeth.

Definition portRules (ofVeth : Z) (gatewayMac dbcMac out back : string) (ports : list Z) : list string :=
  port ← ports; protocol ← protocols;
  [egressRule ofVeth gatewayMac protocol (out ++ "=" ++ pretty port);
   ingressRule ofVeth dbcMac protocol (back ++ "=" ++ pretty port)].

Definition containerRules (gatewayMac dbcMac : string) (ofDI ofVeth : Z) (toWeb fromWeb : list Z) : list string :=
  ["table=0 priority=5000,in_port=" ++ pretty ofDI ++ " actions=output:" ++ pretty ofVeth;
   "table=2 priority=5000,in_port=" ++ pretty ofVeth ++ " actions=output:" ++ pretty ofDI;
   "table=0 priority=0,in_port=" ++ pretty ofVeth ++ " actions=output:" ++ pretty ofDI] ++
  portRules ofVeth gatewayMac dbcMac "tp_src" "tp_dst" fromWeb ++
  portRules ofVeth gatewayMac dbcMac "tp_dst" "tp_src" toWeb ++
  (if decide (toWeb = [] ∧ fromWeb = []) then []
   else ["table=0 priority=5000,icmp,in_port=" ++ pretty ofVeth ++ ",dl_dst=" ++ gatewayMac ++ " actions=LOCAL";
         "table=0 priority=5000,icmp,in_port=LOCAL,dl_dst=" ++ dbcMac ++ " actions=output:" ++ pretty ofVeth]) ++
  (if decide (fromWeb = []) then []
   else ["table=0 priority=4500,arp,in_port=LOCAL,dl_dst=ff:ff:ff:ff:ff:ff actions=output:" ++ pretty ofVeth]) ++
  ["table=0 priority=4500,arp,in_port=" ++ pretty ofVeth ++ " actions=output:" ++
     (if decide (toWeb = [] ∧ fromWeb = []) then pretty ofDI else pretty ofDI ++ ",LOCAL");
   "table=0 priority=4500,arp,in_port=LOCAL,dl_dst=" ++ dbcMac ++ " actions=output:" ++ pretty ofVeth].

(** The addresses of the containers of each label. *)
Definition labelMacs (containers : list Container) : gmap string (gset string) :=
  foldl (λ m dbc, foldl (λ m l, <[l := {[containerMac dbc]} ∪ default ∅ (m !! l)]> m) m
                    (elems (containerLabels dbc))) ∅ containers.

(** [%x]. *)
Fixpoint hexDigits (fuel : nat) (n : Z) (acc : string) : string :=
  match fuel with
  | O => acc
  | S fuel' => if (n <? 16)%Z then String (hexChar n) acc
               else hexDigits fuel' (n / 16)%Z (String (hexChar (n mod 16)%Z) acc)
  end.
Definition hexString (n : Z) : string := hexDigits 16 n "".

(** The register of the [i]-th address: all but 0 have a prefix in the output of
    [dump-flows]. *)
Definition reg0 (i : nat) : string := (if decide (i = O) then "" else "0x") ++ hexString (Z.of_nat i).

(** The rules of a label with several containers, whose addresses are [macs]. The
    number of bits is [int(math.Ceil(math.Log2(float64(n))))]. *)
Definition labelRules (ip : string) (macs : gset string) : list string :=
  let n := Z.of_nat (size macs) in
  let lg2n := Z.log2_up n in
  let nxmRange := if decide (lg2n = 0%Z) then "0" else "0.." ++ pretty lg2n in
  let mpa := "multipath(symmetric_l3l4,0,modulo_n," ++ pretty n ++ ",0,NXM_NX_REG0[" ++ nxmRange ++ "])" in
  ("table=0 priority=4000,dl_dst=" ++ labelMac ++ ",ip,nw_dst=" ++ ip ++
   " actions=" ++ mpa ++ ",resubmit(,1)") ::
  imap (λ i mac, "table=1 priority=5000,ip,nw_dst=" ++ ip ++ ",reg0=" ++ reg0 i ++
                 " actions=mod_dl_dst:" ++ mac ++ ",resubmit(,2)")
    (sortStrings (elements macs)).

Definition labelFlows (containers : list Container) (labels : list Label) : list string :=
  label ← labels;
  let macs := default ∅ (labelMacs containers !! labelLabel label) in
  if decide (labelMultiHost label = true ∧ macs ≠ ∅) then labelRules (labelIP label) macs else [].

Definition flowScore (left right : OFRule) : Z := if decide (left = right) then 0 else -1%Z.

(** ** The hosts file *)

Definition localhosts : list (string * string) :=
  [("127.0.0.1", "localhost"); ("::1", "localhost ip6-localhost ip6-loopback"); ("fe00::0", "ip6-localnet");
   ("ff00::0", "ip6-mcastprefix"); ("ff02::1", "ip6-allnodes"); ("ff02::2", "ip6-allrouters")].

(** [%-15s]. *)
Fixpoint padRight (n : nat) (s : string) : string :=
  match n with
  | O => s
  | S n' => match s with
            | EmptyString => String space (padRight n' "")
            | String c s' => String c (padRight n' s')
            end
  end.

Definition hostsLine (entry : string * string) : string := padRight 15 entry.1 ++ " " ++ entry.2.

(** The set of entries of a container. *)
Definition hostsEntries (dbc : Container) (labelIP : gmap string string) (conns : gmap string (list string))
    : gset (string * string) :=
  let own := if decide (containerIP dbc ≠ "" ∧ containerSchedID dbc ≠ "")
             then [(containerIP dbc, ShortUUID (containerSchedID dbc))] else [] in
  list_to_set (localhosts ++ own) ∪
  list_to_set (
    l ← elems (containerLabels dbc); toLabel ← default [] (conns !! l);
    if decide (toLabel = PublicInternetLabel) then []
    else let ip := default "" (labelIP !! toLabel) in
         if decide (ip ≠ "") then [(ip, toLabel ++ ".di")] else []).

(** [generateEtcHosts]: the entries come in the order of a loop over a map, and are
    sorted. *)
Definition etcHosts (entries : list (string * string)) : string :=
  joinOn newline (sortStrings (hostsLine <$> entries)) ++ String newline "".

(** Labels that a label connects to. *)
Definition connMap (connections : list Connection) : gmap string (list string) :=
  foldl (λ m conn,
    if decide (connectionTo conn = PublicInternetLabel ∨ connectionFrom conn = PublicInternetLabel) then m
    else <[connectionFrom conn := (default [] (m !! connectionFrom conn) ++ [connectionTo conn])%list]> m) ∅ connections.
