(* ===== verification/Worker.v ===== *)
(** * minion/network: the worker

    Model of [src/minion/network/worker.go]: [runWorker] and the functions that bring
    the namespaces, links, NAT rules, switch ports, addresses, routes, OpenFlow rules
    and files of a worker's containers to what the database asks for. Errors are
    logged; [false] and [None] stand for them. *)

From stdpp Require Import base gmap list strings pretty.
From Stdlib Require Import ZArith Lia.
From S2P Require Import Prelude Join Util DbRows Db DslAst DockerClient Supervisor Ovsdb Regexp Host NetStore NetMaster WorkerRules.

Local Open Scope Z_scope.
Local Open Scope string_scope.

Record nsInfo : Type := mkNsInfo {
  niNS : string;
  niPid : Z
}.

Record route : Type := mkRoute {
  rtIP : string;
  rtDev : string;
  rtDefault : bool
}.

#[global] Instance route_eq_dec : EqDecision route.
Proof. solve_decision. Defined.

Record ovsPort : Type := mkOvsPort {
  opName : string;
  opBridge : string;
  opPatch : bool;
  opPeer : string;
  opAttachedMAC : string;
  opIfaceID : string
}.

Definition nsScore (left right : nsInfo) : Z := if decide (niNS left = niNS right) then 0 else -1.
Definition vethScore (left right : netdev) : Z := if decide (ndName left = ndName right) then 0 else -1.
Definition portScore (left right : ovsPort) : Z :=
  if decide (opName left = opName right ∧ opBridge left = opBridge right) then 0 else -1.
Definition ipScore (left right : string) : Z := if decide (left = right) then 0 else -1.
Definition routeScore (left right : route) : Z := if decide (left = right) then 0 else -1.

Section Worker.
Context {W : Type} `{Host W} `{OvsServer W} `{MapRange}.

Abbreviation HW := (M Empty_set (hostWorld W)).

(** A call of the client of OVSDB. *)
Definition onSwitch {A} (c : M Empty_set W A) : HW A := λ s,
  match c (hwHost s) with
  | Ok (a, w) => Ok (a, mkHostWorld w (hwLoops s))
  | Err e => Err e
  | Panic why => Panic why
  | OutOfFuel => OutOfFuel
  end.

(** A loop over a map, and one over a set. *)
Definition rangeHost {K V} `{Countable K} (m : gmap K V) : HW (list (K * V)) := λ s,
  Ok (rangeOrder (hwLoops s) m, mkHostWorld (hwHost s) (S (hwLoops s))).
Definition rangeSet {K} `{Countable K} (m : gset K) : HW (list K) :=
  entries ← rangeHost (gset_to_gmap tt m); mret entries.*1.

(** Names that are made of an identifier. *)
Definition networkNS (id : string) : HW string := p ← prefixOf 13 id; mret (p ++ "_ns").
Definition veths (id : string) : HW (string * string) := p ← prefixOf 13 id; mret (p ++ "_i", p ++ "_c").
Definition patchPorts (id : string) : HW (string * string) := p ← prefixOf 12 id; mret (p ++ "_br", p ++ "_di").

(** ** Namespaces *)

Fixpoint symlinks (files : list string) : HW (option (list nsInfo)) :=
  match files with
  | [] => mret (Some [])
  | file :: files' =>
      fi ← onHost (hostLstat (nsPath ++ "/" ++ file));
      match fi with
      | FileThere link =>
          rest ← symlinks files';
          mret ((λ infos, if link : bool then mkNsInfo file 0 :: infos else infos) <$> rest)
      | _ => mret None
      end
  end.

Definition generateCurrentNamespaces : HW (option (list nsInfo)) :=
  files ← onHost (hostReadDir nsPath);
  match files with None => mret None | Some files => symlinks files end.

Definition delNS (info : nsInfo) : HW bool := onHost (hostRemove (nsPath ++ "/" ++ niNS info)).

Definition addNS (info : nsInfo) : HW bool :=
  let netnsSrc := "/hostproc/" ++ pretty (niPid info) ++ "/ns/net" in
  let netnsDst := nsPath ++ "/" ++ niNS info in
  there ← onHost (hostStat netnsDst);
  ok ← (match there with
        | FileThere _ => onHost (hostRemove netnsDst)
        | NotExist => mret true
        | FileError => mret false
        end);
  if ok : bool then onHost (hostSymlink netnsSrc netnsDst) else mret false.

Definition updateNamespaces (containers : list Container) : HW unit :=
  target ← mapEach (λ dbc, ns ← networkNS (containerSchedID dbc); mret (mkNsInfo ns (containerPid dbc))) containers;
  current ← generateCurrentNamespaces;
  match current with
  | None => mret tt
  | Some current =>
      let j := Join nsScore current target in
      _ ← mapEach delNS (lonelyLefts j);
      _ ← mapEach addNS (lonelyRights j);
      mret tt
  end.

(** [namespaceExists]: the link must point to the process that the namespace is named
    after. *)
Definition namespaceExists (namespace : string) : HW (option bool) :=
  let nsFullPath := nsPath ++ "/" ++ namespace in
  file ← onHost (hostLstat nsFullPath);
  match file with
  | NotExist => mret (Some false)
  | FileError => mret None
  | FileThere false => mret (Some false)
  | FileThere true =>
      dst ← onHost (hostReadlink nsFullPath);
      mret match dst with
           | inl NotExist => Some false
           | inl _ => None
           | inr dst => Some (bool_decide (dst = "/hostproc/" ++ namespace ++ "/ns/net"))
           end
  end.

Definition updateLoopback (containers : list Container) : HW unit :=
  forEach (λ dbc, ns ← networkNS (containerSchedID dbc); _ ← upLink ns loopback; mret tt) containers.

(** ** Virtual links *)

Definition generateTargetVeths (containers : list Container) : HW (list netdev) :=
  mapEach (λ dbc,
    v ← veths (containerSchedID dbc); ns ← networkNS (containerSchedID dbc);
    mret (mkNetdev v.2 true ns innerMTU)) containers.

(** The namespace of the container whose outer device has the name. *)
Fixpoint peerOf (name : string) (containers : list Container) : HW string :=
  match containers with
  | [] => mret ""
  | dbc :: containers' =>
      v ← veths (containerSchedID dbc);
      if decide (v.2 = name) then networkNS (containerSchedID dbc) else peerOf name containers'
  end.

(** The MTU of the inner device; [None] is an error, which skips the device. *)
Definition peerMTU (ns : string) : HW (option Z) :=
  if decide (ns = "") then mret (Some 0)
  else
    there ← namespaceExists ns;
    match there with
    | None => mret None
    | Some false => mret (Some 0)
    | Some true =>
        lk ← linkExists ns innerVeth;
        match lk with
        | None => mret None
        | Some false => mret (Some 0)
        | Some true => getLinkMTU ns innerVeth
        end
    end.

Definition currentVeth (containers : list Container) (name : string) : HW (option netdev) :=
  iface ← onHost (hostInterface name);
  match iface with
  | None => mret None
  | Some up =>
      ns ← peerOf name containers;
      mtu ← peerMTU ns;
      mret ((λ mtu, mkNetdev name up ns mtu) <$> mtu)
  end.

Definition generateCurrentVeths (containers : list Container) : HW (option (list netdev)) :=
  names ← listVeths;
  match names with
  | None => mret None
  | Some names => devs ← mapEach (currentVeth containers) names; mret (Some (omap id devs))
  end.

Definition updateVeths (containers : list Container) : HW unit :=
  target ← generateTargetVeths containers;
  current ← generateCurrentVeths containers;
  match current with
  | None => mret tt
  | Some current =>
      let j := Join vethScore current target in
      _ ← mapEach delVeth (lonelyLefts j);
      _ ← mapEach addVeth (lonelyRights j);
      _ ← mapEach (λ p, modVeth p.1 p.2) (pairs j);
      mret tt
  end.

(** ** NAT *)

Definition generateCurrentNatRules : HW (option (list ipRule)) :=
  r ← shVerbose "iptables -t nat -S";
  mret match r with
       | Output stdout => lines ← scanLines stdout; mapM makeIPRule lines
       | _ => None
       end.

Definition generateTargetNatRules (containers : list Container) (connections : list Connection)
    : HW (list ipRule) :=
  ips ← rangeHost (natPorts containers connections);
  strs ← mapEach (λ p : string * gset Z,
    ports ← rangeSet p.2;
    mret (port ← ports; dnatRule p.1 port <$> protocols)) ips;
  match mapM makeIPRule (baseRules ++ mjoin strs)%list with
  | Some rules => mret rules
  | None => panic "malformed target NAT rule"
  end.

Definition deleteNatRule (rule : ipRule) : HW bool :=
  sh (if decide (irCmd rule = "-A") then "iptables -t nat -D " ++ irChain rule ++ " " ++ irOpts rule
      else if decide (irCmd rule = "-N") then "iptables -t nat -X " ++ irChain rule
      else "").

Definition addNatRule (rule : ipRule) : HW bool :=
  sh ("iptables -t nat -A " ++ irChain rule ++ " " ++ irOpts rule).

(** [updateNAT]; it returns whether all its commands succeeded. *)
Definition updateNAT (containers : list Container) (connections : list Connection) : HW bool :=
  target ← generateTargetNatRules containers connections;
  current ← generateCurrentNatRules;
  match current with
  | None => mret false
  | Some current =>
      let j := Join natScore current target in
      deleted ← mapEach deleteNatRule (lonelyLefts j);
      added ← mapEach addNatRule (lonelyRights j);
      mret (forallb id deleted && forallb id added)
  end.

(** ** Ports of the switches *)

Definition generateTargetPorts (containers : list Container) : HW (list ovsPort) :=
  ports ← mapEach (λ dbc,
    v ← veths (containerSchedID dbc); p ← patchPorts (containerSchedID dbc);
    mret [mkOvsPort v.2 diBridge false "" "" "";
          mkOvsPort p.2 diBridge true p.1 "" "";
          mkOvsPort p.1 ovnBridge true p.2 (containerMac dbc) (containerSchedID dbc)]) containers;
  mret (mjoin ports).

(** A field of the interface: an error other than a missing one ends the function. *)
Definition orMissing (r : ovsErr + string) : option string :=
  match r with
  | inr v => Some v
  | inl e => if IsExist e then Some "" else None
  end.

Definition populatePortConfig (bridge port : string) : HW (option ovsPort) :=
  iface ← onSwitch (GetDefaultOFInterface port);
  match iface with
  | inl _ => mret None
  | inr iface =>
      itype ← onSwitch (GetOFInterfaceType iface);
      match orMissing itype with
      | None => mret None
      | Some itype =>
          peer ← onSwitch (GetOFInterfacePeer iface);
          match orMissing peer with
          | None => mret None
          | Some peer =>
              mac ← onSwitch (GetOFInterfaceAttachedMAC iface);
              match orMissing mac with
              | None => mret None
              | Some mac =>
                  ifaceID ← onSwitch (GetOFInterfaceIfaceID iface);
                  mret ((λ ifaceID, mkOvsPort port bridge (bool_decide (itype = "patch")) peer mac ifaceID)
                          <$> orMissing ifaceID)
              end
          end
      end
  end.

(** A loop that ends with the first error. *)
Fixpoint collect {A B} (f : A → HW (option B)) (l : list A) : HW (option (list B)) :=
  match l with
  | [] => mret (Some [])
  | x :: l' =>
      r ← f x;
      match r with
      | None => mret None
      | Some y => rest ← collect f l'; mret (cons y <$> rest)
      end
  end.

Definition bridgePorts (bridge : string) : HW (option (list ovsPort)) :=
  ports ← onSwitch (ListOFPorts bridge);
  match ports with
  | inl _ => mret None
  | inr ports => collect (populatePortConfig bridge) ports
  end.

Definition generateCurrentPorts : HW (option (list ovsPort)) :=
  ports ← collect bridgePorts [diBridge; ovnBridge];
  mret ((λ l : list (list ovsPort), mjoin l) <$> (ports : option (list (list ovsPort)))).

Definition delPort (config : ovsPort) : HW (ovsErr + unit) :=
  onSwitch (DeleteOFPort (opBridge config) (opName config)).

Definition modPort (current target : ovsPort) : M Empty_set W (ovsErr + unit) :=
  _ ←? (if decide (opPatch current ≠ opPatch target ∧ opPatch target = true)
        then SetOFInterfaceType (opName target) "patch" else mret (inr tt));
  _ ←? (if decide (opPeer current ≠ opPeer target ∧ opPeer target ≠ "")
        then SetOFInterfacePeer (opName target) (opPeer target) else mret (inr tt));
  _ ←? (if decide (opAttachedMAC current ≠ opAttachedMAC target ∧ opAttachedMAC target ≠ "")
        then SetOFInterfaceAttachedMAC (opName target) (opAttachedMAC target) else mret (inr tt));
  if decide (opIfaceID current ≠ opIfaceID target ∧ opIfaceID target ≠ "")
  then SetOFInterfaceIfaceID (opName target) (opIfaceID target) else mret (inr tt).

Definition addPort (config : ovsPort) : M Empty_set W (ovsErr + unit) :=
  _ ←? CreateOFPort (opBridge config) (opName config);
  modPort (mkOvsPort (opName config) (opBridge config) false "" "" "") config.

Definition updatePorts (containers : list Container) : HW unit :=
  ok ← onSwitch Open;
  if ok : bool then
    target ← generateTargetPorts containers;
    current ← generateCurrentPorts;
    match current with
    | None => mret tt
    | Some current =>
        let j := Join portScore current target in
        _ ← mapEach delPort (base.filter (λ l, opName l ≠ opBridge l) (lonelyLefts j));
        _ ← mapEach (λ r, onSwitch (addPort r)) (lonelyRights j);
        _ ← mapEach (λ p, onSwitch (modPort p.1 p.2)) (pairs j);
        mret tt
    end
  else mret tt.

(** ** Addresses and routes *)

(** A loop that ends with the first failure. *)
Fixpoint allOk {A} (f : A → HW bool) (l : list A) : HW bool :=
  match l with
  | [] => mret true
  | x :: l' => ok ← f x; if ok : bool then allOk f l' else mret false
  end.

Definition updateIPs (namespace dev : string) (currIPs targetIPs : list string) : HW bool :=
  let j := Join ipScore currIPs targetIPs in
  ok ← allOk (λ ip, delIP namespace ip dev) (lonelyLefts j);
  if ok : bool then allOk (λ ip, addIP namespace ip dev) (lonelyRights j) else mret false.

Definition updateDefaultGw : HW unit :=
  ok ← onSwitch Open;
  if ok : bool then
    currMac ← getMac "" diBridge;
    match currMac with
    | None => mret tt
    | Some currMac =>
        _ ← (if decide (currMac = gatewayMAC) then mret (inr tt) else onSwitch (SetBridgeMac diBridge gatewayMAC));
        _ ← upLink "" diBridge;
        currIPs ← listIP "" diBridge;
        _ ← updateIPs "" diBridge (default [] currIPs) [gatewayIP ++ "/8"];
        mret tt
    end
  else mret tt.

(** The addresses of a container: its own, and those of its labels. *)
Definition containerIPs (labelIPs : gmap string string) (dbc : Container) : gset string :=
  {[containerIP dbc]} ∪
  list_to_set (l ← elems (containerLabels dbc);
               let newIP := default "" (labelIPs !! l) in if decide (newIP ≠ "") then [newIP] else []).

Definition updateContainerIP (labelIPs : gmap string string) (dbc : Container) : HW unit :=
  ns ← networkNS (containerSchedID dbc);
  currIPs ← listIP ns innerVeth;
  match currIPs with
  | None => mret tt
  | Some currIPs =>
      newIPs ← rangeSet (containerIPs labelIPs dbc);
      ok ← updateIPs ns innerVeth currIPs ((λ ip, ip ++ "/8") <$> newIPs);
      if ok : bool then
        currMac ← getMac ns innerVeth;
        match currMac with
        | None => mret tt
        | Some currMac =>
            if decide (currMac = containerMac dbc) then mret tt
            else _ ← setMac ns innerVeth (containerMac dbc); mret tt
        end
      else mret tt
  end.

Definition updateContainerIPs (containers : list Container) (labels : list Label) : HW unit :=
  forEach (updateContainerIP (labelIPMap labels)) containers.

(** [((?:[0-9]{1,3}\.){3}[0-9]{1,3}/[0-9]{1,2})\sdev\s(\S+)]. *)
Definition ipv4RE (k : regexp) : regexp :=
  let octet := upTo 3 (Chr isDigit) in let dot := lit (Ascii.ascii_of_nat 46) in
  Seq octet (Seq dot (Seq octet (Seq dot (Seq octet (Seq dot (Seq octet k)))))).
Definition nonSpaces : regexp := plus (Chr (λ c, negb (isSpace c))).
Definition routeRE : regexp :=
  Seq (Group 1 (ipv4RE (litStr (chars "/") (upTo 2 (Chr isDigit)))))
    (Seq (Chr isSpace) (litStr (chars "dev") (Seq (Chr isSpace) (Group 2 nonSpaces)))).
(** [default via ((?:[0-9]{1,3}\.){3}[0-9]{1,3}) dev (\S+)]. *)
Definition gwRE : regexp :=
  litStr (chars "default via ") (Seq (Group 1 (ipv4RE (Star (Chr (λ _, false)))))
    (litStr (chars " dev ") (Group 2 nonSpaces))).

Definition generateCurrentRoutes (namespace : string) : HW (option (list route)) :=
  r ← ipExecVerbose namespace "route show";
  mret match r with
       | Output stdout =>
           Some (((λ f, mkRoute (group f 1) (group f 2) false) <$> findAll routeRE (chars stdout)) ++
                 ((λ f, mkRoute (group f 1) (group f 2) true) <$> findAll gwRE (chars stdout)))%list
       | _ => None
       end.

Definition targetRoutes : list route :=
  [mkRoute "10.0.0.0/8" innerVeth false; mkRoute gatewayIP innerVeth true].

Definition addRoute (namespace : string) (r : route) : HW bool :=
  ipExec namespace (if rtDefault r then "route add default via " ++ rtIP r
                    else "route add " ++ rtIP r ++ " via " ++ rtDev r).

Definition deleteRoute (namespace : string) (r : route) : HW bool :=
  ipExec namespace (if rtDefault r then "route del default via " ++ rtIP r
                    else "route delete " ++ rtIP r ++ " via " ++ rtDev r).

Definition updateRoute (dbc : Container) : HW unit :=
  ns ← networkNS (containerSchedID dbc);
  current ← generateCurrentRoutes ns;
  match current with
  | None => mret tt
  | Some current =>
      let j := Join routeScore current targetRoutes in
      _ ← mapEach (deleteRoute ns) (lonelyLefts j);
      _ ← mapEach (addRoute ns) (lonelyRights j);
      mret tt
  end.

Definition updateRoutes (containers : list Container) : HW unit := forEach updateRoute containers.

(** ** OpenFlow *)

(** [makeOFRule] for every line; [None] is an error. *)
Fixpoint makeOFRules (lines : list string) : HW (option (list OFRule)) :=
  match lines with
  | [] => mret (Some [])
  | line :: lines' =>
      match makeOFRule line with
      | OFOk r => rest ← makeOFRules lines'; mret (cons r <$> rest)
      | OFError => mret None
      | OFPanic => panic "index out of range"
      end
  end.

Definition generateCurrentOpenFlow : HW (option (list OFRule)) :=
  out ← onHost (dockerExec Ovsvswitchd (splitOn space ("ovs-ofctl dump-flows " ++ diBridge)));
  match out ≫= scanLines with
  | None => mret None
  | Some lines => makeOFRules (trimSpace <$> tail lines)
  end.

(** The rules of one container. *)
Definition containerFlows (gatewayMac : string) (connections : list Connection) (dbc : Container)
    : HW (option (list string)) :=
  v ← veths (containerSchedID dbc);
  p ← patchPorts (containerSchedID dbc);
  ok ← onSwitch Open;
  if negb ok then mret None else
  ofDI ← onSwitch (GetOFPortNo p.2);
  match ofDI with
  | inl _ => mret None
  | inr ofDI =>
      ofVeth ← onSwitch (GetOFPortNo v.2);
      match ofVeth with
      | inl _ => mret None
      | inr ofVeth =>
          if decide (ofDI < 0 ∨ ofVeth < 0) then mret None else
          let '(toWeb, fromWeb) := webPorts dbc connections in
          fromWeb ← rangeSet fromWeb;
          toWeb ← rangeSet toWeb;
          mret (Some (containerRules gatewayMac (containerMac dbc) ofDI ofVeth toWeb fromWeb))
      end
  end.

Definition generateTargetOpenFlow (containers : list Container) (labels : list Label)
    (connections : list Connection) : HW (option (list OFRule)) :=
  gatewayMac ← getMac "" diBridge;
  flows ← collect (containerFlows (default "" gatewayMac) connections) containers;
  match flows with
  | None => mret None
  | Some flows => makeOFRules (mjoin flows ++ labelFlows containers labels)%list
  end.

Definition addOFRule (flow : OFRule) : HW bool :=
  r ← onHost (dockerExec Ovsvswitchd (splitOn space ("ovs-ofctl add-flow " ++ diBridge ++ " " ++
        ofTable flow ++ "," ++ ofMatch flow ++ ",actions=" ++ ofActions flow)));
  mret (bool_decide (is_Some r)).

Definition deleteOFRule (flow : OFRule) : HW bool :=
  r ← onHost (dockerExec Ovsvswitchd (splitOn space ("ovs-ofctl del-flows --strict " ++ diBridge ++ " " ++
        ofTable flow ++ "," ++ ofMatch flow)));
  mret (bool_decide (is_Some r)).

Definition updateOpenFlow (containers : list Container) (labels : list Label) (connections : list Connection)
    : HW unit :=
  target ← generateTargetOpenFlow containers labels connections;
  match target with
  | None => mret tt
  | Some target =>
      current ← generateCurrentOpenFlow;
      match current with
      | None => mret tt
      | Some current =>
          let j := Join flowScore current target in
          _ ← mapEach deleteOFRule (lonelyLefts j);
          _ ← mapEach addOFRule (lonelyRights j);
          mret tt
      end
  end.

(** ** Files of the containers *)

(** [nameserver\s([0-9]{1,3}\.){3}[0-9]{1,3}\s+]. *)
Definition nsRE : regexp :=
  litStr (chars "nameserver") (Seq (Chr isSpace) (ipv4RE (plus (Chr isSpace)))).

(** A container's file is written if it differs; the first file that cannot be read
    ends the loop. [false] is an error. *)
Fixpoint updateFiles (path dir name : string) (content : Container → HW string) (containers : list Container)
    : HW bool :=
  match containers with
  | [] => mret true
  | dbc :: containers' =>
      curr ← onHost (dockerGet (containerSchedID dbc) path);
      match curr with
      | None => mret false
      | Some curr =>
          new ← content dbc;
          ok ← (if decide (new = curr) then mret true
                else onHost (dockerPut (containerSchedID dbc) new dir name));
          rest ← updateFiles path dir name content containers';
          mret (ok && rest)
      end
  end.

Definition updateNameservers (containers : list Container) : HW bool :=
  hostResolv ← onHost (hostReadFile "/etc/resolv.conf");
  let matches := (λ f, unchars (fText f)) <$> findAll nsRE (chars (default "" hostResolv)) in
  updateFiles "/etc/resolv.conf" "/etc" "resolv.conf" (λ _, mret (joinOn newline matches)) containers.

Definition generateEtcHosts (labelIPs : gmap string string) (conns : gmap string (list string)) (dbc : Container)
    : HW string :=
  entries ← rangeSet (hostsEntries dbc labelIPs conns); mret (etcHosts entries).

Definition updateEtcHosts (containers : list Container) (labels : list Label) (connections : list Connection)
    : HW bool :=
  updateFiles "/etc/hosts" "/etc" "hosts" (generateEtcHosts (labelIPMap labels) (connMap connections)) containers.

(** ** The worker *)

Definition ovsdbIsRunning : HW bool :=
  required ← onHost (dockerList "ovs-vswitchd");
  mret match required with Some (S _) => true | _ => false end.

Definition workerTxn : DB (list Container * list Label * list Connection) :=
  containers ← SelectFrom (R := Container) (Some wantsContainer);
  labels ← SelectFrom (R := Label) (Some wantsLabel);
  connections ← SelectFrom (R := Connection) None;
  mret (containers, labels, connections).

Definition configureHost (containers : list Container) (labels : list Label) (connections : list Connection)
    : HW unit :=
  _ ← updateNamespaces containers;
  _ ← updateVeths containers;
  _ ← updateNAT containers connections;
  running ← ovsdbIsRunning;
  _ ← (if running : bool then updatePorts containers else mret tt);
  exists_ ← linkExists "" diBridge;
  _ ← (match exists_ with
       | Some true => _ ← updateDefaultGw; updateOpenFlow containers labels connections
       | _ => mret tt
       end);
  _ ← updateNameservers containers;
  _ ← updateContainerIPs containers labels;
  _ ← updateRoutes containers;
  _ ← updateEtcHosts containers labels connections;
  updateLoopback containers.

Definition runWorker : M Empty_set (Database * hostWorld W) unit :=
  minions ← onDb (Transact (SelectFrom (R := Minion) None));
  if match minions with [m] => bool_decide (minionRole m = DbRows.Worker) | _ => false end then
    '(containers, labels, connections) ← onDb (Transact workerTxn);
    inWorld (configureHost containers labels connections)
  else mret tt.

(** ** Lemmas *)

Lemma rangeSet_run {K} `{Countable K} (m : gset K) (s : hostWorld W) :
  ∃ l, rangeSet m s = Ok (l, mkHostWorld (hwHost s) (S (hwLoops s))) ∧ l ≡ₚ elements m.
Proof.
  eexists. split; [reflexivity|]. rewrite rangeOrder_perm, map_to_list_gset_to_gmap, <- list_fmap_compose.
  by rewrite (list_fmap_ext _ id), list_fmap_id.
Qed.

End Worker.
