(* ===== verification/WorkerHosts.v ===== *)
(** * minion/network: the hosts file of a container

    What [updateEtcHosts] and [updateNameservers] of [src/minion/network/worker.go]
    leave in the containers, for a docker daemon that keeps the files it is given. *)

From stdpp Require Import base gmap list strings sorting.
From Stdlib Require Import ZArith Lia.
From S2P Require Import Prelude Util DbRows DslAst DockerClient Ovsdb Regexp Host NetStore NetMaster WorkerRules Worker.

Local Open Scope string_scope.

(** A file that was put is there, and nothing else changes; what is read is what is
    there. *)
Class DockerFiles (W : Type) `{Host W} : Type := {
  containerFile : W → string → string → option string;
  get_file : ∀ id path w r w', dockerGet id path w = (r, w') →
    (∀ id' path', containerFile w' id' path' = containerFile w id' path') ∧
    (∀ text, r = Some text → containerFile w id path = Some text);
  put_file : ∀ id text dir name w ok w', dockerPut id text dir name w = (ok, w') →
    (∀ id' path', id' ≠ id ∨ path' ≠ dir ++ "/" ++ name → containerFile w' id' path' = containerFile w id' path') ∧
    (ok = true → containerFile w' id (dir ++ "/" ++ name) = Some text)
}.

(** ** The entries *)

(** Who an entry of the hosts file of [dbc] may be about: the host itself, the container,
    or a label that one of its labels connects to. *)
Inductive hostEntry (dbc : Container) (labels : list Label) (connections : list Connection)
    : string → string → Prop :=
| EntryLocal ip host : (ip, host) ∈ localhosts → hostEntry dbc labels connections ip host
| EntryOwn :
    containerIP dbc ≠ "" → containerSchedID dbc ≠ "" →
    hostEntry dbc labels connections (containerIP dbc) (ShortUUID (containerSchedID dbc))
| EntryLabel conn ip :
    conn ∈ connections → connectionFrom conn ∈ elems (containerLabels dbc) →
    connectionFrom conn ≠ PublicInternetLabel → connectionTo conn ≠ PublicInternetLabel →
    labelIPMap labels !! connectionTo conn = Some ip → ip ≠ "" →
    hostEntry dbc labels connections ip (connectionTo conn ++ ".di").

Lemma connMap_spec connections l to :
  to ∈ default [] (connMap connections !! l) ↔
  ∃ conn, conn ∈ connections ∧ connectionFrom conn = l ∧ connectionTo conn = to ∧
          l ≠ PublicInternetLabel ∧ to ≠ PublicInternetLabel.
Proof.
  unfold connMap. assert (∀ m : gmap string (list string),
    to ∈ default [] (foldl (λ m conn,
      if decide (connectionTo conn = PublicInternetLabel ∨ connectionFrom conn = PublicInternetLabel) then m
      else <[connectionFrom conn := (default [] (m !! connectionFrom conn) ++ [connectionTo conn])%list]> m)
      m connections !! l) ↔
    to ∈ default [] (m !! l) ∨ ∃ conn, conn ∈ connections ∧ connectionFrom conn = l ∧ connectionTo conn = to ∧
          l ≠ PublicInternetLabel ∧ to ≠ PublicInternetLabel) as Hgen; [|rewrite Hgen, lookup_empty; set_solver].
  induction connections as [|c cs IH]; intros m; cbn [foldl]; [set_solver|]. rewrite IH. clear IH.
  case_decide as Hpub; [|destruct (decide (connectionFrom c = l)) as [<-|Hne]].
  - set_solver.
  - rewrite lookup_insert_eq. simpl. rewrite elem_of_app, list_elem_of_singleton. set_solver.
  - rewrite lookup_insert_ne by done. set_solver.
Qed.

Lemma hostsEntries_spec dbc labels connections ip host :
  (ip, host) ∈ hostsEntries dbc (labelIPMap labels) (connMap connections) ↔
  hostEntry dbc labels connections ip host.
Proof.
  unfold hostsEntries. rewrite elem_of_union, !elem_of_list_to_set, elem_of_app. split.
  - intros [[Hl|Hown]|Hlab].
    + by apply EntryLocal.
    + case_decide as Hd; [|by apply not_elem_of_nil in Hown]. apply list_elem_of_singleton in Hown as [= -> ->].
      destruct Hd. by apply EntryOwn.
    + apply list_elem_of_bind in Hlab as (l & Hlab & Hl). apply list_elem_of_bind in Hlab as (to & Hin & Hto).
      apply connMap_spec in Hto as (conn & Hc & <- & <- & Hpub & Hpub'). rewrite decide_False in Hin by done.
      case_decide as Hip; [|by apply not_elem_of_nil in Hin]. apply list_elem_of_singleton in Hin as [= -> ->].
      destruct (labelIPMap labels !! connectionTo conn) as [ip'|] eqn:Hlk; [|done]. by eapply EntryLabel.
  - intros [ip' host' Hl|Hip Hid|conn ip' Hc Hl Hf Ht Hlk Hip]; [by left; left|left; right|right].
    + rewrite decide_True by done. by left.
    + apply list_elem_of_bind. exists (connectionFrom conn). split; [|done].
      apply list_elem_of_bind. exists (connectionTo conn). split; [|apply connMap_spec; eauto 6].
      rewrite decide_False, Hlk by done. cbn [default from_option]. rewrite decide_True by done. by left.
Qed.

(** ** The files *)

Section Files.
Context {W : Type} `{DockerFiles W} `{OvsServer W} `{MapRange}.

Lemma generateEtcHosts_run labelIPs conns dbc (s : hostWorld W) :
  generateEtcHosts labelIPs conns dbc s =
  Ok (etcHosts (elements (hostsEntries dbc labelIPs conns)), mkHostWorld (hwHost s) (S (hwLoops s))).
Proof.
  unfold generateEtcHosts, mbind, M_bind. destruct (rangeSet_run (hostsEntries dbc labelIPs conns) s) as (l & -> & Hl).
  unfold mret, M_ret, etcHosts. by rewrite Hl.
Qed.

(** The loop over the containers: it returns, it touches only the one file of each of
    them, and if all went well that file is what [text] says. *)
Lemma updateFiles_run dir name content (text : Container → string) containers (s : hostWorld W) :
  (∀ dbc s, ∃ n, content dbc s = Ok (text dbc, mkHostWorld (hwHost s) n)) →
  NoDup (containerSchedID <$> containers) →
  ∃ ok s', updateFiles (dir ++ "/" ++ name) dir name content containers s = Ok (ok, s') ∧
    (∀ id path, path ≠ dir ++ "/" ++ name ∨ id ∉ containerSchedID <$> containers →
       containerFile (hwHost s') id path = containerFile (hwHost s) id path) ∧
    (ok = true → ∀ dbc, dbc ∈ containers →
       containerFile (hwHost s') (containerSchedID dbc) (dir ++ "/" ++ name) = Some (text dbc)).
Proof.
  intros Hcontent. revert s. induction containers as [|dbc cs IH]; intros s Hnd.
  - exists true, s. split; [done|]. split; [done|]. intros _ dbc Hin. by apply not_elem_of_nil in Hin.
  - rewrite fmap_cons, NoDup_cons in Hnd. destruct Hnd as [Hfresh Hnd].
    cbn [updateFiles]. unfold mbind at 1, M_bind at 1, onHost at 1.
    destruct (dockerGet _ _ _) as [r w1] eqn:Hget. destruct (get_file _ _ _ _ _ Hget) as [Hf1 Hr].
    destruct r as [curr|]; [|by exists false, (mkHostWorld w1 (hwLoops s))].
    unfold mbind at 1, M_bind at 1. destruct (Hcontent dbc (mkHostWorld w1 (hwLoops s))) as (n & ->). cbn [hwHost].
    unfold mbind at 1, M_bind at 1.
    assert (∃ ok w2, (if decide (text dbc = curr) then mret true
                      else onHost (dockerPut (containerSchedID dbc) (text dbc) dir name)) (mkHostWorld w1 n) =
              Ok (ok, mkHostWorld (W := W) w2 n) ∧
              (∀ id path, path ≠ dir ++ "/" ++ name ∨ id ≠ containerSchedID dbc →
                 containerFile w2 id path = containerFile (hwHost s) id path) ∧
              (ok = true → containerFile w2 (containerSchedID dbc) (dir ++ "/" ++ name) = Some (text dbc)))
      as (ok & w2 & -> & Hframe & Hdone).
    { case_decide as Heq.
      - exists true, w1. split; [done|]. split; [by intros; rewrite Hf1|]. intros _. rewrite Hf1, Heq. by apply Hr.
      - unfold onHost. cbn [hwHost hwLoops].
        destruct (dockerPut _ _ _ _ _) as [ok w2] eqn:Hput. destruct (put_file _ _ _ _ _ _ _ Hput) as [Hf2 Hp].
        exists ok, w2. split; [done|]. split; [|done]. intros id path Hor. rewrite Hf2, Hf1; tauto. }
    destruct (IH (mkHostWorld w2 n) Hnd) as (ok' & s' & Hrun & Hfr & Hall).
    unfold mbind, M_bind. rewrite Hrun. exists (ok && ok'), s'. split; [done|]. split.
    + intros id path Hor. rewrite fmap_cons, not_elem_of_cons in Hor. rewrite Hfr by tauto. apply Hframe. tauto.
    + intros [Hok Hok']%andb_prop dbc' [->|Hin]%elem_of_cons; [|by apply Hall].
      rewrite Hfr by tauto. by apply Hdone.
Qed.

End Files.

(** ** The file that is left *)

(** Its lines, for the entries of a container. *)
Definition hostsFile (lines : list string) : string := joinOn newline lines ++ String newline "".

Section HostsProperties.
Context {W : Type} `{DockerFiles W} `{MapRange}.

(** C16: A round of [updateEtcHosts] returns, whatever docker answers, and touches nothing
    but the hosts files of the containers it is given. If docker reported no error, the
    hosts file of each of them consists of sorted lines, and these are the lines of the
    host itself, of the container's own address, and of every label with an address that
    one of the container's labels connects to, and no others. *)
Theorem updateEtcHosts_installs (containers : list Container) (labels : list Label)
    (connections : list Connection) (s : hostWorld W) :
  NoDup (containerSchedID <$> containers) →
  ∃ ok s', updateEtcHosts containers labels connections s = Ok (ok, s') ∧
    (∀ id path, path ≠ "/etc/hosts" ∨ id ∉ containerSchedID <$> containers →
       containerFile (hwHost s') id path = containerFile (hwHost s) id path) ∧
    (ok = true → ∀ dbc, dbc ∈ containers → ∃ lines,
       containerFile (hwHost s') (containerSchedID dbc) "/etc/hosts" = Some (hostsFile lines) ∧
       StronglySorted String.le lines ∧
       ∀ line, line ∈ lines ↔ ∃ ip host, line = hostsLine (ip, host) ∧ hostEntry dbc labels connections ip host).
Proof.
  intros Hnd. destruct (updateFiles_run "/etc" "hosts" (generateEtcHosts (labelIPMap labels) (connMap connections))
    (λ dbc, etcHosts (elements (hostsEntries dbc (labelIPMap labels) (connMap connections)))) containers s)
    as (ok & s' & Hrun & Hframe & Hall); [|done|].
  { intros dbc s1. rewrite generateEtcHosts_run. by eexists. }
  exists ok, s'. split; [exact Hrun|]. split; [exact Hframe|]. intros Hok dbc Hin.
  eexists. split; [by apply Hall|]. split; [apply sortStrings_sorted|].
  intros line. rewrite sortStrings_perm, list_elem_of_fmap. split.
  - intros ([ip host] & -> & Hel%elem_of_elements%hostsEntries_spec). eauto.
  - intros (ip & host & -> & Hentry). exists (ip, host). split; [done|]. by apply elem_of_elements, hostsEntries_spec.
Qed.

End HostsProperties.

(** A host that has nothing but the files of containers. *)
Definition filesOnly : Type := gmap (string * string) string.

#[local] Instance filesHost : Host filesOnly := {|
  hostExec := λ _ w, (ExecError, w);
  hostReadDir := λ _ w, (None, w);
  hostLstat := λ _ w, (NotExist, w);
  hostStat := λ _ w, (NotExist, w);
  hostReadlink := λ _ w, (inl NotExist, w);
  hostRemove := λ _ w, (false, w);
  hostSymlink := λ _ _ w, (false, w);
  hostReadFile := λ _ w, (None, w);
  hostInterface := λ _ w, (None, w);
  dockerExec := λ _ _ w, (None, w);
  dockerList := λ _ w, (None, w);
  dockerGet := λ id path w, (w !! (id, path), w);
  dockerPut := λ id text dir name w, (true, <[(id, dir ++ "/" ++ name) := text]> w)
|}.

#[local] Instance filesLaws : DockerFiles filesOnly.
Proof.
  refine {| containerFile := λ (w : filesOnly) id path, w !! (id, path) |}.
  - intros id path w r w' [= <- <-]. done.
  - intros id text dir name w ok w' [= <- <-]. split.
    + intros id' path' Hne. apply lookup_insert_ne. intros [= <- <-]. naive_solver.
    + intros _. apply lookup_insert_eq.
Defined.

Definition hostsContainer : Container :=
  mkContainer 1 42 "10.0.0.2" "02:00:0a:00:00:02" "0123456789abcdef" "alpine" None (Some ["web"]) None None.
Definition hostsLabel : Label := mkLabel 2 "db" "10.1.0.5" true.
Definition hostsConnection : Connection := mkConnection 3 "web" "db" 80 80.
Definition hostsState : hostWorld filesOnly := mkHostWorld {[("0123456789abcdef", "/etc/hosts") := ""]} 0.

Lemma updateEtcHosts_installs_witness :
  NoDup (containerSchedID <$> [hostsContainer]) ∧
  ∃ s', updateEtcHosts (H1 := mapToListRange) [hostsContainer] [hostsLabel] [hostsConnection] hostsState = Ok (true, s') ∧
    ∃ lines, containerFile (hwHost s') "0123456789abcdef" "/etc/hosts" = Some (hostsFile lines) ∧
             hostsLine ("10.1.0.5", "db.di") ∈ lines.
Proof.
  assert (NoDup (containerSchedID <$> [hostsContainer])) as Hnd by (apply NoDup_singleton).
  split; [exact Hnd|].
  destruct (updateEtcHosts_installs (H1 := mapToListRange) [hostsContainer] [hostsLabel] [hostsConnection] hostsState Hnd)
    as (ok & s' & Hrun & _ & Hall).
  assert (ok = true) as ->.
  { apply (f_equal (λ o, match o with Ok (b, _) => b | _ => false end)) in Hrun. vm_compute in Hrun. by symmetry. }
  exists s'. split; [exact Hrun|]. destruct (Hall eq_refl hostsContainer) as (lines & Hfile & _ & Hin); [left|].
  exists lines. split; [exact Hfile|]. apply Hin. exists "10.1.0.5", "db.di". split; [reflexivity|].
  apply (EntryLabel _ _ _ hostsConnection); [left|left|done|done|reflexivity|done].
Defined.
