(* ===== verification/WorkerNat.v ===== *)
(** * minion/network: the NAT rules of a worker

    [makeIPRule] of [src/minion/network/worker.go] reads back the rules that
    [iptables -S] prints, and [updateNAT] leaves the wanted rules in the table. *)

From stdpp Require Import base gmap list strings pretty sorting.
From Stdlib Require Import ZArith Lia.
From S2P Require Import Prelude Join Util DbRows DslAst DockerClient Ovsdb Regexp Host NetStore NetMaster WorkerRules Worker.

Local Open Scope string_scope.

(** ** Reading a rule *)

(** A line of [iptables -S]. *)
Definition printRule (r : ipRule) : string :=
  irCmd r ++ " " ++ irChain r ++ (if decide (irOpts r = "") then "" else " " ++ irOpts r).

(** A word of upper-case letters: a command, a chain or a target. *)
Definition upperWord (s : string) : Prop := s ≠ "" ∧ Forall (λ c, isUpper c = true) (chars s).

(** Options: none, a policy, or a text on one line that does not begin with an
    upper-case letter, nor begin or end with a space. *)
Definition plainOpts (s : string) : Prop :=
  Forall (λ c, notNewline c = true) (chars s) ∧ stops isUpper (chars s) ∧
  stops trimChar (chars s) ∧ stops trimChar (reverse (chars s)).

Definition wfRule (r : ipRule) : Prop :=
  (∃ u, irCmd r = "-" ++ u ∧ upperWord u) ∧ upperWord (irChain r) ∧
  (upperWord (irOpts r) ∨ plainOpts (irOpts r)) ∧ (irCmd r = "-N" → irOpts r = "").

Ltac upper_word := split; [done|by repeat constructor].

Lemma upper_space c : isUpper c = true → isSpace c = false.
Proof. char_class. Qed.
Lemma upper_trim c : isUpper c = true → trimChar c = false.
Proof. char_class. Qed.
Lemma space_trim c : trimChar c = false → isSpace c = false.
Proof. char_class. Qed.
Lemma upper_newline c : isUpper c = true → notNewline c = true.
Proof. char_class. Qed.
Lemma upper_dash c : isUpper c = true → c ≠ Ascii.ascii_of_nat 45.
Proof. intros Hc ->. discriminate. Qed.

Abbreviation uppers := (Forall (λ c, isUpper c = true)).

Lemma uppers_stop_space w t : w ≠ [] → uppers w → stops isSpace (w ++ t).
Proof. intros Hne Hw c t' Heq. destruct Hw as [|d w Hd]; [done|]. simplify_eq/=. by apply upper_space. Qed.

Lemma uppers_suffix w1 w2 : uppers (w1 ++ w2) → uppers w2.
Proof. by intros [_ ?]%Forall_app. Qed.

Lemma trimSpace_uppers w : uppers w → trimSpace (unchars w) = unchars w.
Proof.
  intros Hw. unfold trimSpace. rewrite chars_unchars, trimBoth_Forall; [done|].
  eapply Forall_impl; [done|]. intros c. apply upper_trim.
Qed.

Section Reading.
Context {A : Type}.
Implicit Types k : text → groups → option A.

(** An upper-case word, and a space; [g] sets a group in between. *)
Lemma upper_space_run (g : text → groups → groups) w t caps k :
  w ≠ [] → uppers w → stops isSpace t →
  matchRe (plus (Chr isUpper)) (w ++ space :: t) caps (λ s' caps', matchRe (plus (Chr isSpace)) s' (g s' caps') k) =
  k t (g (space :: t) caps).
Proof.
  intros Hne Hw Ht. rewrite plus_word; [by rewrite plus_one|done|done| |].
  - intros c t' [= <- <-]. done.
  - intros w1 w2 -> _ Hne2. apply plus_stop. apply uppers_stop_space; [done|]. by eapply uppers_suffix.
Qed.

(** An upper-case word where no space follows. *)
Lemma upper_no_space w t caps k :
  uppers w → stops isUpper t → stops isSpace t →
  matchRe (plus (Chr isUpper)) (w ++ t) caps (λ s' caps', matchRe (plus (Chr isSpace)) s' caps' k) = None.
Proof.
  intros Hw Hu Ht. destruct (decide (w = [])) as [->|Hne]; [by apply plus_stop|].
  rewrite plus_word; [by apply plus_stop|done..|]. intros w1 w2 -> _ Hne2.
  apply plus_stop, uppers_stop_space; [done|]. by eapply uppers_suffix.
Qed.

End Reading.

Definition dash : Ascii.ascii := Ascii.ascii_of_nat 45.

Lemma find_here r s f : matchHere r [] s = Some f → find r s = Some f.
Proof. intros Hm. unfold find. destruct s; cbn [findFrom]; by rewrite Hm. Qed.

(** No match begins with anything but a dash. *)
Lemma dash_stop k before s : stops (λ c, bool_decide (dash = c)) s → matchHere (Seq (lit dash) k) before s = None.
Proof. intros Hs. unfold matchHere. cbn [matchRe lit]. destruct s as [|c s]; [done|]. by rewrite (Hs c s). Qed.

Lemma findFrom_nodash k before s : dash ∉ s → findFrom (Seq (lit dash) k) before s = None.
Proof.
  revert before. induction s as [|c s IH]; intros before Hs; cbn [findFrom]; rewrite dash_stop; [done|by intros ??| |].
  - apply not_elem_of_cons in Hs as [_ Hs]. by apply IH.
  - intros d t [= <- <-]. apply bool_decide_false. intros Heq. apply Hs. rewrite Heq. left.
Qed.

Lemma find_cmd u v t :
  u ≠ [] → uppers u → v ≠ [] → uppers v → stops isUpper t →
  ∃ f, find cmdRE (dash :: u ++ space :: v ++ t) = Some f ∧ group f 1 = unchars (dash :: u) ∧ group f 2 = unchars v.
Proof.
  intros Hu1 Hu Hv1 Hv Ht. eexists. split.
  - apply find_here. unfold matchHere, cmdRE. cbn [matchRe litStr chars String.list_ascii_of_string lit].
    rewrite bool_decide_true by done.
    set (s := dash :: u ++ space :: v ++ t).
    rewrite (upper_space_run (λ s' caps', <[1%nat := take (length s - length s') s]> caps'));
      [|done|done|by apply uppers_stop_space].
    apply plus_greedy; [done|done|done|]. reflexivity.
  - rewrite take_before. rewrite (app_comm_cons (u)), take_before. split; reflexivity.
Qed.

(** The words before the last one of [optsRE], and what follows them. *)
Definition wordsRE : regexp := Seq (plus (Chr isUpper)) (plus (Chr isSpace)).
Definition afterWordsRE : regexp :=
  Seq (plus (Chr isUpper)) (Seq (plus (Chr isSpace)) (Group 1 (Star (Chr notNewline)))).

Section Options.
Context {A : Type}.
Implicit Types k : text → groups → option A.

Lemma words_stop w t caps k :
  uppers w → stops isUpper t → stops isSpace t →
  matchRe (Star wordsRE) (w ++ t) caps (λ s' caps', matchRe afterWordsRE s' caps' k) = None.
Proof.
  intros Hw Hu Ht. rewrite matchRe_star. unfold wordsRE, afterWordsRE. cbn [matchRe].
  rewrite !upper_no_space; done.
Qed.

(** One word, after which no more words follow. *)
Lemma words_one v w t caps k :
  v ≠ [] → uppers v → uppers w → stops isUpper t → stops isSpace t → stops isSpace (w ++ t) →
  matchRe (Star wordsRE) (v ++ space :: w ++ t) caps (λ s' caps', matchRe afterWordsRE s' caps' k) =
  matchRe (Group 1 (Star (Chr notNewline))) (w ++ t) caps k.
Proof.
  intros Hv1 Hv Hw Hu Ht Hwt. rewrite matchRe_star.
  assert (∀ k', matchRe wordsRE (v ++ space :: w ++ t)%list caps k' = k' (w ++ t)%list caps) as Hword.
  { intros k'. unfold wordsRE. cbn [matchRe]. by apply (upper_space_run (λ _ c, c)). }
  rewrite Hword, (proj2 (Nat.ltb_lt _ _)) by (rewrite (length_app v); cbn; lia).
  rewrite words_stop by done.
  by apply (upper_space_run (λ _ c, c) v (w ++ t) caps
              (λ s' caps', matchRe (Group 1 (Star (Chr notNewline))) s' caps' k)).
Qed.

End Options.

Lemma optsRE_words : optsRE = Seq (lit dash) (Seq (Seq wordsRE (Star wordsRE)) afterWordsRE).
Proof. reflexivity. Qed.

Lemma find_opts u v w t :
  u ≠ [] → uppers u → v ≠ [] → uppers v → uppers w → stops isUpper t → stops isSpace t → stops isSpace (w ++ t) →
  Forall (λ c, notNewline c = true) (w ++ t) →
  ∃ f, find optsRE (dash :: u ++ space :: v ++ space :: w ++ t) = Some f ∧ group f 1 = unchars (w ++ t).
Proof.
  intros Hu1 Hu Hv1 Hv Hw Hut Ht Hwt Hnl. eexists. split.
  - apply find_here. rewrite optsRE_words. unfold matchHere. cbn [matchRe lit]. rewrite bool_decide_true by done.
    etransitivity.
    { unfold wordsRE at 1. cbn [matchRe]. apply (upper_space_run (λ _ c, c)); [done|done|by apply uppers_stop_space]. }
    cbn beta. etransitivity; [by apply words_one|]. cbn [matchRe]. apply star_all; [done|]. reflexivity.
  - unfold group. cbn [fGroups]. rewrite lookup_insert_eq. cbn [default from_option length].
    by rewrite Nat.sub_0_r, firstn_all.
Qed.

Lemma find_opts_none u v :
  u ≠ [] → uppers u → v ≠ [] → uppers v → find optsRE (dash :: u ++ space :: v) = None.
Proof.
  intros Hu1 Hu Hv1 Hv. unfold find. cbn [findFrom]. rewrite optsRE_words.
  assert (matchHere (Seq (lit dash) (Seq (Seq wordsRE (Star wordsRE)) afterWordsRE)) [] (dash :: u ++ space :: v) = None)
    as ->.
  { unfold matchHere. cbn [matchRe lit]. rewrite bool_decide_true by done. etransitivity.
    { unfold wordsRE at 1. cbn [matchRe]. apply (upper_space_run (λ _ c, c)); [done|done|].
      rewrite <- (app_nil_r v). by apply uppers_stop_space. }
    cbn beta. rewrite <- (app_nil_r v). by apply words_stop. }
  apply findFrom_nodash. intros Hin.
  assert (∀ x, uppers x → dash ∉ x) as Hno.
  { intros x Hx Hd. by apply (proj1 (Forall_forall _ _) Hx) in Hd. }
  apply elem_of_app in Hin as [Hin|Hin]; [by apply (Hno u)|].
  apply elem_of_cons in Hin as [Heq|Hin]; [discriminate|by apply (Hno v)].
Qed.

Lemma chars_nonempty s : s ≠ "" → chars s ≠ [].
Proof. intros Hs Heq. apply Hs. by apply (chars_inj s ""). Qed.

Lemma upperWord_trim s : upperWord s → trimSpace s = s.
Proof. intros [_ Hs]. pose proof (trimSpace_uppers _ Hs) as Ht. by rewrite unchars_chars in Ht. Qed.

(** What comes after the chain, as an upper-case word and the rest. *)
Lemma opts_shape o :
  upperWord o ∨ plainOpts o → ∃ w t, chars o = (w ++ t)%list ∧ uppers w ∧ stops isUpper t ∧ stops isSpace t ∧
    stops isSpace (w ++ t) ∧ Forall (λ c, notNewline c = true) (w ++ t) ∧ trimSpace o = o.
Proof.
  intros [Ho|(Hnl & Hu & Hs & Hr)].
  - exists (chars o), []. pose proof (upperWord_trim o Ho). destruct Ho as [Hne Ho]. rewrite app_nil_r.
    split_and!; [done..| | |done].
    + rewrite <- (app_nil_r (chars o)). apply uppers_stop_space; [by apply chars_nonempty|done].
    + eapply Forall_impl; [done|]. apply upper_newline.
  - exists [], (chars o). assert (stops isSpace (chars o)) by (intros c t Heq; by eapply space_trim, Hs).
    split_and!; try done. unfold trimSpace. by rewrite trimBoth_stops, unchars_chars.
Qed.

(** What [iptables -S] prints is read back as the rule. *)
Lemma makeIPRule_print r : wfRule r → makeIPRule (printRule r) = Some r.
Proof.
  destruct r as [cmd chain opts]. intros ((u & Hcmd & Hu) & Hv & Hopts & _). cbn in Hcmd, Hv, Hopts. subst cmd.
  assert (trimSpace ("-" ++ u) = "-" ++ u) as Htrim.
  { unfold trimSpace. rewrite trimBoth_Forall, unchars_chars; [done|]. constructor; [done|].
    destruct Hu as [_ Hu]. eapply Forall_impl; [done|]. apply upper_trim. }
  pose proof (upperWord_trim chain Hv) as Htv. destruct Hu as [Hu1 Hu]. destruct Hv as [Hv1 Hv].
  apply chars_nonempty in Hu1, Hv1. unfold makeIPRule, printRule. cbn [irCmd irChain irOpts]. case_decide as Ho.
  - subst opts. rewrite !chars_app. cbn [chars String.list_ascii_of_string app]. rewrite app_nil_r.
    change (Ascii.Ascii true false true true false true false false) with dash.
    change (Ascii.Ascii false false false false false true false false) with space.
    destruct (find_cmd (chars u) (chars chain) []) as (f & Hf & H1 & H2); [done..|]. rewrite app_nil_r in Hf.
    fold (chars u) (chars chain). rewrite Hf, find_opts_none by done. cbn. rewrite H1, H2. cbn [unchars String.string_of_list_ascii].
    rewrite !unchars_chars. change (String dash u) with ("-" ++ u). by rewrite Htrim, Htv.
  - destruct (opts_shape opts Hopts) as (w & t & Heq & Hw & Hut & Ht & Hwt & Hnl & Htrimo).
    rewrite !chars_app. cbn [chars String.list_ascii_of_string app].
    change (Ascii.Ascii true false true true false true false false) with dash.
    change (Ascii.Ascii false false false false false true false false) with space.
    fold (chars u) (chars chain) (chars opts). rewrite Heq.
    destruct (find_cmd (chars u) (chars chain) (space :: w ++ t)) as (f & Hf & H1 & H2); [done..|by intros ?? [= <- <-]|].
    destruct (find_opts (chars u) (chars chain) w t) as (f' & Hf' & H3); [done..|].
    rewrite Hf, Hf'. cbn. rewrite H1, H2, H3, <- Heq. cbn [unchars String.string_of_list_ascii].
    rewrite !unchars_chars. change (String dash u) with ("-" ++ u). by rewrite Htrim, Htv, Htrimo.
Qed.

Lemma mapM_makeIPRule rules : Forall wfRule rules → mapM makeIPRule (printRule <$> rules) = Some rules.
Proof.
  intros Hwf. induction Hwf as [|r rules Hr Hwf IH]; [done|].
  rewrite fmap_cons. cbn [mapM]. rewrite makeIPRule_print by done. cbn. unfold mret. by rewrite IH.
Qed.

(** ** The wanted rules *)

Definition policyRule (chain : string) : ipRule := mkIpRule "-P" chain "ACCEPT".
Definition masqueradeRule : ipRule := mkIpRule "-A" "POSTROUTING" "-s 10.0.0.0/8 -o eth0 -j MASQUERADE".
Definition forwardRule (ip : string) (port : Z) (protocol : string) : ipRule :=
  mkIpRule "-A" "PREROUTING" ("-i eth0 -p " ++ protocol ++ " -m " ++ protocol ++ " --dport " ++ pretty port ++
                              " -j DNAT --to-destination " ++ ip ++ ":" ++ pretty port).

Definition baseIPRules : list ipRule :=
  [policyRule "PREROUTING"; policyRule "INPUT"; policyRule "OUTPUT"; policyRule "POSTROUTING"; masqueradeRule].

Definition portForwards (ip : string) (ports : list Z) : list ipRule :=
  port ← ports; forwardRule ip port <$> protocols.

Definition natTarget (containers : list Container) (connections : list Connection) : list ipRule :=
  (baseIPRules ++ (p ← map_to_list (natPorts containers connections); portForwards p.1 (elements p.2)))%list.

Definition oneLine (s : string) : Prop := Forall (λ c, notNewline c = true) (chars s).

Lemma baseRules_read : mapM makeIPRule baseRules = Some baseIPRules.
Proof. vm_compute. reflexivity. Qed.

(** The characters of a number. *)
Definition numeral (c : Ascii.ascii) : bool := isDigit c || between 45 45 c.

Lemma pretty_N_numeral (n : N) : Forall (λ c, numeral c = true) (chars (pretty n)) ∧ pretty n ≠ "".
Proof.
  unfold pretty, pretty_N. case_decide as Hn; [by split; [repeat constructor|]|].
  assert (∀ m s, Forall (λ c, numeral c = true) (chars s) →
    Forall (λ c, numeral c = true) (chars (pretty_N_go m s)) ∧ (m ≠ 0%N ∨ s ≠ "" → pretty_N_go m s ≠ "")) as Hgo.
  { intros m. induction m as [m IH] using (well_founded_induction N.lt_wf_0). intros s Hs.
    destruct (decide (m = 0%N)) as [->|Hm].
    - rewrite pretty_N_go_0. split; [done|]. by intros [?|?].
    - rewrite pretty_N_go_step by lia. destruct (IH (m `div` 10)%N) with (s := String (pretty_N_char (m `mod` 10)) s) as [H1 H2].
      + apply N.div_lt; lia.
      + constructor; [|done]. clear. assert (m `mod` 10 < 10)%N by (apply N.mod_lt; done).
        unfold pretty_N_char. destruct (m `mod` 10)%N as [|p]; [done|]. repeat (destruct p as [p|p|]; try done).
      + split; [done|]. intros _. apply H2. by right. }
  destruct (Hgo n "") as [H1 H2]; [constructor|]. split; [done|]. apply H2. by left.
Qed.

Lemma pretty_Z_numeral (z : Z) : Forall (λ c, numeral c = true) (chars (pretty z)) ∧ pretty z ≠ "".
Proof.
  destruct z as [|p|p]; [split; [by repeat constructor|done]|apply (pretty_N_numeral (Npos p))|].
  destruct (pretty_N_numeral (Npos p)) as [Hp _]. split; [by constructor|done].
Qed.

Lemma numeral_newline c : numeral c = true → notNewline c = true.
Proof. unfold numeral. char_class. Qed.
Lemma numeral_trim c : numeral c = true → trimChar c = false.
Proof. unfold numeral. char_class. Qed.

Lemma oneLine_app a b : oneLine (a ++ b) ↔ oneLine a ∧ oneLine b.
Proof. unfold oneLine. rewrite chars_app. apply Forall_app. Qed.

Lemma oneLine_pretty (z : Z) : oneLine (pretty z).
Proof. eapply Forall_impl; [apply pretty_Z_numeral|]. apply numeral_newline. Qed.

(** A text ends like its last part. *)
Lemma stops_end p a b :
  b ≠ "" → Forall (λ c, p c = false) (chars b) → stops p (reverse (chars (a ++ b))).
Proof.
  intros Hb Hp. rewrite chars_app, reverse_app. intros c t Heq.
  assert (Forall (λ c, p c = false) (reverse (chars b))) as Hr by (by apply Forall_reverse).
  destruct (reverse (chars b)) as [|d l] eqn:Hrev.
  - apply (f_equal reverse) in Hrev. rewrite reverse_involutive in Hrev. by apply chars_nonempty in Hb.
  - simplify_eq/=. by inversion Hr.
Qed.

Lemma forwardRule_wf ip port protocol : oneLine ip → protocol ∈ protocols → wfRule (forwardRule ip port protocol).
Proof.
  intros Hip Hp. split; [exists "A"; split; [done|]; split; [done|]; by repeat constructor|].
  split; [split; [done|]; by repeat constructor|]. split; [right|done]. cbn [irOpts forwardRule].
  assert (oneLine protocol) as Hpr.
  { apply elem_of_cons in Hp as [-> |[-> |[]%not_elem_of_nil]%elem_of_cons]; by repeat constructor. }
  split; [|split; [|split]].
  - change (oneLine (irOpts (forwardRule ip port protocol))). cbn [irOpts forwardRule].
    rewrite !oneLine_app. split_and!; try done; try apply oneLine_pretty; by repeat constructor.
  - intros c t. cbn. by intros [= <- _].
  - intros c t. cbn. by intros [= <- _].
  - rewrite <- !string_app_assoc. apply stops_end; [apply pretty_Z_numeral|].
    eapply Forall_impl; [apply pretty_Z_numeral|]. apply numeral_trim.
Qed.

Lemma dnatRule_print ip port protocol : dnatRule ip port protocol = printRule (forwardRule ip port protocol).
Proof. unfold printRule. by rewrite decide_False. Qed.

(** Who an address and a port belong to. *)
Definition forwards (containers : list Container) (connections : list Connection) (ip : string) (port : Z) : Prop :=
  ∃ dbc conn, dbc ∈ containers ∧ conn ∈ connections ∧ connectionFrom conn = PublicInternetLabel ∧
    connectionTo conn ∈ elems (containerLabels dbc) ∧ containerIP dbc = ip ∧ connectionMinPort conn = port.

(** A loop that only adds to what a map holds. *)
Lemma foldl_holds {A B} (f : B → A → B) (P : B → Prop) (Q : A → Prop) l b :
  (∀ b x, x ∈ l → P (f b x) ↔ P b ∨ Q x) → P (foldl f b l) ↔ P b ∨ ∃ x, x ∈ l ∧ Q x.
Proof.
  revert b. induction l as [|x l IH]; intros b Hf; cbn [foldl]; [set_solver|].
  rewrite IH, Hf by set_solver. set_solver.
Qed.

Lemma natPorts_spec containers connections ip port :
  (∃ ports, natPorts containers connections !! ip = Some ports ∧ port ∈ ports) ↔
  forwards containers connections ip port.
Proof.
  set (P := λ m : gmap string (gset Z), ∃ ports, m !! ip = Some ports ∧ port ∈ ports).
  assert (¬ P ∅) as Hempty by (intros (? & Hno & _); by rewrite lookup_empty in Hno).
  change (P (natPorts containers connections) ↔ forwards containers connections ip port).
  unfold natPorts, forwards. rewrite (foldl_holds _ P (λ dbc, ∃ conn, conn ∈ connections ∧
    connectionFrom conn = PublicInternetLabel ∧ connectionTo conn ∈ elems (containerLabels dbc) ∧
    containerIP dbc = ip ∧ connectionMinPort conn = port)); [naive_solver|].
  intros m dbc _. apply (foldl_holds _ P). intros m1 conn _. case_decide as Hfrom; [naive_solver|].
  rewrite (foldl_holds _ P (λ l, connectionTo conn = l ∧ containerIP dbc = ip ∧ connectionMinPort conn = port));
    [naive_solver|].
  intros m2 l _. case_decide as Hto; [naive_solver|]. unfold P.
  destruct (decide (containerIP dbc = ip)) as [Hip|Hip].
  - rewrite Hip, lookup_insert_eq. 
    assert (∀ X : gset Z, (∃ ports, Some X = Some ports ∧ port ∈ ports) ↔ port ∈ X) as Hsome by naive_solver.
    rewrite Hsome, elem_of_union, elem_of_singleton. destruct (m2 !! ip) as [ports|]; cbn.
    + rewrite Hsome. naive_solver.
    + rewrite elem_of_empty. naive_solver.
  - rewrite lookup_insert_ne by done. naive_solver.
Qed.

(** ** The table *)

Definition unlines (lines : list string) : string :=
  foldr (λ l rest, l ++ String newline rest) "" lines.

(** The rules that the worker adds: [iptables -S] prints them the way they were given. *)
Inductive workerRule : ipRule → Prop :=
| WorkerMasquerade : workerRule masqueradeRule
| WorkerForward ip port protocol :
    oneLine ip → protocol ∈ protocols → workerRule (forwardRule ip port protocol).

(** The table of NAT rules of the host, and what the commands of the worker do with it
    when they succeed: [-S] prints it, [-A] adds a rule, [-D] removes one, and [-X] a
    chain. A policy is not a rule that can be added, and an empty command is not one. *)
Class NatTable (W : Type) `{Host W} : Type := {
  natRules : W → list ipRule;
  nat_list : ∀ w r w', hostExec (splitOn space "iptables -t nat -S") w = (r, w') →
    natRules w' ≡ₚ natRules w ∧ (∀ out, r = Output out → out = unlines (printRule <$> natRules w));
  nat_append : ∀ r w out w', workerRule r →
    hostExec (splitOn space ("iptables -t nat -A " ++ irChain r ++ " " ++ irOpts r)) w = (Output out, w') →
    natRules w' ≡ₚ r :: natRules w;
  nat_append_policy : ∀ chain w out w', upperWord chain →
    hostExec (splitOn space ("iptables -t nat -A " ++ chain ++ " ACCEPT")) w ≠ (Output out, w');
  nat_delete : ∀ r w out w', wfRule r → irCmd r = "-A" →
    hostExec (splitOn space ("iptables -t nat -D " ++ irChain r ++ " " ++ irOpts r)) w = (Output out, w') →
    natRules w ≡ₚ r :: natRules w';
  nat_delete_chain : ∀ chain w out w', upperWord chain →
    hostExec (splitOn space ("iptables -t nat -X " ++ chain)) w = (Output out, w') →
    natRules w ≡ₚ mkIpRule "-N" chain "" :: natRules w';
  nat_no_command : ∀ w out w', hostExec (splitOn space "") w ≠ (Output out, w')
}.

Lemma splitLines_line l rest : oneLine l → splitLines (l ++ String newline rest) = l :: splitLines rest.
Proof.
  intros Hl. induction l as [|c l IH]; [done|]. unfold oneLine in Hl. cbn in Hl. inversion Hl as [|? ? Hc Hl']; subst.
  rewrite string_app_cons. cbn [splitLines]. rewrite decide_False by (by intros ->). by rewrite IH.
Qed.

Lemma splitLines_unlines lines : Forall oneLine lines → splitLines (unlines lines) = lines.
Proof.
  intros Hl. induction Hl as [|l lines Hl _ IH]; [done|]. cbn [unlines foldr].
  rewrite splitLines_line by done. by f_equal.
Qed.

Lemma dropCR_id s : stops trimChar (reverse (chars s)) → dropCR s = s.
Proof.
  induction s as [|c s IH]; [done|]. intros Hs. destruct s as [|d s].
  - cbn. rewrite decide_False; [done|]. intros ->. by discriminate (Hs carriageReturn []).
  - change (dropCR (String c (String d s))) with (String c (dropCR (String d s))). f_equal. apply IH.
    intros e t Heq. apply (Hs e (t ++ [c])%list). change (chars (String c (String d s))) with (c :: chars (String d s)).
    by rewrite reverse_cons, Heq.
Qed.

Lemma printRule_line r : wfRule r → oneLine (printRule r) ∧ stops trimChar (reverse (chars (printRule r))).
Proof.
  intros ((u & Hcmd & Hu) & Hv & Hopts & _). unfold printRule. rewrite Hcmd.
  assert (∀ s, upperWord s → oneLine s ∧ Forall (λ c, trimChar c = false) (chars s)) as Hup.
  { intros s [_ Hs]. split; (eapply Forall_impl; [exact Hs|]); [apply upper_newline|apply upper_trim]. }
  case_decide as Ho.
  - split.
    + rewrite !oneLine_app. split_and!; try (by apply Hup); by repeat constructor.
    + rewrite <- !string_app_assoc. rewrite chars_app, app_nil_r. apply stops_end; [apply Hv|by apply Hup].
  - split.
    + rewrite !oneLine_app. split_and!; try (by apply Hup); try (by repeat constructor).
      destruct Hopts as [Hopts|Hopts]; [by apply Hup|apply Hopts].
    + destruct Hopts as [Hopts|(_ & _ & _ & Hend)].
      * rewrite <- !string_app_assoc. apply stops_end; [done|by apply Hup].
      * rewrite !chars_app, !reverse_app. intros c t Heq.
        destruct (reverse (chars (irOpts r))) as [|e l] eqn:Hrev.
        -- apply (f_equal reverse) in Hrev. rewrite reverse_involutive in Hrev. by apply chars_nonempty in Ho.
        -- rewrite <- !app_assoc in Heq. cbn in Heq. simplify_eq. by apply (Hend c l).
Qed.

Lemma scanLines_rules rules lines :
  Forall wfRule rules → scanLines (unlines (printRule <$> rules)) = Some lines → lines = printRule <$> rules.
Proof.
  intros Hwf. unfold scanLines. rewrite splitLines_unlines.
  - case_decide; [|done]. intros [= <-]. rewrite <- list_fmap_compose. apply list_fmap_ext.
    intros i r Hr%list_elem_of_lookup_2. apply dropCR_id, printRule_line. by eapply Forall_forall.
  - apply Forall_fmap. eapply Forall_impl; [done|]. intros r. apply printRule_line.
Qed.

Section Nat.
Context {W : Type} `{NatTable W} `{MapRange}.

Lemma ranges_run (l : list (string * gset Z)) (s : hostWorld W) :
  ∃ strs rules n, mapEach (λ p : string * gset Z,
      ports ← rangeSet p.2; mret (port ← ports; dnatRule p.1 port <$> protocols)) l s = Ok (strs, mkHostWorld (hwHost s) n) ∧
    mjoin strs = printRule <$> rules ∧ rules ≡ₚ (p ← l; portForwards p.1 (elements p.2)).
Proof.
  revert s. induction l as [|[ip ports] l IH]; intros s; [by exists [], [], (hwLoops s); destruct s|].
  destruct (rangeSet_run ports s) as (ps & Hps & Hperm).
  destruct (IH (mkHostWorld (hwHost s) (S (hwLoops s)))) as (strs & rules & n & Hrun & Hstrs & Hrules).
  eexists _, (portForwards ip ps ++ rules)%list, n. split.
  { cbn [mapEach fst snd]. apply bind_Ok. do 2 eexists. split; [apply bind_Ok; do 2 eexists; split; [exact Hps|reflexivity]|].
    apply bind_Ok. do 2 eexists. split; [exact Hrun|reflexivity]. }
  split.
  - rewrite fmap_app, <- Hstrs. cbn [mjoin list_join]. f_equal. unfold portForwards.
    clear. induction ps as [|p ps IH]; [done|]. cbn. unfold list_fmap. rewrite !dnatRule_print. do 2 f_equal. apply IH.
  - cbn [mbind list_bind fst snd]. rewrite Hrules. f_equiv. unfold portForwards. by rewrite Hperm.
Qed.

Lemma policyRule_wf chain : upperWord chain → wfRule (policyRule chain).
Proof.
  intros Hchain. split; [exists "P"; split; [done|upper_word]|]. split; [done|]. split; [left; upper_word|done].
Qed.

Lemma masqueradeRule_wf : wfRule masqueradeRule.
Proof.
  split; [exists "A"; split; [done|upper_word]|]. split; [upper_word|]. split; [right|done].
  split; [by repeat constructor|]. split; [|split]; intros c t; cbn; by intros [= <- _].
Qed.

Lemma targetRules_wf containers connections :
  Forall (λ dbc, oneLine (containerIP dbc)) containers →
  Forall (λ r, wfRule r ∧ (workerRule r ∨ ∃ chain, upperWord chain ∧ r = policyRule chain)) (natTarget containers connections).
Proof.
  intros Hips. apply Forall_app. split.
  - assert (∀ chain, upperWord chain → wfRule (policyRule chain) ∧
      (workerRule (policyRule chain) ∨ ∃ chain', upperWord chain' ∧ policyRule chain = policyRule chain')) as Hpol.
    { intros chain Hc. split; [by apply policyRule_wf|]. right. by exists chain. }
    repeat (apply Forall_cons; split); try (apply Hpol; upper_word); [|constructor].
    split; [apply masqueradeRule_wf|left; constructor].
  - apply Forall_forall. intros r ([ip ports] & Hr & Hp)%list_elem_of_bind.
    apply list_elem_of_bind in Hr as (port & Hr & Hport). apply list_elem_of_fmap in Hr as (protocol & -> & Hprot).
    apply elem_of_map_to_list in Hp. apply elem_of_elements in Hport.
    destruct (proj1 (natPorts_spec containers connections ip port)) as (dbc & conn & Hdbc & _ & _ & _ & <- & _); [eauto|].
    assert (oneLine (containerIP dbc)) by (by eapply (proj1 (Forall_forall _ _) Hips)).
    split; [by apply forwardRule_wf|]. left. by constructor.
Qed.

Lemma generateTargetNatRules_run containers connections (s : hostWorld W) :
  Forall (λ dbc, oneLine (containerIP dbc)) containers →
  ∃ target n, generateTargetNatRules containers connections s = Ok (target, mkHostWorld (hwHost s) n) ∧
    target ≡ₚ natTarget containers connections.
Proof.
  intros Hips. set (order := rangeOrder (hwLoops s) (natPorts containers connections)).
  destruct (ranges_run order (mkHostWorld (hwHost s) (S (hwLoops s)))) as (strs & rules & n & Hrun & Hstrs & Hrules).
  assert (rules ≡ₚ (p ← map_to_list (natPorts containers connections); portForwards p.1 (elements p.2))) as Hperm.
  { rewrite Hrules. unfold order. by rewrite rangeOrder_perm. }
  assert (Forall wfRule rules) as Hwf.
  { rewrite Hperm. destruct (proj1 (Forall_app _ _ _) (targetRules_wf containers connections Hips)) as [_ Hall].
    eapply Forall_impl; [exact Hall|]. by intros r [? _]. }
  exists (baseIPRules ++ rules)%list, n. split; [|unfold natTarget; by rewrite Hperm].
  unfold generateTargetNatRules. apply bind_Ok. do 2 eexists. split; [reflexivity|].
  apply bind_Ok. do 2 eexists. split; [exact Hrun|].
  rewrite Hstrs, (proj2 (mapM_Some makeIPRule _ (baseIPRules ++ rules)%list)); [done|].
  apply Forall2_app; apply mapM_Some; [apply baseRules_read|by apply mapM_makeIPRule].
Qed.

(** Each of the loops over the rules, if all its commands succeed. *)
Lemma deleteNatRules_run rules (s : hostWorld W) :
  Forall wfRule rules →
  ∃ oks s', mapEach deleteNatRule rules s = Ok (oks, s') ∧
    (forallb id oks = true → natRules (hwHost s) ≡ₚ (rules ++ natRules (hwHost s'))%list).
Proof.
  intros Hwf. revert s. induction Hwf as [|r rules Hr Hwf IH]; intros s; [by exists [], s|].
  assert (∃ ok s1, deleteNatRule r s = Ok (ok, s1) ∧ (ok = true → natRules (hwHost s) ≡ₚ r :: natRules (hwHost s1)))
    as (ok & s1 & Hdel & Hperm).
  { unfold deleteNatRule, sh, shVerbose, onHost, mbind, M_bind.
    destruct (hostExec _ _) as [res w1] eqn:Hex. exists (succeeded res), (mkHostWorld w1 (hwLoops s)). split; [done|].
    destruct res as [out| |]; [intros _|done..]. destruct (decide (irCmd r = "-A")) as [HA|HA]; [by eapply nat_delete|].
    destruct (decide (irCmd r = "-N")) as [HN|HN]; [|by apply nat_no_command in Hex].
    destruct r as [cmd chain opts]. cbn in *. destruct Hr as (_ & Hchain & _ & Hopts). cbn in *. rewrite HN, (Hopts HN).
    by eapply nat_delete_chain. }
  destruct (IH s1) as (oks & s' & Hrun & Hall). exists (ok :: oks), s'. split.
  - cbn [mapEach]. apply bind_Ok. do 2 eexists. split; [exact Hdel|]. apply bind_Ok. do 2 eexists. by split.
  - cbn. intros [Hok Hoks]%andb_prop. rewrite (Hperm Hok), (Hall Hoks). done.
Qed.

Lemma addNatRules_run rules (s : hostWorld W) :
  Forall (λ r, wfRule r ∧ (workerRule r ∨ ∃ chain, upperWord chain ∧ r = policyRule chain)) rules →
  ∃ oks s', mapEach addNatRule rules s = Ok (oks, s') ∧
    (forallb id oks = true → natRules (hwHost s') ≡ₚ (rules ++ natRules (hwHost s))%list).
Proof.
  intros Hwf. revert s. induction Hwf as [|r rules [_ Hr] Hwf IH]; intros s; [by exists [], s|].
  assert (∃ ok s1, addNatRule r s = Ok (ok, s1) ∧ (ok = true → natRules (hwHost s1) ≡ₚ r :: natRules (hwHost s)))
    as (ok & s1 & Hadd & Hperm).
  { unfold addNatRule, sh, shVerbose, onHost, mbind, M_bind.
    destruct (hostExec _ _) as [res w1] eqn:Hex. exists (succeeded res), (mkHostWorld w1 (hwLoops s)). split; [done|].
    destruct res as [out| |]; [intros _|done..]. destruct Hr as [Hr|(chain & Hc & ->)]; [by eapply nat_append|].
    by apply nat_append_policy in Hex. }
  destruct (IH s1) as (oks & s' & Hrun & Hall). exists (ok :: oks), s'. split.
  - cbn [mapEach]. apply bind_Ok. do 2 eexists. split; [exact Hadd|]. apply bind_Ok. do 2 eexists. by split.
  - cbn. intros [Hok Hoks]%andb_prop. rewrite (Hall Hoks), (Hperm Hok). symmetry. apply Permutation_middle.
Qed.

Lemma generateCurrentNatRules_run (s : hostWorld W) :
  Forall wfRule (natRules (hwHost s)) →
  ∃ current s', generateCurrentNatRules s = Ok (current, s') ∧ natRules (hwHost s') ≡ₚ natRules (hwHost s) ∧
    (∀ rules, current = Some rules → rules = natRules (hwHost s)).
Proof.
  intros Hwf. unfold generateCurrentNatRules, shVerbose, onHost, mbind, M_bind.
  destruct (hostExec _ _) as [r w1] eqn:Hex. destruct (nat_list _ _ _ Hex) as [Hsame Hout].
  eexists _, (mkHostWorld w1 (hwLoops s)). split; [reflexivity|]. split; [done|].
  destruct r as [out| |]; [|done..]. rewrite (Hout out eq_refl). intros rules. cbn.
  destruct (scanLines _) as [lines|] eqn:Hlines; [|done]. apply scanLines_rules in Hlines as ->; [|done]. cbn.
  rewrite mapM_makeIPRule by done. by intros [= ->].
Qed.

Lemma natTarget_elem containers connections r :
  r ∈ natTarget containers connections ↔
  r ∈ baseIPRules ∨ ∃ ip port protocol, forwards containers connections ip port ∧
                      protocol ∈ protocols ∧ r = forwardRule ip port protocol.
Proof.
  unfold natTarget. rewrite elem_of_app. f_equiv. split.
  - intros ([ip ports] & Hr & Hp)%list_elem_of_bind. apply list_elem_of_bind in Hr as (port & Hr & Hport).
    apply list_elem_of_fmap in Hr as (protocol & -> & Hprot). exists ip, port, protocol. split; [|done].
    apply natPorts_spec. exists ports. apply elem_of_elements in Hport. apply elem_of_map_to_list in Hp. done.
  - intros (ip & port & protocol & (ports & Hlk & Hport)%natPorts_spec & Hprot & ->).
    apply list_elem_of_bind. exists (ip, ports). split; [|by apply elem_of_map_to_list].
    apply list_elem_of_bind. exists port. split; [|by apply elem_of_elements]. apply list_elem_of_fmap. eauto.
Qed.

(** Removing the lonely lefts and adding the lonely rights makes the target. *)
Lemma natJoin_reconciles (current target kept new : list ipRule) :
  current ≡ₚ (lonelyLefts (Join natScore current target) ++ kept)%list →
  new ≡ₚ (lonelyRights (Join natScore current target) ++ kept)%list → new ≡ₚ target.
Proof.
  intros Hkept Hnew. pose proof (Join_lefts natScore current target) as HL.
  pose proof (Join_rights natScore current target) as HR. set (j := Join natScore current target) in *.
  assert ((pairs j).*1 = (pairs j).*2) as Hpairs.
  { apply list_fmap_ext. intros i [l r] Hi%list_elem_of_lookup_2. apply Join_pairs_score in Hi.
    revert Hi. unfold natScore. case_decide; [done|lia]. }
  rewrite Hnew, <- HR, <- Hpairs, Permutation_app_comm. f_equiv.
  apply (Permutation_app_inv_l (lonelyLefts j)). rewrite <- Hkept, <- HL. by rewrite Permutation_app_comm.
Qed.


End Nat.

(** ** A host that has nothing but a NAT table *)

Fixpoint dropRule (r : ipRule) (l : list ipRule) : option (list ipRule) :=
  match l with
  | [] => None
  | x :: l' => if decide (x = r) then Some l' else cons x <$> dropRule r l'
  end.

Lemma dropRule_perm r l l' : dropRule r l = Some l' → l ≡ₚ r :: l'.
Proof.
  revert l'. induction l as [|x l IH]; intros l'; cbn; [done|]. case_decide as Hx; [by intros [= <-]; rewrite Hx|].
  destruct (dropRule r l) as [l0|]; cbn; [|done]. intros [= <-]. rewrite (IH l0 eq_refl). constructor.
Qed.

Definition removeRule (r : ipRule) (w : list ipRule) : cmdResult * list ipRule :=
  match dropRule r w with Some w' => (Output "", w') | None => (ExitError, w) end.

Lemma removeRule_perm r w out w' : removeRule r w = (Output out, w') → w ≡ₚ r :: w'.
Proof. unfold removeRule. destruct (dropRule r w) eqn:Hr; [|done]. intros [= _ <-]. by apply dropRule_perm. Qed.

Definition iptables (words : list string) (w : list ipRule) : cmdResult * list ipRule :=
  match words with
  | op :: chain :: opts =>
      let r := mkIpRule "-A" chain (joinOn space opts) in
      if decide (op = "-A") then if decide (opts = ["ACCEPT"]) then (ExitError, w) else (Output "", (r :: w)%list)
      else if decide (op = "-D") then removeRule r w
      else if decide (op = "-X") then removeRule (mkIpRule "-N" chain "") w
      else (ExitError, w)
  | _ => (Output (unlines (printRule <$> w)), w)
  end.

Definition natExec (words : list string) (w : list ipRule) : cmdResult * list ipRule :=
  if decide (take 3 words = ["iptables"; "-t"; "nat"]) then iptables (drop 3 words) w else (ExecError, w).

#[local] Instance natHost : Host (list ipRule) := {|
  hostExec := natExec;
  hostReadDir := λ _ w, (None, w);
  hostLstat := λ _ w, (NotExist, w);
  hostStat := λ _ w, (NotExist, w);
  hostReadlink := λ _ w, (inl NotExist, w);
  hostRemove := λ _ w, (false, w);
  hostSymlink := λ _ _ w, (false, w);
  hostReadFile := λ _ w, (None, w);
  hostInterface := λ _ w, (None, w);
  dockerExec := λ _ _ w, (None, w);
  dockerList := λ _ w, (None, w);
  dockerGet := λ _ _ w, (None, w);
  dockerPut := λ _ _ _ _ w, (false, w)
|}.

Lemma upperWord_noSep s : upperWord s → noSep space s.
Proof. intros [_ Hs] Hin. by apply (proj1 (Forall_forall _ _) Hs) in Hin. Qed.

Lemma natExec_words op chain opts w :
  noSep space op → upperWord chain →
  natExec (splitOn space ("iptables -t nat " ++ op ++ " " ++ chain ++ " " ++ opts)) w =
  iptables (op :: chain :: splitOn space opts) w.
Proof.
  intros Hop Hchain.
  change (natExec ("iptables" :: "-t" :: "nat" :: splitOn space (op ++ String space (chain ++ String space opts))) w =
          iptables (op :: chain :: splitOn space opts) w).
  rewrite !splitOn_sep by (done || by apply upperWord_noSep). reflexivity.
Qed.

#[local] Instance natLaws : NatTable (list ipRule).
Proof.
  refine {| natRules := λ w : list ipRule, w |}.
  - intros w r w' [= <- <-]. split; [done|]. by intros out [= <-].
  - intros r w out w' Hr Hex.
    change (natExec (splitOn space ("iptables -t nat " ++ "-A" ++ " " ++ irChain r ++ " " ++ irOpts r)) w = (Output out, w')) in Hex.
    assert (upperWord (irChain r) ∧ irCmd r = "-A" ∧ irOpts r ≠ "ACCEPT") as (Hc & Hcmd & Hne).
    { destruct Hr; (split; [upper_word|]; split; [done|]; by intros [=]). }
    rewrite natExec_words in Hex; [|by vm_compute; set_solver|done]. cbn [iptables] in Hex.
    rewrite joinOn_splitOn in Hex. rewrite decide_True in Hex by done. case_decide as Ho.
    { apply (f_equal (joinOn space)) in Ho. rewrite joinOn_splitOn in Ho. done. }
    injection Hex as _ <-. destruct r; cbn in *. by rewrite Hcmd.
  - intros chain w out w' Hc Hex.
    change (natExec (splitOn space ("iptables -t nat " ++ "-A" ++ " " ++ chain ++ " " ++ "ACCEPT")) w = (Output out, w')) in Hex.
    rewrite natExec_words in Hex; [done| |done]. by vm_compute; set_solver.
  - intros r w out w' (_ & Hc & _ & _) Hcmd Hex.
    change (natExec (splitOn space ("iptables -t nat " ++ "-D" ++ " " ++ irChain r ++ " " ++ irOpts r)) w = (Output out, w')) in Hex.
    rewrite natExec_words in Hex; [|by vm_compute; set_solver|done]. cbn [iptables] in Hex. rewrite joinOn_splitOn in Hex.
    apply removeRule_perm in Hex. destruct r; cbn in *. by rewrite Hcmd.
  - intros chain w out w' Hc Hex.
    change (natExec ("iptables" :: "-t" :: "nat" :: "-X" :: splitOn space chain) w = (Output out, w')) in Hex.
    rewrite splitOn_noSep in Hex by (by apply upperWord_noSep). by apply removeRule_perm in Hex.
  - intros w out w' [=].
Defined.

(** The table of a host with a rule of docker, and a container that serves a port. *)
Definition natContainer : Container :=
  mkContainer 1 42 "10.0.0.2" "02:00:0a:00:00:02" "0123456789abcdef" "alpine" None (Some ["web"]) None None.
Definition natConnection : Connection := mkConnection 2 PublicInternetLabel "web" 80 80.
Definition natState : hostWorld (list ipRule) :=
  mkHostWorld [policyRule "PREROUTING"; policyRule "INPUT"; policyRule "OUTPUT"; policyRule "POSTROUTING";
               mkIpRule "-N" "DOCKER" ""; mkIpRule "-A" "PREROUTING" "-j DOCKER"] 0.

