(* ===== verification/WorkerFlow.v ===== *)
(** * minion/network: reading OpenFlow rules

    [makeOFRule] of [src/minion/network/worker.go] puts a rule into a canonical form:
    two descriptions are the same rule exactly when they have the same table and the
    same fields and actions, in any order. *)

From stdpp Require Import base gmap list strings pretty sorting.
From Stdlib Require Import ZArith Lia.
From S2P Require Import Prelude DockerClient Regexp Host WorkerRules WorkerNat.

Local Open Scope string_scope.

(** A line about a flow: what comes before the table, the table, what follows it, the
    fields to match and the actions. *)
Definition flowText (pre table post : string) (fields actions : list string) : string :=
  pre ++ "table=" ++ table ++ post ++ " " ++ joinOn comma fields ++ " actions=" ++ joinOn comma actions.

Definition charB : Ascii.ascii := Ascii.ascii_of_nat 98.
Definition openParen : Ascii.ascii := Ascii.ascii_of_nat 40.

(** The shape of such a line: the text before the table does not mention one, the table
    is a number, and neither fields nor actions have spaces or commas. An action that is
    a call is not of this form. *)
Record wfFlow (pre table post : string) (fields actions : list string) : Prop := mkWfFlow {
  wfPre : charB ∉ chars pre;
  wfTable : table ≠ "" ∧ Forall (λ c, isDigit c = true) (chars table);
  wfPost : stops isDigit (chars post);
  wfFields : fields ≠ [] ∧ Forall (λ f, noSep comma f ∧ noSep space f) fields;
  wfActions : actions ≠ [] ∧
    Forall (λ a, a ≠ "" ∧ noSep comma a ∧ openParen ∉ chars a ∧ Forall (λ c, isSpace c = false) (chars a)) actions
}.

(** ** The table *)

Lemma findFrom_skip r p s before f :
  (∀ p1 p2, p = (p1 ++ p2)%list → p2 ≠ [] → matchHere r (before ++ p1)%list (p2 ++ s)%list = None) →
  matchHere r (before ++ p)%list s = Some f → findFrom r before (p ++ s)%list = Some f.
Proof.
  revert before. induction p as [|c p IH]; intros before Hno Hf.
  - rewrite app_nil_r in Hf. destruct s; cbn [app findFrom]; by rewrite Hf.
  - cbn [app findFrom]. pose proof (Hno [] (c :: p)) as Hhere. rewrite app_nil_r in Hhere. cbn [app] in Hhere.
    rewrite Hhere by done. apply IH; [|by rewrite <- app_assoc].
    intros p1 p2 -> Hne. rewrite <- app_assoc. by apply (Hno (c :: p1)).
Qed.

Lemma table_here before t s :
  t ≠ [] → Forall (λ c, isDigit c = true) t → stops isDigit s →
  ∃ f, matchHere tableRE before (chars "table=" ++ t ++ s)%list = Some f ∧ fText f = (chars "table=" ++ t)%list.
Proof.
  intros Hne Ht Hs. eexists. split.
  - unfold matchHere, tableRE. cbn [matchRe litStr chars String.list_ascii_of_string lit app].
    rewrite !bool_decide_true by done. apply plus_greedy; [done..|]. reflexivity.
  - exact (take_before (chars "table=" ++ t)%list s).
Qed.

Lemma table_not_before before p t :
  charB ∉ p → p ≠ [] → matchHere tableRE before (p ++ chars "table=" ++ t)%list = None.
Proof.
  intros Hb Hne. unfold matchHere, tableRE. cbn [matchRe litStr chars String.list_ascii_of_string lit].
  destruct p as [|c p]; [done|]. cbn [app]. case_match; [|done].
  destruct p as [|d p]; [done|]. cbn [app]. case_match; [|done].
  destruct p as [|e p]; [done|]. cbn [app]. rewrite bool_decide_false; [done|].
  intros <-. apply Hb. right. right. left.
Qed.

Lemma find_table pre t s :
  charB ∉ pre → t ≠ [] → Forall (λ c, isDigit c = true) t → stops isDigit s →
  ∃ f, find tableRE (pre ++ chars "table=" ++ t ++ s)%list = Some f ∧ fText f = (chars "table=" ++ t)%list.
Proof.
  intros Hpre Hne Ht Hs. destruct (table_here pre t s Hne Ht Hs) as (f & Hf & Htext). exists f. split; [|done].
  apply findFrom_skip; [|done]. intros p1 p2 -> Hne2. apply table_not_before; [|done].
  intros Hin. apply Hpre, elem_of_app. by right.
Qed.

(** ** The actions *)

Lemma matchRe_func s caps {A} (k : text → groups → option A) : openParen ∉ s → matchRe funcRE s caps k = None.
Proof.
  intros Hs. unfold funcRE. change (matchRe (plus (Chr isWord)) s caps (λ s' caps', matchRe (litStr (chars "(")
    (Seq (plus (Chr (λ c, negb (between 41 41 c)))) (lit (Ascii.ascii_of_nat 41)))) s' caps' k) = None).
  apply plus_none. intros w s' ->. cbn [litStr chars String.list_ascii_of_string matchRe lit].
  destruct s' as [|c s']; [done|]. rewrite bool_decide_false; [done|].
  intros Heq. apply Hs, elem_of_app. right. rewrite <- Heq. left.
Qed.

Lemma find_func s : openParen ∉ s → find funcRE s = None.
Proof.
  unfold find. generalize (@nil Ascii.ascii) as before. induction s as [|c s IH]; intros before Hs; cbn [findFrom];
    unfold matchHere; rewrite matchRe_func by done; [done|]. apply IH. by apply not_elem_of_cons in Hs as [_ ?].
Qed.

(** The ends of a text of several parts. *)
Lemma joinOn_chars l : Forall (λ a, openParen ∉ chars a) l → openParen ∉ chars (joinOn comma l).
Proof.
  intros Hl. induction Hl as [|a l Ha Hl IH]; [apply not_elem_of_nil|]. destruct l as [|b l]; [done|].
  rewrite joinOn_cons, chars_app, elem_of_app. intros [Hin|Hin]; [done|].
  change (openParen ∈ comma :: chars (joinOn comma (b :: l))) in Hin.
  apply elem_of_cons in Hin as [Heq|Hin]; [discriminate|done].
Qed.

Lemma joinOn_nonempty a l : a ≠ "" → joinOn comma (a :: l) ≠ "".
Proof. intros Ha. destruct a as [|c a]; [done|]. destruct l; [done|]. by rewrite joinOn_cons, string_app_cons. Qed.

Lemma comma_stops s : noSep comma s → stops (λ d, bool_decide (comma = d)) (chars s).
Proof. intros Hs c t Heq. apply bool_decide_false. intros <-. apply Hs. unfold chars in Heq. rewrite Heq. left. Qed.

Lemma comma_Forall s : noSep comma s → Forall (λ d, bool_decide (comma = d) = false) (chars s).
Proof. intros Hs. apply Forall_forall. intros c Hc. apply bool_decide_false. by intros <-. Qed.

Lemma trimOf_joinOn actions :
  actions ≠ [] → Forall (λ a, a ≠ "" ∧ noSep comma a) actions → trimOf comma (joinOn comma actions) = joinOn comma actions.
Proof.
  intros Hne Hacts. unfold trimOf. rewrite trimBoth_stops; [apply unchars_chars| |].
  - destruct Hacts as [|a l [Ha Hc] Hl]; [done|]. destruct l as [|b l]; [by apply comma_stops|].
    rewrite joinOn_cons, chars_app. intros c t Heq. destruct (chars a) as [|d ds] eqn:Hd.
    + by apply chars_nonempty in Ha.
    + cbn in Heq. simplify_eq. by apply (comma_stops a Hc c ds).
  - induction Hacts as [|a l [Ha Hc] Hl IH]; [done|]. destruct l as [|b l].
    + change (joinOn comma [a]) with a. rewrite <- (app_nil_l (chars a)).
      apply (stops_end _ "" a); [done|by apply comma_Forall].
    + rewrite joinOn_cons, chars_app, reverse_app. specialize (IH ltac:(done)).
      change (chars (String comma (joinOn comma (b :: l)))) with (comma :: chars (joinOn comma (b :: l))).
      rewrite reverse_cons. intros c t Heq. destruct (reverse (chars (joinOn comma (b :: l)))) as [|d ds] eqn:Hd.
      * apply (f_equal reverse) in Hd. rewrite reverse_involutive in Hd. inversion Hl as [|? ? [Hb _] _]; subst.
        by apply chars_nonempty in Hd; [|apply joinOn_nonempty].
      * cbn in Heq. simplify_eq. by apply (IH c ds).
Qed.

Lemma actionList_plain actions :
  actions ≠ [] → Forall (λ a, a ≠ "" ∧ noSep comma a ∧ openParen ∉ chars a) actions →
  actionList (joinOn comma actions) = actions.
Proof.
  intros Hne Hacts. unfold actionList.
  assert (find funcRE (chars (joinOn comma actions)) = None) as Hf.
  { apply find_func, joinOn_chars. eapply Forall_impl; [exact Hacts|]. by intros a (_ & _ & ?). }
  assert (split funcRE (chars (joinOn comma actions)) = [chars (joinOn comma actions)]) as ->.
  { unfold split. destruct (length _); cbn [splitF]; [done|]. by rewrite Hf. }
  assert (findAll funcRE (chars (joinOn comma actions)) = []) as ->.
  { unfold findAll. destruct (length _); cbn [findAllF]; [done|]. by rewrite Hf. }
  cbn [fmap list_fmap]. rewrite app_nil_r. unfold compose. rewrite unchars_chars, trimOf_joinOn.
  - cbn [mbind list_bind]. rewrite app_nil_r. destruct actions as [|a l]; [done|].
    rewrite decide_False by (apply joinOn_nonempty; by inversion Hacts as [|? ? [? _] _]).
    apply splitOn_joinOn. eapply Forall_impl; [exact Hacts|]. by intros b (_ & ? & _).
  - done.
  - eapply Forall_impl; [exact Hacts|]. by intros b (? & ? & _).
Qed.

Lemma find_actions s :
  s ≠ "" → Forall (λ c, isSpace c = false) (chars s) →
  ∃ f, find actRE (chars ("actions=" ++ s)) = Some f ∧ group f 1 = s.
Proof.
  intros Hne Hs. eexists. rewrite chars_app. split.
  - apply find_here. unfold matchHere, actRE. cbn [matchRe litStr chars String.list_ascii_of_string lit app].
    rewrite !bool_decide_true by done. fold (chars s). rewrite <- (app_nil_r (chars s)).
    apply plus_greedy; [by apply chars_nonempty| |done|reflexivity].
    eapply Forall_impl; [exact Hs|]. by intros c ->.
  - unfold group. cbn [fGroups]. rewrite lookup_insert_eq. cbn. rewrite app_nil_r, Nat.sub_0_r, firstn_all. apply unchars_chars.
Qed.

(** A property of characters that the comma has too. *)
Lemma joinOn_Forall (P : Ascii.ascii → Prop) l :
  P comma → Forall (λ a, Forall P (chars a)) l → Forall P (chars (joinOn comma l)).
Proof.
  intros Hcomma Hl. induction Hl as [|a l Ha Hl IH]; [constructor|]. destruct l as [|b l]; [done|].
  rewrite joinOn_cons, chars_app. apply Forall_app. split; [done|]. by constructor.
Qed.

Lemma noSep_Forall s : noSep space s ↔ Forall (λ c, c ≠ space) (chars s).
Proof.
  unfold noSep. rewrite Forall_forall. split; [by intros Hs c Hc ->|]. intros Hs Hin. by apply (Hs space Hin).
Qed.

Lemma makeOFRule_flow pre table post fields actions :
  wfFlow pre table post fields actions →
  makeOFRule (flowText pre table post fields actions) =
  OFOk (mkOFRule ("table=" ++ table) (joinOn comma (sortStrings fields)) (joinOn comma (sortStrings actions))).
Proof.
  intros [Hpre [Ht1 Ht] Hpost [Hf1 Hf] [Ha1 Ha]].
  assert (Forall (λ c, isSpace c = false) (chars (joinOn comma actions))) as Hns.
  { apply joinOn_Forall; [done|]. eapply Forall_impl; [exact Ha|]. by intros a (_ & _ & _ & ?). }
  assert (joinOn comma actions ≠ "") as Hane.
  { destruct Ha as [|a l [? _] _]; [done|]. by apply joinOn_nonempty. }
  assert (noSep space (joinOn comma fields)) as Hfs.
  { apply noSep_Forall, joinOn_Forall; [done|]. eapply Forall_impl; [exact Hf|]. intros a [_ ?]. by apply noSep_Forall. }
  assert (noSep space ("actions=" ++ joinOn comma actions)) as Has.
  { apply noSep_Forall. rewrite chars_app. apply Forall_app. split; [by repeat constructor|].
    eapply Forall_impl; [exact Hns|]. by intros c Hc ->. }
  unfold makeOFRule, flowText.
  set (rest := " " ++ joinOn comma fields ++ " actions=" ++ joinOn comma actions).
  destruct (find_table (chars pre) (chars table) (chars (post ++ rest))) as (f & Hfind & Htext);
    [done|by apply chars_nonempty|done| |].
  { rewrite chars_app. destruct (chars post) as [|c p] eqn:Hp; [by intros c t [= <- _]|].
    intros d t [= <- _]. by apply (Hpost c p). }
  rewrite (chars_app pre), (chars_app "table="), (chars_app table), Hfind, Htext.
  assert (splitOn space (pre ++ "table=" ++ table ++ post ++ rest) =
    (splitOn space (pre ++ "table=" ++ table ++ post) ++ [joinOn comma fields; ("actions=" ++ joinOn comma actions)%string])%list) as ->.
  { rewrite <- (string_app_assoc table), <- (string_app_assoc "table="), <- (string_app_assoc pre).
    change rest with (String space (joinOn comma fields ++ String space ("actions=" ++ joinOn comma actions))).
    rewrite splitOn_app. f_equal. rewrite splitOn_sep by done. by rewrite splitOn_noSep. }
  rewrite reverse_app. cbn [reverse rev_append app].
  destruct (find_actions (joinOn comma actions) Hane Hns) as (fa & Hfa & Hga).
  change (reverse [joinOn comma fields; "actions=" ++ joinOn comma actions])
    with ["actions=" ++ joinOn comma actions; joinOn comma fields]. cbn [app].
  rewrite Hfa, Hga, <- (chars_app "table=" table), unchars_chars.
  rewrite actionList_plain; [|done|eapply Forall_impl; [exact Ha|]; naive_solver].
  destruct fields as [|fd fds]; [done|]. rewrite splitOn_joinOn; [done|]. eapply Forall_impl; [exact Hf|]. naive_solver.
Qed.


