(* ===== verification/WorkerPorts.v ===== *)
(** * minion/network: changing the ports of a worker

    What [modPort] of [src/minion/network/worker.go] can do to a port that exists,
    against any server that obeys [OvsLaws]. *)

From stdpp Require Import base gmap list strings.
From Stdlib Require Import ZArith Lia.
From S2P Require Import Prelude Ovsdb OvsServer OvsdbProps Worker.

Local Open Scope Z_scope.

(** Every interface of [d'] was one of [d], and has what the maps of its row held. *)
Definition keptKeys (d d' : database) : Prop :=
  ∀ u r', d' !! ("Interface"%string, u) = Some r' →
    ∃ r, d !! ("Interface"%string, u) = Some r ∧
      ∀ col m key v, col ≠ "type"%string → r !! col = Some (DMap m) → m !! key = Some v →
        ∃ m', r' !! col = Some (DMap m') ∧ m' !! key = Some v.

#[global] Instance keptKeys_preorder : PreOrder keptKeys.
Proof.
  split.
  - intros d u r Hr. exists r. split; [done|]. eauto.
  - intros d1 d2 d3 H12 H23 u r3 Hr3. destruct (H23 u r3 Hr3) as (r2 & Hr2 & Hk2).
    destruct (H12 u r2 Hr2) as (r1 & Hr1 & Hk1). exists r1. split; [done|].
    intros col m key v Hcol Hm Hv. destruct (Hk1 col m key v Hcol Hm Hv) as (m' & Hm' & Hv'). eauto.
Qed.

Lemma collected_keptKeys kept d d' : collected kept d d' → keptKeys d d'.
Proof.
  intros [Hsub _] u r' Hr'. exists r'. split; [by eapply lookup_weaken|]. eauto.
Qed.

(** An operation that rewrites the rows it selects. *)
Lemma rewrite_keptKeys (hits d : database) (f : srow → srow) :
  hits ⊆ d →
  (∀ r col m key v, col ≠ "type"%string → r !! col = Some (DMap m) → m !! key = Some v →
     ∃ m', f r !! col = Some (DMap m') ∧ m' !! key = Some v) →
  keptKeys d ((f <$> hits) ∪ d).
Proof.
  intros Hsub Hf u r'. rewrite lookup_union, lookup_fmap. destruct (hits !! _) as [r|] eqn:Hh; cbn.
  - pose proof (lookup_weaken _ _ _ _ Hh Hsub) as Hd. rewrite Hd. intros [= <-]. exists r. eauto.
  - rewrite left_id_L by apply _. intros Hr'. exists r'. eauto.
Qed.

Lemma matching_sub names op d : matching names op d ⊆ d.
Proof. apply map_filter_subseteq. Qed.

(** Adding a pair to a map leaves the pairs that it has. *)
Lemma mutate_keeps names mcol key0 value r col m key v :
  r !! col = Some (DMap m) → m !! key = Some v →
  ∃ m', mutateRow names r (JArr [JStr mcol; JStr "insert"; mapJSON {[key0 := value]}]) !! col = Some (DMap m') ∧
        m' !! key = Some v.
Proof.
  intros Hm Hv. cbn [mutateRow]. destruct (jsonDatum names _) as [val|]; [|eauto].
  destruct (decide (mcol = col)) as [->|Hne]; [|rewrite lookup_alter_ne by done; eauto].
  rewrite lookup_alter_eq, Hm. cbn. destruct val as [s|m2]; [eauto|]. eexists. split; [reflexivity|].
  by apply lookup_union_Some_l.
Qed.

Section Ports.
Context {W : Type} `{OvsServer W, !OvsLaws W}.

Abbreviation switchDb w := (ovDb w openVSwitch).

Lemma addToOFInterface_keeps name mcol key value w :
  ∃ r w', addToOFInterface name (JArr [JStr mcol; JStr "insert"; mapJSON {[key := value]}]) w = Ok (r, w') ∧
    keptKeys (switchDb w) (switchDb w').
Proof.
  unfold addToOFInterface. set (op := mutateOp _ _ _).
  destruct (transactCheck_run openVSwitch [op] 1 1 w) as (r & w' & Hrun & Hst).
  { unfold op, mapJSON. rewrite map_to_list_singleton. reflexivity. }
  exists r, w'. split; [done|]. destruct Hst as [[_ ->]|(outs & (us & d' & Hlen & _ & Hex & Hcol & _) & _)]; [done|].
  destruct us as [|u [|]]; [done| |done]. transitivity d'; [|by eapply collected_keptKeys].
  cbn in Hex. injection Hex as _ <-. apply rewrite_keptKeys; [apply matching_sub|].
  intros r0 col m key0 v _ Hm Hv. cbn [foldl]. by apply (mutate_keeps ∅ mcol key value r0 col m).
Qed.

Lemma setInterface_keeps name mcol key value w :
  ∃ r w', (mut ← mutation mcol "insert" (GoStringMap {[key := value]}); addToOFInterface name mut) w = Ok (r, w') ∧
    keptKeys (switchDb w) (switchDb w').
Proof. apply addToOFInterface_keeps. Qed.

Lemma SetOFInterfaceType_keeps name ifaceType w :
  ∃ r w', SetOFInterfaceType name ifaceType w = Ok (r, w') ∧ keptKeys (switchDb w) (switchDb w').
Proof.
  unfold SetOFInterfaceType, updateOFInterface. set (op := updateOp _ _ _).
  destruct (transactCheck_run openVSwitch [op] 1 1 w) as (r & w' & Hrun & Hst).
  { unfold op. cbn [supportedOps]. unfold supported. cbn [opRow updateOp]. rewrite map_to_list_singleton. reflexivity. }
  exists r, w'. split; [done|]. destruct Hst as [[_ ->]|(outs & (us & d' & Hlen & _ & Hex & Hcol & _) & _)]; [done|].
  destruct us as [|u [|]]; [done| |done]. transitivity d'; [|by eapply collected_keptKeys].
  cbn in Hex. injection Hex as _ <-. apply rewrite_keptKeys; [apply matching_sub|].
  intros r0 col m key v Hcol' Hm Hv. exists m. split; [|done]. rewrite lookup_union, lookup_omap.
  rewrite lookup_singleton_ne by done. cbn. by rewrite Hm.
Qed.

(** A step that may be skipped, and the steps after it. *)
Lemma optional_step (b : Prop) `{Decision b} (c k : M Empty_set W (ovsErr + unit)) w :
  (∃ r w', c w = Ok (r, w') ∧ keptKeys (switchDb w) (switchDb w')) →
  (∀ w, ∃ r w', k w = Ok (r, w') ∧ keptKeys (switchDb w) (switchDb w')) →
  ∃ r w', (_ ←? (if decide b then c else mret (inr tt)); k) w = Ok (r, w') ∧ keptKeys (switchDb w) (switchDb w').
Proof.
  intros (r & w1 & Hc & Hk1) Hk. unfold tryBind, mbind, M_bind. case_decide; [rewrite Hc|].
  - destruct r as [e|[]]; [by exists (inl e), w1|]. destruct (Hk w1) as (r2 & w2 & -> & Hk2).
    exists r2, w2. split; [done|]. by etransitivity.
  - destruct (Hk w) as (r2 & w2 & Hr2 & Hk2). exists r2, w2. split; [exact Hr2|done].
Qed.

Lemma modPort_keeps current target w :
  ∃ r w', modPort current target w = Ok (r, w') ∧ keptKeys (switchDb w) (switchDb w').
Proof.
  unfold modPort. apply optional_step; [apply SetOFInterfaceType_keeps|]. clear w. intros w.
  apply optional_step; [apply setInterface_keeps|]. clear w. intros w.
  apply optional_step; [apply setInterface_keeps|]. clear w. intros w.
  case_decide; [apply setInterface_keeps|by exists (inr tt), w].
Qed.

(** The worker cannot correct a port that has a wrong peer, address or identifier:
    [modPort] returns, but it sets them with mutations that insert into a map, and such a
    mutation leaves a key that is already there alone. Whatever the target asks for, an
    interface that is still there afterwards has the value it had before. *)
Theorem modPort_keeps_stale (current target : ovsPort) (w : W) (u col key old : string) (r : srow)
    (m : gmap string string) :
  switchDb w !! ("Interface"%string, u) = Some r →
  (col, key) ∈ [("options", "peer"); ("external_ids", "attached-mac"); ("external_ids", "iface-id")]%string →
  r !! col = Some (DMap m) → m !! key = Some old →
  ∃ res w', modPort current target w = Ok (res, w') ∧
    ∀ r', switchDb w' !! ("Interface"%string, u) = Some r' →
      ∃ m', r' !! col = Some (DMap m') ∧ m' !! key = Some old.
Proof.
  intros Hr Hcol Hm Hold. destruct (modPort_keeps current target w) as (res & w' & Hrun & Hk).
  exists res, w'. split; [done|]. intros r' Hr'. destruct (Hk u r' Hr') as (r0 & Hr0 & Hkeys).
  rewrite Hr in Hr0. injection Hr0 as <-. eapply Hkeys; [|done..].
  intros ->. by repeat (apply elem_of_cons in Hcol as [[=]|Hcol]); apply not_elem_of_nil in Hcol.
Qed.

End Ports.

(** An interface with an old address, on the reference server. *)
Definition staleRow : srow :=
  <["name"%string := scalar (AStr "port")]> {["external_ids"%string := DMap {["attached-mac"%string := "02:00:0a:00:00:01"%string]}]}.
Definition staleServer : RefServer.server :=
  RefServer.mkServer {[openVSwitch := {[("Interface", "u0")%string := staleRow]}]} 0.
Definition staleTarget : ovsPort := mkOvsPort "port" "br-int" false "" "02:00:0a:00:00:02" "".
Definition staleCurrent : ovsPort := mkOvsPort "port" "br-int" false "" "02:00:0a:00:00:01" "".

Lemma modPort_keeps_stale_witness :
  ∃ w', modPort (H0 := RefServer.refServer (λ _ _, ∅)) staleCurrent staleTarget staleServer = Ok (inr tt, w') ∧
    ∀ r', ovDb (OvsLaws := RefServer.refLaws (λ _ _, ∅)) w' openVSwitch !! ("Interface"%string, "u0"%string) = Some r' →
      ∃ m', r' !! "external_ids"%string = Some (DMap m') ∧ m' !! "attached-mac"%string = Some "02:00:0a:00:00:01"%string.
Proof.
  destruct (modPort_keeps_stale (H := RefServer.refServer (λ _ _, ∅)) (OvsLaws0 := RefServer.refLaws (λ _ _, ∅))
    staleCurrent staleTarget staleServer "u0" "external_ids" "attached-mac" "02:00:0a:00:00:01" staleRow
    {["attached-mac"%string := "02:00:0a:00:00:01"%string]}) as (res & w' & Hrun & Hall).
  - reflexivity.
  - right. left.
  - reflexivity.
  - reflexivity.
  - assert (res = inr tt) as ->.
    { apply (f_equal (λ o, match o with Ok (b, _) => b | _ => inl OvsError end)) in Hrun. vm_compute in Hrun. by symmetry. }
    exists w'. split; [exact Hrun|exact Hall].
Defined.
