(* ===== verification/DslScan.v ===== *)
(** * dsl: tokens

    The part of Go's [text/scanner] that [src/dsl/parse.go] uses, in the mode
    [GoTokens] of Go 1.5, and the conversions of [strconv] between texts and numbers.
    A character is a byte, and only ASCII letters are letters. *)

From stdpp Require Import base gmap list strings pretty.
From Stdlib Require Import ZArith Lia SpecFloat.
From S2P Require Import Prelude DslAst Regexp.

Local Open Scope Z_scope.

(** ** Characters *)

Definition quote : Ascii.ascii := Ascii.ascii_of_nat 34.
Definition backslash : Ascii.ascii := Ascii.ascii_of_nat 92.
Definition backquote : Ascii.ascii := Ascii.ascii_of_nat 96.
Definition apostrophe : Ascii.ascii := Ascii.ascii_of_nat 39.
Definition nul : Ascii.ascii := Ascii.ascii_of_nat 0.

(** [GoWhitespace]. *)
Definition isBlank (c : Ascii.ascii) : bool := between 9 10 c || between 13 13 c || between 32 32 c.
Definition isLetter (c : Ascii.ascii) : bool := isUpper c || between 97 122 c || between 95 95 c.
Definition isIdentChar (c : Ascii.ascii) : bool := isLetter c || isDigit c.
Definition isOctal (c : Ascii.ascii) : bool := between 48 55 c.
Definition isHex (c : Ascii.ascii) : bool := isDigit c || between 65 70 c || between 97 102 c.
Definition isC (n : nat) (c : Ascii.ascii) : bool := between n n c.

Fixpoint takeWhile (p : Ascii.ascii → bool) (s : text) : text :=
  match s with [] => [] | c :: s' => if p c then c :: takeWhile p s' else [] end.

(** ** Tokens *)

Inductive token : Type :=
| TEOF
| TIdent
| TInt
| TFloat
| TString
| TRune
| TChar (c : Ascii.ascii).

(** A token, its text, and the text after it; [None] when the scanner reports an
    error. *)
Abbreviation scanned := (option (token * text * text)).

(** The end of a comment, after its first two characters. *)
Fixpoint generalComment (s : text) : option text :=
  match s with
  | c :: ((d :: s') as rest) => if isC 42 c && isC 47 d then Some s' else generalComment rest
  | _ => None
  end.

Definition lineComment (s : text) : text := dropWhile notNewline s.

(** White space and comments; every comment is at least two characters long, so that the
    length of the text is enough fuel. *)
Fixpoint skipF (fuel : nat) (s : text) : option text :=
  match fuel with
  | O => Some s
  | S fuel' =>
      match dropWhile isBlank s with
      | c :: d :: s' =>
          if isC 47 c && isC 47 d then skipF fuel' (lineComment s')
          else if isC 47 c && isC 42 d then rest ← generalComment s'; skipF fuel' rest
          else Some (c :: d :: s')
      | s' => Some s'
      end
  end.

(** Digits of an escape sequence. *)
Fixpoint escapeDigits (p : Ascii.ascii → bool) (n : nat) (s : text) : option text :=
  match n, s with
  | O, _ => Some s
  | S n', c :: s' => if p c then escapeDigits p n' s' else None
  | S _, [] => None
  end.

(** [scanEscape], after the backslash: the text after the sequence. *)
Definition scanEscape (q : Ascii.ascii) (s : text) : option text :=
  match s with
  | [] => None
  | c :: s' =>
      if bool_decide (c = q) || isC 92 c || isC 97 c || isC 98 c || isC 102 c || isC 110 c || isC 114 c || isC 116 c || isC 118 c
      then Some s'
      else if isOctal c then escapeDigits isOctal 3 s
      else if isC 120 c then escapeDigits isHex 2 s'
      else if isC 117 c then escapeDigits isHex 4 s'
      else if isC 85 c then escapeDigits isHex 8 s'
      else None
  end.

(** [scanString]: the text after the closing quote, which ends the literal; a sequence
    is at least one character long. *)
Fixpoint scanStringF (fuel : nat) (q : Ascii.ascii) (s : text) : option text :=
  match fuel, s with
  | S fuel', c :: s' =>
      if decide (c = q) then Some s'
      else if isC 10 c then None
      else if isC 92 c then rest ← scanEscape q s'; scanStringF fuel' q rest
      else scanStringF fuel' q s'
  | _, _ => None
  end.

Definition scanString (q : Ascii.ascii) (s : text) : option text := scanStringF (length s) q s.

(** [scanRawString]. *)
Fixpoint scanRawString (s : text) : option text :=
  match s with
  | [] => None
  | c :: s' => if decide (c = backquote) then Some s' else scanRawString s'
  end.

(** [scanFraction] and [scanExponent]. *)
Definition scanFraction (s : text) : text :=
  match s with c :: s' => if isC 46 c then dropWhile isDigit s' else s | [] => [] end.

Definition scanExponent (s : text) : text :=
  match s with
  | c :: s' =>
      if isC 101 c || isC 69 c then
        dropWhile isDigit (match s' with d :: s'' => if isC 45 d || isC 43 d then s'' else s' | [] => [] end)
      else s
  | [] => []
  end.

(** What begins a fraction or an exponent. *)
Definition beginsFloat (s : text) : bool :=
  match s with c :: _ => isC 46 c || isC 101 c || isC 69 c | [] => false end.

(** [scanNumber], with the first digit. *)
Definition scanNumber (c : Ascii.ascii) (s : text) : option (token * text) :=
  let rest := dropWhile isDigit s in
  match s with
  | x :: s' =>
      if isC 48 c && (isC 120 x || isC 88 x) then
        match s' with
        | h :: _ => if isHex h then Some (TInt, dropWhile isHex s') else None
        | [] => None
        end
      else if beginsFloat rest then Some (TFloat, scanExponent (scanFraction rest))
      else if isC 48 c && existsb (λ d, negb (isOctal d)) (takeWhile isDigit s) then None
      else Some (TInt, rest)
  | [] => Some (TInt, [])
  end.

(** The text between the beginning of [s] and its end [rest]. *)
Definition upToRest (s rest : text) : text := take (length s - length rest) s.

(** The token at the beginning of a text without blanks or comments. *)
Definition scanHere (s : text) : scanned :=
  match s with
  | [] => Some (TEOF, [], [])
  | c :: s' =>
      if isLetter c then let rest := dropWhile isIdentChar s' in Some (TIdent, upToRest s rest, rest)
      else if isDigit c then '(tok, rest) ← scanNumber c s'; Some (tok, upToRest s rest, rest)
      else if decide (c = quote) then rest ← scanString quote s'; Some (TString, upToRest s rest, rest)
      else if decide (c = apostrophe) then rest ← scanString apostrophe s'; Some (TRune, upToRest s rest, rest)
      else if decide (c = backquote) then rest ← scanRawString s'; Some (TString, upToRest s rest, rest)
      else
        match s' with
        | d :: _ =>
            if isC 46 c && isDigit d
            then let rest := scanExponent (dropWhile isDigit s') in Some (TFloat, upToRest s rest, rest)
            else Some (TChar c, [c], s')
        | [] => Some (TChar c, [c], [])
        end
  end.

Definition scan (s : text) : scanned := s' ← skipF (length s) s; scanHere s'.

(** ** [strconv.Atoi] and [strconv.ParseFloat], on the text of a token *)

Fixpoint decimal (acc : Z) (s : text) : option Z :=
  match s with
  | [] => Some acc
  | c :: s' => if isDigit c then decimal (10 * acc + Z.of_nat (Ascii.nat_of_ascii c - 48)) s' else None
  end.

(** The result of [Atoi] when its error is ignored: 0 for a bad number, and the largest
    integer for one that is too large. *)
Definition atoiValue (s : text) : Z :=
  match decimal 0 s with Some n => Z.min n (2 ^ 63 - 1) | None => 0 end.

(** The float64 that is closest to [m * 10^k]. *)
Definition floatOfDecimal (m k : Z) : float64 :=
  match m with
  | Zpos _ =>
      if (0 <=? k)%Z then binary_normalize 53 1024 (m * 10 ^ k) 0 false
      else let '(q, e, l) := SFdiv_core_binary 53 1024 m 0 (10 ^ (- k)) 0 in binary_round_aux 53 1024 false q e l
  | _ => S754_zero false
  end.

(** The exponent of a text; an exponent without digits is a syntax error. *)
Definition exponentOf (s : text) : option Z :=
  match s with
  | [] => Some 0
  | _ :: s' =>
      let '(sign, ds) := match s' with
                         | d :: s'' => if isC 45 d then (-1, s'') else if isC 43 d then (1, s'') else (1, s')
                         | [] => (1, [])
                         end in
      match ds with [] => None | _ => n ← decimal 0 ds; Some (sign * n) end
  end.

(** [ParseFloat] with its error ignored: 0 for bad syntax. *)
Definition parseFloatValue (s : text) : float64 :=
  let int := takeWhile isDigit s in
  let rest := dropWhile isDigit s in
  let '(frac, rest) := match rest with
                       | c :: s' => if isC 46 c then (takeWhile isDigit s', dropWhile isDigit s') else ([], rest)
                       | [] => ([], [])
                       end in
  match decimal 0 (int ++ frac), exponentOf rest with
  | Some m, Some e => floatOfDecimal m (e - Z.of_nat (length frac))
  | _, _ => S754_zero false
  end.

(** ** [fmt]'s [%g] *)

(** The exponent of ten of the positive number [p / q]. *)
Definition digitCount (n : Z) : Z := Z.of_nat (String.length (pretty n)).
Definition scaled (p q k : Z) : Z := if (0 <=? k)%Z then (p * 10 ^ k) / q else p / (q * 10 ^ (- k)).
Definition exponent10 (p q : Z) : Z :=
  let g := digitCount p - digitCount q in if (1 <=? scaled p q (- g))%Z then g else g - 1.

(** Whether [p / q * 10^k] is closer to the integer above it, ties to even. *)
Definition roundsUp (p q k : Z) : bool :=
  let d := scaled p q k in
  let '(num, den) := if (0 <=? k)%Z then (p * 10 ^ k, q) else (p, q * 10 ^ (- k)) in
  match (2 * (num - d * den)) ?= den with Gt => true | Eq => Z.odd d | Lt => false end.

(** The shortest digits that [ParseFloat] reads as [x], and the exponent of the last of
    them: [n] more digits are tried. *)
Fixpoint shortestF (n : nat) (digits : Z) (p q : Z) (x : float64) : option (Z * Z) :=
  match n with
  | O => None
  | S n' =>
      let k := digits - 1 - exponent10 p q in
      let d := scaled p q k in
      let down := bool_decide (floatOfDecimal d (- k) = x) in
      let up := bool_decide (floatOfDecimal (d + 1) (- k) = x) in
      if down && up then Some (if roundsUp p q k then d + 1 else d, - k)
      else if down then Some (d, - k)
      else if up then Some (d + 1, - k)
      else shortestF n' (digits + 1) p q x
  end.

(** Zeros at the end of the digits. *)
Fixpoint stripZeros (fuel : nat) (d e : Z) : Z * Z :=
  match fuel with
  | O => (d, e)
  | S fuel' => if decide (d mod 10 = 0) then stripZeros fuel' (d / 10) (e + 1) else (d, e)
  end.

Fixpoint zeros (n : nat) : string := match n with O => "" | S n' => String (Ascii.ascii_of_nat 48) (zeros n') end.

(** The text of digits [d] with the exponent [e] of the last one. *)
Definition formatDigits (d e : Z) : string :=
  let ds := pretty d in
  let nd := digitCount d in
  let exp := e + nd - 1 in
  if (exp <? -4)%Z || (6 <=? exp)%Z then
    let first := String.substring 0 1 ds in
    let more := String.substring 1 (String.length ds) ds in
    let digits := if decide (more = ""%string) then first else (first ++ "." ++ more)%string in
    let ex := pretty (Z.abs exp) in
    (digits ++ "e" ++ (if (exp <? 0)%Z then "-" else "+") ++ (if (Z.abs exp <? 10)%Z then "0" ++ ex else ex))%string
  else if (0 <=? e)%Z then (ds ++ zeros (Z.to_nat e))%string
  else if (0 <=? exp)%Z then
    (String.substring 0 (Z.to_nat (exp + 1)) ds ++ "." ++ String.substring (Z.to_nat (exp + 1)) (String.length ds) ds)%string
  else ("0." ++ zeros (Z.to_nat (- exp - 1)) ++ ds)%string.

Definition formatFloat (x : float64) : string :=
  match x with
  | S754_zero s => if s then "-0" else "0"
  | S754_infinity s => if s then "-Inf" else "+Inf"
  | S754_nan => "NaN"
  | S754_finite s m e =>
      let '(p, q) := if (0 <=? e)%Z then (Zpos m * 2 ^ e, 1) else (Zpos m, 2 ^ (- e)) in
      match shortestF 17 1 p q (S754_finite false m e) with
      | Some (d, k) => let '(d, k) := stripZeros 17 d k in
                       ((if s then "-" else "") ++ formatDigits d k)%string
      | None => ""
      end
  end.
