(* ===== verification/DslParse.v ===== *)
(** * dsl: reading and printing programs

    Model of [src/dsl/parse.go] and of the [String] methods of [src/dsl/ast.go]. The
    controller prints the program that it evaluated, and every minion reads the text
    again. *)

From stdpp Require Import base gmap list strings pretty sorting.
From Stdlib Require Import ZArith Lia.
From S2P Require Import Prelude DslAst Regexp DslScan.

Local Open Scope Z_scope.

(** ** Reading *)

Abbreviation parsed := (outcome goError (list ast * text)).

(** The scanner's position, after all of [src] but [rest]. *)
Fixpoint advance (line col : Z) (s : text) : Z * Z :=
  match s with
  | [] => (line, col)
  | c :: s' => if isC 10 c then advance (line + 1) 1 s' else advance line (col + 1) s'
  end.

Section Parser.
Context (filename : string) (src : text).

Definition posBefore (rest : text) : position :=
  let read := upToRest src rest in
  let '(line, col) := advance 1 1 read in mkPos filename (Z.of_nat (length read)) line col.

Definition parseError (rest : text) (msg : string) : parsed :=
  Err (DslError (posBefore rest) (Errorf msg [])).

Definition scanError : parsed := Err (Errorf "scanner error" []).

Definition parseIdent (ident : string) : ast :=
  if decide (ident = "true"%string) then astBool true
  else if decide (ident = "false"%string) then astBool false
  else astIdent ident.

Definition isOperator (c : Ascii.ascii) : bool :=
  existsb (λ d, bool_decide (c = d)) (chars "+-/%*=<>!").

(** The loop over the periods of an identifier; the result has the identifier and the
    text after it. *)
Fixpoint identTail (fuel : nat) (ident s : text) : outcome goError (text * text) :=
  match fuel, s with
  | S fuel', c :: s' =>
      if isC 46 c then
        match scan s' with
        | Some (TIdent, more, rest) => identTail fuel' (ident ++ [c] ++ more) rest
        | Some (_, _, rest) => Err (DslError (posBefore rest) (Errorf "bad ident name: %s" []))
        | None => Err (Errorf "scanner error" [])
        end
      else Ok (ident, s)
  | _, _ => Ok (ident, s)
  end.

(** [strings.Trim(s, quote)]. *)
Definition trimQuotes (s : text) : string := unchars (trimBoth (λ c, bool_decide (quote = c)) s).

(** [parseText]; every token but the last is at least one character long, so that more
    than the length of the text is enough fuel. *)
Fixpoint parseText (fuel : nat) (depth : nat) (s : text) : parsed :=
  match fuel with
  | O => OutOfFuel
  | S fuel' =>
      let element (a : ast) (rest : text) : parsed :=
        match parseText fuel' depth rest with Ok (l, r) => Ok (a :: l, r) | o => o end in
      match scan s with
      | None => scanError
      | Some (TEOF, _, rest) => if decide (depth = O) then Ok ([], rest) else parseError rest "unbalanced Parenthesis"
      | Some (TIdent, txt, rest) =>
          match identTail (length rest) txt rest with
          | Ok (ident, rest) => element (parseIdent (unchars ident)) rest
          | Err e => Err e
          | Panic w => Panic w
          | OutOfFuel => OutOfFuel
          end
      | Some (TFloat, txt, rest) => element (astFloat (parseFloatValue txt)) rest
      | Some (TInt, txt, rest) => element (astInt (atoiValue txt)) rest
      | Some (TString, txt, rest) => element (astString (trimQuotes txt)) rest
      | Some (TRune, _, rest) => parseError rest "bad element: %s"
      | Some (TChar c, _, rest) =>
          if isOperator c then element (parseIdent (String c "")) rest
          else if isC 40 c then
            match parseText fuel' (S depth) rest with
            | Ok (sexp, rest') => element (astSexp sexp (posBefore rest)) rest'
            | o => o
            end
          else if isC 41 c then
            if decide (depth = O) then parseError rest "unbalanced Parenthesis" else Ok ([], rest)
          else parseError rest "bad element: %s"
      end
  end.

End Parser.

(** [parse]: the scanner reports an error for a NUL character. *)
Definition parse (filename : string) (src : string) : outcome goError (list ast) :=
  let s := chars src in
  if decide (nul ∈ s) then Err (Errorf "scanner error" [])
  else match parseText filename s (S (length s)) 0 s with
       | Ok (l, _) => Ok l
       | Err e => Err e
       | Panic w => Panic w
       | OutOfFuel => OutOfFuel
       end.

(** ** Printing *)

Local Open Scope string_scope.

Definition dquote : string := String quote "".
Definition quoted (s : string) : string := dquote ++ s ++ dquote.
Definition parens (s : string) : string := "(" ++ s ++ ")".
Definition sliceStr (strs : list string) (sep : string) : string := String.concat sep strs.

Definition rangeStr (r : string * float64 * float64) : string :=
  let '(ident, min, max) := r in
  parens (sliceStr ([ident; formatFloat min] ++ (if floatEq max floatZero then [] else [formatFloat max])) " ").

(** [astMachine.String], for the texts of its keys. *)
Definition machineStr (m : machineObj) (keys : list string) : string :=
  let arg (name value : string) : list string :=
    if decide (value = "") then [] else [parens (name ++ " " ++ quoted value)] in
  let ranged (r : string * float64 * float64) : list string :=
    if decide (r.1.1 = "") then [] else [rangeStr r] in
  let args :=
    (arg "provider" (mProvider m) ++ arg "region" (mRegion m) ++ arg "size" (mSize m) ++
     (if decide (mDiskSize m = 0%Z) then [] else [parens ("diskSize " ++ pretty (mDiskSize m))]) ++
     ranged (mRam m) ++ ranged (mCpu m) ++ arg "role" (mRole m) ++ keys)%list in
  if decide (args = []) then "(machine)" else parens ("machine " ++ sliceStr args " ").

Definition hmapStr (entries : list (string * string)) : string :=
  if decide (entries = []) then "(hmap)"
  else parens ("hmap " ++ sliceStr (sortStrings ((λ e, parens (e.1 ++ " " ++ e.2)) <$> entries)) " ").

Definition containerStr (image : string) (command : list string) (env : list (string * string)) : string :=
  if decide (command = []) then parens ("docker " ++ quoted image)
  else if decide (env = []) then parens ("docker " ++ quoted image ++ " " ++ sliceStr command " ")
  else parens ("docker " ++ quoted image ++ " " ++ sliceStr command " " ++ " " ++ hmapStr env).

(** [String], in a state with the machines and the containers; [n] bounds how many of
    them are nested, which are never more than one. *)
Fixpoint astStr (n : nat) (st : dslState) : ast → string :=
  fix str (a : ast) : string :=
    let machineAt p := match n with
                       | O => ""
                       | S n' => match machineHeap st !! p with
                                 | Some m => machineStr m (astStr n' st <$> mSshKeys m)
                                 | None => ""
                                 end
                       end in
    let containerAt p := match n with
                         | O => ""
                         | S n' => match containerHeap st !! p with
                                   | Some c => containerStr (cImage c) (astStr n' st <$> cCommand c)
                                                 ((λ e, (astStr n' st e.1, astStr n' st e.2)) <$> cEnv c)
                                   | None => ""
                                   end
                         end in
    match a with
    | astIdent s => s
    | astString s => quoted s
    | astFloat x => formatFloat x
    | astInt x => pretty x
    | astBool b => if b then "true" else "false"
    | astGithubKey s => parens ("githubKey " ++ quoted s)
    | astPlaintextKey s => parens ("plaintextKey " ++ quoted s)
    | astSize s => parens ("size " ++ quoted s)
    | astProvider s => parens ("provider " ++ quoted s)
    | astRole s => parens ("role " ++ quoted s)
    | astRegion s => parens ("region " ++ quoted s)
    | astDiskSize x => parens ("diskSize " ++ pretty x)
    | astRange ident min max => rangeStr (ident, min, max)
    | astList _ l => if decide (l = []) then "(list)" else parens ("list " ++ sliceStr (str <$> l) " ")
    | astHmap m => hmapStr ((λ e, (str e.1, str e.2)) <$> m)
    | astSexp l _ => parens (sliceStr (str <$> l) " ")
    | astLabel ident elems =>
        parens ("label " ++ quoted ident ++ " " ++
                sliceStr ((λ e, match e with atomMachine p => machineAt p | atomContainer p => containerAt p end) <$> elems) " ")
    | astRoot l => sliceStr (str <$> l) (String (Ascii.ascii_of_nat 10) "")
    | astModule name body =>
        parens ("module " ++ quoted name ++ " " ++ sliceStr (str <$> body) (String (Ascii.ascii_of_nat 10) ""))
    | astLambda argNames do _ =>
        parens ("lambda " ++ parens (sliceStr argNames " ") ++ " [" ++ sliceStr (str <$> do) " " ++ "]")
    | astMachine p => machineAt p
    | astContainer p => containerAt p
    end.
