(* ===== verification/DslTokens.v ===== *)
(** * dsl: lemmas on the scanner

    The scanner of [DslScan] consumes the text, its fuel is enough, and what it reads at
    the beginning of a text does not depend on what follows a delimiter. *)

From stdpp Require Import base gmap list strings pretty.
From Stdlib Require Import ZArith Lia.
From S2P Require Import Prelude DslAst Regexp DslScan.

(** ** Lengths *)

Lemma dropWhile_length p s : (length (dropWhile p s) ≤ length s)%nat.
Proof. induction s as [|c s IH]; cbn; [done|]. destruct (p c); cbn; lia. Qed.

Lemma escapeDigits_length p n s r : escapeDigits p n s = Some r → (length r ≤ length s)%nat.
Proof.
  revert s. induction n as [|n IH]; intros s; cbn; [by intros [= ->]|]. destruct s as [|c s]; [done|].
  destruct (p c); [|done]. intros Hr%IH. cbn. lia.
Qed.

Lemma scanEscape_length q s r : scanEscape q s = Some r → (length r ≤ length s)%nat.
Proof.
  unfold scanEscape. destruct s as [|c s]; [done|].
  repeat case_match; try done; try (by intros [= <-]; cbn; lia); intros Hr%escapeDigits_length; cbn in *; lia.
Qed.

Lemma scanStringF_length n q s r : scanStringF n q s = Some r → (length r < length s)%nat.
Proof.
  revert s. induction n as [|n IH]; intros s; cbn; [done|]. destruct s as [|c s]; [done|].
  case_decide; [intros [= <-]; cbn; lia|]. destruct (isC 10 c); [done|]. destruct (isC 92 c).
  - destruct (scanEscape q s) as [r'|] eqn:He; [|done]. cbn. intros Hr%IH. apply scanEscape_length in He. lia.
  - intros Hr%IH. cbn. lia.
Qed.

Lemma scanRawString_length s r : scanRawString s = Some r → (length r < length s)%nat.
Proof.
  induction s as [|c s IH]; cbn; [done|]. case_decide; [intros [= <-]; lia|]. intros Hr%IH. lia.
Qed.

Lemma scanFraction_length s : (length (scanFraction s) ≤ length s)%nat.
Proof.
  destruct s as [|c s]; cbn; [done|]. destruct (isC 46 c); [|done]. pose proof (dropWhile_length isDigit s). lia.
Qed.

Lemma scanExponent_length s : (length (scanExponent s) ≤ length s)%nat.
Proof.
  destruct s as [|c s]; cbn; [done|]. destruct (_ || _); [|done].
  etransitivity; [apply dropWhile_length|]. destruct s as [|d s]; cbn; [lia|]. destruct (_ || _); cbn; lia.
Qed.

Lemma scanNumber_length c s tok r : scanNumber c s = Some (tok, r) → (length r ≤ length s)%nat.
Proof.
  unfold scanNumber. pose proof (dropWhile_length isDigit s) as Hd. destruct s as [|x s]; [intros [= _ <-]; done|].
  destruct (isC 48 c && _).
  - destruct s as [|h s]; [done|]. destruct (isHex h); [|done]. intros [= _ <-].
    pose proof (dropWhile_length isHex (h :: s)). cbn in *. lia.
  - destruct (beginsFloat _).
    + intros [= _ <-]. etransitivity; [apply scanExponent_length|]. etransitivity; [apply scanFraction_length|done].
    + destruct (_ && _); [done|]. intros [= _ <-]. done.
Qed.

Lemma scanHere_length s tok txt r :
  scanHere s = Some (tok, txt, r) → (length r ≤ length s)%nat ∧ (tok ≠ TEOF → (length r < length s)%nat).
Proof.
  assert (∀ a b : nat, (a < b)%nat → (a ≤ b)%nat ∧ (tok ≠ TEOF → (a < b)%nat)) as Hlt by (intros; split; [lia|done]).
  unfold scanHere. destruct s as [|c s]; [by intros [= <- _ <-]|].
  destruct (isLetter c); [intros [= _ _ <-]; apply Hlt; pose proof (dropWhile_length isIdentChar s); cbn; lia|].
  destruct (isDigit c).
  { destruct (scanNumber c s) as [[tok' r']|] eqn:Hn; [|done]. intros [= _ _ <-]. apply Hlt.
    apply scanNumber_length in Hn. cbn. lia. }
  case_decide; [|case_decide; [|case_decide]].
  - destruct (scanString quote s) as [r'|] eqn:Hs; [|done]. intros [= _ _ <-]. apply Hlt.
    apply scanStringF_length in Hs. cbn. lia.
  - destruct (scanString apostrophe s) as [r'|] eqn:Hs; [|done]. intros [= _ _ <-]. apply Hlt.
    apply scanStringF_length in Hs. cbn. lia.
  - destruct (scanRawString s) as [r'|] eqn:Hs; [|done]. intros [= _ _ <-]. apply Hlt.
    apply scanRawString_length in Hs. cbn. lia.
  - destruct s as [|d s]; [intros [= _ _ <-]; apply Hlt; cbn; lia|].
    destruct (_ && _); intros [= _ _ <-]; apply Hlt; cbn; [|lia].
    pose proof (scanExponent_length (dropWhile isDigit (d :: s))) as Hexp.
    pose proof (dropWhile_length isDigit (d :: s)) as Hdig. cbn in *. lia.
Qed.

(** ** White space and comments *)

Lemma generalComment_length s r : generalComment s = Some r → (length r ≤ length s)%nat.
Proof.
  induction s as [|c s IH]; [done|]. destruct s as [|d s]; [done|]. cbn [generalComment].
  destruct (_ && _); [intros [= <-]; cbn; lia|]. intros Hr%IH. cbn in *. lia.
Qed.

Lemma skipF_length n s r : skipF n s = Some r → (length r ≤ length s)%nat.
Proof.
  revert s. induction n as [|n IH]; intros s; cbn [skipF]; [by intros [= ->]|].
  pose proof (dropWhile_length isBlank s) as Hd. destruct (dropWhile isBlank s) as [|c [|d s']]; cbn in Hd.
  - intros [= <-]. cbn. lia.
  - intros [= <-]. cbn. lia.
  - destruct (_ && _); [|destruct (_ && _)].
    + intros Hr%IH. pose proof (dropWhile_length notNewline s'). unfold lineComment in *. lia.
    + destruct (generalComment s') as [r'|] eqn:Hg; [|done]. cbn. intros Hr%IH. apply generalComment_length in Hg. lia.
    + intros [= <-]. cbn. lia.
Qed.

(** The fuel of [skipF] is enough. *)
Lemma skipF_fuel n s : (length s ≤ n)%nat → skipF (S n) s = skipF n s.
Proof.
  revert s. induction n as [|n IH]; intros s Hn; [by destruct s; [|cbn in Hn; lia]|].
  cbn [skipF]. pose proof (dropWhile_length isBlank s) as Hd. destruct (dropWhile isBlank s) as [|c [|d s']]; try done.
  cbn in Hd. destruct (_ && _); [|destruct (_ && _); [|done]].
  - apply IH. pose proof (dropWhile_length notNewline s'). unfold lineComment. lia.
  - destruct (generalComment s') as [r'|] eqn:Hg; [|done]. cbn. apply IH. apply generalComment_length in Hg. lia.
Qed.

Lemma scan_length s tok txt r :
  scan s = Some (tok, txt, r) → (length r ≤ length s)%nat ∧ (tok ≠ TEOF → (length r < length s)%nat).
Proof.
  unfold scan. destruct (skipF (length s) s) as [s'|] eqn:Hs; [|done]. cbn.
  intros [H1 H2]%scanHere_length. apply skipF_length in Hs. split; [lia|]. intros Ht%H2. lia.
Qed.

Lemma scan_blank c s : isBlank c = true → scan (c :: s) = scan s.
Proof.
  intros Hc. unfold scan. cbn [length]. f_equal. rewrite <- (skipF_fuel (length s) s) by done.
  cbn [skipF dropWhile]. by rewrite Hc.
Qed.

(** A text that begins with neither is scanned where it begins. *)
Lemma scan_here c s :
  isBlank c = false → (isC 47 c = true → stops (λ d, isC 47 d || isC 42 d) s) → scan (c :: s) = scanHere (c :: s).
Proof.
  intros Hc Hs. unfold scan. cbn [length skipF dropWhile]. rewrite Hc. destruct s as [|d s]; [done|].
  destruct (isC 47 c) eqn:H47; [|done]. pose proof (Hs eq_refl d s eq_refl) as [-> ->]%orb_false_iff. done.
Qed.

Lemma scan_nil : scan [] = Some (TEOF, [], []).
Proof. done. Qed.

(** ** Delimiters: what the printer puts after an element *)

Definition delimChar (c : Ascii.ascii) : bool := isC 32 c || isC 10 c || isC 41 c.
Definition delim (t : text) : Prop := ∀ c t', t = c :: t' → delimChar c = true.

Lemma delim_stops p t : (∀ c, delimChar c = true → p c = false) → delim t → stops p t.
Proof. intros Hp Ht c t' Heq. eapply Hp, Ht, Heq. Qed.

Ltac delim_class := intros ?; unfold delimChar, isIdentChar, isLetter, isHex, isOctal, isC; char_class.

Lemma delim_ident t : delim t → stops isIdentChar t.
Proof. apply delim_stops. delim_class. Qed.
Lemma delim_digit t : delim t → stops isDigit t.
Proof. apply delim_stops. delim_class. Qed.
Lemma delim_hex t : delim t → stops isHex t.
Proof. apply delim_stops. delim_class. Qed.
Lemma delim_period t : delim t → stops (isC 46) t.
Proof. apply delim_stops. delim_class. Qed.
Lemma delim_exponent t : delim t → stops (λ c, isC 101 c || isC 69 c) t.
Proof. apply delim_stops. delim_class. Qed.
Lemma delim_sign t : delim t → stops (λ c, isC 45 c || isC 43 c) t.
Proof. apply delim_stops. delim_class. Qed.
Lemma delim_x t : delim t → stops (λ c, isC 120 c || isC 88 c) t.
Proof. apply delim_stops. delim_class. Qed.
Lemma delim_comment t : delim t → stops (λ c, isC 47 c || isC 42 c) t.
Proof. apply delim_stops. delim_class. Qed.
Lemma delim_float t : delim t → stops (λ c, isC 46 c || isC 101 c || isC 69 c) t.
Proof. apply delim_stops. delim_class. Qed.

#[export] Hint Resolve delim_ident delim_digit delim_hex delim_period delim_exponent delim_sign delim_x delim_comment : di.

(** ** Classes, with a text that stops them after *)

Lemma dropWhile_app p s t : stops p t → dropWhile p (s ++ t) = dropWhile p s ++ t.
Proof.
  intros Ht. induction s as [|c s IH]; [by apply dropWhile_stops|]. cbn. by destruct (p c).
Qed.

Lemma takeWhile_app p s t : stops p t → takeWhile p (s ++ t) = takeWhile p s.
Proof.
  intros Ht. induction s as [|c s IH]; cbn; [|by rewrite IH]. destruct t as [|d t]; [done|]. cbn. by rewrite (Ht d t).
Qed.

Lemma dropWhile_Forall p s : Forall (λ c, p c = true) s → dropWhile p s = [].
Proof. intros Hs. induction Hs as [|c s Hc Hs IH]; [done|]. cbn. by rewrite Hc. Qed.

Lemma stops_head p c t : stops p (c :: t) → p c = false.
Proof. intros Ht. by eapply Ht. Qed.

(** ** Numbers *)

Lemma scanFraction_app s t : delim t → scanFraction (s ++ t) = scanFraction s ++ t.
Proof.
  intros Ht. destruct s as [|c s]; cbn.
  - destruct t as [|d t]; [done|]. cbn. by rewrite (stops_head (isC 46) d t) by auto with di.
  - destruct (isC 46 c); [|done]. apply dropWhile_app. auto with di.
Qed.

Lemma scanExponent_app s t : delim t → scanExponent (s ++ t) = scanExponent s ++ t.
Proof.
  intros Ht. destruct s as [|c s]; cbn.
  - destruct t as [|d t]; [done|]. cbn. by rewrite (stops_head _ d t (delim_exponent _ Ht)).
  - destruct (_ || _); [|done]. destruct s as [|d s]; cbn.
    + destruct t as [|d t]; [done|]. rewrite (stops_head _ d t (delim_sign _ Ht)).
      rewrite dropWhile_stops; [done|]. auto with di.
    + destruct (_ || _).
      * apply dropWhile_app. auto with di.
      * apply (dropWhile_app isDigit (d :: s)). auto with di.
Qed.

Lemma beginsFloat_app s t : delim t → beginsFloat (s ++ t) = beginsFloat s.
Proof.
  intros Ht. destruct s as [|c s]; [|done]. destruct t as [|d t]; [done|]. apply (stops_head _ d t (delim_float _ Ht)).
Qed.

Lemma scanNumber_app c s t :
  delim t → scanNumber c (s ++ t) = (λ p, (p.1, p.2 ++ t)) <$> scanNumber c s.
Proof.
  intros Ht. destruct s as [|x s].
  - cbn [app]. destruct t as [|d t]; [done|]. unfold scanNumber.
    rewrite (stops_head _ d t (delim_x _ Ht)), andb_false_r, dropWhile_stops by auto with di.
    cbn [beginsFloat]. rewrite (stops_head _ d t (delim_float _ Ht)).
    cbn [takeWhile]. by rewrite (stops_head _ d t (delim_digit _ Ht)), andb_false_r.
  - unfold scanNumber. change ((x :: s) ++ t) with (x :: (s ++ t)).
    change (dropWhile isDigit (x :: (s ++ t))) with (dropWhile isDigit ((x :: s) ++ t)).
    change (takeWhile isDigit (x :: (s ++ t))) with (takeWhile isDigit ((x :: s) ++ t)).
    rewrite dropWhile_app, takeWhile_app, beginsFloat_app by auto with di.
    destruct (isC 48 c && _).
    + destruct s as [|h s]; cbn [app].
      * destruct t as [|d t]; [done|]. by rewrite (stops_head _ d t (delim_hex _ Ht)).
      * destruct (isHex h) eqn:Hh; [|done]. cbn [fmap option_fmap option_map fst snd]. do 2 f_equal.
        apply (dropWhile_app isHex (h :: s)). auto with di.
    + destruct (beginsFloat _).
      * cbn. by rewrite scanFraction_app, scanExponent_app.
      * by destruct (_ && _).
Qed.

(** ** String literals *)

Lemma escapeDigits_app p n s r t : escapeDigits p n s = Some r → escapeDigits p n (s ++ t) = Some (r ++ t).
Proof.
  revert s. induction n as [|n IH]; intros s; cbn [escapeDigits]; [intros [= ->]; by destruct (r ++ t)|].
  destruct s as [|c s]; [done|]. cbn [app]. destruct (p c); [|done]. apply IH.
Qed.

Lemma scanEscape_app q s r t : scanEscape q s = Some r → scanEscape q (s ++ t) = Some (r ++ t).
Proof.
  unfold scanEscape. destruct s as [|c s]; [done|]. cbn [app].
  repeat case_match; try done; try (by intros [= <-]); intros Hr; by apply (escapeDigits_app _ _ _ _ t) in Hr.
Qed.

Lemma scanStringF_app n m q s r t :
  scanStringF n q s = Some r → (n ≤ m)%nat → scanStringF m q (s ++ t) = Some (r ++ t).
Proof.
  revert m s. induction n as [|n IH]; intros m s; [done|]. destruct s as [|c s]; [done|].
  destruct m as [|m]; [lia|]. cbn [scanStringF app]. intros Hr Hm. case_decide; [by injection Hr as <-|].
  destruct (isC 10 c); [done|]. destruct (isC 92 c).
  - destruct (scanEscape q s) as [r'|] eqn:He; [|done]. rewrite (scanEscape_app _ _ _ t He). cbn in Hr |- *.
    apply IH; [done|lia].
  - apply IH; [done|lia].
Qed.

(** ** Tokens *)

Lemma scanHere_ident c w t :
  isLetter c = true → Forall (λ c, isIdentChar c = true) w → stops isIdentChar t →
  scanHere (c :: w ++ t) = Some (TIdent, c :: w, t).
Proof.
  intros Hc Hw Ht. unfold scanHere. rewrite Hc, dropWhile_app, dropWhile_Forall by done. cbn [app].
  do 3 f_equal. apply (take_before (c :: w) t).
Qed.

Lemma digit_letter c : isDigit c = true → isLetter c = false.
Proof. unfold isLetter. char_class. Qed.

Lemma scanHere_number c s tok t :
  isDigit c = true → scanNumber c s = Some (tok, []) → delim t → scanHere (c :: s ++ t) = Some (tok, c :: s, t).
Proof.
  intros Hc Hn Ht. unfold scanHere. rewrite (digit_letter c Hc), Hc, scanNumber_app, Hn by done. cbn.
  do 3 f_equal. apply (take_before (c :: s) t).
Qed.

Lemma scanHere_string b t :
  scanString quote (b ++ [quote]) = Some [] →
  scanHere (quote :: b ++ quote :: t) = Some (TString, quote :: b ++ [quote], t).
Proof.
  intros Hb. unfold scanHere, scanString. cbn [isLetter isDigit]. rewrite decide_True by done.
  change (if isLetter quote then ?a else ?b) with b. change (if isDigit quote then ?a else ?b) with b.
  replace (b ++ quote :: t) with ((b ++ [quote]) ++ t) by (by rewrite <- app_assoc).
  rewrite (scanStringF_app (length (b ++ [quote])) _ quote (b ++ [quote]) [] t Hb) by (rewrite !length_app; lia).
  cbn. do 3 f_equal. apply (take_before (quote :: b ++ [quote]) t).
Qed.
