(* ===== verification/DslRoundtrip.v ===== *)
(** * dsl: a printed program is read back

    [parse] of [DslParse] terminates, and reads the text that [String] prints of a
    program as that program. This is how a policy gets from the controller, which
    evaluates and prints it, to the minions. *)

From stdpp Require Import base gmap list strings pretty sorting.
From Stdlib Require Import ZArith Lia.
From S2P Require Import Prelude DslAst Regexp DslScan DslParse DslTokens.

Local Open Scope string_scope.

#[global] Instance token_eq_dec : EqDecision token.
Proof. solve_decision. Defined.

(** ** The fuel of the reader *)

Section Fuel.
Context (filename : string) (src : text).

Lemma identTail_length n id s id' r :
  identTail filename src n id s = Ok (id', r) → (length r ≤ length s)%nat.
Proof.
  revert id s. induction n as [|n IH]; intros id s; [by intros [= _ <-]|]. destruct s as [|c s]; [by intros [= _ <-]|].
  cbn [identTail]. destruct (isC 46 c); [|by intros [= _ <-]].
  destruct (scan s) as [[[tok more] rest]|] eqn:Hs; [|done]. destruct tok; try done. intros Hr%IH.
  apply scan_length in Hs as [Hs _]. cbn. lia.
Qed.

Lemma identTail_returns n id s :
  identTail filename src n id s ≠ OutOfFuel ∧ ∀ w, identTail filename src n id s ≠ Panic w.
Proof.
  revert id s. induction n as [|n IH]; intros id s; [done|]. destruct s as [|c s]; [done|].
  cbn [identTail]. destruct (isC 46 c); [|done]. destruct (scan s) as [[[tok more] rest]|]; [|done].
  by destruct tok.
Qed.

Lemma parseText_length n d s l r : parseText filename src n d s = Ok (l, r) → (length r ≤ length s)%nat.
Proof.
  revert d s l r. induction n as [|n IH]; intros d s l r; [done|]. cbn [parseText].
  destruct (scan s) as [[[tok txt] rest]|] eqn:Hs; [|done]. apply scan_length in Hs as [Hle _].
  assert (∀ a rest', (length rest' ≤ length s)%nat →
    match parseText filename src n d rest' with Ok (l, r) => Ok (a :: l, r) | o => o end = Ok (l, r) →
    (length r ≤ length s)%nat) as Helem.
  { intros a rest' Hrest. destruct (parseText filename src n d rest') as [[l' r']| | |] eqn:Hp; try done.
    intros [= _ <-]. apply IH in Hp. lia. }
  destruct tok; try done; try (by apply Helem).
  - case_decide; [|done]. by intros [= _ <-].
  - destruct (identTail _ _ _ _ _) as [[id' r']| | |] eqn:Hid; try done. apply Helem.
    apply identTail_length in Hid. lia.
  - destruct (isOperator c); [by apply Helem|]. destruct (isC 40 c).
    + destruct (parseText filename src n (S d) rest) as [[sexp r']| | |] eqn:Hp; try done. apply Helem.
      apply IH in Hp. lia.
    + destruct (isC 41 c); [|done]. case_decide; [done|]. by intros [= _ <-].
Qed.

(** More fuel than the length of the text does not matter, *)
Lemma parseText_fuel n m d s :
  (length s < n)%nat → (length s < m)%nat → parseText filename src n d s = parseText filename src m d s.
Proof.
  revert m d s. induction n as [|n IH]; intros m d s Hn Hm; [lia|]. destruct m as [|m]; [lia|]. cbn [parseText].
  destruct (scan s) as [[[tok txt] rest]|] eqn:Hs; [|done]. apply scan_length in Hs as [_ Hlt].
  destruct tok; try done; try (rewrite (IH m d rest); [done|specialize (Hlt ltac:(done)); lia..]);
    specialize (Hlt ltac:(done)).
  - destruct (identTail _ _ _ _ _) as [[id' r']| | |] eqn:Hid; try done. apply identTail_length in Hid.
    by rewrite (IH m d r') by lia.
  - rewrite (IH m d rest), (IH m (S d) rest) by lia. destruct (isOperator c); [done|]. destruct (isC 40 c); [|done].
    destruct (parseText filename src m (S d) rest) as [[sexp r']| | |] eqn:Hp; try done. apply parseText_length in Hp.
    by rewrite (IH m d r') by lia.
Qed.

(** and it is enough. *)
Lemma parseText_returns n d s :
  (length s < n)%nat → parseText filename src n d s ≠ OutOfFuel ∧ ∀ w, parseText filename src n d s ≠ Panic w.
Proof.
  revert d s. induction n as [|n IH]; intros d s Hn; [lia|]. cbn [parseText].
  destruct (scan s) as [[[tok txt] rest]|] eqn:Hs; [|done]. apply scan_length in Hs as [_ Hlt].
  assert (∀ a rest', (length rest' < n)%nat →
    match parseText filename src n d rest' with Ok (l, r) => Ok (a :: l, r) | o => o end ≠ OutOfFuel ∧
    ∀ w, match parseText filename src n d rest' with Ok (l, r) => Ok (a :: l, r) | o => o end ≠ Panic w) as Helem.
  { intros a rest' Hrest. destruct (IH d rest' Hrest) as [Hf Hp].
    destruct (parseText filename src n d rest') as [[l' r']|e|why|]; done. }
  destruct tok; try done; try (apply Helem; specialize (Hlt ltac:(done)); lia); try specialize (Hlt ltac:(done)).
  - by case_decide.
  - destruct (identTail_returns (length rest) txt rest) as [Hf Hp].
    destruct (identTail _ _ _ _ _) as [[id' r']|e|why|] eqn:Hid; [|done|by destruct (Hp why)|done].
    apply identTail_length in Hid. apply Helem. lia.
  - destruct (isOperator c); [apply Helem; lia|]. destruct (isC 40 c); [|destruct (isC 41 c); [by case_decide|done]].
    destruct (IH (S d) rest) as [Hf Hp]; [lia|].
    destruct (parseText filename src n (S d) rest) as [[sexp r']|e|why|] eqn:Hr; [|done|by destruct (Hp why)|done].
    apply parseText_length in Hr. apply Helem. lia.
Qed.

End Fuel.

Lemma parse_returns filename src : parse filename src ≠ OutOfFuel ∧ ∀ w, parse filename src ≠ Panic w.
Proof.
  unfold parse. case_decide; [done|].
  destruct (parseText_returns filename (chars src) (S (length (chars src))) 0 (chars src)) as [Hf Hp]; [lia|].
  destruct (parseText _ _ _ _ _) as [[l r]|e|why|]; try done. by destruct (Hp why).
Qed.

(** ** Programs that can be read back *)

Definition period : Ascii.ascii := Ascii.ascii_of_nat 46.

(** A part of an identifier between periods. *)
Definition segmentOk (w : string) : bool :=
  match chars w with c :: w' => isLetter c && forallb isIdentChar w' | [] => false end.

(** An operator, or segments with periods between them; not a boolean. *)
Definition identOk (s : string) : bool :=
  (match chars s with [c] => isOperator c | _ => false end || forallb segmentOk (splitOn period s)) &&
  bool_decide (s ≠ "true") && bool_decide (s ≠ "false").

(** A text that ends where the literal ends, and that has no quote at either end. *)
Definition stringOk (s : string) : bool :=
  bool_decide (scanString quote (chars s ++ [quote])%list = Some []) &&
  bool_decide (trimQuotes (quote :: chars s ++ [quote])%list = s) && bool_decide (nul ∉ chars s).

(** A number that is printed with a period or an exponent, and exactly. *)
Definition floatOk (x : float64) : bool :=
  match chars (formatFloat x) with
  | c :: s => isDigit c && bool_decide (scanNumber c s = Some (TFloat, [])) &&
              bool_decide (parseFloatValue (c :: s) = x) && bool_decide (nul ∉ s)
  | [] => false
  end.

Fixpoint printable (a : ast) : bool :=
  match a with
  | astIdent s => identOk s
  | astString s => stringOk s
  | astFloat x => floatOk x
  | astInt x => (0 <=? x)%Z && (x <? 2 ^ 63)%Z
  | astBool _ => true
  | astSexp l _ => forallb printable l
  | astModule name body => stringOk name && forallb printable body
  | _ => false
  end.

(** A program without its positions, in which a module is the call that its text is. *)
Fixpoint source (a : ast) : ast :=
  match a with
  | astSexp l _ => astSexp (source <$> l) noPos
  | astModule name body => astSexp (astIdent "module" :: astString name :: (source <$> body)) noPos
  | _ => a
  end.

Lemma ast_source_ind (P : ast → Prop) :
  (∀ l pos, Forall P l → P (astSexp l pos)) → (∀ name body, Forall P body → P (astModule name body)) →
  (∀ a, (∀ l pos, a ≠ astSexp l pos) → (∀ name body, a ≠ astModule name body) → P a) → ∀ a, P a.
Proof.
  intros Hsexp Hmod Hother. fix IH 1. intros a. destruct a; try (by apply Hother).
  - apply Hsexp. induction sexp as [|x l IHl]; constructor; [apply IH|apply IHl].
  - apply Hmod. induction body as [|x l IHl]; constructor; [apply IH|apply IHl].
Qed.

(** ** Reading one step at a time *)

Definition consAst (a : ast) (o : parsed) : parsed := match o with Ok (l, r) => Ok (a :: l, r) | o => o end.
Definition appAst (l : list ast) (o : parsed) : parsed := match o with Ok (l', r) => Ok ((l ++ l')%list, r) | o => o end.

Lemma appAst_cons a l o : appAst (a :: l) o = consAst a (appAst l o).
Proof. by destruct o as [[]| | |]. Qed.

Lemma appAst_nil o : appAst [] o = o.
Proof. by destruct o as [[]| | |]. Qed.

Section Reading.
Context (filename : string) (src : text).

Definition reads (depth : nat) (s : text) : parsed := parseText filename src (S (length s)) depth s.

Lemma reads_rest d (s rest : text) : (length rest < length s)%nat → parseText filename src (length s) d rest = reads d rest.
Proof. intros Hlt. apply parseText_fuel; lia. Qed.

(** A blank in front does not matter. *)
Lemma reads_blank d c s : isBlank c = true → reads d (c :: s) = reads d s.
Proof.
  intros Hc. unfold reads. rewrite (parseText_fuel _ _ (S (length s)) (S (length (c :: s))) d s) by (cbn; lia).
  generalize (length (c :: s)). intros n. cbn [parseText]. by rewrite scan_blank.
Qed.

Lemma reads_literal d s tok txt rest a :
  scan s = Some (tok, txt, rest) →
  match tok with
  | TFloat => a = astFloat (parseFloatValue txt)
  | TInt => a = astInt (atoiValue txt)
  | TString => a = astString (trimQuotes txt)
  | TChar c => isOperator c = true ∧ a = parseIdent (String c "")
  | _ => False
  end → reads d s = consAst a (reads d rest).
Proof.
  intros Hs Ha. pose proof (scan_length _ _ _ _ Hs) as [_ Hlt]. unfold reads at 1. cbn [parseText]. rewrite Hs.
  destruct tok; try done; specialize (Hlt ltac:(done)).
  - subst a. rewrite reads_rest by done. by destruct (reads d rest) as [[]| | |].
  - subst a. rewrite reads_rest by done. by destruct (reads d rest) as [[]| | |].
  - subst a. rewrite reads_rest by done. by destruct (reads d rest) as [[]| | |].
  - destruct Ha as [-> ->]. rewrite reads_rest by done. by destruct (reads d rest) as [[]| | |].
Qed.

Lemma reads_ident d s txt rest ident rest' :
  scan s = Some (TIdent, txt, rest) → identTail filename src (length rest) txt rest = Ok (ident, rest') →
  reads d s = consAst (parseIdent (unchars ident)) (reads d rest').
Proof.
  intros Hs Hid. pose proof (scan_length _ _ _ _ Hs) as [_ Hlt]. specialize (Hlt ltac:(done)).
  pose proof (identTail_length _ _ _ _ _ _ _ Hid). unfold reads at 1. cbn [parseText]. rewrite Hs, Hid.
  rewrite reads_rest by lia. by destruct (reads d rest') as [[]| | |].
Qed.

Lemma reads_sexp d s l rest :
  reads (S d) s = Ok (l, rest) →
  ∃ pos, reads d (Ascii.ascii_of_nat 40 :: s) = consAst (astSexp l pos) (reads d rest).
Proof.
  intros Hl. exists (posBefore filename src s). unfold reads at 1. cbn [parseText].
  assert (scan (Ascii.ascii_of_nat 40 :: s) = Some (TChar (Ascii.ascii_of_nat 40), [Ascii.ascii_of_nat 40], s)) as ->.
  { rewrite scan_here by done. by destruct s. }
  cbn [isOperator]. change (isOperator (Ascii.ascii_of_nat 40)) with false. change (isC 40 (Ascii.ascii_of_nat 40)) with true.
  cbn iota. unfold reads in Hl. cbn [length]. rewrite Hl. apply parseText_length in Hl.
  rewrite (parseText_fuel _ _ _ (S (length rest)) d rest) by lia. fold (reads d rest).
  by destruct (reads d rest) as [[]| | |].
Qed.

Lemma reads_close d t : reads (S d) (Ascii.ascii_of_nat 41 :: t) = Ok ([], t).
Proof.
  unfold reads. cbn [parseText].
  assert (scan (Ascii.ascii_of_nat 41 :: t) = Some (TChar (Ascii.ascii_of_nat 41), [Ascii.ascii_of_nat 41], t)) as ->.
  { rewrite scan_here by done. by destruct t. }
  done.
Qed.

Lemma reads_end : reads 0 [] = Ok ([], []).
Proof. done. Qed.

End Reading.

(** ** Integers *)

Lemma decimal_app acc a b : decimal acc (a ++ b)%list = decimal acc a ≫= λ acc', decimal acc' b.
Proof. revert acc. induction a as [|c a IH]; intros acc; [done|]. cbn. destruct (isDigit c); [apply IH|done]. Qed.

Lemma pretty_char (d : N) :
  (d < 10)%N → isDigit (pretty_N_char d) = true ∧ (Ascii.nat_of_ascii (pretty_N_char d) - 48)%nat = N.to_nat d ∧
    (d ≠ 0%N → isC 48 (pretty_N_char d) = false).
Proof. intros Hd. destruct d as [|p]; [done|]. repeat (destruct p as [p|p|]; try done; try lia). Qed.

(** The digits of a positive number. *)
Lemma pretty_digits (n : N) : (0 < n)%N → ∀ t, ∃ c w,
  chars (pretty_N_go n t) = (c :: w ++ chars t)%list ∧ isDigit c = true ∧ isC 48 c = false ∧
  Forall (λ c, isDigit c = true) w ∧ decimal 0 (c :: w) = Some (Z.of_N n).
Proof.
  induction n as [n IH] using (well_founded_induction N.lt_wf_0). intros Hn t. rewrite pretty_N_go_step by lia.
  assert (n `mod` 10 < 10)%N as Hmod by (by apply N.mod_lt).
  destruct (pretty_char (n `mod` 10) Hmod) as (Hd & Hv & Hz). pose proof (N.div_mod n 10 ltac:(done)) as Hdm.
  destruct (decide (n `div` 10 = 0)%N) as [H0|H0].
  - rewrite H0, pretty_N_go_0. exists (pretty_N_char (n `mod` 10)), []. split_and!; [done|done|apply Hz; lia|constructor|].
    cbn [decimal]. rewrite Hd, Hv. f_equal. lia.
  - destruct (IH (n `div` 10)%N) with (t := String (pretty_N_char (n `mod` 10)) t) as (c & w & Heq & Hc & Hc0 & Hw & Hdec);
      [apply N.div_lt; lia|lia|].
    exists c, (w ++ [pretty_N_char (n `mod` 10)])%list. split_and!; [|done|done| |].
    + rewrite Heq. cbn. by rewrite <- app_assoc.
    + apply Forall_app. split; [done|by repeat constructor].
    + rewrite app_comm_cons, decimal_app, Hdec. cbn [mbind option_bind decimal]. rewrite Hd, Hv. f_equal. lia.
Qed.

Lemma pretty_scans (x : Z) : (0 ≤ x < 2 ^ 63)%Z → ∃ c w,
  chars (pretty x) = c :: w ∧ isDigit c = true ∧ Forall (λ c, isDigit c = true) w ∧
  scanNumber c w = Some (TInt, []) ∧ atoiValue (c :: w) = x.
Proof.
  intros Hx. destruct x as [|p|p]; [by eexists _, []|..|lia].
  destruct (pretty_digits (Npos p) ltac:(lia) "") as (c & w & Heq & Hc & Hc0 & Hw & Hdec). rewrite app_nil_r in Heq.
  exists c, w. split; [exact Heq|]. split; [done|]. split; [done|]. split.
  - unfold scanNumber. rewrite dropWhile_Forall by done. destruct w as [|y w]; [done|]. by rewrite Hc0.
  - unfold atoiValue. rewrite Hdec. cbn [Z.of_N]. lia.
Qed.

(** ** The elements of a printed program *)

Section Elements.
Context (filename : string) (src : text).
Abbreviation reads := (reads filename src).

Lemma digit_start c : isDigit c = true → isBlank c = false ∧ isC 47 c = false.
Proof. by destruct c as [[] [] [] [] [] [] [] []]. Qed.

Lemma letter_start c : isLetter c = true → isBlank c = false ∧ isC 47 c = false.
Proof. by destruct c as [[] [] [] [] [] [] [] []]. Qed.

Lemma reads_number d c s tok t a :
  isDigit c = true → scanNumber c s = Some (tok, []) → delim t →
  match tok with
  | TFloat => a = astFloat (parseFloatValue (c :: s))
  | TInt => a = astInt (atoiValue (c :: s))
  | _ => False
  end → reads d (c :: s ++ t)%list = consAst a (reads d t).
Proof.
  intros Hc Hn Ht Ha. destruct (digit_start c Hc) as [Hb Hs].
  apply (reads_literal _ _ d (c :: s ++ t)%list tok (c :: s) t a); [|by destruct tok].
  rewrite scan_here by (done || by rewrite Hs). by apply scanHere_number.
Qed.

Lemma reads_quoted d s t :
  stringOk s = true → reads d (chars (quoted s) ++ t)%list = consAst (astString s) (reads d t).
Proof.
  intros [[Hs%bool_decide_eq_true Htrim%bool_decide_eq_true]%andb_prop _]%andb_prop.
  assert (chars (quoted s) = quote :: chars s ++ [quote])%list as Heq by (unfold quoted, dquote; by rewrite !chars_app).
  rewrite Heq. cbn [app]. rewrite <- app_assoc. cbn [app].
  apply (reads_literal _ _ d _ TString (quote :: chars s ++ [quote])%list t); [|by rewrite Htrim]. rewrite scan_here by done. by apply scanHere_string.
Qed.

Lemma operator_facts c :
  isOperator c = true → isBlank c = false ∧ isLetter c = false ∧ isDigit c = false ∧ isC 46 c = false ∧
    c ≠ quote ∧ c ≠ apostrophe ∧ c ≠ backquote.
Proof. by destruct c as [[] [] [] [] [] [] [] []]. Qed.

Lemma reads_operator d c t :
  isOperator c = true → delim t → reads d (c :: t) = consAst (astIdent (String c "")) (reads d t).
Proof.
  intros Hc Ht. assert (parseIdent (String c "") = astIdent (String c "")) as Hid.
  { unfold parseIdent. by rewrite !decide_False. }
  rewrite <- Hid. apply (reads_literal _ _ d (c :: t) (TChar c) [c] t); [|by split].
  destruct (operator_facts c Hc) as (Hb & Hl & Hd & Hp & H1 & H2 & H3).
  rewrite scan_here by (done || auto with di). unfold scanHere. rewrite Hl, Hd, !decide_False by done.
  destruct t as [|e t]; [done|]. by rewrite Hp.
Qed.

(** Identifiers: what comes after the first segment. *)
Fixpoint moreSegments (ws : list string) : text :=
  match ws with [] => [] | w :: ws' => (period :: chars w ++ moreSegments ws')%list end.

Lemma joinOn_segments w ws : chars (joinOn period (w :: ws)) = (chars w ++ moreSegments ws)%list.
Proof.
  revert w. induction ws as [|v ws IH]; intros w; [by rewrite app_nil_r|].
  rewrite joinOn_cons, chars_app. f_equal. change (period :: chars (joinOn period (v :: ws)) = moreSegments (v :: ws)).
  by rewrite IH.
Qed.

Lemma moreSegments_stops ws t : delim t → stops isIdentChar (moreSegments ws ++ t).
Proof. intros Ht. destruct ws as [|w ws]; [by apply delim_ident|]. by intros c t' [= <- _]. Qed.

Lemma scan_segment w s :
  segmentOk w = true → stops isIdentChar s → scan (chars w ++ s)%list = Some (TIdent, chars w, s).
Proof.
  unfold segmentOk. destruct (chars w) as [|c l]; [done|]. intros [Hc Hl]%andb_prop Hs. cbn [app].
  destruct (letter_start c Hc) as [Hb H47]. rewrite scan_here by (done || by rewrite H47).
  apply scanHere_ident; [done| |done]. apply Forall_forall. intros d Hd. rewrite forallb_forall in Hl.
  by apply Hl, list_elem_of_In.
Qed.

Lemma identTail_segments n id ws t :
  forallb segmentOk ws = true → delim t → (length ws ≤ n)%nat →
  identTail filename src n id (moreSegments ws ++ t)%list = Ok ((id ++ moreSegments ws)%list, t).
Proof.
  intros Hws Ht. revert n id. induction ws as [|w ws IH]; intros n id Hn.
  - rewrite app_nil_r. destruct n as [|n]; [done|]. destruct t as [|c t]; [done|]. cbn [moreSegments app identTail].
    by rewrite (stops_head _ c t (delim_period _ Ht)).
  - destruct n as [|n]; [cbn in Hn; lia|]. apply andb_prop in Hws as [Hw Hws]. cbn [moreSegments app identTail].
    change (isC 46 period) with true. cbn iota. rewrite <- app_assoc.
    rewrite scan_segment by (done || by apply moreSegments_stops).
    rewrite IH by (done || cbn in Hn; lia). by rewrite <- !app_assoc.
Qed.

Lemma moreSegments_length ws : (length ws ≤ length (moreSegments ws))%nat.
Proof. induction ws as [|w ws IH]; [done|]. cbn. rewrite length_app. lia. Qed.

Lemma reads_identifier d s t :
  identOk s = true → delim t → reads d (chars s ++ t)%list = consAst (astIdent s) (reads d t).
Proof.
  intros [[Hs Htrue%bool_decide_eq_true]%andb_prop Hfalse%bool_decide_eq_true]%andb_prop Ht.
  apply orb_prop in Hs as [Hop|Hseg].
  - destruct (chars s) as [|c [|]] eqn:Hc; try done.
    assert (s = String c "") as -> by (by apply chars_inj). by apply reads_operator.
  - destruct (splitOn_cons period s) as (w & ws & Heq). rewrite Heq in Hseg. apply andb_prop in Hseg as [Hw Hws].
    pose proof (joinOn_splitOn period s) as Hjoin. rewrite Heq in Hjoin. rewrite <- Hjoin, joinOn_segments, <- app_assoc.
    erewrite reads_ident.
    2: { apply scan_segment; [done|by apply moreSegments_stops]. }
    2: { apply identTail_segments; [done|done|]. rewrite length_app. pose proof (moreSegments_length ws). lia. }
    f_equal. rewrite <- joinOn_segments, Hjoin, unchars_chars. unfold parseIdent. by rewrite !decide_False.
Qed.

(** ** Printed programs *)

Section Printed.
Context (n : nat) (st : dslState).
Abbreviation str := (astStr n st).

Lemma str_sexp l pos : str (astSexp l pos) = parens (sliceStr (str <$> l) " ").
Proof. by destruct n. Qed.
Lemma str_module name body :
  str (astModule name body) =
  parens ("module " ++ quoted name ++ " " ++ sliceStr (str <$> body) (String (Ascii.ascii_of_nat 10) "")).
Proof. by destruct n. Qed.
Lemma str_root l : str (astRoot l) = sliceStr (str <$> l) (String (Ascii.ascii_of_nat 10) "").
Proof. by destruct n. Qed.

(** An element that is read back where a delimiter follows. *)
Definition readBack (a : ast) : Prop := ∀ d t, delim t →
  ∃ a', source a' = source a ∧ reads d (chars (str a) ++ t)%list = consAst a' (reads d t).

Lemma readBack_slice l c d t :
  Forall readBack l → isBlank c = true → delimChar c = true → delim t →
  ∃ l', source <$> l' = source <$> l ∧
    reads d (chars (sliceStr (str <$> l) (String c "")) ++ t)%list = appAst l' (reads d t).
Proof.
  intros Hl Hc Hd Ht. induction Hl as [|a l Ha Hl IH].
  - exists []. split; [done|]. by rewrite appAst_nil.
  - destruct IH as (l' & Hsrc & Hrest). destruct l as [|b l].
    + destruct (Ha d t Ht) as (a' & Hsrc' & Hread). exists [a']. split; [cbn; by rewrite Hsrc'|].
      by rewrite appAst_cons, appAst_nil.
    + destruct (Ha d (c :: chars (sliceStr (str <$> b :: l) (String c "")) ++ t)%list) as (a' & Hsrc' & Hread).
      { intros x t' [= <- _]. done. }
      exists (a' :: l'). split; [rewrite !fmap_cons, Hsrc'; by f_equal|]. rewrite appAst_cons, <- Hrest.
      rewrite reads_blank in Hread by done. rewrite <- Hread. f_equal.
      change (sliceStr (str <$> a :: b :: l) (String c "")) with
        (str a ++ String c "" ++ sliceStr (str <$> b :: l) (String c "")).
      rewrite !chars_app. by rewrite <- app_assoc.
Qed.

(** A list in parentheses. *)
Lemma readBack_parens d s l t :
  reads (S d) (chars s ++ Ascii.ascii_of_nat 41 :: t)%list = appAst l (reads (S d) (Ascii.ascii_of_nat 41 :: t)) →
  ∃ pos, reads d (chars (parens s) ++ t)%list = consAst (astSexp l pos) (reads d t).
Proof.
  rewrite reads_close. cbn [appAst]. rewrite app_nil_r. intros Hs.
  destruct (reads_sexp filename src d _ _ _ Hs) as (pos & Hpos). exists pos. rewrite <- Hpos. f_equal.
  unfold parens. rewrite !chars_app, <- !app_assoc. done.
Qed.

Lemma close_delim t : delim (Ascii.ascii_of_nat 41 :: t).
Proof. by intros c t' [= <- _]. Qed.

Lemma reads_word d w t :
  segmentOk w = true → delim t → reads d (chars w ++ t)%list = consAst (parseIdent w) (reads d t).
Proof.
  intros Hw Ht. erewrite reads_ident.
  2: { apply scan_segment; [done|by apply delim_ident]. }
  2: { apply (identTail_segments _ _ []); [done|done|cbn; lia]. }
  by rewrite app_nil_r, unchars_chars.
Qed.

Lemma readBack_leaf a :
  (∀ l pos, a ≠ astSexp l pos) → (∀ name body, a ≠ astModule name body) → printable a = true → readBack a.
Proof.
  intros Hsexp Hmod Hp d t Ht. exists a. split; [done|].
  destruct a; try done; cbn [printable] in Hp.
  - destruct n; by apply reads_identifier.
  - destruct n; by apply reads_quoted.
  - unfold floatOk in Hp. assert (str (astFloat x) = formatFloat x) as -> by (by destruct n).
    destruct (chars (formatFloat x)) as [|c s]; [done|].
    apply andb_prop in Hp as [[[Hc Hn%bool_decide_eq_true]%andb_prop Hx%bool_decide_eq_true]%andb_prop _].
    apply (reads_number d c s TFloat); [done..|]. by rewrite Hx.
  - assert (str (astInt x) = pretty x) as -> by (by destruct n). apply andb_prop in Hp as [H0 H1].
    destruct (pretty_scans x) as (c & w & -> & Hc & _ & Hn & Hx); [lia|].
    apply (reads_number d c w TInt); [done..|]. by rewrite Hx.
  - assert (str (astBool b) = (if b then "true" else "false")) as -> by (by destruct n).
    destruct b; by apply reads_word.
  - by destruct (Hsexp sexp pos).
  - by destruct (Hmod moduleName body).
Qed.

Lemma readBack_printable a : printable a = true → readBack a.
Proof.
  induction a as [l pos IH|name body IH|a Hsexp Hmod] using ast_source_ind; intros Hp; [..|by apply readBack_leaf].
  - cbn [printable] in Hp. rewrite forallb_forall in Hp.
    assert (Forall readBack l) as Hl.
    { apply Forall_forall. intros a Ha. apply (proj1 (Forall_forall _ _) IH a Ha). by apply Hp, list_elem_of_In. }
    intros d t Ht. destruct (readBack_slice l (Ascii.ascii_of_nat 32) (S d) (Ascii.ascii_of_nat 41 :: t) Hl) as (l' & Hsrc & Hread);
      [done|done|apply close_delim|].
    destruct (readBack_parens d _ _ _ Hread) as (pos' & Hpos). exists (astSexp l' pos'). rewrite str_sexp.
    split; [cbn [source]; by rewrite Hsrc|exact Hpos].
  - cbn [printable] in Hp. apply andb_prop in Hp as [Hname Hp]. rewrite forallb_forall in Hp.
    assert (Forall readBack body) as Hl.
    { apply Forall_forall. intros a Ha. apply (proj1 (Forall_forall _ _) IH a Ha). by apply Hp, list_elem_of_In. }
    intros d t Ht.
    destruct (readBack_slice body (Ascii.ascii_of_nat 10) (S d) (Ascii.ascii_of_nat 41 :: t) Hl) as (l' & Hsrc & Hread);
      [done|done|apply close_delim|].
    destruct (readBack_parens d ("module " ++ quoted name ++ " " ++
      sliceStr (str <$> body) (String (Ascii.ascii_of_nat 10) "")) (astIdent "module" :: astString name :: l') t) as (pos' & Hpos).
    { rewrite !appAst_cons, <- Hread. change ("module " ++ ?x) with ("module" ++ String (Ascii.ascii_of_nat 32) x).
      rewrite chars_app, <- app_assoc.
      etransitivity; [apply (reads_word (S d) "module"); [done|by intros c t' [= <- _]]|]. f_equal.
      cbn [app chars String.list_ascii_of_string]. rewrite reads_blank by done.
      fold (chars (quoted name ++ " " ++ sliceStr (str <$> body) (String (Ascii.ascii_of_nat 10) ""))).
      rewrite (chars_app (quoted name)), <- app_assoc.
      etransitivity; [by apply reads_quoted|]. f_equal. cbn [app chars String.list_ascii_of_string].
      rewrite chars_app. cbn [app]. by apply reads_blank. }
    exists (astSexp (astIdent "module" :: astString name :: l') pos'). rewrite str_module.
    split; [cbn [source fmap list_fmap]; by rewrite Hsrc|exact Hpos].
Qed.

End Printed.

End Elements.

(** ** No NUL in a printed program *)

Definition clean (s : string) : Prop := nul ∉ chars s.

Lemma clean_app a b : clean (a ++ b) ↔ clean a ∧ clean b.
Proof. unfold clean. rewrite chars_app, elem_of_app. tauto. Qed.

Lemma clean_Forall (p : Ascii.ascii → bool) s : p nul = false → Forall (λ c, p c = true) (chars s) → clean s.
Proof. intros Hp Hs Hin. apply (proj1 (Forall_forall _ _) Hs) in Hin. congruence. Qed.

Lemma clean_slice (l : list string) sep : clean sep → Forall clean l → clean (sliceStr l sep).
Proof.
  intros Hsep Hl. induction Hl as [|a l Ha Hl IH]; [apply not_elem_of_nil|]. destruct l as [|b l]; [done|].
  change (sliceStr (a :: b :: l) sep) with (a ++ sep ++ sliceStr (b :: l) sep). by rewrite !clean_app.
Qed.

Lemma clean_parens s : clean s → clean (parens s).
Proof. intros Hs. unfold parens. rewrite !clean_app. split_and!; [|done|]; unfold clean; cbn; set_solver. Qed.

Lemma clean_quoted s : clean s → clean (quoted s).
Proof. intros Hs. unfold quoted. rewrite !clean_app. split_and!; [|done|]; unfold clean; cbn; set_solver. Qed.

Lemma segmentOk_chars w : segmentOk w = true → Forall (λ c, isIdentChar c = true) (chars w).
Proof.
  unfold segmentOk. destruct (chars w) as [|c l]; [done|]. intros [Hc Hl]%andb_prop. constructor.
  - unfold isIdentChar. by rewrite Hc.
  - apply Forall_forall. intros d Hd. rewrite forallb_forall in Hl. by apply Hl, list_elem_of_In.
Qed.

Lemma clean_ident s : identOk s = true → clean s.
Proof.
  intros [[Hs _]%andb_prop _]%andb_prop. apply orb_prop in Hs as [Hop|Hseg].
  - unfold clean. destruct (chars s) as [|c [|]]; try done. intros Hin%list_elem_of_singleton. by subst c.
  - apply (clean_Forall (λ c, isIdentChar c || isC 46 c)); [done|].
    destruct (splitOn_cons period s) as (w & ws & Heq). rewrite Heq in Hseg.
    rewrite <- (joinOn_splitOn period s), Heq. clear Heq. revert w Hseg.
    induction ws as [|v ws IH]; intros w [Hw Hws]%andb_prop.
    + eapply Forall_impl; [by apply segmentOk_chars|]. cbn. by intros c ->.
    + rewrite joinOn_cons, chars_app. apply Forall_app. split.
      * eapply Forall_impl; [by apply segmentOk_chars|]. cbn. by intros c ->.
      * constructor; [done|]. by apply IH.
Qed.

Lemma clean_printable n st a : printable a = true → clean (astStr n st a).
Proof.
  induction a as [l pos IH|name body IH|a Hsexp Hmod] using ast_source_ind; intros Hp; cbn [printable] in Hp.
  - rewrite str_sexp. apply clean_parens, clean_slice; [by vm_compute; set_solver|]. rewrite forallb_forall in Hp.
    apply Forall_fmap, Forall_forall. intros a Ha. apply (proj1 (Forall_forall _ _) IH a Ha). by apply Hp, list_elem_of_In.
  - rewrite str_module. apply andb_prop in Hp as [Hname Hp]. rewrite forallb_forall in Hp.
    apply andb_prop in Hname as [_ Hname%bool_decide_eq_true].
    apply clean_parens. rewrite !clean_app. split_and!; [by vm_compute; set_solver|by apply clean_quoted|by vm_compute; set_solver|].
    apply clean_slice; [by vm_compute; set_solver|]. apply Forall_fmap, Forall_forall. intros a Ha.
    apply (proj1 (Forall_forall _ _) IH a Ha). by apply Hp, list_elem_of_In.
  - destruct a; try done; cbn [printable] in Hp.
    + destruct n; by apply clean_ident.
    + assert (astStr n st (astString s) = quoted s) as -> by (by destruct n).
      apply andb_prop in Hp as [_ Hp%bool_decide_eq_true]. by apply clean_quoted.
    + assert (astStr n st (astFloat x) = formatFloat x) as -> by (by destruct n). unfold floatOk, clean in *.
      destruct (chars (formatFloat x)) as [|c s]; [done|].
      apply andb_prop in Hp as [[[Hc _]%andb_prop _]%andb_prop Hs%bool_decide_eq_true].
      intros [<-|Hin]%elem_of_cons; [discriminate|done].
    + assert (astStr n st (astInt x) = pretty x) as -> by (by destruct n). apply andb_prop in Hp as [H0 H1].
      destruct (pretty_scans x) as (c & w & Heq & Hc & Hw & _); [lia|].
      apply (clean_Forall isDigit); [done|]. rewrite Heq. by constructor.
    + assert (astStr n st (astBool b) = (if b then "true" else "false")) as -> by (by destruct n).
      destruct b; by vm_compute; set_solver.
    + by destruct (Hsexp sexp pos).
    + by destruct (Hmod moduleName body).
Qed.

(** A program whose literals are printable is read back. *)
Lemma print_parse filename n st l :
  forallb printable l = true →
  ∃ l', parse filename (astStr n st (astRoot l)) = Ok l' ∧ source <$> l' = source <$> l.
Proof.
  intros Hp. rewrite forallb_forall in Hp. unfold parse. rewrite str_root.
  set (text := sliceStr (astStr n st <$> l) (String (Ascii.ascii_of_nat 10) "")).
  assert (clean text) as Hclean.
  { apply clean_slice; [by vm_compute; set_solver|]. apply Forall_fmap, Forall_forall. intros a Ha.
    by apply clean_printable, Hp, list_elem_of_In. }
  rewrite decide_False by done.
  destruct (readBack_slice filename (chars text) n st l (Ascii.ascii_of_nat 10) 0 []) as (l' & Hsrc & Hread).
  { apply Forall_forall. intros a Ha. by apply readBack_printable, Hp, list_elem_of_In. }
  { done. } { done. } { by intros c t. }
  fold text in Hread. rewrite app_nil_r in Hread. unfold reads at 1 in Hread. rewrite Hread, reads_end. cbn [appAst].
  exists l'. by rewrite app_nil_r.
Qed.

(** ** What the reader returns *)

(** The literals of a program are printable. *)
Fixpoint literalsOk (a : ast) : bool :=
  match a with
  | astString s => stringOk s
  | astFloat x => floatOk x
  | astSexp l _ => forallb literalsOk l
  | astModule name body => stringOk name && forallb literalsOk body
  | _ => true
  end.

Lemma takeWhile_dropWhile p s : s = (takeWhile p s ++ dropWhile p s)%list.
Proof. induction s as [|c s IH]; cbn; [done|]. destruct (p c); [|done]. cbn. by f_equal. Qed.

Lemma takeWhile_Forall p s : Forall (λ c, p c = true) (takeWhile p s).
Proof. induction s as [|c s IH]; cbn; [done|]. destruct (p c) eqn:Hc; by constructor. Qed.

Lemma scanNumber_token c s tok r : scanNumber c s = Some (tok, r) → tok = TInt ∨ tok = TFloat.
Proof. unfold scanNumber. repeat case_match; try done; intros [= <- _]; auto. Qed.

Lemma scan_ident s txt rest : scan s = Some (TIdent, txt, rest) → segmentOk (unchars txt) = true.
Proof.
  unfold scan. destruct (skipF _ s) as [s'|]; [|done]. cbn. unfold scanHere. destruct s' as [|c s']; [done|].
  destruct (isLetter c) eqn:Hc.
  - intros [= <- _]. unfold segmentOk. rewrite chars_unchars, (takeWhile_dropWhile isIdentChar s') at 1.
    assert (upToRest (c :: takeWhile isIdentChar s' ++ dropWhile isIdentChar s') (dropWhile isIdentChar s') =
            c :: takeWhile isIdentChar s') as -> by (apply (take_before (c :: takeWhile isIdentChar s'))).
    rewrite Hc. apply forallb_forall. intros d Hd%list_elem_of_In.
    by apply (proj1 (Forall_forall _ _) (takeWhile_Forall isIdentChar s')) in Hd.
  - destruct (isDigit c).
    { destruct (scanNumber c s') as [[tok r]|] eqn:Hn; [|done]. apply scanNumber_token in Hn as [-> | ->]; done. }
    repeat case_match; try done; by destruct (scanString _ s') || by destruct (scanRawString s').
Qed.

Lemma identTail_ident filename src n id s id' r :
  identTail filename src n id s = Ok (id', r) →
  ∃ ws, forallb segmentOk ws = true ∧ id' = (id ++ moreSegments ws)%list.
Proof.
  revert id s. induction n as [|n IH]; intros id s; [intros [= <- _]; exists []; by rewrite app_nil_r|].
  destruct s as [|c s]; [intros [= <- _]; exists []; by rewrite app_nil_r|]. cbn [identTail].
  destruct (isC 46 c) eqn:Hc; [|intros [= <- _]; exists []; by rewrite app_nil_r].
  destruct (scan s) as [[[tok more] rest]|] eqn:Hs; [|done]. destruct tok; try done. intros (ws & Hws & ->)%IH.
  exists (unchars more :: ws). apply scan_ident in Hs. split; [cbn; by rewrite Hs|]. cbn [moreSegments].
  assert (c = period) as -> by (revert Hc; by destruct c as [[] [] [] [] [] [] [] []]).
  by rewrite chars_unchars, <- !app_assoc.
Qed.

Lemma segmentOk_noSep w : segmentOk w = true → noSep period w.
Proof. intros Hw Hin. by apply (proj1 (Forall_forall _ _) (segmentOk_chars w Hw)) in Hin. Qed.

Lemma parseIdent_printable w ws :
  segmentOk w = true → forallb segmentOk ws = true → printable (parseIdent (joinOn period (w :: ws))) = true.
Proof.
  intros Hw Hws. unfold parseIdent. case_decide; [done|]. case_decide; [done|]. cbn [printable]. unfold identOk.
  rewrite !bool_decide_true, !andb_true_r, splitOn_joinOn by
    (done || (apply Forall_forall; intros v [->|Hv%list_elem_of_In]%elem_of_cons; apply segmentOk_noSep;
              [done|by rewrite forallb_forall in Hws; apply Hws])).
  cbn [forallb]. by rewrite Hw, Hws, orb_true_r.
Qed.

Lemma decimal_nonneg acc s n : (0 ≤ acc)%Z → decimal acc s = Some n → (0 ≤ n)%Z.
Proof.
  revert acc. induction s as [|c s IH]; intros acc Hacc; cbn; [by intros [= <-]|]. destruct (isDigit c); [|done].
  apply IH. lia.
Qed.

Lemma atoiValue_range s : (0 ≤ atoiValue s < 2 ^ 63)%Z.
Proof. unfold atoiValue. destruct (decimal 0 s) as [n|] eqn:Hd; [|lia]. apply decimal_nonneg in Hd; lia. Qed.

Definition readsPrintable (l : list ast) : Prop := Forall (λ a, literalsOk a = true → printable a = true) l.

Lemma readsPrintable_all l : readsPrintable l → forallb literalsOk l = true → forallb printable l = true.
Proof. induction 1 as [|a l Ha _ IH]; [done|]. cbn. intros [Hla Hl]%andb_prop. by rewrite (Ha Hla), (IH Hl). Qed.

Lemma parseText_printable filename src n d s l r :
  parseText filename src n d s = Ok (l, r) → readsPrintable l.
Proof.
  revert d s l r. induction n as [|n IH]; intros d s l r; [done|]. cbn [parseText].
  destruct (scan s) as [[[tok txt] rest]|] eqn:Hs; [|done].
  assert (∀ a rest', (literalsOk a = true → printable a = true) →
    match parseText filename src n d rest' with Ok (l, r) => Ok (a :: l, r) | o => o end = Ok (l, r) →
    readsPrintable l) as Helem.
  { intros a rest' Ha. destruct (parseText filename src n d rest') as [[l' r']| | |] eqn:Hp; try done.
    intros [= <- _]. constructor; [done|]. by apply IH in Hp. }
  destruct tok; try done; try (by apply Helem).
  - case_decide; [|done]. intros [= <- _]. constructor.
  - destruct (identTail _ _ _ _ _) as [[id' r']| | |] eqn:Hid; try done. apply Helem. intros _.
    apply identTail_ident in Hid as (ws & Hws & ->). apply scan_ident in Hs.
    rewrite <- (chars_unchars txt), <- joinOn_segments, unchars_chars. by apply parseIdent_printable.
  - apply Helem. intros _. cbn [printable]. pose proof (atoiValue_range txt). lia.
  - destruct (isOperator c) eqn:Hop.
    + apply Helem. intros _. unfold parseIdent. rewrite !decide_False by done. cbn [printable]. unfold identOk.
      change (chars (String c "")) with [c]. cbv iota. by rewrite Hop, !bool_decide_true by done.
    + destruct (isC 40 c).
      * destruct (parseText filename src n (S d) rest) as [[sexp r']| | |] eqn:Hp; try done. apply Helem.
        cbn [literalsOk printable]. apply IH in Hp. by apply readsPrintable_all.
      * destruct (isC 41 c); [|done]. case_decide; [done|]. intros [= <- _]. constructor.
Qed.

Lemma parse_printable filename src l : parse filename src = Ok l → readsPrintable l.
Proof.
  unfold parse. case_decide; [done|]. destruct (parseText _ _ _ _ _) as [[l' r]| | |] eqn:Hp; try done.
  intros [= <-]. by apply parseText_printable in Hp.
Qed.
