(* ===== verification/DslSpec.v ===== *)
(** * dsl: from the text of a specification to the text that the minions read

    [New] of [src/dsl/dsl.go] as a whole: it reads the text, resolves the imports,
    evaluates the program and keeps the printed program. The printed program is what
    the engine stores and the foreman sends to every minion. *)

From stdpp Require Import base gmap list strings pretty sorting.
From Stdlib Require Import ZArith Lia.
From S2P Require Import Prelude DslAst DslFunc DslEval Dsl DslScan DslParse DslRoundtrip.

Local Open Scope string_scope.

Section Spec.
Context `{DslParams}.
(** The text of the file at a path. *)
Context (texts : string → option string).

Definition sourceFiles (path : string) : option (outcome goError (list ast)) := parse path <$> texts path.

(** [astRoot(parsed).String()]. *)
Definition printRoot (l : list ast) : D string := λ st, Ok (astStr 1 st (astRoot l), st).

(** The value of [New]: the printed program and the context of its evaluation. *)
Definition NewText (modules fuel : nat) (filename src : string) (paths : list string) : D (string * nat) :=
  parsed ← lift (parse filename src);
  resolved ← resolveImports sourceFiles modules parsed paths;
  '(_, ctx) ← evalProgram fuel (astRoot resolved);
  text ← printRoot resolved;
  mret (text, ctx).

(** *** What the import resolution makes *)

(** Read from a text, with printable literals. *)
Definition readable (l : list ast) : Prop := forallb printable l = true ∧ forallb literalsOk l = true.

Hypothesis Hliterals : ∀ path src l, texts path = Some src → parse path src = Ok l → forallb literalsOk l = true.

Lemma parse_readable filename src l : parse filename src = Ok l → forallb literalsOk l = true → readable l.
Proof. intros Hp Hl. split; [|done]. eapply readsPrintable_all; [by eapply parse_printable|done]. Qed.

Lemma openModule_readable paths name l : openModule sourceFiles paths name = Some (Ok l) → readable l.
Proof.
  induction paths as [|p paths IH]; [done|]. cbn. destruct (sourceFiles (modulePath p name)) as [f|] eqn:Hf; [|done].
  intros [= ->]. unfold sourceFiles in Hf. destruct (texts _) as [src|] eqn:Ht; [|done]. injection Hf as Hf.
  eapply parse_readable; [done|by eapply Hliterals].
Qed.

Lemma parseImport_stringOk a s name s' :
  literalsOk a = true → parseImport a s = Ok (name, s') → name = "" ∨ stringOk name = true.
Proof.
  unfold parseImport. intros Ha. repeat case_match; try done; intros [= <- _]; auto. subst.
  cbn in Ha. right. by apply andb_prop in Ha as [Ha _].
Qed.

Lemma readable_cons a l : readable (a :: l) ↔ (printable a = true ∧ literalsOk a = true) ∧ readable l.
Proof. unfold readable. cbn. rewrite !andb_true_iff. tauto. Qed.

Lemma readable_module name l : stringOk name = true → readable l →
  printable (astModule name l) = true ∧ literalsOk (astModule name l) = true.
Proof. intros Hn [Hp Hl]. cbn. by rewrite Hn, Hp, Hl. Qed.

Lemma resolveImportsLoop_readable rec paths imported asts top s l s' :
  (∀ parsed imported s l s', readable parsed → rec parsed imported s = Ok (l, s') → readable l) →
  readable asts → resolveImportsLoop sourceFiles rec paths imported asts top s = Ok (l, s') → readable l.
Proof.
  intros Hrec. revert top s l s'. induction asts as [|a rest IH]; intros top s l s' Hr; cbn; [by intros [= <- _]|].
  apply readable_cons in Hr as [[Hpa Hla] Hr]. intros (name & s1 & Hname & Hk)%bind_Ok.
  apply (parseImport_stringOk _ _ _ _ Hla) in Hname. case_decide as Hn.
  { apply bind_Ok in Hk as (news & s2 & Hnews & [= <- _]). apply readable_cons. eauto. }
  destruct Hname as [|Hname]; [done|]. destruct (negb top); [done|]. case_decide; [done|].
  destruct (openModule sourceFiles paths name) as [f|] eqn:Hf; [|done]. apply bind_Ok in Hk as (parsed & s2 & Hparsed & Hk).
  destruct f as [l0| | |]; try done. injection Hparsed as <- <-. apply openModule_readable in Hf.
  apply bind_Ok in Hk as (body & s3 & Hbody & Hk). apply bind_Ok in Hk as (news & s4 & Hnews & [= <- _]).
  apply readable_cons. split; [apply readable_module; eauto|eauto].
Qed.

Lemma resolveImportsRec_readable n paths parsed imported s l s' :
  readable parsed → resolveImportsRec sourceFiles n paths parsed imported s = Ok (l, s') → readable l.
Proof.
  revert parsed imported s l s'. induction n as [|n IH]; intros parsed imported s l s'; [done|].
  intros Hr Hrun. by eapply resolveImportsLoop_readable.
Qed.

(** C7: The program that [New] keeps as a text is the program that it evaluated:
    what a minion reads of the text is the program with the imports resolved, up
    to the positions, and with the [module] calls that the text of a module is. The
    literals of the files are those that print as they are read: strings that have
    no quote at an end and no escape of their closing quote, and decimal fractions
    that are printed exactly. *)
Theorem spec_reaches_minion modules fuel filename src paths s text ctx s' :
  (∀ l, parse filename src = Ok l → forallb literalsOk l = true) →
  NewText modules fuel filename src paths s = Ok ((text, ctx), s') →
  ∃ parsed resolved s1 l,
    parse filename src = Ok parsed ∧ resolveImports sourceFiles modules parsed paths s = Ok (resolved, s1) ∧
    parse "" text = Ok l ∧ source <$> l = source <$> resolved.
Proof.
  intros Hsrc (parsed & s1 & Hparse & Hk)%bind_Ok. unfold lift in Hparse.
  destruct (parse filename src) as [parsed'| | |] eqn:Hp; try done. injection Hparse as -> ->.
  apply bind_Ok in Hk as (resolved & s2 & Hres & Hk). apply bind_Ok in Hk as ([v c] & s3 & _ & Hk).
  apply bind_Ok in Hk as (text' & s4 & [= <- <-] & [= <- _ _]).
  destruct (print_parse "" 1 s3 resolved) as (l & Hl & Hsource).
  { by eapply resolveImportsRec_readable, Hres; eapply parse_readable, Hsrc. }
  exists parsed, resolved, s2, l. auto.
Qed.

End Spec.

(** Reading a text returns a program or an error: it neither runs forever nor
    panics, whatever the text. *)
Theorem parse_terminates filename src :
  (∃ l, parse filename src = Ok l) ∨ (∃ e, parse filename src = Err e).
Proof.
  destruct (parse_returns filename src) as [Hfuel Hpanic].
  destruct (parse filename src) as [l|e|w|]; eauto; [by destruct (Hpanic w)|done].
Qed.

(** *** A specification with a module *)

Definition q : string := String quote "".

Definition demoTexts (path : string) : option string :=
  if decide (path = "lib/web.spec") then Some "(define Port 80)" else None.

Definition demoSpec : string :=
  "(import " ++ q ++ "web" ++ q ++ ") // the ports" ++ String (Ascii.ascii_of_nat 10) "" ++
  "(define size 1.5) (label " ++ q ++ "a" ++ q ++ " (docker " ++ q ++ "nginx" ++ q ++ "))  (+ web.Port 3)".

Lemma readsLiterals filename src l :
  match parse filename src with Ok l => forallb literalsOk l | _ => true end = true →
  parse filename src = Ok l → forallb literalsOk l = true.
Proof. intros Hl Hp. by rewrite Hp in Hl. Qed.

Lemma spec_reaches_minion_witness :
  ∃ text ctx s', NewText (H := demoParams) demoTexts 1 20 "main.spec" demoSpec ["lib"] emptyState = Ok ((text, ctx), s') ∧
  ∃ parsed resolved s1 l, parse "main.spec" demoSpec = Ok parsed ∧
    resolveImports (sourceFiles demoTexts) 1 parsed ["lib"] emptyState = Ok (resolved, s1) ∧
    parse "" text = Ok l ∧ source <$> l = source <$> resolved.
Proof.
  destruct (NewText (H := demoParams) demoTexts 1 20 "main.spec" demoSpec ["lib"] emptyState) as [[[text ctx] s']| | |] eqn:Hrun;
    [|exfalso; revert Hrun; vm_compute; discriminate..].
  exists text, ctx, s'. split; [done|]. eapply (spec_reaches_minion (H := demoParams) demoTexts); [| |exact Hrun].
  - intros path src l. unfold demoTexts. case_decide; [|done]. intros [= <-]. subst. apply readsLiterals. by vm_compute.
  - intros l. apply readsLiterals. by vm_compute.
Defined.

(** *** Literals that do not survive *)

(** What is read of the printed program. *)
Definition reread (src : string) : outcome goError (list ast) :=
  match parse "" src with Ok l => parse "" (astStr 1 emptyState (astRoot l)) | o => o end.

(** [%g] prints a whole float without a period: the minions read an integer. *)
Lemma reread_whole_float : parse "" "2.0" ≠ reread "2.0" ∧ reread "2.0" = Ok [astInt 2].
Proof. split; [by vm_compute|by vm_compute]. Qed.

(** [Atoi] refuses a hexadecimal literal, and the error is dropped. *)
Lemma hexadecimal_is_zero : parse "" "0x1F" = Ok [astInt 0].
Proof. by vm_compute. Qed.

(** [Trim] takes the escaped quote at the end of a string as well: what is left ends
    in a backslash, and its text does not end. *)
Lemma reread_escaped_quote :
  parse "" (q ++ "a\" ++ q ++ q) = Ok [astString "a\"] ∧ ∃ e, reread (q ++ "a\" ++ q ++ q) = Err e.
Proof. split; [by vm_compute|]. eexists. by vm_compute. Qed.

(** The delimiters of a raw string stay in it. *)
Lemma raw_string_keeps_delimiters :
  parse "" (String (Ascii.ascii_of_nat 96) "a" ++ String (Ascii.ascii_of_nat 96) "") =
    Ok [astString (String (Ascii.ascii_of_nat 96) "a" ++ String (Ascii.ascii_of_nat 96) "")].
Proof. by vm_compute. Qed.
