(* ===== verification/CloudConfig.v ===== *)
(** * provider: the boot scripts of machines

    Model of [src/provider/cloud_config.go]: the script that a new machine runs when it
    boots. It is a constant text with verbs of [fmt.Sprintf] in it. In the texts below
    [@], which they do not use otherwise, stands for a double quote. *)

From stdpp Require Import base gmap list strings.
From Stdlib Require Import ZArith Lia.
From S2P Require Import Prelude Regexp DslScan.

Local Open Scope string_scope.

(** ** Formats *)

(** [fmt.Sprintf] of strings, for the verbs [%s] and [%[n]s]. Without an index the verb
    takes the next argument; the arguments that are left are reported at the end of the
    text unless some verb had an index. *)
Section Sprintf.
Context (args : list string).

Definition extraArgs (n : nat) : text :=
  if decide (n < length args)%nat then
    chars ("%!(EXTRA " ++ String.concat ", " ((λ a, "string=" ++ a) <$> drop n args) ++ ")")
  else [].

Definition nthArg (n : nat) (bad : string) : text := chars (default bad (args !! n)).

Fixpoint sprintfF (fuel : nat) (argNum : nat) (reordered : bool) (s : text) : text :=
  match fuel with
  | O => []
  | S fuel' =>
      match s with
      | [] => if reordered then [] else extraArgs argNum
      | c :: s' =>
          if isC 37 c then
            match s' with
            | v :: r =>
                if isC 115 v then
                  (nthArg argNum "%!s(MISSING)" ++ sprintfF fuel' (S argNum) reordered r)%list
                else
                  match r with
                  | d :: b :: v' :: r' =>
                      if isC 91 v && isDigit d && isC 93 b && isC 115 v' then
                        let n := (Ascii.nat_of_ascii d - 49)%nat in
                        (nthArg n "%!s(BADINDEX)" ++ sprintfF fuel' (S n) true r')%list
                      else c :: sprintfF fuel' argNum reordered s'
                  | _ => c :: sprintfF fuel' argNum reordered s'
                  end
            | [] => c :: sprintfF fuel' argNum reordered s'
            end
          else c :: sprintfF fuel' argNum reordered s'
      end
  end.

Definition sprintf (format : string) : string :=
  let s := chars format in unchars (sprintfF (S (length s)) 0 false s).

End Sprintf.

(** [@] is a double quote. *)
Definition plain (s : string) : string :=
  unchars ((λ c, if isC 64 c then Ascii.ascii_of_nat 34 else c) <$> chars s).

Definition minionImage : string := "quay.io/netsys/di-minion:latest".

(** ** The scripts *)

Definition ubuntuFormat : string := plain "#!/bin/bash

initialize_ovs() {
	cat <<- EOF > /etc/systemd/system/ovs.service
	[Unit]
	Description=OVS

	[Service]
	ExecStart=/sbin/modprobe openvswitch
	ExecStartPost=/sbin/modprobe vport_geneve

	[Install]
	WantedBy=multi-user.target
	EOF
}

initialize_docker() {
	# If getting the AWS internal IP works, then use that; otherwise, manually
	# parse it ourselves.
	PRIVATE_IPv4=@$(curl -s --connect-timeout 5 http://instance-data/latest/meta-data/local-ipv4)@
	if [ -z @$PRIVATE_IPv4@ ]; then
		PRIVATE_IPv4=@$(ip address show eth1 | grep 'inet ' | sed -e 's/^.*inet //' -e 's/\/.*$//' | tr -d '\n')@
	fi
	if [ -z @$PRIVATE_IPv4@ ]; then
		PRIVATE_IPv4=@$(hostname -i)@
	fi

	mkdir -p /etc/systemd/system/docker.service.d

	cat <<- EOF > /etc/systemd/system/docker.service.d/override.conf
	[Unit]
	Description=docker

	[Service]
	# The below empty ExecStart deletes the official one installed by docker daemon.
	ExecStart=
	ExecStart=/usr/bin/docker daemon --bridge=none \
	-H @${PRIVATE_IPv4}:2375@ -H unix:///var/run/docker.sock \

	[Install]
	WantedBy=multi-user.target
	EOF
}

initialize_minion() {
	cat <<- EOF > /etc/systemd/system/minion.service
	[Unit]
	Description=DI Minion
	After=docker.service
	Requires=docker.service

	[Service]
	TimeoutSec=1000
	ExecStartPre=-/usr/bin/mkdir -p /var/run/netns
	ExecStartPre=-/usr/bin/docker kill minion
	ExecStartPre=-/usr/bin/docker rm minion
	ExecStartPre=/usr/bin/docker pull %[1]s
	ExecStart=/usr/bin/docker run --net=host --name=minion --privileged \
	-v /var/run/docker.sock:/var/run/docker.sock \
	-v /proc:/hostproc:ro -v /var/run/netns:/var/run/netns:rw %[1]s

	[Install]
	WantedBy=multi-user.target
	EOF
}

install_docker() {
	# Disable default sources list since we don't use them anyways
	mv /etc/apt/sources.list /etc/apt/sources.list.bak

	echo @deb https://apt.dockerproject.org/repo ubuntu-%[3]s main@ > /etc/apt/sources.list.d/docker.list
	apt-get update
	apt-get install docker-engine=1.9.1-0~%[3]s -y --force-yes
	systemctl stop docker.service
}

setup_user() {
	user=$1
	ssh_keys=$2
	sudo groupadd $user
	sudo useradd $user -s /bin/bash -g $user
	sudo usermod -aG sudo $user
	# Allow the user to use docker without sudo
	sudo usermod -aG docker $user

	user_dir=/home/$user

	# Create dirs and files with correct users and permissions
	install -d -o $user -m 744 $user_dir
	install -d -o $user -m 700 $user_dir/.ssh
	install -o $user -m 600 /dev/null $user_dir/.ssh/authorized_keys
	printf @$ssh_keys@ >> $user_dir/.ssh/authorized_keys
	printf @$user ALL = (ALL) NOPASSWD: ALL\n@ >> /etc/sudoers
}

echo -n @Start Boot Script: @ >> /var/log/bootscript.log
date >> /var/log/bootscript.log

export DEBIAN_FRONTEND=noninteractive

install_docker
initialize_ovs
initialize_docker
initialize_minion

ssh_keys=@%[2]s@
setup_user di @$ssh_keys@

# Reload because we replaced the docker.service provided by the package
systemctl daemon-reload

# Enable our services to run on boot
systemctl enable {ovs,docker,minion}.service

# Start our services
systemctl restart {ovs,docker,minion}.service

echo -n @Completed Boot Script: @ >> /var/log/bootscript.log
date >> /var/log/bootscript.log
    ".

Definition coreOSFormat : string := plain "#cloud-config

coreos:
    units:
        - name: ovs.service
          command: start
          content: |
            [Unit]
            Description=OVS
            [Service]
            ExecStart=/sbin/modprobe openvswitch
            ExecStartPost=/sbin/modprobe vport_geneve

        - name: docker.service
          command: start
          content: |
            [Unit]
            Description=docker
            [Service]
            ExecStart=/usr/bin/docker daemon --bridge=none \
            -H $private_ipv4:2375 -H unix:///var/run/docker.sock \
            --cluster-store=etcd://127.0.0.1:2379 --cluster-advertise=$private_ipv4:0

        - name: minion.service
          command: start
          content: |
            [Unit]
            Description=DI Minion
            After=docker.service
            Requires=docker.service

            [Service]
            TimeoutSec=1000
            ExecStartPre=-/usr/bin/mkdir -p /var/run/netns
            ExecStartPre=-/usr/bin/docker kill minion
            ExecStartPre=-/usr/bin/docker rm minion
            ExecStartPre=/usr/bin/docker pull %s
            ExecStart=/usr/bin/docker run --net=host --name=minion --privileged \
            -v /var/run/docker.sock:/var/run/docker.sock \
            -v /proc:/hostproc:ro -v /var/run/netns:/var/run/netns:rw

".

Definition newlineChar : Ascii.ascii := Ascii.ascii_of_nat 10.

Definition cloudConfigUbuntu (keys : list string) (ubuntuVersion : string) : string :=
  sprintf [minionImage; joinOn newlineChar keys; ubuntuVersion] ubuntuFormat.

Definition keyLine (key : string) : string :=
  sprintf [key] (plain "    - @%s@" ++ String newlineChar "").

Definition cloudConfigCoreOS (keys : list string) : string :=
  let cloudConfig := sprintf [minionImage; minionImage] coreOSFormat in
  if decide (keys = []) then cloudConfig
  else cloudConfig ++ "ssh_authorized_keys:" ++ String newlineChar "" ++ String.concat "" (keyLine <$> keys).
