(* ===== verification/AwsSpot.v ===== *)
(** * provider: spot instances of Amazon

    Model of [src/provider/awsSpot.go]. EC2 is the class [EC2] over an abstract state of
    the regions; an error of a call is [None] or [false]. Pointers in the answers are
    options, and the code panics where it follows one that is nil. *)

From stdpp Require Import base gmap list strings.
From Stdlib Require Import ZArith Lia.
From S2P Require Import Prelude DbRows Db Provider CloudConfig.

Local Open Scope Z_scope.

(** ** Data *)

Definition spotPrice : string := "0.5".

Definition amis : gmap string string :=
  list_to_map [("ap-southeast-2", "ami-f599ba96"); ("us-west-1", "ami-af671bcf");
               ("us-west-2", "ami-acd63bcc")]%string.

Record awsID : Type := mkAwsID { spotID : string; region : string }.
#[global] Instance awsID_eq_dec : EqDecision awsID.
Proof. solve_decision. Defined.
#[global] Instance awsID_countable : Countable awsID.
Proof. by apply (inj_countable' (λ i, (spotID i, region i)) (λ p, mkAwsID p.1 p.2)); intros []. Defined.

(** [bootReq] of [Boot]. *)
Record bootReq : Type := mkBootReq { brCfg : string; brSize : string; brRegion : string; brDiskSize : Z }.
#[global] Instance bootReq_eq_dec : EqDecision bootReq.
Proof. solve_decision. Defined.
#[global] Instance bootReq_countable : Countable bootReq.
Proof.
  by apply (inj_countable' (λ b, (brCfg b, brSize b, brRegion b, brDiskSize b))
    (λ p, let '(c, s, r, d) := p in mkBootReq c s r d)); intros [].
Defined.

(** The parts of [ec2.RequestSpotInstancesInput] that [Boot] sets; the user data is the
    script before its encoding in base 64. *)
Record spotRequest : Type := mkSpotRequest {
  srPrice : string;
  srImage : string;
  srType : string;
  srUserData : string;
  srGroups : list string;
  srDevice : string;
  srVolumeSize : Z;
  srVolumeType : string;
  srDeleteOnTermination : bool;
  srCount : Z
}.

(** [ec2.SpotInstanceRequest], [ec2.Tag], [ec2.Instance]. *)
Record ec2Tag : Type := mkTag { tagKey : option string; tagValue : option string }.

Record ec2Spot : Type := mkSpot {
  spotRequestID : option string;
  spotState : option string;
  spotInstance : option string;
  spotTags : list (option ec2Tag)
}.

Record ec2Instance : Type := mkInstance {
  instID : option string;
  instState : option string;
  instPublicIP : option string;
  instPrivateIP : option string;
  instType : option string;
  (** The volume of each block device. *)
  instDevices : list (option string)
}.

(** [ec2.UserIdGroupPair], [ec2.IpPermission] and [ec2.SecurityGroup]. *)
Record groupPair : Type := mkPair { pairGroupID : option string; pairGroupName : option string }.

Record IpPermission : Type := mkPermission {
  permFromPort : option Z;
  permToPort : option Z;
  permProtocol : option string;
  permGroups : slice groupPair;
  permRanges : list (option string)
}.

Record securityGroup : Type := mkGroup { groupID : option string; groupPermissions : list IpPermission }.

(** What [RevokeSecurityGroupIngress] revokes and [AuthorizeSecurityGroupIngress] allows. *)
Inductive ingressRule : Type :=
| byPermission (p : IpPermission)
| byRange (cidr : string) (fromPort toPort : option Z) (protocol : option string)
| byGroup (groupName : option string).

(** EC2, by region; [Sleep] is the time that the program sleeps, in seconds. *)
Class EC2 (W : Type) : Type := {
  RequestSpotInstances : string → spotRequest → W → option (list ec2Spot) * W;
  DescribeSpotInstanceRequests : string → option (list string) → W → option (list ec2Spot) * W;
  DescribeInstances : string → string → W → option (list (list ec2Instance)) * W;
  DescribeVolumes : string → string → W → option (list (option Z)) * W;
  TerminateInstances : string → list string → W → bool * W;
  CancelSpotInstanceRequests : string → list string → W → bool * W;
  CreateTags : string → string → list string → W → bool * W;
  DescribeSecurityGroups : string → string → W → option (list securityGroup) * W;
  CreateSecurityGroup : string → string → W → bool * W;
  RevokeSecurityGroupIngress : string → string → ingressRule → W → bool * W;
  AuthorizeSecurityGroupIngress : string → string → ingressRule → W → bool * W;
  Sleep : Z → W → W
}.

Inductive awsErr : Type := errEC2 | errTimedOut | errMultipleGroups.

(** [awsSpotCluster]. A session is determined by its region; the last field counts the
    loops over maps. *)
Record awsCluster (W : Type) : Type := mkAws {
  awsSessions : gset string;
  awsNamespace : string;
  awsWorld : W;
  awsLoops : nat
}.
Arguments mkAws {W} _ _ _ _.
Arguments awsSessions {W} _.
Arguments awsNamespace {W} _.
Arguments awsWorld {W} _.
Arguments awsLoops {W} _.

(** [Start]: the cluster, and the trigger of the goroutine that runs [watchACLs]. *)
Definition awsStart {W} (namespace : string) (w : W) : DB (awsCluster W * nat) :=
  aclTrigger ← TriggerTick [tClusterTable];
  mret (mkAws ∅ namespace w 0, aclTrigger).

Definition awsDisconnect (aclTrigger : nat) : DB unit := modifyS (Stop aclTrigger).

(** ** Identifiers *)

Definition getSpotIDs (ids : list awsID) : list string := spotID <$> ids.

Definition groupByRegion (ids : list awsID) : gmap string (list awsID) :=
  foldl (λ grouped id, <[region id := default [] (grouped !! region id) ++ [id]]> grouped) ∅ ids.

(** ** The cluster *)

Section Cluster.
Context {W : Type} `{EC2 W} `{MapRange}.

Abbreviation A := (M Empty_set (awsCluster W)).

Definition onEC2 {R} (f : W → R * W) : A R := λ st,
  let '(r, w) := f (awsWorld st) in Ok (r, mkAws (awsSessions st) (awsNamespace st) w (awsLoops st)).

Definition sleep (seconds : Z) : A unit := onEC2 (λ w, (tt, Sleep seconds w)).

Definition rangeOf {K V} `{Countable K} (m : gmap K V) : A (list (K * V)) := λ st,
  Ok (rangeOrder (awsLoops st) m, mkAws (awsSessions st) (awsNamespace st) (awsWorld st) (S (awsLoops st))).

Definition namespace : A string := λ st, Ok (awsNamespace st, st).

(** [*p]. *)
Definition ptr {R} (p : option R) : A R :=
  match p with Some x => mret x | None => panic "nil pointer dereference" end.

(** A loop whose body may return from the function with an error. *)
Fixpoint eachOr {X} (f : X → A (option awsErr)) (l : list X) : A (option awsErr) :=
  match l with
  | [] => mret None
  | x :: l' => e ← f x; match e with Some e => mret (Some e) | None => eachOr f l' end
  end.

(** The same when the body appends to a slice. *)
Fixpoint collectOr {X R} (f : X → A (awsErr + list R)) (l : list X) : A (awsErr + list R) :=
  match l with
  | [] => mret (inr [])
  | x :: l' =>
      r ← f x;
      match r with
      | inl e => mret (inl e)
      | inr rs => r' ← collectOr f l';
                  mret match r' with inl e => inl e | inr rs' => inr (rs ++ rs') end
      end
  end.

Definition getSession (region : string) : A unit := λ st,
  Ok (tt, mkAws ({[region]} ∪ awsSessions st) (awsNamespace st) (awsWorld st) (awsLoops st)).

(** *** Get *)

(** [instMap] of [Get]. *)
Definition instanceMap (reservations : list (list ec2Instance)) : A (gmap string ec2Instance) :=
  foldEach (λ m inst, id ← ptr (instID inst); mret (<[id := inst]> m)) ∅ (concat reservations).

Definition taggedWith (ns : string) (tags : list (option ec2Tag)) : bool :=
  existsb (λ t, match t with Some tag => bool_decide (tagKey tag = Some ns) | None => false end) tags.

(** The disk of an instance: [0] if it has no device or its volume is not found. *)
Definition diskSize (region : string) (inst : ec2Instance) : A (awsErr + Z) :=
  match instDevices inst with
  | [] => mret (inr 0)
  | volume :: _ =>
      volumeID ← ptr volume;
      volumeInfo ← onEC2 (DescribeVolumes region volumeID);
      match volumeInfo with
      | None => mret (inl errEC2)
      | Some [size] => size ← ptr size; mret (inr size)
      | Some _ => mret (inr 0)
      end
  end.

(** The body of the loop over the spot requests: the machine, unless it is skipped. *)
Definition spotMachine (region : string) (instMap : gmap string ec2Instance) (spot : ec2Spot)
    : A (awsErr + list CloudMachine) :=
  state ← ptr (spotState spot);
  if decide (state ≠ "active"%string ∧ state ≠ "open"%string) then mret (inr [])
  else
    match spotInstance spot ≫= (instMap !!.) with
    | None =>
        ns ← namespace;
        if taggedWith ns (spotTags spot) then
          id ← ptr (spotRequestID spot);
          mret (inr [mkCloud id "" "" "" 0 None "AmazonSpot" region])
        else mret (inr [])
    | Some inst =>
        id ← ptr (spotRequestID spot);
        instanceState ← ptr (instState inst);
        if decide (instanceState ≠ "pending"%string ∧ instanceState ≠ "running"%string) then mret (inr [])
        else
          disk ← diskSize region inst;
          mret match disk with
               | inl e => inl e
               | inr size => inr [mkCloud id (default ""%string (instPublicIP inst))
                                   (default ""%string (instPrivateIP inst))
                                   (default ""%string (instType inst)) size None "AmazonSpot" region]
               end
    end.

Definition getRegion (region : string) : A (awsErr + list CloudMachine) :=
  _ ← getSession region;
  spots ← onEC2 (DescribeSpotInstanceRequests region None);
  match spots with
  | None => mret (inl errEC2)
  | Some spots =>
      ns ← namespace;
      insts ← onEC2 (DescribeInstances region ns);
      match insts with
      | None => mret (inl errEC2)
      | Some reservations =>
          instMap ← instanceMap reservations;
          collectOr (spotMachine region instMap) spots
      end
  end.

Definition awsGet : A (awsErr + list CloudMachine) :=
  regions ← rangeOf amis;
  collectOr (λ r, getRegion r.1) regions.

(** *** Waiting *)

Definition listed (machines : list CloudMachine) (id : awsID) : bool :=
  bool_decide (id ∈ (λ m, mkAwsID (cmID m) (cmRegion m)) <$> machines).

Fixpoint waitLoop (n : nat) (ids : list awsID) (boot : bool) : A (option awsErr) :=
  match n with
  | O => mret (Some errTimedOut)
  | S n' =>
      machines ← awsGet;
      match machines with
      | inl _ => _ ← sleep 2; waitLoop n' ids boot
      | inr machines =>
          if forallb (λ id, eqb (listed machines id) boot) ids then mret None
          else _ ← sleep 2; waitLoop n' ids boot
      end
  end.

Definition wait (ids : list awsID) (boot : bool) : A (option awsErr) := waitLoop 100 ids boot.

(** *** Boot *)

(** The attempts to tag the requests of a region. *)
Fixpoint tagLoop (n : nat) (region : string) (spotIDs : list string) : A bool :=
  match n with
  | O => mret false
  | S n' =>
      ns ← namespace;
      ok ← onEC2 (CreateTags region ns spotIDs);
      if ok : bool then mret true else _ ← sleep 5; tagLoop n' region spotIDs
  end.

Definition tagRegion (r : string * list awsID) : A (option awsErr) :=
  _ ← getSession r.1;
  let spotIDs := getSpotIDs r.2 in
  tagged ← tagLoop 30 r.1 spotIDs;
  if tagged : bool then mret None
  else _ ← onEC2 (CancelSpotInstanceRequests r.1 spotIDs); mret (Some errEC2).

Definition tagSpotRequests (ids : list awsID) : A (option awsErr) :=
  groups ← rangeOf (groupByRegion ids);
  eachOr tagRegion groups.

Definition bootReqOf (m : CloudMachine) : bootReq :=
  mkBootReq (cloudConfigUbuntu (elems (cmSSHKeys m)) "wily") (cmSize m) (cmRegion m) (cmDiskSize m).

(** [bootReqMap]: how many machines each request is for. *)
Definition bootReqMap (bootSet : list CloudMachine) : gmap bootReq Z :=
  foldl (λ m br, <[br := default 0 (m !! br) + 1]> m) ∅ (bootReqOf <$> bootSet).

Definition launchSpec (ns : string) (br : bootReq) (count : Z) : spotRequest :=
  mkSpotRequest spotPrice (default ""%string (amis !! brRegion br)) (brSize br) (brCfg br) [ns]
    "/dev/sda1" (brDiskSize br) "gp2" true count.

Definition requestSpots (r : bootReq * Z) : A (awsErr + list awsID) :=
  _ ← getSession (brRegion r.1);
  ns ← namespace;
  resp ← onEC2 (RequestSpotInstances (brRegion r.1) (launchSpec ns r.1 r.2));
  match resp with
  | None => mret (inl errEC2)
  | Some spots => ids ← mapEach (λ s, ptr (spotRequestID s)) spots;
                  mret (inr ((λ id, mkAwsID id (brRegion r.1)) <$> ids))
  end.

Definition awsBoot (bootSet : list CloudMachine) : A (option awsErr) :=
  if decide (bootSet = []) then mret None
  else
    reqs ← rangeOf (bootReqMap bootSet);
    ids ← collectOr requestSpots reqs;
    match ids with
    | inl e => mret (Some e)
    | inr ids =>
        tagged ← tagSpotRequests ids;
        match tagged with
        | Some e => mret (Some e)
        | None => wait ids true
        end
    end.

(** *** Stop *)

Definition stopRegion (r : string * list awsID) : A (option awsErr) :=
  _ ← getSession r.1;
  let spotIDs := getSpotIDs r.2 in
  spots ← onEC2 (DescribeSpotInstanceRequests r.1 (Some spotIDs));
  match spots with
  | None => mret (Some errEC2)
  | Some spots =>
      let instIDs := omap spotInstance spots in
      terminated ← (if decide (instIDs = []) then mret true else onEC2 (TerminateInstances r.1 instIDs));
      if (terminated : bool) then
        cancelled ← onEC2 (CancelSpotInstanceRequests r.1 spotIDs);
        if (cancelled : bool) then wait r.2 false else mret (Some errEC2)
      else mret (Some errEC2)
  end.

Definition awsStop (machines : list CloudMachine) : A (option awsErr) :=
  groups ← rangeOf (groupByRegion ((λ m, mkAwsID (cmID m) (cmRegion m)) <$> machines));
  eachOr stopRegion groups.

End Cluster.
