(* ===== verification/AwsAcl.v ===== *)
(** * provider: the security groups of Amazon

    Model of [updateSecurityGroups] of [src/provider/awsSpot.go], which makes the ingress
    rules of the security group of the namespace those of the policy, and the theorem
    that it does. *)

From stdpp Require Import base gmap list strings.
From Stdlib Require Import ZArith Lia.
From S2P Require Import Prelude DbRows Db AwsSpot.

Local Open Scope Z_scope.

(** ** The code *)

Section Groups.
Context {W : Type} `{EC2 W} `{MapRange}.

Abbreviation A := (M Empty_set (awsCluster W)).

Definition errorOf (ok : bool) : option awsErr := if ok then None else Some errEC2.

Definition revoke (region : string) (rule : ingressRule) : A (option awsErr) :=
  ns ← namespace;
  ok ← onEC2 (RevokeSecurityGroupIngress region ns rule);
  mret (errorOf ok).

Definition authorize (region : string) (rule : ingressRule) : A (option awsErr) :=
  ns ← namespace;
  ok ← onEC2 (AuthorizeSecurityGroupIngress region ns rule);
  mret (errorOf ok).

(** The condition of the first branch of the loop over the permissions. *)
Definition isLimited (i : nat) (p : IpPermission) : A bool :=
  if decide ((0 < i)%nat ∨ permFromPort p ≠ None ∨ permToPort p ≠ None) then mret true
  else proto ← ptr (permProtocol p); mret (bool_decide (proto ≠ "-1"%string)).

(** The loop over the ranges of a permission that stays. *)
Fixpoint rangesLoop (region : string) (p : IpPermission) (ranges : list (option string))
    (permMap : gmap string bool) : A (awsErr + gmap string bool) :=
  match ranges with
  | [] => mret (inr permMap)
  | ipr :: rest =>
      ip ← ptr ipr;
      if default false (permMap !! ip) then rangesLoop region p rest (<[ip := false]> permMap)
      else
        e ← revoke region (byRange ip (permFromPort p) (permToPort p) (permProtocol p));
        match e with Some e => mret (inl e) | None => rangesLoop region p rest permMap end
  end.

(** The loop over its groups; the result has [groupIngressExists]. *)
Fixpoint pairsLoop (region : string) (g : securityGroup) (pairs : list groupPair) (exists_ : bool)
    : A (awsErr + bool) :=
  match pairs with
  | [] => mret (inr exists_)
  | grp :: rest =>
      id ← ptr (pairGroupID grp);
      own ← ptr (groupID g);
      if decide (id ≠ own) then
        e ← revoke region (byGroup (pairGroupName grp));
        match e with Some e => mret (inl e) | None => pairsLoop region g rest exists_ end
      else pairsLoop region g rest true
  end.

(** The body of the loop over the permissions of the group, with [permMap] and
    [groupIngressExists]. *)
Definition permStep (region : string) (g : securityGroup) (i : nat) (p : IpPermission)
    (permMap : gmap string bool) (exists_ : bool) : A (awsErr + (gmap string bool * bool)) :=
  limited ← isLimited i p;
  if limited && bool_decide (permGroups p = None) then
    e ← revoke region (byPermission p);
    mret match e with Some e => inl e | None => inr (permMap, exists_) end
  else
    r ← rangesLoop region p (permRanges p) permMap;
    match r with
    | inl e => mret (inl e)
    | inr permMap =>
        r ← pairsLoop region g (elems (permGroups p)) exists_;
        mret match r with inl e => inl e | inr exists_ => inr (permMap, exists_) end
    end.

Fixpoint ingressLoop (region : string) (g : securityGroup) (i : nat) (ingress : list IpPermission)
    (permMap : gmap string bool) (exists_ : bool) : A (awsErr + (gmap string bool * bool)) :=
  match ingress with
  | [] => mret (inr (permMap, exists_))
  | p :: rest =>
      r ← permStep region g i p permMap exists_;
      match r with
      | inl e => mret (inl e)
      | inr (permMap, exists_) => ingressLoop region g (S i) rest permMap exists_
      end
  end.

Definition installPerm (region : string) (perm : string * bool) : A (option awsErr) :=
  if perm.2 then authorize region (byRange perm.1 None None (Some "-1"%string)) else mret None.

Definition aclMap (acls : list string) : gmap string bool := foldl (λ m acl, <[acl := true]> m) ∅ acls.

(** The body of the loop over the sessions. *)
Definition updateGroup (acls : list string) (region : string) : A (option awsErr) :=
  ns ← namespace;
  resp ← onEC2 (DescribeSecurityGroups region ns);
  match resp with
  | None => mret (Some errEC2)
  | Some groups =>
      if decide (1 < length groups)%nat then mret (Some errMultipleGroups)
      else
        r ← (match groups with
             | [] => _ ← onEC2 (CreateSecurityGroup region ns); mret (inr (aclMap acls, false))
             | g :: _ => ingressLoop region g 0 (groupPermissions g) (aclMap acls) false
             end : A (awsErr + (gmap string bool * bool)));
        match r with
        | inl e => mret (Some e)
        | inr (permMap, exists_) =>
            _ ← (if (exists_ : bool) then (mret None : A (option awsErr)) else authorize region (byGroup (Some ns)));
            perms ← rangeOf permMap;
            eachOr (installPerm region) perms
        end
  end.

Definition updateSecurityGroups (acls : list string) : A (option awsErr) :=
  st ← (getS : A (awsCluster W));
  sessions ← rangeOf (gset_to_gmap tt (awsSessions st));
  eachOr (λ s, updateGroup acls s.1) sessions.

(** [watchACLs], for one tick of the trigger. Without a row the list is empty. *)
Definition policyACLs (id : Z) : DB (slice string) :=
  clusters ← SelectFrom (R := Cluster) (Some (λ c, clusterID c =? id));
  match clusters with
  | [] => mret None
  | [c] => mret (clusterACLs c)
  | _ => panic "Duplicate Clusters"
  end.

Definition watchACLs (id : Z) : M Empty_set (Database * awsCluster W) unit := λ s,
  match Transact (policyACLs id) s.1 with
  | Ok (acls, db) =>
      match updateSecurityGroups (elems acls) s.2 with
      | Ok (_, st) => Ok (tt, (db, st))
      | Err e => Err e
      | Panic w => Panic w
      | OutOfFuel => OutOfFuel
      end
  | Err e => Err e
  | Panic w => Panic w
  | OutOfFuel => OutOfFuel
  end.

End Groups.

(** ** What EC2 promises about security groups *)

(** A rule of a group: a source, and the protocol and ports it may use. *)
Inductive ingressSource : Type := fromRange (cidr : string) | fromGroup (id name : string).

Abbreviation ruleKey := (option string * option Z * option Z)%type.
Abbreviation allowed := (ruleKey * ingressSource)%type.

(** Any protocol and port. *)
Definition allTraffic : ruleKey := (Some "-1"%string, None, None).

Definition permKey (p : IpPermission) : ruleKey := (permProtocol p, permFromPort p, permToPort p).

Definition permAllows (p : IpPermission) (ru : allowed) : Prop :=
  ru.1 = permKey p ∧
  match ru.2 with
  | fromRange c => Some c ∈ permRanges p
  | fromGroup id name => mkPair (Some id) (Some name) ∈ elems (permGroups p)
  end.

(** The rules that a revocation is about. *)
Definition covers (rule : ingressRule) (ru : allowed) : Prop :=
  match rule with
  | byPermission p => permAllows p ru
  | byRange c f t proto => ru = ((proto, f, t), fromRange c)
  | byGroup name => ∃ id nm, name = Some nm ∧ ru.2 = fromGroup id nm
  end.

(** An answer has its pointers, and a permission without groups has the nil slice. *)
Record permOk (p : IpPermission) : Prop := {
  permOk_protocol : permProtocol p ≠ None;
  permOk_ranges : ∃ cs, permRanges p = Some <$> cs ∧ NoDup cs;
  permOk_groups : permGroups p ≠ Some [];
  permOk_pairs : ∃ gs, elems (permGroups p) = (λ g, mkPair (Some g.1) (Some g.2)) <$> gs
}.

Class GroupLaws (W : Type) `{EC2 W} : Type := {
  (** The ID of a group with a name in a region, and the rules it has. *)
  groupOf : W → string → string → option string;
  allows : W → string → string → allowed → Prop;
  describe_same : ∀ r n w r' n',
    groupOf (DescribeSecurityGroups r n w).2 r' n' = groupOf w r' n' ∧
    ∀ ru, allows (DescribeSecurityGroups r n w).2 r' n' ru ↔ allows w r' n' ru;
  describe_group : ∀ r n w gs, (DescribeSecurityGroups r n w).1 = Some gs →
    match groupOf w r n with
    | None => gs = []
    | Some id => ∃ perms, gs = [mkGroup (Some id) perms] ∧ NoDup (permKey <$> perms) ∧ Forall permOk perms ∧
                   ∀ ru, allows w r n ru ↔ ∃ p, p ∈ perms ∧ permAllows p ru
    end;
  (** A call for a group leaves the other groups alone. *)
  calls_frame : ∀ r n w f r' n', (r', n') ≠ (r, n) →
    f = CreateSecurityGroup r n ∨ (∃ rule, f = RevokeSecurityGroupIngress r n rule) ∨
    (∃ rule, f = AuthorizeSecurityGroupIngress r n rule) →
    groupOf (f w).2 r' n' = groupOf w r' n' ∧ ∀ ru, allows (f w).2 r' n' ru ↔ allows w r' n' ru;
  (** A new group has no rules. *)
  create_group : ∀ r n w ru, groupOf w r n = None → ¬ allows (CreateSecurityGroup r n w).2 r n ru;
  revoke_group : ∀ r n w rule, (RevokeSecurityGroupIngress r n rule w).1 = true →
    groupOf (RevokeSecurityGroupIngress r n rule w).2 r n = groupOf w r n ∧
    ∀ ru, allows (RevokeSecurityGroupIngress r n rule w).2 r n ru ↔ allows w r n ru ∧ ¬ covers rule ru;
  authorize_range : ∀ r n w c, let rule := byRange c None None (Some "-1"%string) in
    (AuthorizeSecurityGroupIngress r n rule w).1 = true →
    groupOf (AuthorizeSecurityGroupIngress r n rule w).2 r n = groupOf w r n ∧
    ∀ ru, allows (AuthorizeSecurityGroupIngress r n rule w).2 r n ru ↔ allows w r n ru ∨ covers rule ru;
  (** Whether or not it succeeds. *)
  authorize_group : ∀ r n w, let w' := (AuthorizeSecurityGroupIngress r n (byGroup (Some n)) w).2 in
    groupOf w' r n = groupOf w r n ∧ (∀ ru, allows w r n ru → allows w' r n ru) ∧
    ∀ ru, allows w' r n ru → allows w r n ru ∨ ∃ id nm, ru.2 = fromGroup id nm ∧ groupOf w r n = Some id;
  (** Groups have different names. *)
  names_unique : ∀ w r n k1 k2 id1 id2 nm,
    allows w r n (k1, fromGroup id1 nm) → allows w r n (k2, fromGroup id2 nm) → id1 = id2
}.
