(* ===== verification/AwsAclProps.v ===== *)
(** * provider: the security groups of Amazon follow the policy

    If EC2 keeps its promises [GroupLaws], a run of [updateSecurityGroups] that returns no
    error leaves in the group of every session exactly the ranges of the policy, and no
    group but the own one. *)

From stdpp Require Import base gmap list strings.
From Stdlib Require Import ZArith Lia.
From S2P Require Import Prelude DbRows Db AwsSpot AwsAcl.

Local Open Scope Z_scope.

(** A rule for a part of the traffic is for ranges or for groups. *)
Definition separated {W} `{GroupLaws W} (w : W) (r n : string) : Prop :=
  ∀ k c id nm, allows w r n (k, fromRange c) → allows w r n (k, fromGroup id nm) → k = allTraffic.

(** The group lets in the ranges [acls], for all traffic, and itself at most. *)
Definition exactly {W} `{GroupLaws W} (w : W) (r n : string) (acls : list string) : Prop :=
  (∀ k c, allows w r n (k, fromRange c) ↔ k = allTraffic ∧ c ∈ acls) ∧
  (∀ k id nm, allows w r n (k, fromGroup id nm) → groupOf w r n = Some id).

(** What the group lets in from itself stays. *)
Definition keepsOwn {W} `{GroupLaws W} (w w' : W) (r n : string) : Prop :=
  ∀ k id nm, groupOf w r n = Some id → allows w r n (k, fromGroup id nm) → allows w' r n (k, fromGroup id nm).

Section Region.
Context {W : Type} `{GL : GroupLaws W} `{MapRange} (r n : string).
Implicit Types st : awsCluster W.

Abbreviation rules st := (allows (awsWorld st) r n).

(** The code ran for the group of the region and changed no other. *)
Record stays st st' : Prop := {
  stays_sessions : awsSessions st' = awsSessions st;
  stays_namespace : awsNamespace st' = awsNamespace st;
  stays_others : ∀ r' n', (r', n') ≠ (r, n) →
    groupOf (awsWorld st') r' n' = groupOf (awsWorld st) r' n' ∧
    ∀ ru, allows (awsWorld st') r' n' ru ↔ allows (awsWorld st) r' n' ru
}.

#[local] Instance stays_preorder : PreOrder stays.
Proof.
  split; [done|]. intros s1 s2 s3 [Hs Hn Ho] [Hs' Hn' Ho']. split; [congruence..|].
  intros r' n' Hne. destruct (Ho r' n' Hne) as [Hg Ha], (Ho' r' n' Hne) as [Hg' Ha'].
  split; [congruence|]. intros ru. by rewrite Ha', Ha.
Qed.

(** It also did not make or delete the group. *)
Definition same st st' : Prop := stays st st' ∧ groupOf (awsWorld st') r n = groupOf (awsWorld st) r n.

#[local] Instance same_preorder : PreOrder same.
Proof. split; [by split|]. intros s1 s2 s3 [H1 G1] [H2 G2]. split; [by etransitivity|congruence]. Qed.

(** The code returns; without an error the result and the state satisfy [Q]. *)
Definition runs {R} (c : M Empty_set (awsCluster W) (awsErr + R)) st (Q : R → awsCluster W → Prop) : Prop :=
  ∃ o st', c st = Ok (o, st') ∧ match o with inl _ => True | inr a => Q a st' end.

Lemma revoke_run rule st :
  awsNamespace st = n →
  ∃ e st', revoke r rule st = Ok (e, st') ∧
    (e = None → same st st' ∧ ∀ ru, rules st' ru ↔ rules st ru ∧ ¬ covers rule ru).
Proof.
  intros Hn. unfold revoke, namespace, onEC2, mbind, M_bind, mret, M_ret. rewrite Hn.
  pose proof (revoke_group r n (awsWorld st) rule) as Hlaw.
  pose proof (calls_frame r n (awsWorld st) (RevokeSecurityGroupIngress r n rule)) as Hframe.
  destruct (RevokeSecurityGroupIngress r n rule (awsWorld st)) as [ok w']. eexists _, _. split; [done|].
  destruct ok; [|done]. intros _. destruct (Hlaw eq_refl) as [Hg Ha]. split; [|done].
  split; [|done]. split; [done|done|]. intros r' n' Hne. apply Hframe; eauto.
Qed.

(** *** The ranges of a permission *)

Lemma rangesLoop_run p cs m st :
  awsNamespace st = n → NoDup cs →
  runs (rangesLoop r p (Some <$> cs) m) st (λ m' st', same st st' ∧
    (∀ ru, rules st' ru ↔ rules st ru ∧
       ¬ ∃ c, c ∈ cs ∧ m !! c ≠ Some true ∧ ru = (permKey p, fromRange c)) ∧
    (∀ c, m' !! c = if decide (c ∈ cs ∧ m !! c = Some true) then Some false else m !! c)).
Proof.
  revert m st. induction cs as [|c cs IH]; intros m st Hn Hnd.
  { eexists _, _. split; [done|]. split; [reflexivity|]. split; [|intros c; rewrite decide_False; [done|set_solver]].
    intros ru. split; [|naive_solver]. intros Hru. split; [done|]. intros (c & Hc & _). by apply not_elem_of_nil in Hc. }
  apply NoDup_cons in Hnd as [Hc Hnd]. unfold runs. cbn [fmap list_fmap rangesLoop].
  unfold mbind at 1, M_bind at 1, ptr at 1, mret at 1, M_ret at 1. destruct (default false (m !! c)) eqn:Hm.
  - assert (m !! c = Some true) as Hmc by (destruct (m !! c) as [[]|]; done).
    destruct (IH (<[c:=false]> m) st Hn Hnd) as (o & st' & Hrun & Ho). exists o, st'. split; [done|].
    destruct o as [|m']; [done|]. destruct Ho as (Hs & Hr & Hm'). split; [done|]. split.
    + intros ru. rewrite Hr. apply and_iff_compat_l. apply not_iff_compat. split.
      * intros (d & Hd & Hmd & ->). exists d. split; [by right|]. split; [|done].
        by rewrite lookup_insert_ne in Hmd by (intros ->; done).
      * intros (d & [-> |Hd]%elem_of_cons & Hmd & ->); [done|]. exists d. split; [done|].
        by rewrite lookup_insert_ne by (intros ->; done).
    + intros d. rewrite Hm'. destruct (decide (d = c)) as [-> |Hne].
      * rewrite decide_False, decide_True, lookup_insert_eq by (set_solver || naive_solver). done.
      * rewrite lookup_insert_ne by done. apply decide_ext. set_solver.
  - destruct (revoke_run (byRange c (permFromPort p) (permToPort p) (permProtocol p)) st Hn) as (e & st1 & Hrun1 & He).
    unfold mbind at 1, M_bind at 1. rewrite Hrun1. destruct e as [e|]; [by eexists _, _|].
    destruct (He eq_refl) as [Hs1 Hr1].
    destruct (IH m st1) as (o & st' & Hrun & Ho); [by rewrite (stays_namespace _ _ (proj1 Hs1))|done|].
    exists o, st'. split; [done|]. destruct o as [|m']; [done|]. destruct Ho as (Hs & Hr & Hm').
    assert (m !! c ≠ Some true) as Hmc by (by intros Heq; rewrite Heq in Hm). split; [by etransitivity|]. split.
    + intros ru. rewrite Hr, Hr1. cbn [covers]. fold (permKey p). split.
      * intros [[H1 H2] H3]. split; [done|]. intros (d & [-> |Hd]%elem_of_cons & Hmd & ->); [done|]. apply H3. eauto.
      * intros [H1 H2]. split; [split; [done|]|].
        -- intros ->. apply H2. exists c. split; [left|done].
        -- intros (d & Hd & Hmd & ->). apply H2. exists d. split; [by right|done].
    + intros d. rewrite Hm'. apply decide_ext. set_solver.
Qed.

(** *** The groups of a permission *)

Lemma pairsLoop_run own perms gs b st :
  awsNamespace st = n →
  runs (pairsLoop r (mkGroup (Some own) perms) ((λ g : string * string, mkPair (Some g.1) (Some g.2)) <$> gs) b) st
    (λ _ st', same st st' ∧
      ∀ ru, rules st' ru ↔ rules st ru ∧ ¬ ∃ g, g ∈ gs ∧ g.1 ≠ own ∧ covers (byGroup (Some g.2)) ru).
Proof.
  intros Hn. revert b st Hn. induction gs as [|g gs IH]; intros b st Hn.
  { eexists _, _. split; [done|]. split; [reflexivity|]. intros ru. split; [|naive_solver]. intros Hru.
    split; [done|]. intros (g & Hg & _). by apply not_elem_of_nil in Hg. }
  unfold runs. cbn [fmap list_fmap pairsLoop pairGroupID pairGroupName groupID].
  unfold mbind at 1, M_bind at 1, ptr at 1, mret at 1, M_ret at 1.
  unfold mbind at 1, M_bind at 1, ptr at 1, mret at 1, M_ret at 1. case_decide as Hg.
  - destruct (revoke_run (byGroup (Some g.2)) st Hn) as (e & st1 & Hrun1 & He).
    unfold mbind at 1, M_bind at 1. rewrite Hrun1. destruct e as [e|]; [by eexists _, _|].
    destruct (He eq_refl) as [Hs1 Hr1].
    destruct (IH b st1) as (o & st' & Hrun & Ho); [by rewrite (stays_namespace _ _ (proj1 Hs1))|].
    exists o, st'. split; [done|]. destruct o as [|b']; [done|]. destruct Ho as [Hs Hr]. split; [by etransitivity|].
    intros ru. rewrite Hr, Hr1. split.
    + intros [[H1 H2] H3]. split; [done|]. intros (h & [-> |Hh]%elem_of_cons & Hne & Hcov); [done|]. apply H3. eauto.
    + intros [H1 H2]. split; [split; [done|]|].
      * intros Hcov. apply H2. exists g. split; [left|done].
      * intros (h & Hh & Hne & Hcov). apply H2. exists h. split; [by right|done].
  - destruct (IH true st Hn) as (o & st' & Hrun & Ho). exists o, st'. split; [done|]. destruct o as [|b']; [done|].
    destruct Ho as [Hs Hr]. split; [done|]. intros ru. rewrite Hr. apply and_iff_compat_l, not_iff_compat. split.
    + intros (h & Hh & ?). exists h. split; [by right|done].
    + intros (h & [-> |Hh]%elem_of_cons & Hne & ?); [done|eauto].
Qed.

(** *** One permission *)

Lemma isLimited_run i p st :
  permOk p → ∃ b, isLimited i p st = Ok (b, st) ∧ (b = false → permKey p = allTraffic).
Proof.
  intros [Hproto _ _ _]. unfold isLimited. case_decide as Hd; [by exists true|].
  destruct (permProtocol p) as [proto|] eqn:Hp; [|done]. eexists. split; [done|].
  intros Hb%bool_decide_eq_false%dec_stable. subst. unfold permKey, allTraffic. rewrite Hp.
  destruct (permFromPort p), (permToPort p); naive_solver.
Qed.

(** What the body of the loop does for the permission [p]; [kept] says that it looked at
    the ranges one by one. *)
Definition stepped (own : string) (p : IpPermission) (m m' : gmap string bool) (kept : bool) st st' : Prop :=
  same st st' ∧ (∀ ru, rules st' ru → rules st ru) ∧
  (∀ k c, rules st (k, fromRange c) → ¬ permAllows p (k, fromRange c) → rules st' (k, fromRange c)) ∧
  (kept = true → permKey p = allTraffic) ∧
  (∀ c, Some c ∈ permRanges p → rules st (permKey p, fromRange c) →
     rules st' (permKey p, fromRange c) ↔ kept = true ∧ m !! c = Some true) ∧
  (∀ c, m' !! c = if decide (kept = true ∧ Some c ∈ permRanges p ∧ m !! c = Some true) then Some false else m !! c) ∧
  (∀ k nm, rules st (k, fromGroup own nm) → rules st' (k, fromGroup own nm)) ∧
  (∀ k id nm, permAllows p (k, fromGroup id nm) → id ≠ own → ¬ rules st' (k, fromGroup id nm)).

Lemma permStep_run own perms i p m b st :
  awsNamespace st = n → permOk p →
  (permKey p ≠ allTraffic → permGroups p ≠ None → permRanges p = []) →
  (∀ k k' id nm, permAllows p (k, fromGroup id nm) → id ≠ own → ¬ rules st (k', fromGroup own nm)) →
  runs (permStep r (mkGroup (Some own) perms) i p m b) st (λ mb st', ∃ kept, stepped own p m mb.1 kept st st').
Proof.
  intros Hn Hok Hsep Hnames. unfold runs, permStep. destruct (isLimited_run i p st Hok) as (lim & Hlim & Hall).
  unfold mbind at 1, M_bind at 1. rewrite Hlim. destruct (lim && bool_decide (permGroups p = None)) eqn:Hcase.
  - apply andb_prop in Hcase as [-> Hnil%bool_decide_eq_true].
    destruct (revoke_run (byPermission p) st Hn) as (e & st1 & Hrun & He).
    unfold mbind at 1, M_bind at 1. rewrite Hrun. destruct e as [e|]; eexists _, _; (split; [done|]); [done|].
    destruct (He eq_refl) as [Hs Hr]. exists false. unfold stepped. cbn [covers fst] in *. split_and!.
    + done.
    + by intros ru [? _]%Hr.
    + intros k c H1 H2. by apply Hr.
    + done.
    + intros c Hc Hru. split; [|by intros [? _]]. intros [_ []]%Hr. by split.
    + intros c. by rewrite decide_False by naive_solver.
    + intros k nm Hru. apply Hr. split; [done|]. intros [_ Hg]. cbn in Hg. rewrite Hnil in Hg. by apply not_elem_of_nil in Hg.
    + intros k id nm [_ Hg]. cbn in Hg. rewrite Hnil in Hg. by apply not_elem_of_nil in Hg.
  - destruct (permOk_ranges p Hok) as (cs & Hcs & Hnd), (permOk_pairs p Hok) as (gs & Hgs). rewrite Hcs, Hgs.
    destruct (rangesLoop_run p cs m st Hn Hnd) as (o & st1 & Hrun1 & Ho).
    unfold mbind at 1, M_bind at 1. rewrite Hrun1. destruct o as [e|m1]; [by eexists _, _|].
    destruct Ho as (Hs1 & Hr1 & Hm1).
    destruct (pairsLoop_run own perms gs b st1) as (o & st2 & Hrun2 & Ho);
      [by rewrite (stays_namespace _ _ (proj1 Hs1))|].
    unfold mbind at 1, M_bind at 1. rewrite Hrun2. destruct o as [e|b2]; eexists _, _; (split; [done|]); [done|].
    destruct Ho as [Hs2 Hr2]. exists (bool_decide (permKey p = allTraffic)).
    assert (∀ c, Some c ∈ Some <$> cs ↔ c ∈ cs) as Hin.
    { intros c. rewrite list_elem_of_fmap. naive_solver. }
    assert (∀ c, c ∈ cs → permKey p = allTraffic) as Hkept.
    { intros c Hc. destruct (decide (permKey p = allTraffic)) as [|Hne]; [done|]. exfalso.
      destruct lim; [|by apply Hne, Hall]. apply bool_decide_eq_false in Hcase.
      rewrite Hsep in Hcs by done. destruct cs; [by apply not_elem_of_nil in Hc|done]. }
    assert (∀ k c, rules st2 (k, fromRange c) ↔ rules st1 (k, fromRange c)) as Hr2'.
    { intros k c. rewrite Hr2. split; [by intros [? _]|]. intros Hru. split; [done|]. intros (g & _ & _ & ? & ? & ? & ?). done. }
    assert (∀ k id nm, rules st1 (k, fromGroup id nm) ↔ rules st (k, fromGroup id nm)) as Hr1'.
    { intros k id nm. rewrite Hr1. split; [by intros [? _]|]. intros Hru. split; [done|]. intros (c & _ & _ & ?). done. }
    unfold stepped. cbn [fst]. rewrite Hcs. split_and!.
    + by etransitivity.
    + by intros ru [[? _]%Hr1 _]%Hr2.
    + intros k c H1 H2. apply Hr2', Hr1. split; [done|]. intros (d & Hd & _ & [= -> ->]). apply H2. split; [done|].
      cbn. rewrite Hcs. by apply Hin.
    + by intros ?%bool_decide_eq_true.
    + intros c Hc%Hin Hru. rewrite Hr2', Hr1, bool_decide_eq_true. split.
      * intros [_ Hnot]. split; [by eapply Hkept|]. apply dec_stable. intros Hm. apply Hnot. eauto.
      * intros [_ Hm]. split; [done|]. by intros (d & Hd & Hmd & [= ->]).
    + intros c. rewrite Hm1. apply decide_ext. rewrite Hin, bool_decide_eq_true. naive_solver.
    + intros k nm Hru. apply Hr2. split; [by apply Hr1'|]. intros (g & Hg & Hne & id & nm' & [= <-] & [= <- ->]).
      apply (Hnames (permKey p) k g.1 g.2); [|done|done]. split; [done|]. cbn. rewrite Hgs. apply list_elem_of_fmap. eauto.
    + intros k id nm [_ Hg] Hne. cbn in Hg. rewrite Hgs in Hg. apply list_elem_of_fmap in Hg as (g & [= -> ->] & Hg).
      intros [_ Hnot]%Hr2. apply Hnot. exists g. split; [done|]. split; [done|]. cbn. eauto.
Qed.

(** *** All permissions *)

(** What is known before the loop over [ingress]. *)
Record ready (own : string) (ingress : list IpPermission) st : Prop := {
  ready_namespace : awsNamespace st = n;
  ready_keys : NoDup (permKey <$> ingress);
  ready_ok : Forall permOk ingress;
  ready_separated : ∀ p, p ∈ ingress → permKey p ≠ allTraffic → permGroups p ≠ None → permRanges p = [];
  ready_names : ∀ p k k' id nm, p ∈ ingress → permAllows p (k, fromGroup id nm) → id ≠ own →
    ¬ rules st (k', fromGroup own nm);
  ready_rules : ∀ p k c, p ∈ ingress → permAllows p (k, fromRange c) → rules st (k, fromRange c)
}.

Record looped (own : string) (ingress : list IpPermission) (m m' : gmap string bool) st st' : Prop := {
  looped_same : same st st';
  looped_less : ∀ ru, rules st' ru → rules st ru;
  looped_left : ∀ p k c, p ∈ ingress → permAllows p (k, fromRange c) → rules st' (k, fromRange c) →
    k = allTraffic ∧ m !! c = Some true ∧ m' !! c = Some false;
  looped_found : ∀ c, m !! c = Some true →
    m' !! c = Some true ∨ m' !! c = Some false ∧ rules st' (allTraffic, fromRange c);
  looped_map : ∀ c, m !! c ≠ Some true → m' !! c = m !! c;
  looped_own : ∀ k nm, rules st (k, fromGroup own nm) → rules st' (k, fromGroup own nm);
  looped_foreign : ∀ p k id nm, p ∈ ingress → permAllows p (k, fromGroup id nm) → id ≠ own →
    ¬ rules st' (k, fromGroup id nm);
  looped_frame : ∀ k c, rules st (k, fromRange c) → (∀ p, p ∈ ingress → ¬ permAllows p (k, fromRange c)) →
    rules st' (k, fromRange c)
}.

Lemma ready_next own p ingress m m' kept st st' :
  ready own (p :: ingress) st → stepped own p m m' kept st st' → ready own ingress st'.
Proof.
  intros [Hn Hk Hok Hsep Hnm Hr] (Hs & Hless & Hframe & _). rewrite fmap_cons in Hk. apply NoDup_cons in Hk as [Hp Hk].
  apply Forall_cons in Hok as [_ Hok]. split.
  - by rewrite (stays_namespace _ _ (proj1 Hs)).
  - done.
  - done.
  - intros q Hq. apply Hsep. by right.
  - intros q k k' id nm Hq Ha Hne Hru%Hless. by apply (Hnm q k k' id nm); [right|..].
  - intros q k c Hq Ha. apply Hframe; [apply (Hr q); [by right|done]|]. intros [Hkey _]. apply Hp.
    destruct Ha as [Hkey' _]. cbn in Hkey, Hkey'. rewrite <- Hkey, Hkey'. by apply list_elem_of_fmap_2.
Qed.

Lemma looped_cons own p ingress m m1 m' kept st st1 st' :
  ready own (p :: ingress) st → stepped own p m m1 kept st st1 → looped own ingress m1 m' st1 st' →
  looped own (p :: ingress) m m' st st'.
Proof.
  intros [Hn Hk Hok Hsep Hnm Hr] (Hs & Hless & Hframe & Hkept & Hrange & Hm1 & Hown & Hforeign) [Ls Ll Lleft Lfound Lmap Lown Lfor Lframe].
  rewrite fmap_cons in Hk. apply NoDup_cons in Hk as [Hp Hk].
  assert (∀ c, m1 !! c = Some true → m !! c = Some true) as Hm1true.
  { intros c. rewrite Hm1. destruct (decide _); [by intros|done]. }
  split.
  - by etransitivity.
  - auto.
  - intros q k c [-> |Hq]%elem_of_cons Ha Hru.
    + assert (rules st (k, fromRange c)) as Hru0 by (apply (Hr p); [left|done]). destruct Ha as [Hkey Hc]. cbn in Hkey, Hc. subst k.
      apply Ll in Hru as Hru1. apply (Hrange c Hc Hru0) in Hru1 as [-> Hmc]. split; [by apply Hkept|]. split; [done|].
      assert (m1 !! c = Some false) as Hm1c by (rewrite Hm1; by rewrite decide_True). by rewrite Lmap; rewrite Hm1c.
    + destruct (Lleft q k c Hq Ha Hru) as (Hall & Ht & Hf). auto.
  - intros c Hmc. destruct (decide (m1 !! c = Some true)) as [Ht|Ht]; [by apply Lfound|]. right.
    rewrite Lmap by done. rewrite Hm1 in Ht |- *. case_decide as Hd; [|done]. split; [done|]. destruct Hd as (-> & Hc & _).
    specialize (Hkept eq_refl). rewrite <- Hkept. apply Lframe.
    + apply Hrange; [done| |done]. apply (Hr p); [left|done].
    + intros q Hq [Hkey _]. apply Hp. cbn in Hkey. rewrite Hkey. by apply list_elem_of_fmap_2.
  - intros c Hmc. rewrite Lmap by auto. rewrite Hm1. by rewrite decide_False by naive_solver.
  - auto.
  - intros q k id nm [-> |Hq]%elem_of_cons Ha Hne Hru; [by apply (Hforeign k id nm Ha Hne), Ll|by eapply Lfor].
  - intros k c Hru Hnot. apply Lframe; [apply Hframe; [done|apply Hnot; left]|]. intros q Hq. apply Hnot. by right.
Qed.

Lemma ingressLoop_run own perms i ingress m b st :
  ready own ingress st →
  runs (ingressLoop r (mkGroup (Some own) perms) i ingress m b) st (λ mb st', looped own ingress m mb.1 st st').
Proof.
  revert i m b st. induction ingress as [|p ingress IH]; intros i m b st Hready; unfold runs; cbn [ingressLoop].
  { eexists _, _. split; [done|]. split; try done; try (intros p; set_solver); auto. }
  destruct (permStep_run own perms i p m b st) as (o & st1 & Hrun & Ho).
  { apply Hready. } { apply (Forall_inv (ready_ok _ _ _ Hready)). } { apply Hready. left. }
  { intros k k' id nm. apply Hready. left. }
  unfold mbind at 1, M_bind at 1. rewrite Hrun. destruct o as [e|[m1 b1]]; [by eexists _, _|]. destruct Ho as [kept Hstep].
  destruct (IH (S i) m1 b1 st1) as (o & st' & Hrun' & Ho); [by eapply ready_next|].
  exists o, st'. split; [done|]. destruct o as [e|[m' b']]; [done|]. by eapply looped_cons.
Qed.

(** *** The group of a region *)

Lemma aclMap_lookup acls c : aclMap acls !! c = if decide (c ∈ acls) then Some true else None.
Proof.
  unfold aclMap. change (@None bool) with ((∅ : gmap string bool) !! c). generalize (∅ : gmap string bool).
  induction acls as [|d l IH]; intros m; [done|]. cbn [foldl]. rewrite IH. destruct (decide (c ∈ l)) as [Hc|Hc].
  - by rewrite decide_True by (by right).
  - destruct (decide (d = c)) as [-> |Hne]; [by rewrite lookup_insert_eq, decide_True by left|].
    rewrite lookup_insert_ne by done. by rewrite decide_False by set_solver.
Qed.

Lemma installPerms_run perms st :
  awsNamespace st = n →
  ∃ e st', eachOr (installPerm r) perms st = Ok (e, st') ∧
    (e = None → same st st' ∧
       ∀ ru, rules st' ru ↔ rules st ru ∨ ∃ c, (c, true) ∈ perms ∧ ru = (allTraffic, fromRange c)).
Proof.
  revert st. induction perms as [|[c install] perms IH]; intros st Hn.
  { eexists _, _. split; [done|]. intros _. split; [reflexivity|]. intros ru. split; [auto|].
    intros [?|(c & Hc & _)]; [done|by apply not_elem_of_nil in Hc]. }
  cbn [eachOr]. destruct install.
  - change (installPerm r (c, true)) with (authorize r (byRange c None None (Some "-1"%string))). unfold authorize, namespace, onEC2, mbind, M_bind, mret, M_ret. rewrite Hn.
    pose proof (authorize_range r n (awsWorld st) c) as Hlaw. cbn zeta in Hlaw.
    pose proof (calls_frame r n (awsWorld st) (AuthorizeSecurityGroupIngress r n (byRange c None None (Some "-1"%string)))) as Hframe.
    destruct (AuthorizeSecurityGroupIngress _ _ _ _) as [ok w1]. destruct ok; [|by eexists _, _].
    cbn [errorOf fst snd] in *. destruct (Hlaw eq_refl) as [Hg Ha].
    set (st1 := mkAws (awsSessions st) n w1 (awsLoops st)).
    destruct (IH st1) as (e & st' & Hrun & He); [done|]. exists e, st'. split; [done|]. intros ->.
    destruct (He eq_refl) as [Hs Hr]. split.
    + etransitivity; [|exact Hs]. split; [|done]. split; [done|done|]. intros r' n' Hne. apply Hframe; eauto.
    + intros ru. rewrite Hr. unfold st1 at 1. cbn [awsWorld]. rewrite Ha. cbn [covers]. split.
      * intros [[?| ->]|(d & Hd & ->)]; [by left|right; exists c; split; [left|done]|right; exists d; split; [by right|done]].
      * intros [?|(d & [[= ->]|Hd]%elem_of_cons & ->)]; [by left; left|by left; right|right; eauto].
  - destruct (IH st Hn) as (e & st' & Hrun & He). exists e, st'. split; [done|]. intros ->.
    destruct (He eq_refl) as [Hs Hr]. split; [done|]. intros ru. rewrite Hr. apply or_iff_compat_l. split.
    + intros (d & Hd & ->). exists d. split; [by right|done].
    + intros (d & [|Hd]%elem_of_cons & ->); [done|eauto].
Qed.

(** After the loop over the permissions: what is missing is in the map. *)
Record cleaned (acls : list string) (m : gmap string bool) st st' : Prop := {
  cleaned_stays : stays st st';
  cleaned_ranges : ∀ k c, rules st' (k, fromRange c) → k = allTraffic ∧ c ∈ acls;
  cleaned_missing : ∀ c, c ∈ acls → m !! c = Some true ∨ rules st' (allTraffic, fromRange c);
  cleaned_map : ∀ c, m !! c = Some true → c ∈ acls;
  cleaned_groups : ∀ k id nm, rules st' (k, fromGroup id nm) → groupOf (awsWorld st') r n = Some id;
  cleaned_own : keepsOwn (awsWorld st) (awsWorld st') r n
}.

Definition updated (acls : list string) st st' : Prop :=
  stays st st' ∧ exactly (awsWorld st') r n acls ∧ keepsOwn (awsWorld st) (awsWorld st') r n.

(** The end of [updateGroup]. *)
Definition finish (m : gmap string bool) (b : bool) : M Empty_set (awsCluster W) (option awsErr) :=
  _ ← (if b then (mret None : M _ _ (option awsErr)) else authorize r (byGroup (Some n)));
  perms ← rangeOf m;
  eachOr (installPerm r) perms.

Lemma finish_run acls m b st st1 :
  awsNamespace st = n → cleaned acls m st st1 →
  ∃ e st', finish m b st1 = Ok (e, st') ∧ (e = None → updated acls st st').
Proof.
  intros Hn Hc.
  assert (∃ e st2, (if b then (mret None : M _ _ (option awsErr)) else authorize r (byGroup (Some n))) st1 = Ok (e, st2) ∧
    cleaned acls m st st2) as (e0 & st2 & Hrun & Hc2).
  { destruct b; [by eexists _, _|]. pose proof (stays_namespace _ _ (cleaned_stays _ _ _ _ Hc)) as Hn1. rewrite Hn in Hn1.
    unfold authorize, namespace, onEC2, mbind, M_bind, mret, M_ret. rewrite Hn1.
    destruct (authorize_group r n (awsWorld st1)) as (Hg & Hmore & Hless).
    pose proof (calls_frame r n (awsWorld st1) (AuthorizeSecurityGroupIngress r n (byGroup (Some n)))) as Hframe.
    destruct (AuthorizeSecurityGroupIngress _ _ _ _) as [ok w']. eexists _, _. split; [done|]. cbn [snd] in *.
    destruct Hc as [Cs Cr Cmiss Cmap Cg Cown]. split; cbn [awsWorld].
    - etransitivity; [exact Cs|]. split; [done|done|]. intros r' n' Hne. apply Hframe; eauto.
    - intros k c [Hru|(id & nm & ? & _)]%Hless; [by apply (Cr k)|done].
    - intros c [?|?]%Cmiss; auto.
    - done.
    - intros k id nm [Hru|(id' & nm' & [= <- <-] & Hid)]%Hless; rewrite Hg; [by apply (Cg k id nm)|done].
    - intros k id nm Hid Hru. by apply Hmore, Cown. }
  unfold finish. unfold mbind at 1, M_bind at 1. rewrite Hrun. unfold mbind at 1, M_bind at 1, rangeOf at 1.
  set (st3 := mkAws _ _ _ _). destruct (installPerms_run (rangeOrder (awsLoops st2) m) st3) as (e & st' & Hrun' & He).
  { cbn. by rewrite (stays_namespace _ _ (cleaned_stays _ _ _ _ Hc2)). }
  exists e, st'. split; [done|]. intros ->. destruct (He eq_refl) as [[Hs Hg] Hr]. destruct Hc2 as [Cs Cr Cmiss Cmap Cg Cown].
  split_and!.
  - etransitivity; [exact Cs|]. etransitivity; [|exact Hs]. by split.
  - split.
    + intros k c. rewrite Hr. split.
      * intros [Hru|(d & Hd & [= -> ->])]; [by apply Cr|]. split; [done|]. apply Cmap. by apply elem_of_range in Hd.
      * intros [-> Hin]. destruct (Cmiss c Hin) as [Hm|Hru]; [|by left]. right. exists c. split; [|done]. by apply elem_of_range.
    + intros k id nm [Hru|(d & _ & ?)]%Hr; [|done]. rewrite Hg. by apply (Cg k id nm).
  - intros k id nm Hid Hru. apply Hr. left. by apply Cown.
Qed.

Lemma ready_described own perms st :
  awsNamespace st = n → groupOf (awsWorld st) r n = Some own → separated (awsWorld st) r n →
  NoDup (permKey <$> perms) → Forall permOk perms → (∀ ru, rules st ru ↔ ∃ p, p ∈ perms ∧ permAllows p ru) →
  ready own perms st.
Proof.
  intros Hn Hg Hsep Hnd Hok Hr. split; [done..| | |].
  - intros p Hp Hkey Hgroups. pose proof (proj1 (Forall_forall _ _) Hok p Hp) as [_ (cs & Hcs & _) Hne (gs & Hgs)].
    rewrite Hcs. destruct cs as [|c cs]; [done|]. exfalso. apply Hkey.
    destruct gs as [|g gs]; [destruct (permGroups p) as [[|]|]; done|]. apply (Hsep _ c g.1 g.2).
    + apply Hr. exists p. split; [done|]. split; [done|]. cbn. rewrite Hcs. left.
    + apply Hr. exists p. split; [done|]. split; [done|]. cbn. rewrite Hgs. left.
  - intros p k k' id nm Hp Ha Hne Hru. apply Hne. eapply (names_unique (awsWorld st) r n k k'); [|done]. apply Hr. eauto.
  - intros p k c Hp Ha. apply Hr. eauto.
Qed.

Lemma looped_cleaned own perms acls m st st' :
  groupOf (awsWorld st) r n = Some own → (∀ ru, rules st ru ↔ ∃ p, p ∈ perms ∧ permAllows p ru) →
  looped own perms (aclMap acls) m st st' → cleaned acls m st st'.
Proof.
  intros Hown Hr [Ls Ll Lleft Lfound Lmap Lown Lfor Lframe].
  assert (∀ c, aclMap acls !! c = Some true ↔ c ∈ acls) as Hacl.
  { intros c. rewrite aclMap_lookup. by destruct (decide (c ∈ acls)). }
  split.
  - apply Ls.
  - intros k c Hru. destruct (proj1 (Hr _) (Ll _ Hru)) as (p & Hp & Ha). destruct (Lleft p k c Hp Ha Hru) as (Hk & Hc & _).
    split; [done|]. by apply Hacl.
  - intros c Hc%Hacl. destruct (Lfound c Hc) as [?|[_ ?]]; auto.
  - intros c Hc. apply Hacl. apply dec_stable. intros Hne. rewrite Lmap in Hc by done. done.
  - intros k id nm Hru. destruct (proj1 (Hr _) (Ll _ Hru)) as (p & Hp & Ha). rewrite (proj2 Ls), Hown. f_equal.
    apply dec_stable. intros Hne. by apply (Lfor p k id nm Hp Ha) in Hru.
  - intros k id nm Hid Hru. assert (id = own) as -> by congruence. by apply Lown.
Qed.

Lemma updateGroup_run acls st :
  awsNamespace st = n → separated (awsWorld st) r n →
  ∃ e st', updateGroup acls r st = Ok (e, st') ∧ (e = None → updated acls st st').
Proof.
  intros Hn Hsep. unfold updateGroup. unfold mbind at 1, M_bind at 1, namespace at 1. rewrite Hn.
  unfold mbind at 1, M_bind at 1, onEC2 at 1. pose proof (describe_same r n (awsWorld st)) as Hsame.
  pose proof (describe_group r n (awsWorld st)) as Hdesc.
  destruct (DescribeSecurityGroups r n (awsWorld st)) as [resp w1]. cbn [fst snd] in *. set (st1 := mkAws _ _ w1 _).
  assert (same st st1) as Hs1.
  { split; [|apply Hsame]. split; [done|done|]. intros r' n' _. apply Hsame. }
  assert (∀ acls st', updated acls st1 st' → updated acls st st') as Hup.
  { intros acls' st' (U1 & U2 & U3). split_and!; [by etransitivity; [apply Hs1|]|done|].
    intros k id nm Hid Hru. apply U3; [by rewrite (proj2 Hs1)|]. by apply Hsame. }
  destruct resp as [gs|]; [|by eexists _, _]. specialize (Hdesc gs eq_refl).
  destruct (groupOf (awsWorld st) r n) as [own|] eqn:Hown.
  - destruct Hdesc as (perms & -> & Hnd & Hok & Hr). rewrite decide_False by (cbn; lia).
    assert (∀ ru, rules st1 ru ↔ ∃ p, p ∈ perms ∧ permAllows p ru) as Hr1.
    { intros ru. rewrite <- Hr. apply Hsame. }
    assert (groupOf (awsWorld st1) r n = Some own) as Hown1 by (by rewrite (proj2 Hs1)).
    destruct (ingressLoop_run own perms 0 perms (aclMap acls) false st1) as (o & st2 & Hrun & Ho).
    { apply ready_described; try done. intros k c id nm H1 H2. apply (Hsep k c id nm); by apply Hsame. }
    unfold mbind at 1, M_bind at 1. cbn [groupPermissions]. rewrite Hrun. destruct o as [e|[m b]]; [by eexists _, _|].
    destruct (finish_run acls m b st1 st2) as (e & st' & Hrun' & He); [done|by eapply looped_cleaned|].
    exists e, st'. split; [exact Hrun'|]. auto.
  - rewrite Hdesc, decide_False by (cbn; lia). unfold mbind at 1, M_bind at 1. unfold mbind at 1, M_bind at 1, onEC2 at 1.
    pose proof (create_group r n (awsWorld st1)) as Hnew. rewrite (proj2 Hs1) in Hnew.
    pose proof (calls_frame r n (awsWorld st1) (CreateSecurityGroup r n)) as Hframe.
    destruct (CreateSecurityGroup r n (awsWorld st1)) as [ok w2]. set (st2 := mkAws _ _ w2 _).
    destruct (finish_run acls (aclMap acls) false st1 st2) as (e & st' & Hrun' & He).
    { done. }
    { split.
      - split; [done|done|]. intros r' n' Hne. apply Hframe; auto.
      - intros k c Hru. by apply Hnew in Hru.
      - intros c Hc. left. rewrite aclMap_lookup. by rewrite decide_True.
      - intros c. rewrite aclMap_lookup. by destruct (decide (c ∈ acls)).
      - intros k id nm Hru. by apply Hnew in Hru.
      - intros k id nm Hid. by rewrite (proj2 Hs1), Hown in Hid. }
    exists e, st'. split; [exact Hrun'|]. auto.
Qed.

End Region.

Section Sessions.
Context {W : Type} `{GL : GroupLaws W} `{MapRange}.
Implicit Types st : awsCluster W.

Lemma updateGroups_run acls (sessions : list (string * unit)) n st :
  awsNamespace st = n → NoDup sessions.*1 → (∀ r, r ∈ sessions.*1 → separated (awsWorld st) r n) →
  ∃ e st', eachOr (λ s, updateGroup acls s.1) sessions st = Ok (e, st') ∧
    (e = None → ∀ r, r ∈ sessions.*1 →
       exactly (awsWorld st') r n acls ∧ keepsOwn (awsWorld st) (awsWorld st') r n) ∧
    (e = None → awsNamespace st' = n ∧ ∀ r, r ∉ sessions.*1 →
       groupOf (awsWorld st') r n = groupOf (awsWorld st) r n ∧
       ∀ ru, allows (awsWorld st') r n ru ↔ allows (awsWorld st) r n ru).
Proof.
  revert st. induction sessions as [|[r []] sessions IH]; intros st Hn Hnd Hsep.
  { eexists _, _. split; [done|]. split; [intros _ r Hr; by apply not_elem_of_nil in Hr|]. intros _. split; [done|]. by split. }
  rewrite fmap_cons in *. cbn [fst] in *. apply NoDup_cons in Hnd as [Hr Hnd]. cbn [eachOr fst].
  destruct (updateGroup_run r n acls st Hn) as (e & st1 & Hrun & He); [apply Hsep; left|].
  unfold mbind at 1, M_bind at 1. rewrite Hrun. destruct e as [e|]; [by eexists _, _|].
  destruct (He eq_refl) as ([Ss Sn So] & Hex & Hown).
  destruct (IH st1) as (e & st' & Hrun' & Hin & Hout); [congruence|done| |].
  { intros r' Hr' k c id nm H1 H2. destruct (So r' n) as [_ Ha]; [set_solver|]. apply Ha in H1, H2.
    eapply (Hsep r'); [by right|done..]. }
  exists e, st'. split; [done|]. split.
  - intros -> r' [-> |Hr']%elem_of_cons.
    + destruct (Hout eq_refl) as [_ Hsame]. destruct (Hsame r Hr) as [Hg Ha]. split.
      * destruct Hex as [H1 H2]. split; [intros k c; by rewrite Ha|]. intros k id nm Hru%Ha. rewrite Hg. eauto.
      * intros k id nm Hid Hru. apply Ha. by apply Hown.
    + destruct (Hin eq_refl r' Hr') as [H1 H2]. split; [done|]. intros k id nm Hid Hru.
      destruct (So r' n) as [Hg Ha]; [set_solver|]. apply H2; [congruence|]. by apply Ha.
  - intros ->. destruct (Hout eq_refl) as [Hn' Hsame]. split; [done|]. intros r' [Hne Hr']%not_elem_of_cons.
    destruct (Hsame r' Hr') as [Hg Ha], (So r' n) as [Hg' Ha']; [set_solver|]. split; [congruence|].
    intros ru. by rewrite Ha, Ha'.
Qed.


End Sessions.
