(* ===== verification/AwsProps.v ===== *)
(** * provider: what booting spot instances of Amazon achieves

    If EC2 keeps its promises [SpotLaws], [Boot] returns, and without an error only after
    it has made one request for each machine and has seen all of them listed. *)

From stdpp Require Import base gmap list strings.
From Stdlib Require Import ZArith Lia.
From S2P Require Import Prelude DbRows Db Provider CloudConfig AwsSpot.

Local Open Scope Z_scope.

(** ** What EC2 promises about spot requests *)

(** A request that was made: its region, its ID and what was asked for. *)
Abbreviation made := (string * string * spotRequest)%type.

Definition spotOk (s : ec2Spot) : Prop := spotRequestID s ≠ None ∧ spotState s ≠ None.
Definition instanceOk (i : ec2Instance) : Prop :=
  instID i ≠ None ∧ instState i ≠ None ∧ Forall (λ v, v ≠ None) (instDevices i).

(** Answers have their pointers, and a successful request makes as many spot requests as
    it asks for. *)
Class SpotLaws (W : Type) `{EC2 W} : Type := {
  (** All spot requests so far. *)
  requests : W → list made;
  request_made : ∀ r spec w spots, (RequestSpotInstances r spec w).1 = Some spots →
    ∃ ids, spotRequestID <$> spots = Some <$> ids ∧ Z.of_nat (length ids) = srCount spec ∧
      requests (RequestSpotInstances r spec w).2 = requests w ++ ((λ id, (r, id, spec)) <$> ids);
  describe_spots : ∀ r ids w, requests (DescribeSpotInstanceRequests r ids w).2 = requests w ∧
    ∀ spots, (DescribeSpotInstanceRequests r ids w).1 = Some spots → Forall spotOk spots;
  describe_instances : ∀ r ns w, requests (DescribeInstances r ns w).2 = requests w ∧
    ∀ res, (DescribeInstances r ns w).1 = Some res → Forall instanceOk (concat res);
  describe_volumes : ∀ r v w, requests (DescribeVolumes r v w).2 = requests w ∧
    ∀ vs, (DescribeVolumes r v w).1 = Some vs → Forall (λ size, size ≠ None) vs;
  others_made : ∀ w, (∀ r ns ids, requests (CreateTags r ns ids w).2 = requests w) ∧
    (∀ r ids, requests (CancelSpotInstanceRequests r ids w).2 = requests w) ∧
    (∀ seconds, requests (Sleep seconds w) = requests w)
}.

(** ** The requests of a boot set *)

(** What a request asks for. *)
Definition requestOf (q : made) : bootReq :=
  mkBootReq (srUserData q.2) (srType q.2) q.1.1 (srVolumeSize q.2).

Definition idOf (q : made) : awsID := mkAwsID q.1.2 q.1.1.

Definition expand (l : list (bootReq * Z)) : list bootReq :=
  concat ((λ e, replicate (Z.to_nat e.2) e.1) <$> l).

Lemma expand_perm l1 l2 : l1 ≡ₚ l2 → expand l1 ≡ₚ expand l2.
Proof.
  unfold expand. induction 1; rewrite ?fmap_cons; cbn [concat].
  - done.
  - by f_equiv.
  - by rewrite !(assoc (++)), (Permutation_app_comm (replicate _ y.1)).
  - by etransitivity.
Qed.

Definition positive (m : gmap bootReq Z) : Prop := ∀ br c, m !! br = Some c → 0 < c.

Lemma expand_insert m br :
  positive m →
  expand (map_to_list (<[br := default 0 (m !! br) + 1]> m)) ≡ₚ br :: expand (map_to_list m).
Proof.
  intros Hpos. destruct (m !! br) as [c|] eqn:Hm; cbn [default from_option id]; unfold id.
  - rewrite <- (expand_perm _ _ (map_to_list_delete m br c Hm)). rewrite <- (insert_delete_eq m br).
    rewrite (expand_perm _ _ (map_to_list_insert _ _ _ (lookup_delete_eq m br))). unfold expand. rewrite !fmap_cons.
    cbn [concat fst snd]. specialize (Hpos br c Hm).
    replace (Z.to_nat (c + 1)) with (S (Z.to_nat c)) by lia. done.
  - rewrite (expand_perm _ _ (map_to_list_insert _ _ _ Hm)). unfold expand. by rewrite fmap_cons.
Qed.

Lemma bootReqMap_expand bootSet :
  positive (bootReqMap bootSet) ∧ expand (map_to_list (bootReqMap bootSet)) ≡ₚ bootReqOf <$> bootSet.
Proof.
  unfold bootReqMap. rewrite <- (app_nil_r (bootReqOf <$> bootSet)) at 3.
  assert (∀ l m acc, positive m → expand (map_to_list m) ≡ₚ acc →
    positive (foldl (λ m br, <[br := default 0 (m !! br) + 1]> m) m l) ∧
    expand (map_to_list (foldl (λ m br, <[br := default 0 (m !! br) + 1]> m) m l)) ≡ₚ l ++ acc) as Hgen.
  { induction l as [|br l IH]; intros m acc Hpos Hexp; [done|]. cbn [foldl].
    destruct (IH (<[br := default 0 (m !! br) + 1]> m) (br :: acc)) as [H1 H2].
    - intros br' c. rewrite lookup_insert_Some. intros [[<- <-]|[_ Hc]]; [|by eapply Hpos].
      destruct (m !! br) as [c|] eqn:Hm; cbn [default from_option]; unfold id; [specialize (Hpos _ _ Hm)|]; lia.
    - rewrite expand_insert by done. by f_equiv.
    - split; [done|]. rewrite H2. by rewrite <- Permutation_middle. }
  apply Hgen; [|done]. intros br c. by rewrite lookup_empty.
Qed.

(** ** Running the code *)

Section Boot.
Context {W : Type} `{SL : SpotLaws W} `{MapRange} (ns : string).
Implicit Types st : awsCluster W.

Abbreviation A := (M Empty_set (awsCluster W)).

(** The namespace, and the requests made so far. *)
Definition logged (log : list made) st : Prop := awsNamespace st = ns ∧ requests (awsWorld st) = log.

(** The code returns and makes no request. *)
Definition quiet {R} (c : A R) (Q : R → Prop) : Prop := ∀ log, returns (logged log) c (λ a st, logged log st ∧ Q a).

Lemma quiet_ret {R} (a : R) (Q : R → Prop) : Q a → quiet (mret a) Q.
Proof. intros HQ log. by apply returns_ret. Qed.

Lemma quiet_bind {R T} (c : A R) (k : R → A T) (P : R → Prop) Q :
  quiet c P → (∀ a, P a → quiet (k a) Q) → quiet (c ≫= k) Q.
Proof.
  intros Hc Hk log. eapply returns_bind; [apply Hc|]. intros a st [Hst HP]. by apply Hk.
Qed.

Lemma quiet_weaken {R} (c : A R) (P Q : R → Prop) : quiet c P → (∀ a, P a → Q a) → quiet c Q.
Proof. intros Hc HPQ log. eapply returns_weaken; [apply Hc|done|]. intros a st [? ?]. auto. Qed.

Lemma quiet_onEC2 {R} (f : W → R * W) (Q : R → Prop) :
  (∀ w, requests (f w).2 = requests w ∧ Q (f w).1) → quiet (onEC2 f) Q.
Proof.
  intros Hf log st [Hns Hlog]. destruct (Hf (awsWorld st)) as [Hr HQ]. unfold onEC2.
  destruct (f (awsWorld st)) as [a w]. eexists _, _. split; [done|]. split; [|done]. split; [done|]. cbn in *. congruence.
Qed.

Lemma quiet_namespace : quiet namespace (λ n, n = ns).
Proof. intros log st Hst. eexists _, _. split; [done|]. split; [done|apply Hst]. Qed.

Lemma quiet_session r : quiet (getSession (W := W) r) (λ _, True).
Proof. intros log st Hst. by eexists _, _. Qed.

Lemma quiet_range {K V} `{Countable K} (m : gmap K V) : quiet (rangeOf m) (λ l, l ≡ₚ map_to_list m).
Proof. intros log st Hst. eexists _, _. split; [done|]. split; [done|]. apply rangeOrder_perm. Qed.

Lemma quiet_ptr {R} (p : option R) : p ≠ None → quiet (ptr p) (λ x, p = Some x).
Proof. intros Hp. destruct p as [x|]; [|done]. by apply quiet_ret. Qed.

Lemma quiet_sleep seconds : quiet (sleep seconds) (λ _, True).
Proof. apply quiet_onEC2. intros w. split; [apply others_made|done]. Qed.

Lemma quiet_collect {X R} (f : X → A (awsErr + list R)) l :
  (∀ x, x ∈ l → quiet (f x) (λ _, True)) → quiet (collectOr f l) (λ _, True).
Proof.
  induction l as [|x l IH]; intros Hf; [by apply quiet_ret|]. cbn [collectOr].
  eapply quiet_bind; [apply Hf; left|]. intros [e|rs] _; [by apply quiet_ret|].
  eapply quiet_bind; [apply IH; intros y Hy; apply Hf; by right|]. intros o _. by apply quiet_ret.
Qed.

Lemma quiet_each {X} (f : X → A (option awsErr)) l :
  (∀ x, x ∈ l → quiet (f x) (λ _, True)) → quiet (eachOr f l) (λ _, True).
Proof.
  induction l as [|x l IH]; intros Hf; [by apply quiet_ret|]. cbn [eachOr].
  eapply quiet_bind; [apply Hf; left|]. intros [e|] _; [by apply quiet_ret|]. apply IH. intros y Hy. apply Hf. by right.
Qed.

(** *** Get *)

Lemma quiet_instanceMap reservations :
  Forall instanceOk (concat reservations) →
  quiet (instanceMap reservations) (λ m, map_Forall (λ _ i, instanceOk i) m).
Proof.
  unfold instanceMap. generalize (concat reservations). intros l Hl.
  assert (map_Forall (λ (_ : string) i, instanceOk i) ∅) as Hm by apply map_Forall_empty. revert Hm.
  generalize (∅ : gmap string ec2Instance). induction Hl as [|i l Hi Hl IH]; intros m Hm; [by apply quiet_ret|].
  cbn [foldEach]. eapply quiet_bind; [|intros m' Hm'; by apply IH, Hm'].
  eapply quiet_bind; [apply quiet_ptr, Hi|]. intros id _. apply quiet_ret. by apply map_Forall_insert_2.
Qed.

Lemma quiet_diskSize r inst : instanceOk inst → quiet (diskSize (W := W) r inst) (λ _, True).
Proof.
  intros (_ & _ & Hd). unfold diskSize. destruct Hd as [|v l Hv _]; [by apply quiet_ret|].
  eapply quiet_bind; [by apply quiet_ptr|]. intros volume _.
  eapply (quiet_bind _ _ (λ o, ∀ vs, o = Some vs → Forall (λ size, size ≠ None) vs)).
  { apply quiet_onEC2. intros w. destruct (describe_volumes r volume w). auto. }
  intros [[|size [|]]|] Hvs; try by apply quiet_ret. specialize (Hvs _ eq_refl). apply Forall_cons in Hvs as [Hs _].
  eapply quiet_bind; [by apply quiet_ptr|]. intros z _. by apply quiet_ret.
Qed.

Lemma quiet_spotMachine r m s :
  map_Forall (λ _ i, instanceOk i) m → spotOk s → quiet (spotMachine (W := W) r m s) (λ _, True).
Proof.
  intros Hm [Hid Hstate]. unfold spotMachine. eapply quiet_bind; [by apply quiet_ptr|]. intros state _.
  case_decide; [by apply quiet_ret|]. destruct (spotInstance s ≫= (m !!.)) as [inst|] eqn:Hinst.
  - assert (instanceOk inst) as Hok.
    { destruct (spotInstance s) as [i|]; [|done]. by apply (Hm i inst Hinst). }
    eapply quiet_bind; [by apply quiet_ptr|]. intros id _. eapply quiet_bind; [apply quiet_ptr, Hok|]. intros ist _.
    case_decide; [by apply quiet_ret|]. eapply quiet_bind; [by apply quiet_diskSize|]. intros d _. by apply quiet_ret.
  - eapply quiet_bind; [apply quiet_namespace|]. intros n _. destruct (taggedWith _ _); [|by apply quiet_ret].
    eapply quiet_bind; [by apply quiet_ptr|]. intros id _. by apply quiet_ret.
Qed.

Lemma quiet_getRegion r : quiet (getRegion (W := W) r) (λ _, True).
Proof.
  unfold getRegion. eapply quiet_bind; [apply quiet_session|]. intros _ _.
  eapply (quiet_bind _ _ (λ o, ∀ spots, o = Some spots → Forall spotOk spots)).
  { apply quiet_onEC2. intros w. destruct (describe_spots r None w). auto. }
  intros [spots|] Hspots; [|by apply quiet_ret]. specialize (Hspots _ eq_refl).
  eapply quiet_bind; [apply quiet_namespace|]. intros n _.
  eapply (quiet_bind _ _ (λ o, ∀ res, o = Some res → Forall instanceOk (concat res))).
  { apply quiet_onEC2. intros w. destruct (describe_instances r n w). auto. }
  intros [res|] Hres; [|by apply quiet_ret]. specialize (Hres _ eq_refl).
  eapply quiet_bind; [by apply quiet_instanceMap|]. intros m Hm. apply quiet_collect.
  intros s Hs. apply quiet_spotMachine; [done|]. by eapply Forall_forall in Hspots.
Qed.

Lemma quiet_get : quiet (awsGet (W := W)) (λ _, True).
Proof.
  unfold awsGet. eapply quiet_bind; [apply quiet_range|]. intros regions _. apply quiet_collect. intros x _.
  apply quiet_getRegion.
Qed.

(** *** Waiting and tagging *)

(** [wait] without an error: the last listing had all the IDs, or none. *)
Definition sawAll (ids : list awsID) (boot : bool) (log : list made) st : Prop :=
  ∃ st1 machines, logged log st1 ∧ awsGet st1 = Ok (inr machines, st) ∧
    ∀ id, id ∈ ids → listed machines id = boot.

Lemma wait_run k ids boot log :
  returns (logged log) (waitLoop k ids boot) (λ e st, logged log st ∧ (e = None → sawAll ids boot log st)).
Proof.
  induction k as [|k IH]; [by apply returns_ret|]. intros st Hst. cbn [waitLoop].
  destruct (quiet_get log st Hst) as (o & st1 & Hget & Hst1 & _). unfold mbind at 1, M_bind at 1. rewrite Hget.
  assert (∃ e st', (_ ← sleep 2; waitLoop k ids boot) st1 = Ok (e, st') ∧
    logged log st' ∧ (e = None → sawAll ids boot log st')) as Hretry.
  { eapply returns_bind; [apply quiet_sleep| |done]. intros []. eapply returns_weaken; [apply IH|by intros ? [? _]|done]. }
  destruct o as [e|machines]; [done|]. destruct (forallb _ ids) eqn:Hall; [|done]. eexists _, _. split; [done|].
  split; [done|]. intros _. exists st, machines. split; [done|]. split; [done|]. intros id Hid.
  rewrite forallb_forall in Hall. by apply eqb_prop, Hall, list_elem_of_In.
Qed.

Lemma quiet_tagLoop k r ids : quiet (tagLoop (W := W) k r ids) (λ _, True).
Proof.
  induction k as [|k IH]; [by apply quiet_ret|]. cbn [tagLoop]. eapply quiet_bind; [apply quiet_namespace|]. intros n _.
  eapply (quiet_bind _ _ (λ _, True)); [apply quiet_onEC2; intros w; split; [apply others_made|done]|].
  intros [] _; [by apply quiet_ret|]. eapply quiet_bind; [apply quiet_sleep|]. by intros _ _.
Qed.

Lemma quiet_tagSpotRequests ids : quiet (tagSpotRequests (W := W) ids) (λ _, True).
Proof.
  unfold tagSpotRequests. eapply quiet_bind; [apply quiet_range|]. intros groups _. apply quiet_each. intros g _.
  unfold tagRegion. eapply quiet_bind; [apply quiet_session|]. intros _ _.
  eapply quiet_bind; [apply quiet_tagLoop|]. intros [] _; [by apply quiet_ret|].
  eapply (quiet_bind _ _ (λ _, True)); [apply quiet_onEC2; intros w; split; [apply others_made|done]|].
  intros _ _. by apply quiet_ret.
Qed.

(** *** Requests *)

(** What a boot asks for, apart from the machine. *)
Definition bootSpec (q : made) : Prop :=
  srGroups q.2 = [ns] ∧ srPrice q.2 = spotPrice ∧ srImage q.2 = default ""%string (amis !! q.1.1).

(** The requests [new] were made and are those of the list. *)
Definition madeFor (log : list made) (reqs : list (bootReq * Z)) (ids : list awsID) st : Prop :=
  ∃ new, logged (log ++ new) st ∧ ids = idOf <$> new ∧ requestOf <$> new = expand reqs ∧ Forall bootSpec new.

Lemma mapEach_ptr {X R} (f : X → option R) (l : list X) (ids : list R) st :
  f <$> l = Some <$> ids → mapEach (λ x, ptr (W := W) (f x)) l st = Ok (ids, st).
Proof.
  revert ids. induction l as [|x l IH]; intros [|i ids]; try done. cbn [fmap list_fmap mapEach]. intros [= Hx Hl].
  unfold mbind, M_bind. rewrite Hx. cbn. by rewrite (IH ids Hl).
Qed.

Lemma requestSpots_run r log :
  0 ≤ r.2 → returns (logged log) (requestSpots (W := W) r) (λ o st,
    match o with inl _ => True | inr ids => madeFor log [r] ids st end).
Proof.
  destruct r as [br c]. cbn [snd]. intros Hc st [Hns Hlog].
  unfold requestSpots, getSession, namespace, onEC2. unfold mbind at 1 2 3, M_bind at 1 2 3. cbn [fst snd awsNamespace awsWorld awsSessions awsLoops].
  rewrite Hns. pose proof (request_made (brRegion br) (launchSpec ns br c) (awsWorld st)) as Hmade.
  destruct (RequestSpotInstances _ _ _) as [[spots|] w]; [|by eexists _, _]. cbn [fst snd] in Hmade.
  destruct (Hmade spots eq_refl) as (ids & Hids & Hlen & Hreq). cbn [srCount launchSpec] in Hlen.
  unfold mbind at 1, M_bind at 1. rewrite (mapEach_ptr spotRequestID spots ids) by done. eexists _, _. split; [done|].
  exists ((λ id, (brRegion br, id, launchSpec ns br c)) <$> ids). split_and!.
  - split; [done|]. cbn. congruence.
  - rewrite <- list_fmap_compose. apply list_fmap_ext. by intros i id Hid.
  - unfold expand. cbn [fmap list_fmap concat fst snd]. rewrite app_nil_r, <- list_fmap_compose.
    replace (Z.to_nat c) with (length ids) by lia. clear. induction ids as [|id ids IH]; [done|].
    cbn [fmap list_fmap length replicate]. f_equal; [by destruct br|exact IH].
  - apply Forall_fmap, Forall_true. by intros id.
Qed.

Lemma requestAll_run reqs log :
  Forall (λ r, 0 ≤ r.2) reqs →
  returns (logged log) (collectOr (requestSpots (W := W)) reqs) (λ o st,
    match o with inl _ => True | inr ids => madeFor log reqs ids st end).
Proof.
  intros Hreqs. revert log. induction Hreqs as [|r reqs Hr Hreqs IH]; intros log.
  { apply returns_ret. intros st Hst. exists []. rewrite app_nil_r. by split_and!. }
  cbn [collectOr]. eapply returns_bind; [by apply requestSpots_run|]. intros [e|ids]; [by apply returns_ret|].
  intros st (new & Hst & -> & Hreq & Hspec). destruct (IH _ st Hst) as (o & st' & Hrun & Ho).
  unfold mbind, M_bind. rewrite Hrun. destruct o as [e|ids]; eexists _, _; (split; [done|]); [done|].
  destruct Ho as (new' & Hst' & -> & Hreq' & Hspec'). exists (new ++ new'). rewrite (assoc (++)), !fmap_app, Hreq, Hreq'.
  split_and!; [done|done| |by apply Forall_app]. unfold expand. cbn [fmap list_fmap concat]. by rewrite app_nil_r.
Qed.

(** C14: [Boot] of the Amazon back end returns, and if it reports no error it has made one
    spot request for each machine, with the boot script for the keys of the machine,
    its size, its region and its disk, in the security group of the namespace;
    and the last listing of the machines had all of them. *)
Theorem awsBoot_requests bootSet st log :
  awsNamespace st = ns → requests (awsWorld st) = log →
  ∃ e st', awsBoot bootSet st = Ok (e, st') ∧
    (e = None → bootSet ≠ [] → ∃ new, requests (awsWorld st') = log ++ new ∧
       requestOf <$> new ≡ₚ bootReqOf <$> bootSet ∧ Forall bootSpec new ∧
       sawAll (idOf <$> new) true (log ++ new) st').
Proof.
  intros Hns Hlog. unfold awsBoot. case_decide; [by eexists _, _|].
  destruct (quiet_range (bootReqMap bootSet) log st) as (reqs & st1 & Hrun1 & Hst1 & Hperm); [done|].
  unfold mbind at 1, M_bind at 1. rewrite Hrun1. destruct (bootReqMap_expand bootSet) as [Hpos Hexp].
  destruct (requestAll_run reqs log) with (s := st1) as (o & st2 & Hrun2 & Ho).
  { rewrite Hperm. apply Forall_forall. intros [br c] Hin%elem_of_map_to_list. apply Hpos in Hin. cbn. lia. }
  { done. }
  unfold mbind at 1, M_bind at 1. rewrite Hrun2. destruct o as [e|ids]; [by eexists _, _|].
  destruct Ho as (new & Hst2 & -> & Hreq & Hspec).
  destruct (quiet_tagSpotRequests (idOf <$> new) _ st2 Hst2) as (o & st3 & Hrun3 & Hst3 & _).
  unfold mbind at 1, M_bind at 1. rewrite Hrun3. destruct o as [e|]; [by eexists _, _|].
  destruct (wait_run 100 (idOf <$> new) true (log ++ new) st3 Hst3) as (e & st' & Hrun & Hst' & Hsaw).
  exists e, st'. split; [done|]. intros He _. exists new. split_and!; [apply Hst'| |done|auto].
  rewrite Hreq, (expand_perm _ _ Hperm). done.
Qed.

End Boot.
