(* ===== verification/AwsMemory.v ===== *)
(** * provider: an EC2 in memory

    A small EC2 that keeps the promises of [GroupLaws] and [SpotLaws]: spot requests stay
    open, groups are sets of rules and are their own IDs. It shows that the promises can
    be kept, and the theorems about the back end are applied to it. *)

From stdpp Require Import base gmap list strings pretty.
From Stdlib Require Import ZArith Lia.
From S2P Require Import Prelude Provider CloudConfig AwsSpot AwsAcl AwsAclProps AwsProps.

Local Open Scope Z_scope.

(** A rule of a group: protocol and ports, and a range or a group. *)
Abbreviation memKey := (string * option Z * option Z)%type.
Abbreviation memRule := (memKey * (string + string))%type.

Record memEC2 : Type := mkMem {
  memGroups : gmap (string * string) (gset memRule);
  memRequests : list made;
  memTags : list (string * string * string)
}.

(** ** Spot requests *)

Definition memSpot (w : memEC2) (q : made) : ec2Spot :=
  mkSpot (Some q.1.2) (Some "open"%string) None
    ((λ t, Some (mkTag (Some t.2) (Some ""%string))) <$> base.filter (λ t, t.1 = q.1) (memTags w)).

Definition memRequest (r : string) (spec : spotRequest) (w : memEC2) : option (list ec2Spot) * memEC2 :=
  if decide (srCount spec < 0) then (None, w)
  else
    let ids := (λ k : nat, ("sir-" ++ pretty k)%string) <$> seq (length (memRequests w)) (Z.to_nat (srCount spec)) in
    let new := (λ id, (r, id, spec)) <$> ids in
    (Some (memSpot w <$> new), mkMem (memGroups w) (memRequests w ++ new) (memTags w)).

Definition memDescribe (r : string) (w : memEC2) : list ec2Spot :=
  memSpot w <$> base.filter (λ q, q.1.1 = r) (memRequests w).

(** ** Groups *)

Definition storedKey (k : memKey) : ruleKey := (Some k.1.1, k.1.2, k.2).

Definition rangesOf (rs : gset memRule) (k : memKey) : list string :=
  elements (set_omap (λ ru : memRule, match ru with (k', inl c) => if decide (k' = k) then Some c else None | _ => None end) rs : gset string).
Definition groupsOf (rs : gset memRule) (k : memKey) : list string :=
  elements (set_omap (λ ru : memRule, match ru with (k', inr g) => if decide (k' = k) then Some g else None | _ => None end) rs : gset string).

Definition memPermission (rs : gset memRule) (k : memKey) : IpPermission :=
  mkPermission k.1.2 k.2 (Some k.1.1) (mkSlice ((λ g, mkPair (Some g) (Some g)) <$> groupsOf rs k)) (Some <$> rangesOf rs k).

Definition memPermissions (rs : gset memRule) : list IpPermission :=
  memPermission rs <$> elements (set_map fst rs : gset memKey).

Definition ruleOf (ru : memRule) : allowed :=
  (storedKey ru.1, match ru.2 with inl c => fromRange c | inr g => fromGroup g g end).

#[global] Instance permission_eq_dec : EqDecision groupPair.
Proof. solve_decision. Defined.

#[global] Instance ingressSource_eq_dec : EqDecision ingressSource.
Proof. solve_decision. Defined.

#[global] Instance covers_dec rule ru : Decision (covers rule ru).
Proof.
  destruct rule as [p|c f t proto|name]; [|unfold covers; apply _|].
  - unfold covers, permAllows. destruct ru as [k [c|id nm]]; apply _.
  - cbn [covers]. destruct ru as [k [c|id nm]]; [right; by intros (? & ? & _ & ?)|].
    destruct (decide (name = Some nm)) as [-> |Hne]; [left; eauto|right]. intros (id' & nm' & -> & Heq).
    by injection Heq as -> ->.
Defined.

Definition onGroup (r n : string) (f : gset memRule → gset memRule) (w : memEC2) : bool * memEC2 :=
  match memGroups w !! (r, n) with
  | None => (false, w)
  | Some rs => (true, mkMem (<[(r, n) := f rs]> (memGroups w)) (memRequests w) (memTags w))
  end.

Definition memRevoke (r n : string) (rule : ingressRule) : memEC2 → bool * memEC2 :=
  onGroup r n (base.filter (λ ru, ¬ covers rule (ruleOf ru))).

Definition memAuthorize (r n : string) (rule : ingressRule) (w : memEC2) : bool * memEC2 :=
  match rule with
  | byRange c f t (Some proto) => onGroup r n (λ rs, {[((proto, f, t), inl c)]} ∪ rs) w
  | byGroup (Some g) => if decide (g = n) then onGroup r n (λ rs, {[(("tcp"%string, Some 0, Some 65535), inr g)]} ∪ rs) w else (false, w)
  | _ => (false, w)
  end.

Definition memCreate (r n : string) (w : memEC2) : bool * memEC2 :=
  match memGroups w !! (r, n) with
  | Some _ => (false, w)
  | None => (true, mkMem (<[(r, n) := ∅]> (memGroups w)) (memRequests w) (memTags w))
  end.

#[global] Instance memoryEC2 : EC2 memEC2 := {|
  RequestSpotInstances := memRequest;
  DescribeSpotInstanceRequests r ids w := (Some (memDescribe r w), w);
  DescribeInstances r ns w := (Some [], w);
  DescribeVolumes r v w := (Some [], w);
  TerminateInstances r ids w := (true, w);
  CancelSpotInstanceRequests r ids w := (true, w);
  CreateTags r ns ids w := (true, mkMem (memGroups w) (memRequests w) (((λ id, (r, id, ns)) <$> ids) ++ memTags w));
  DescribeSecurityGroups r n w :=
    (Some match memGroups w !! (r, n) with Some rs => [mkGroup (Some n) (memPermissions rs)] | None => [] end, w);
  CreateSecurityGroup := memCreate;
  RevokeSecurityGroupIngress := memRevoke;
  AuthorizeSecurityGroupIngress := memAuthorize;
  Sleep seconds w := w
|}.

(** ** It keeps the promises *)

#[global] Program Instance memorySpots : SpotLaws memEC2 := {| requests := memRequests |}.
Next Obligation.
  intros r spec w spots. cbn. unfold memRequest. case_decide; [done|]. intros [= <-]. cbn.
  exists ((λ k : nat, ("sir-" ++ pretty k)%string) <$> seq (length (memRequests w)) (Z.to_nat (srCount spec))). split_and!.
  - rewrite <- !list_fmap_compose. by apply list_fmap_ext.
  - rewrite length_fmap, length_seq. lia.
  - done.
Qed.
Next Obligation.
  intros r ids w. split; [done|]. intros spots [= <-]. apply Forall_fmap, Forall_true. by intros q.
Qed.
Next Obligation. intros r ns w. split; [done|]. by intros res [= <-]. Qed.
Next Obligation. intros r v w. split; [done|]. by intros vs [= <-]. Qed.
Next Obligation. done. Qed.

Lemma elem_of_rangesOf rs k c : c ∈ rangesOf rs k ↔ (k, inl c) ∈ rs.
Proof.
  unfold rangesOf. rewrite elem_of_elements, elem_of_set_omap. split.
  - intros ([k' [d|g]] & Hin & Heq); [|done]. case_decide; [|done]. by simplify_eq.
  - intros Hin. exists (k, inl c). split; [done|]. by rewrite decide_True.
Qed.

Lemma elem_of_groupsOf rs k g : g ∈ groupsOf rs k ↔ (k, inr g) ∈ rs.
Proof.
  unfold groupsOf. rewrite elem_of_elements, elem_of_set_omap. split.
  - intros ([k' [d|h]] & Hin & Heq); [done|]. case_decide; [|done]. by simplify_eq.
  - intros Hin. exists (k, inr g). split; [done|]. by rewrite decide_True.
Qed.

Lemma storedKey_inj k1 k2 : storedKey k1 = storedKey k2 → k1 = k2.
Proof. destruct k1 as [[??]?], k2 as [[??]?]. by intros [= -> -> ->]. Qed.

Lemma memPermission_ok rs k : permOk (memPermission rs k).
Proof.
  split; cbn [memPermission permProtocol permRanges permGroups].
  - done.
  - exists (rangesOf rs k). split; [done|]. apply NoDup_elements.
  - by destruct (groupsOf rs k).
  - exists ((λ g, (g, g)) <$> groupsOf rs k). rewrite elems_mkSlice, <- list_fmap_compose. by apply list_fmap_ext.
Qed.

Lemma memPermissions_allow rs ru :
  (∃ p, p ∈ memPermissions rs ∧ permAllows p ru) ↔ ∃ s, s ∈ rs ∧ ru = ruleOf s.
Proof.
  unfold memPermissions. setoid_rewrite list_elem_of_fmap. setoid_rewrite elem_of_elements. setoid_rewrite elem_of_map. split.
  - intros (p & (k & -> & (s0 & -> & Hs0)) & Hkey & Hsrc). destruct ru as [k' [c|id nm]]; cbn [fst snd memPermission permRanges permGroups] in Hkey, Hsrc; subst.
    + apply list_elem_of_fmap in Hsrc as (d & [= <-] & Hd%elem_of_rangesOf). by exists (s0.1, inl c).
    + rewrite elems_mkSlice in Hsrc. apply list_elem_of_fmap in Hsrc as (g & [= -> ->] & Hg%elem_of_groupsOf).
      by exists (s0.1, inr g).
  - intros ([k s] & Hs & ->). exists (memPermission rs k). split; [exists k; split; [done|]; exists (k, s); done|].
    split; [done|]. destruct s as [c|g]; cbn [ruleOf fst snd memPermission permRanges permGroups].
    + apply list_elem_of_fmap_2. by apply elem_of_rangesOf.
    + rewrite elems_mkSlice. apply list_elem_of_fmap. exists g. split; [done|]. by apply elem_of_groupsOf.
Qed.

Definition memAllows (w : memEC2) (r n : string) (ru : allowed) : Prop :=
  ∃ rs s, memGroups w !! (r, n) = Some rs ∧ s ∈ rs ∧ ru = ruleOf s.

Definition memGroupOf (w : memEC2) (r n : string) : option string := (λ _, n) <$> memGroups w !! (r, n).

Lemma onGroup_frame r n f w r' n' :
  (r', n') ≠ (r, n) → memGroups (onGroup r n f w).2 !! (r', n') = memGroups w !! (r', n').
Proof. intros Hne. unfold onGroup. destruct (memGroups w !! (r, n)); [|done]. by apply lookup_insert_ne. Qed.

Lemma memAuthorize_frame r n rule w r' n' :
  (r', n') ≠ (r, n) → memGroups (memAuthorize r n rule w).2 !! (r', n') = memGroups w !! (r', n').
Proof.
  intros Hne. destruct rule as [p|c f t [proto|]|[g|]]; cbn; try done; [by apply onGroup_frame|].
  case_decide; [by apply onGroup_frame|done].
Qed.

Lemma memCreate_frame r n w r' n' :
  (r', n') ≠ (r, n) → memGroups (memCreate r n w).2 !! (r', n') = memGroups w !! (r', n').
Proof. intros Hne. unfold memCreate. destruct (memGroups w !! (r, n)); [done|]. by apply lookup_insert_ne. Qed.

(** A group whose rules were changed by [f]. *)
Lemma onGroup_allows r n f w :
  memGroupOf (onGroup r n f w).2 r n = memGroupOf w r n ∧
  ∀ ru, memAllows (onGroup r n f w).2 r n ru ↔
    ∃ rs s, memGroups w !! (r, n) = Some rs ∧ s ∈ f rs ∧ ru = ruleOf s.
Proof.
  unfold memGroupOf, memAllows, onGroup. destruct (memGroups w !! (r, n)) as [rs|] eqn:Hrs; cbn [snd memGroups].
  - rewrite lookup_insert_eq. split; [done|]. intros ru. naive_solver.
  - rewrite Hrs. split; [done|]. intros ru. naive_solver.
Qed.

#[global] Program Instance memoryGroups : GroupLaws memEC2 := {| groupOf := memGroupOf; allows := memAllows |}.
Next Obligation. done. Qed.
Next Obligation.
  intros r n w gs [= <-]. unfold memGroupOf, memAllows. destruct (memGroups w !! (r, n)) as [rs|]; [|done]. cbn.
  exists (memPermissions rs). split_and!.
  - done.
  - unfold memPermissions. rewrite <- list_fmap_compose. apply NoDup_fmap_2_strong; [|apply NoDup_elements].
    intros k1 k2 _ _. apply (storedKey_inj k1 k2).
  - apply Forall_fmap, Forall_true. intros k. apply memPermission_ok.
  - intros ru. rewrite memPermissions_allow. naive_solver.
Qed.
Next Obligation.
  intros r n w f r' n' Hne Hf. unfold memGroupOf, memAllows.
  assert (memGroups (f w).2 !! (r', n') = memGroups w !! (r', n')) as ->; [|done].
  destruct Hf as [-> |[[rule ->]|[rule ->]]]; [by apply memCreate_frame|by apply onGroup_frame|by apply memAuthorize_frame].
Qed.
Next Obligation.
  intros r n w ru Hnone (rs & s & Hrs & Hs & _). unfold memGroupOf in Hnone. cbn in Hrs. unfold memCreate in Hrs.
  destruct (memGroups w !! (r, n)) eqn:Hg; [done|]. cbn in Hrs. rewrite lookup_insert_eq in Hrs. set_solver.
Qed.
Next Obligation.
  intros r n w rule _. destruct (onGroup_allows r n (base.filter (λ ru, ¬ covers rule (ruleOf ru))) w) as [Hg Ha].
  split; [exact Hg|]. intros ru. rewrite Ha. unfold memAllows. setoid_rewrite elem_of_filter. naive_solver.
Qed.
Next Obligation.
  intros r n w c rule Hok. destruct (onGroup_allows r n (λ rs, {[(("-1"%string, None, None), inl c)]} ∪ rs) w) as [Hg Ha].
  split; [exact Hg|]. intros ru. etransitivity; [apply Ha|]. unfold memAllows. setoid_rewrite elem_of_union. setoid_rewrite elem_of_singleton.
  assert (∃ rs, memGroups w !! (r, n) = Some rs) as [rs Hrs].
  { cbn in Hok. unfold onGroup in Hok. destruct (memGroups w !! (r, n)); [eauto|done]. }
  cbn [covers]. split; [intros (rs' & s & H1 & [-> |H2] & ->); [by right|left; eauto]|].
  intros [(rs' & s & H1 & H2 & ->)| ->]; [eauto 6|]. exists rs. eexists. split; [done|]. split; [by left|done].
Qed.
Next Obligation.
  intros r n w. cbn. rewrite decide_True by done.
  destruct (onGroup_allows r n (λ rs, {[(("tcp"%string, Some 0, Some 65535), inr n)]} ∪ rs) w) as [Hg Ha].
  split; [exact Hg|]. split.
  - intros ru (rs & s & H1 & H2 & ->). apply Ha. exists rs, s. split_and!; [done|set_solver|done].
  - intros ru (rs & s & H1 & [->%elem_of_singleton|H2]%elem_of_union & ->)%Ha.
    + right. exists n, n. split; [done|]. unfold memGroupOf. by rewrite H1.
    + left. by exists rs, s.
Qed.
Next Obligation.
  intros w r n k1 k2 id1 id2 nm (rs1 & [? [?|g1]] & _ & _ & [= -> -> ->]) (rs2 & [? [?|g2]] & _ & _ & [= -> -> ->]). done.
Qed.

(** ** The theorems, applied *)

Definition demoRules : gset memRule :=
  {[ (("-1"%string, None, None), inl "10.0.0.0/8"%string); (("-1"%string, None, None), inl "1.2.3.4/32"%string);
     (("tcp"%string, Some 22, Some 22), inl "0.0.0.0/0"%string); (("tcp"%string, Some 0, Some 65535), inr "other"%string) ]}.

Definition demoAws : awsCluster memEC2 :=
  mkAws {["us-west-1"; "us-west-2"]}%string "ns" (mkMem {[("us-west-1", "ns")%string := demoRules]} [] []) 0.


Definition demoBoot : list CloudMachine :=
  [mkCloud "" "" "" "m3.medium" 32 (Some ["key"]) "AmazonSpot" "us-west-1";
   mkCloud "" "" "" "m3.medium" 32 (Some ["key"]) "AmazonSpot" "us-west-1";
   mkCloud "" "" "" "m3.large" 64 None "AmazonSpot" "us-west-2"]%string.

Lemma awsBoot_requests_witness :
  ∃ st' new, awsBoot (W := memEC2) (H0 := mapToListRange) demoBoot demoAws = Ok (None, st') ∧
    length new = 3%nat ∧ memRequests (awsWorld st') = new ∧ requestOf <$> new ≡ₚ bootReqOf <$> demoBoot ∧
    sawAll (W := memEC2) (H0 := mapToListRange) "ns" (idOf <$> new) true new st'.
Proof.
  destruct (awsBoot_requests (W := memEC2) (H0 := mapToListRange) "ns" demoBoot demoAws [])
    as (e & st' & Hrun & Hnew); [done|done|].
  assert (e = None) as ->.
  { apply (f_equal (λ o, match o with Ok (e, _) => bool_decide (is_Some e) | _ => true end)) in Hrun.
    vm_compute in Hrun. by destruct e. }
  destruct Hnew as (new & Hreq & Hperm & _ & Hsaw); [done|done|]. exists st', new. split; [exact Hrun|].
  split; [apply Permutation_length in Hperm; rewrite !length_fmap in Hperm; exact Hperm|].
  split; [exact Hreq|]. split; [exact Hperm|exact Hsaw].
Defined.
