(* ===== verification/Gce.v ===== *)
(** * provider: machines of Google

    Model of [src/provider/gce.go]. The compute service is the class [GCE] over an abstract
    state of the project; an error of a call is [None] or [false]. Loops that wait take
    fuel. *)

From stdpp Require Import base gmap list strings.
From Stdlib Require Import ZArith Lia.
From S2P Require Import Prelude DbRows Db Provider CloudConfig AwsAcl.

Local Open Scope Z_scope.

(** ** Data *)

Local Open Scope string_scope.

Definition computeBaseURL : string := "https://www.googleapis.com/compute/v1/projects".
Definition supportedZones : list string := ["us-central1-a"; "us-east1-b"].

(** What [Start] sets the fields of a cluster to. *)
Definition projID : string := "declarative-infrastructure".
Definition imgURL : string := computeBaseURL ++ "/" ++ "ubuntu-os-cloud/global/images/ubuntu-1510-wily-v20160310".
Definition baseURL : string := computeBaseURL ++ "/" ++ projID.
Definition ipv4Range : string := "192.168.0.0/16".
Definition intFW (ns : string) : string := ns ++ "-internal".
Definition extFW (ns : string) : string := ns ++ "-external".
Definition networkURL (ns : string) : string := baseURL ++ "/global/networks/" ++ ns.

Local Close Scope string_scope.

(** [compute.Instance] as it is listed: its interfaces, each with its address and the
    addresses of its access configurations. *)
Record gceInstance : Type := mkGceInstance {
  giName : string;
  giMachineType : string;
  giInterfaces : list (string * list string)
}.

(** The fields of a new [compute.Instance] that are not constant. *)
Record newInstance : Type := mkNewInstance {
  niName : string;
  niDescription : string;
  niMachineType : string;
  niSourceImage : string;
  niNetwork : string;
  niStartupScript : string
}.

Record operation : Type := mkOperation { opZone : string; opName : string }.

(** [compute.Firewall]; a nil slice of [SourceRanges] is not the empty one. *)
Record firewall : Type := mkFirewall {
  fwName : string;
  fwNetwork : string;
  fwAllowed : list (string * list string);
  fwSourceRanges : slice string
}.

Record network : Type := mkNetwork { nwName : string; nwRange : string }.

Inductive opDomain : Type := local | global.

(** The service, the clock and the random identifiers. *)
Class GCE (W : Type) : Type := {
  Initialize : W → bool * W;
  InstancesList : string → string → string → W → option (list gceInstance) * W;
  InstancesInsert : string → string → newInstance → W → option operation * W;
  InstancesDelete : string → string → string → W → option operation * W;
  ZoneOperationsGet : string → string → string → W → option string * W;
  GlobalOperationsGet : string → string → W → option string * W;
  FirewallsList : string → W → option (list firewall) * W;
  FirewallsInsert : string → firewall → W → option operation * W;
  FirewallsPatch : string → string → firewall → W → option operation * W;
  NetworksList : string → W → option (list network) * W;
  NetworksInsert : string → network → W → option operation * W;
  NewV4 : W → string * W;
  (** Seconds, and the wait for the next tick of three seconds. *)
  Now : W → Z;
  NextTick : W → W;
  (** The wait for a tick or a deadline; [true] is the tick. *)
  SelectTick : Z → W → bool * W
}.

Inductive gceErr : Type := errGCE | errGceTimeout.

(** [gceCluster]: its namespace and the service. *)
Record gce (W : Type) : Type := mkGce { gceNS : string; gceWorld : W }.
Arguments mkGce {W} _ _.
Arguments gceNS {W} _.
Arguments gceWorld {W} _.

Section Gce.
Context {W : Type} `{GCE W}.

Abbreviation G := (M Empty_set (gce W)).

Definition onGCE {R} (f : W → R * W) : G R := λ st,
  let '(r, w) := f (gceWorld st) in Ok (r, mkGce (gceNS st) w).

Definition namespaceG : G string := λ st, Ok (gceNS st, st).

(** [l[0]]. *)
Definition first {R} (l : list R) : G R :=
  match l with x :: _ => mret x | [] => panic "index out of range" end.

(** ** Get *)

Definition lastPart (url : string) : string := default ""%string (last (splitOn (Ascii.ascii_of_nat 47) url)).

Definition gceMachine (zone : string) (item : gceInstance) : G CloudMachine :=
  nic ← first (giInterfaces item);
  natIP ← first nic.2;
  mret (mkCloud (giName item) natIP nic.1 (lastPart (giMachineType item)) 0 None "Google" zone).

Definition getZone (zone : string) : G (gceErr + list CloudMachine) :=
  ns ← namespaceG;
  items ← onGCE (InstancesList projID zone ("description eq " ++ ns)%string);
  match items with
  | None => mret (inl errGCE)
  | Some items => ms ← mapEach (gceMachine zone) items; mret (inr ms)
  end.

Fixpoint getZones (zones : list string) : G (gceErr + list CloudMachine) :=
  match zones with
  | [] => mret (inr [])
  | zone :: rest =>
      z ← getZone zone;
      match z with
      | inl e => mret (inl e)
      | inr ms =>
          r ← getZones rest;
          mret match r with inl e => inl e | inr ms' => inr (ms ++ ms') end
      end
  end.

Definition gceGet : G (gceErr + list CloudMachine) := getZones supportedZones.

(** ** Waiting *)

(** The inner loop of [wait]: the names that are left. *)
Fixpoint drainNames (fuel : nat) (names : list string) (live : bool) : G (gceErr + list string) :=
  match names with
  | [] => mret (inr [])
  | name :: rest =>
      match fuel with
      | O => outOfFuel
      | S fuel' =>
          instances ← gceGet;
          match instances with
          | inl e => mret (inl e)
          | inr instances =>
              let exists_ := existsb (λ ist, bool_decide (name = cmID ist)) instances in
              drainNames fuel' (if eqb live exists_ then rest else names) live
          end
      end
  end.

Fixpoint waitTicks (fuel : nat) (deadline : Z) (names : list string) (live : bool) : G (option gceErr) :=
  match fuel with
  | O => outOfFuel
  | S fuel' =>
      _ ← onGCE (λ w, (tt, NextTick w));
      now ← onGCE (λ w, (Now w, w));
      if (deadline <=? now) then mret (Some errGceTimeout)
      else
        left ← drainNames fuel names live;
        match left with
        | inl e => mret (Some e)
        | inr [] => mret None
        | inr names => waitTicks fuel' deadline names live
        end
  end.

Definition gceWait (fuel : nat) (names : list string) (live : bool) : G (option gceErr) :=
  if decide (names = []) then mret None
  else now ← onGCE (λ w, (Now w, w)); waitTicks fuel (now + 180) names live.

(** The loop of [operationWait] over the operations: those that are left. *)
Fixpoint doneOps (ops : list operation) (domain : opDomain) : G (gceErr + list operation) :=
  match ops with
  | [] => mret (inr [])
  | op :: rest =>
      status ← onGCE match domain with
                     | local => ZoneOperationsGet projID (opZone op) (opName op)
                     | global => GlobalOperationsGet projID (opName op)
                     end;
      match status with
      | None => mret (inl errGCE)
      | Some status => if decide (status ≠ "DONE"%string) then mret (inr ops) else doneOps rest domain
      end
  end.

Fixpoint opTicks (fuel : nat) (deadline : Z) (ops : list operation) (domain : opDomain) : G (option gceErr) :=
  match fuel with
  | O => outOfFuel
  | S fuel' =>
      tick ← onGCE (SelectTick deadline);
      if (tick : bool) then
        left ← doneOps ops domain;
        match left with
        | inl e => mret (Some e)
        | inr [] => mret None
        | inr ops => opTicks fuel' deadline ops domain
        end
      else mret (Some errGceTimeout)
  end.

Definition operationWait (fuel : nat) (ops : list operation) (domain : opDomain) : G (option gceErr) :=
  if decide (ops = []) then mret None
  else now ← onGCE (λ w, (Now w, w)); opTicks fuel (now + 180) ops domain.

(** ** Instances *)

Definition gceInstanceNew (name size zone cloudConfig : string) : G (option operation) :=
  ns ← namespaceG;
  onGCE (InstancesInsert projID zone
    (mkNewInstance name ns (baseURL ++ "/zones/" ++ zone ++ "/machineTypes/" ++ size)%string imgURL
       (networkURL ns) cloudConfig)).

Definition gceInstanceDel (name zone : string) : G (option operation) :=
  onGCE (InstancesDelete projID zone name).

(** The loop of [Boot]: the names of the instances that could be made. *)
Fixpoint bootNames (bootSet : list CloudMachine) : G (list string) :=
  match bootSet with
  | [] => mret []
  | m :: rest =>
      uuid ← onGCE NewV4;
      let name := ("di-" ++ uuid)%string in
      op ← gceInstanceNew name (cmSize m) (cmRegion m) (cloudConfigUbuntu (elems (cmSSHKeys m)) "wily");
      names ← bootNames rest;
      mret match op with Some _ => name :: names | None => names end
  end.

Definition gceBoot (fuel : nat) (bootSet : list CloudMachine) : G (option gceErr) :=
  names ← bootNames bootSet;
  gceWait fuel names true.

Fixpoint stopNames (machines : list CloudMachine) : G (list string) :=
  match machines with
  | [] => mret []
  | m :: rest =>
      op ← gceInstanceDel (cmID m) (cmRegion m);
      names ← stopNames rest;
      mret match op with Some _ => cmID m :: names | None => names end
  end.

Definition gceStop (fuel : nat) (machines : list CloudMachine) : G (option gceErr) :=
  names ← stopNames machines;
  gceWait fuel names false.

Definition gceDisconnect : G unit :=
  panic "disconnect(): unimplemented! Check the comments on what this should actually do".

(** ** Networks and firewalls *)

Definition networkNew (name : string) : G (option operation) :=
  onGCE (NetworksInsert projID (mkNetwork name ipv4Range)).

Definition networkExists (name : string) : G (option bool) :=
  networks ← onGCE (NetworksList projID);
  mret (existsb (λ n, bool_decide (nwName n = name)) <$> networks).

Definition insertFirewall (name sourceRange : string) : G (option operation) :=
  ns ← namespaceG;
  onGCE (FirewallsInsert projID
    (mkFirewall name (networkURL ns)
       [("tcp", ["0-65535"]); ("udp", ["0-65535"]); ("icmp", [])]%string (Some [sourceRange]))).

Definition firewallExists (name : string) : G (option bool) :=
  firewalls ← onGCE (FirewallsList projID);
  mret (existsb (λ f, bool_decide (fwName f = name)) <$> firewalls).

Definition firewallPatch (name : string) (ips : slice string) : G (option operation) :=
  ns ← namespaceG;
  onGCE (FirewallsPatch projID name (mkFirewall name (networkURL ns) [] ips)).

Definition netInit (fuel : nat) : G (option gceErr) :=
  ns ← namespaceG;
  exists_ ← networkExists ns;
  match exists_ with
  | None => mret (Some errGCE)
  | Some true => mret None
  | Some false =>
      op ← networkNew ns;
      match op with
      | None => mret (Some errGCE)
      | Some op => operationWait fuel [op] global
      end
  end.

(** One of the two firewalls: the operation that makes it, if it is missing. *)
Definition ensureFirewall (name sourceRange : string) : G (gceErr + list operation) :=
  exists_ ← firewallExists name;
  match exists_ with
  | None => mret (inl errGCE)
  | Some true => mret (inr [])
  | Some false =>
      op ← insertFirewall name sourceRange;
      mret match op with None => inl errGCE | Some op => inr [op] end
  end.

Definition fwInit (fuel : nat) : G (option gceErr) :=
  ns ← namespaceG;
  internal ← ensureFirewall (intFW ns) ipv4Range;
  match internal with
  | inl e => mret (Some e)
  | inr ops =>
      external ← ensureFirewall (extFW ns) "127.0.0.1/32";
      match external with
      | inl e => mret (Some e)
      | inr ops' => operationWait fuel (ops ++ ops') global
      end
  end.

Definition gceStart (fuel : nat) : G (option gceErr) :=
  ok ← onGCE Initialize;
  if (ok : bool) then
    e ← netInit fuel;
    match e with Some e => mret (Some e) | None => fwInit fuel end
  else mret (Some errGCE).

(** [reflect.DeepEqual] of a slice and a sorted list tells a nil slice from an empty one. *)
Definition sortSlice (s : slice string) : slice string := sortStrings <$> s.

(** [updateSecurityGroups]; the fields of the firewall are read before the test for nil. *)
Definition gceUpdateSecurityGroups (fuel : nat) (acls : slice string) : G (option gceErr) :=
  ns ← namespaceG;
  firewalls ← onGCE (FirewallsList projID);
  match firewalls with
  | None => mret (Some errGCE)
  | Some items =>
      match list_find (λ f, fwName f = extFW ns) items with
      | None => panic "nil pointer dereference"
      | Some (_, fw) =>
          if decide (sortSlice (fwSourceRanges fw) = sortSlice acls) then mret None
          else
            op ← firewallPatch (extFW ns) (sortSlice acls);
            match op with
            | None => mret (Some errGCE)
            | Some op => operationWait fuel [op] global
            end
      end
  end.

(** [watchACLs], for one tick of the trigger. *)
Definition gceWatchACLs `{MapRange} (fuel : nat) (id : Z) : M Empty_set (Database * gce W) unit := λ s,
  match Transact (policyACLs id) s.1 with
  | Ok (acls, db) =>
      match gceUpdateSecurityGroups fuel acls s.2 with
      | Ok (_, st) => Ok (tt, (db, st))
      | Err e => Err e
      | Panic w => Panic w
      | OutOfFuel => OutOfFuel
      end
  | Err e => Err e
  | Panic w => Panic w
  | OutOfFuel => OutOfFuel
  end.

End Gce.
