(* ===== verification/GceProps.v ===== *)
(** * provider: waiting for machines of Google

    [wait] means to give up after three minutes, but it looks at the timer only between
    two rounds, and a round ends only when every instance has shown up. *)

From stdpp Require Import base gmap list strings.
From Stdlib Require Import ZArith Lia.
From S2P Require Import Prelude DbRows Db Provider CloudConfig AwsAcl Gce.

Local Open Scope Z_scope.

(** An instance has an interface with an access configuration. *)
Definition reachableInstance (i : gceInstance) : Prop :=
  ∃ ip nat nats rest, giInterfaces i = (ip, nat :: nats) :: rest.

(** ** Get *)

Section Get.
Context {W : Type} `{GCE W}.
(** The states of the service while the code runs, and what they list. *)
Context (I : W → Prop) (P : string → Prop).
Hypothesis Hlist : ∀ w zone filter, I w → ∃ items w', InstancesList projID zone filter w = (Some items, w') ∧ I w' ∧
  Forall (λ i, reachableInstance i ∧ P (giName i)) items.

Lemma mapEach_gceMachine zone items (st : gce W) :
  Forall (λ i, reachableInstance i ∧ P (giName i)) items →
  ∃ ms, mapEach (gceMachine zone) items st = Ok (ms, st) ∧ Forall (λ m, P (cmID m)) ms.
Proof.
  induction 1 as [|i items [(ip & nat & nats & rest & Hi) HP] _ (ms & Hms & Hall)]; [by exists []|].
  eexists. cbn [mapEach]. unfold mbind, M_bind. unfold gceMachine at 1, first, mbind, M_bind. rewrite Hi. cbn. rewrite Hms.
  split; [done|]. by constructor.
Qed.

Lemma getZones_run zones (st : gce W) :
  I (gceWorld st) →
  ∃ ms st', getZones zones st = Ok (inr ms, st') ∧ I (gceWorld st') ∧ Forall (λ m, P (cmID m)) ms.
Proof.
  revert st. induction zones as [|zone zones IH]; intros st Hst; [by eexists _, _|].
  cbn [getZones]. unfold getZone at 1, namespaceG, onGCE. unfold mbind, M_bind.
  destruct (Hlist (gceWorld st) zone ("description eq " ++ gceNS st)%string Hst) as (items & w' & Hl & Hw' & Hall).
  rewrite Hl. destruct (mapEach_gceMachine zone items (mkGce (gceNS st) w') Hall) as (ms & Hms & HP). rewrite Hms. cbn.
  destruct (IH (mkGce (gceNS st) w') Hw') as (ms' & st' & Hrun & Hst' & HP'). rewrite Hrun. eexists _, _.
  split; [done|]. split; [done|]. by apply Forall_app.
Qed.

End Get.

(** ** The timeout *)

Section Wait.
Context {W : Type} `{GCE W} (name : string).
Context (I : W → Prop).
Hypothesis Hlist : ∀ w zone filter, I w → ∃ items w', InstancesList projID zone filter w = (Some items, w') ∧ I w' ∧
  Forall (λ i, reachableInstance i ∧ giName i ≠ name) items.

Lemma drainNames_diverges fuel names (st : gce W) :
  I (gceWorld st) → drainNames fuel (name :: names) true st = OutOfFuel.
Proof.
  revert st. induction fuel as [|fuel IH]; intros st Hst; [done|]. cbn [drainNames].
  destruct (getZones_run I (λ n, n ≠ name) Hlist supportedZones st Hst) as (ms & st' & Hrun & Hst' & Hall).
  unfold gceGet, mbind, M_bind. rewrite Hrun.
  assert (existsb (λ ist, bool_decide (name = cmID ist)) ms = false) as ->.
  { apply not_true_iff_false. intros (m & Hm%list_elem_of_In & Heq%bool_decide_eq_true)%existsb_exists.
    eapply Forall_forall in Hall; [|done]. by apply Hall. }
  by apply IH.
Qed.

(** C39: If an instance never shows up in the list, [wait] of the Google back end does not
    return, although the list can be read and the first tick comes long before the
    three minutes are over: no number of steps is enough, and the timeout is never
    looked at again. *)
Theorem gceWait_misses_timeout fuel names (st : gce W) :
  I (NextTick (gceWorld st)) → Now (NextTick (gceWorld st)) < Now (gceWorld st) + 180 →
  gceWait fuel (name :: names) true st = OutOfFuel.
Proof.
  intros HI Hnow. unfold gceWait. rewrite decide_False by done. unfold mbind, M_bind, onGCE.
  destruct fuel as [|fuel]; [done|]. cbn [waitTicks]. unfold mbind, M_bind, onGCE. cbn [gceWorld gceNS].
  destruct (_ <=? _) eqn:Hle; [apply Z.leb_le in Hle; cbn in Hle; lia|].
  by rewrite drainNames_diverges.
Qed.

End Wait.

(** ** An empty project *)

(** A service that lists no instance; the state is the clock, and every call takes a
    second. *)
#[local] Instance emptyGCE : GCE Z := {|
  Initialize t := (true, t);
  InstancesList _ _ _ t := (Some [], t + 1);
  InstancesInsert _ zone i t := (Some (mkOperation zone (niName i)), t + 1);
  InstancesDelete _ zone n t := (Some (mkOperation zone n), t + 1);
  ZoneOperationsGet _ _ _ t := (Some "DONE"%string, t + 1);
  GlobalOperationsGet _ _ t := (Some "DONE"%string, t + 1);
  FirewallsList _ t := (Some [], t + 1);
  FirewallsInsert _ f t := (Some (mkOperation "" (fwName f)), t + 1);
  FirewallsPatch _ n _ t := (Some (mkOperation "" n), t + 1);
  NetworksList _ t := (Some [], t + 1);
  NetworksInsert _ n t := (Some (mkOperation "" (nwName n)), t + 1);
  NewV4 t := ("uuid"%string, t);
  Now t := t;
  NextTick t := t + 3;
  SelectTick deadline t := (t + 3 <? deadline, t + 3)
|}.

Lemma gceWait_misses_timeout_witness :
  gceWait 1000 ["di-uuid"%string] true (mkGce "ns" 0) = OutOfFuel ∧
  gceBoot 1000 [mkCloud "" "" "" "n1-standard-1" 0 None "Google" "us-east1-b"] (mkGce "ns" 0) = OutOfFuel.
Proof.
  split; [|by vm_compute].
  apply (gceWait_misses_timeout "di-uuid" (λ _, True)); [|done|done].
  intros w zone filter _. by eexists _, _.
Defined.

(** A project without the external firewall: the code follows a nil pointer. *)
Lemma gceUpdateSecurityGroups_panics :
  gceUpdateSecurityGroups 10 (Some ["1.2.3.4/32"]%string) (mkGce "ns" 0) = Panic "nil pointer dereference".
Proof. done. Qed.
