(* ===== verification/Vagrant.v ===== *)
(** * provider: machines of Vagrant

    Model of [src/provider/vagrant.go] and [vagrant_api.go]: machines are directories in
    [~/.vagrant], and [vagrant] is run in them by a shell. The host is the class
    [VagrantHost]; an error of a call is [None] or [false]. *)

From stdpp Require Import base gmap list strings.
From Stdlib Require Import ZArith Lia.
From S2P Require Import Prelude DbRows Provider Regexp DslScan CloudConfig.

Local Open Scope string_scope.

Class VagrantHost (W : Type) : Type := {
  HomeDir : W → option string * W;
  PathExists : string → W → bool * W;
  MkdirV : string → W → bool * W;
  WriteFileV : string → string → W → bool * W;
  ReadDirV : string → W → option (list string) * W;
  (** [sh -c] of a command, and [vagrant] with arguments: the output. *)
  RunSh : string → W → option string * W;
  RunVagrant : list string → W → option string * W;
  NewUUID : W → string * W
}.

(** [strings.Replace(s, v, id, -1)] for the verb [v = %s]. *)
Fixpoint replaceVerb (id : string) (s : text) : text :=
  match s with
  | c :: ((d :: s') as rest) =>
      if isC 37 c && isC 115 d then (chars id ++ replaceVerb id s')%list else c :: replaceVerb id rest
  | _ => s
  end.

Definition vagrantFile : string := plain "CLOUD_CONFIG_PATH = File.join(File.dirname(__FILE__), @user-data@)
SIZE_PATH = File.join(File.dirname(__FILE__), @size@)
Vagrant.require_version @>= 1.6.0@

size = File.open(SIZE_PATH).read.strip.split(@,@)
Vagrant.configure(2) do |config|
  config.vm.box = @boxcutter/ubuntu1504@

  config.vm.network @private_network@, type: @dhcp@

  ram=(size[0].to_f*1024).to_i
  cpus=size[1]
  config.vm.provider @virtualbox@ do |v|
    v.memory = ram
    v.cpus = cpus
  end

  if File.exist?(CLOUD_CONFIG_PATH)
    config.vm.provision @shell@, path: @#{CLOUD_CONFIG_PATH}@
  end
end
".

Section Vagrant.
Context {W : Type} `{VagrantHost W}.

(** The error of Go code is [None]; the state is the host. *)
Abbreviation V := (M Empty_set W).

Definition onHost {R} (f : W → R * W) : V R := λ w, Ok (f w).

(** ** The commands *)

Definition VagrantDir : V (option string) :=
  dir ← onHost HomeDir;
  mret ((λ d, d ++ "/.vagrant/") <$> dir).

Definition shellCommand (vdir id commands : string) : string :=
  "(cd " ++ vdir ++ id ++ "; " ++ unchars (replaceVerb id (chars commands)) ++ ")".

Definition Shell (id commands : string) : V (option string) :=
  vdir ← VagrantDir;
  match vdir with
  | None => mret None
  | Some vdir => onHost (RunSh (shellCommand vdir id commands))
  end.

Definition isOk {R} (o : option R) : bool := match o with Some _ => true | None => false end.

Definition Up (id : string) : V bool :=
  out ← Shell id "vagrant --machine-readable up"; mret (isOk out).

Definition Destroy (id : string) : V bool :=
  out ← Shell id "vagrant --machine-readable destroy -f; cd ../; rm -rf %s"; mret (isOk out).

Definition PublicIP (id : string) : V (option string) :=
  Shell id (plain "vagrant ssh -c @ip address show eth1 | grep 'inet ' | sed -e 's/^.*inet //' -e 's/\/.*$//' | tr -d '\n'@").

(** The first word after [state] of a line with at least four words. *)
Definition statusLine (line : string) : option string :=
  match splitOn (Ascii.ascii_of_nat 44) line with
  | _ :: _ :: kind :: value :: _ => if decide (kind = "state") then Some value else None
  | _ => None
  end.

Definition Status (id : string) : V (option string) :=
  output ← Shell id "vagrant --machine-readable status";
  mret ((λ out, default "" (head (omap statusLine (splitOn (Ascii.ascii_of_nat 10) out)))) <$> output).

Definition SizeV (id : string) : V string :=
  size ← Shell id "cat size"; mret (default "" size).

Definition ListV : V (option (list string)) :=
  vdir ← VagrantDir;
  match vdir with
  | None => mret None
  | Some vdir =>
      exists_ ← onHost (PathExists vdir);
      if (exists_ : bool) then onHost (ReadDirV vdir) else mret (Some [])
  end.

Definition ContainsBox (name : string) : V (option bool) :=
  output ← onHost (RunVagrant ["--machine-readable"; "box"; "list"]);
  mret ((λ out, existsb (λ line, bool_decide (last (splitOn (Ascii.ascii_of_nat 44) line) = Some name))
                  (splitOn (Ascii.ascii_of_nat 10) out)) <$> output).

Definition AddBox (name provider : string) : V bool :=
  exists_ ← ContainsBox name;
  match exists_ with
  | None => mret false
  | Some true => mret true
  | Some false =>
      out ← onHost (RunVagrant ["--machine-readable"; "box"; "add"; "--provider"; provider; name]);
      mret (isOk out)
  end.

(** Writing the files of a machine: the first error destroys it. *)
Fixpoint writeFiles (id : string) (files : list (string * string)) : V bool :=
  match files with
  | [] => mret true
  | (path, content) :: rest =>
      ok ← onHost (WriteFileV path content);
      if (ok : bool) then writeFiles id rest else _ ← Destroy id; mret false
  end.

Definition Init (cloudConfig size id : string) : V bool :=
  vdir ← VagrantDir;
  match vdir with
  | None => mret false
  | Some vdir =>
      exists_ ← onHost (PathExists vdir);
      _ ← (if (exists_ : bool) then mret true else onHost (MkdirV vdir));
      let path := vdir ++ id in
      _ ← onHost (MkdirV path);
      out ← Shell id "vagrant --machine-readable init coreos-beta";
      if isOk out then
        writeFiles id [(path ++ "/user-data", cloudConfig); (path ++ "/vagrantFile", vagrantFile); (path ++ "/size", size)]
      else _ ← Destroy id; mret false
  end.

(** ** The provider *)

Definition vagrantStart : V bool := AddBox "boxcutter/ubuntu1504" "virtualbox".

(** [Boot]: the goroutine of a machine runs before the next machine. *)
Fixpoint vagrantBoot (bootSet : list CloudMachine) : V bool :=
  match bootSet with
  | [] => mret true
  | m :: rest =>
      id ← onHost NewUUID;
      ok ← Init (cloudConfigUbuntu (elems (cmSSHKeys m)) "vivid") (cmSize m) id;
      if (ok : bool) then
        up ← Up id;
        _ ← (if (up : bool) then mret true else Destroy id);
        vagrantBoot rest
      else _ ← Destroy id; mret false
  end.

Definition vagrantMachine (id : string) : V CloudMachine :=
  ip ← PublicIP id;
  size ← SizeV id;
  mret (mkCloud id (default "" ip) (default "" ip) size 0%Z None "Vagrant" "").

Definition vagrantGet : V (option (list CloudMachine)) :=
  ids ← ListV;
  match ids with
  | None => mret None
  | Some ids => ms ← mapEach vagrantMachine ids; mret (Some ms)
  end.

Fixpoint vagrantStop (machines : list CloudMachine) : V bool :=
  match machines with
  | [] => mret true
  | m :: rest => ok ← Destroy (cmID m); if (ok : bool) then vagrantStop rest else mret false
  end.

End Vagrant.

(** ** The size of a machine *)

(** The promises about files: writing a file replaces it, and [cat] prints it. *)
Class VagrantLaws (W : Type) `{VagrantHost W} : Type := {
  home : string;
  contents : W → gmap string string;
  home_dir : ∀ w, HomeDir w = (Some home, w);
  write_file : ∀ path content w, (WriteFileV path content w).1 = true →
    contents (WriteFileV path content w).2 = <[path := content]> (contents w);
  cat_size : ∀ dir w, RunSh ("(cd " ++ dir ++ "; cat size)") w = (contents w !! (dir ++ "/size"), w)
}.

Section Size.
Context {W : Type} `{VL : VagrantLaws W}.

Lemma writeFiles_contents id files (w w' : W) :
  writeFiles id files w = Ok (true, w') →
  contents w' = foldl (λ m f, <[f.1 := f.2]> m) (contents w) files.
Proof.
  revert w. induction files as [|[path content] files IH]; intros w; cbn [writeFiles foldl]; [by intros [= <-]|].
  intros (ok & w1 & Hw & Hk)%bind_Ok. injection Hw as Hw. pose proof (write_file path content w) as Hlaw. rewrite Hw in Hlaw. cbn [fst snd] in Hlaw.
  destruct ok; [|by apply bind_Ok in Hk as (? & ? & _ & [= ])]. apply IH in Hk. by rewrite Hk, Hlaw by done.
Qed.

Lemma sizeV_reads id (w : W) : SizeV id w = Ok (default "" (contents w !! (home ++ "/.vagrant/" ++ id ++ "/size")), w).
Proof.
  unfold SizeV, Shell, VagrantDir, onHost, mbind, M_bind. rewrite home_dir. cbn [fmap option_fmap option_map mret M_ret].
  assert (shellCommand (home ++ "/.vagrant/") id "cat size" = "(cd " ++ (home ++ "/.vagrant/" ++ id) ++ "; cat size)") as ->.
  { unfold shellCommand. by rewrite !string_app_assoc. }
  rewrite cat_size, !string_app_assoc. done.
Qed.

(** A machine that was initialised is listed with the size it was initialised with. *)
Lemma init_size cloudConfig size id (w w' : W) :
  Init cloudConfig size id w = Ok (true, w') → SizeV id w' = Ok (size, w').
Proof.
  unfold Init. intros (vdir & w1 & Hdir & Hk)%bind_Ok. unfold VagrantDir, onHost, mbind, M_bind in Hdir.
  rewrite home_dir in Hdir. injection Hdir as <- <-. apply bind_Ok in Hk as (ex & w2 & _ & Hk).
  apply bind_Ok in Hk as (mk & w3 & _ & Hk). apply bind_Ok in Hk as (mk' & w4 & _ & Hk).
  apply bind_Ok in Hk as (out & w5 & _ & Hk). destruct (isOk out); [|by apply bind_Ok in Hk as (? & ? & _ & [= ])].
  apply writeFiles_contents in Hk. rewrite sizeV_reads, Hk. cbn [foldl fst snd].
  by rewrite !string_app_assoc, lookup_insert_eq.
Qed.

End Size.
