(* ===== verification/Azure.v ===== *)
(** * provider: machines of Azure

    Model of [src/provider/azure.go]. The management service is the class [AzureService] over
    an abstract state; an error of a call is [None] or [false]. A machine is a hosted
    service with one deployment. *)

From stdpp Require Import base gmap list strings.
From Stdlib Require Import ZArith Lia.
From S2P Require Import Prelude DbRows Provider CloudConfig.

Local Open Scope Z_scope.

(** ** Data *)

Definition storageAccount : string := "netsysstorage".
Definition clusterLocation : string := "Central US".
Definition vmImage : string :=
  "b39f27a8b8c64d52b05eac6a62ebad85__Ubuntu-15_10-amd64-server-20151116.1-en-us-30GB".
Definition username : string := "ubuntu".

Record hostedService : Type := mkHosted { hsName : string; hsDescription : string }.

(** [hostedservice.CreateHostedServiceParameters]; the label is the name before its
    encoding in base 64. *)
Record serviceParams : Type := mkServiceParams {
  spName : string;
  spDescription : string;
  spLocation : string;
  spLabel : string
}.

(** A role instance: its address, the addresses of its endpoints and its size. *)
Record roleInstance : Type := mkRoleInstance {
  riIPAddress : string;
  riVips : list string;
  riSize : string
}.

(** [virtualmachine.Role], as [vmutils] fills it in. *)
Record vmRole : Type := mkRole {
  vmName : string;
  vmSize : string;
  vmPlatformImage : string;
  vmMediaLink : string;
  vmUser : string;
  vmPassword : string;
  vmPorts : list (string * Z * Z * string);
  vmCustomData : string
}.

Class AzureService (W : Type) : Type := {
  Connect : W → bool * W;
  ListHostedServices : W → option (list hostedService) * W;
  GetDeploymentName : string → W → option string * W;
  GetDeployment : string → string → W → option (list roleInstance) * W;
  CreateHostedService : serviceParams → W → bool * W;
  DeleteHostedService : string → bool → W → option string * W;
  CreateDeployment : vmRole → string → W → option string * W;
  WaitForOperation : string → W → bool * W;
  AzureUUID : W → string * W
}.

(** [azureCluster], after [Start]. *)
Record azure (W : Type) : Type := mkAzure { azNamespace : string; azPassword : string; azWorld : W }.
Arguments mkAzure {W} _ _ _.
Arguments azNamespace {W} _.
Arguments azPassword {W} _.
Arguments azWorld {W} _.

Inductive azErr : Type := errAzure.

Section Azure.
Context {W : Type} `{AzureService W}.

Abbreviation Z_ := (M Empty_set (azure W)).

Definition onAzure {R} (f : W → R * W) : Z_ R := λ st,
  let '(r, w) := f (azWorld st) in Ok (r, mkAzure (azNamespace st) (azPassword st) w).

(** [l[0]]. *)
Definition firstOf {R} (l : list R) : Z_ R :=
  match l with x :: _ => mret x | [] => panic "index out of range" end.

Definition azureStart (namespace : string) : Z_ (option azErr) := λ st,
  if decide (namespace = ""%string) then Ok (Some errAzure, st)
  else
    let '(ok, w) := Connect (azWorld st) in
    if (ok : bool) then
      let '(password, w) := AzureUUID w in Ok (None, mkAzure namespace password w)
    else Ok (Some errAzure, mkAzure (azNamespace st) (azPassword st) w).

(** ** Instances *)

Definition azureInstanceDel (name : string) : Z_ (option azErr) :=
  op ← onAzure (DeleteHostedService name true);
  match op with
  | None => mret (Some errAzure)
  | Some op => ok ← onAzure (WaitForOperation op); mret (if (ok : bool) then None else Some errAzure)
  end.

Definition azurePorts : list (string * Z * Z * string) :=
  [("ssh", 22, 22, "tcp"); ("grpc", 9999, 9999, "tcp"); ("swarm-1", 2375, 2375, "tcp");
   ("swarm-2", 2377, 2377, "tcp"); ("etcd-1", 2379, 2379, "tcp"); ("etcd-2", 2380, 2380, "tcp");
   ("ovsdb", 6640, 6640, "tcp"); ("geneve", 6081, 6081, "udp")]%string.

Definition azureRole (password name size cloudConfig : string) : vmRole :=
  mkRole name size vmImage ("http://" ++ storageAccount ++ ".blob.core.windows.net/vhds/" ++ name ++ ".vhd")%string
    username password azurePorts cloudConfig.

Definition azureInstanceNew (name size cloudConfig : string) : Z_ (option azErr) :=
  st ← (getS : Z_ (azure W));
  created ← onAzure (CreateHostedService (mkServiceParams name (azNamespace st) clusterLocation name));
  if (created : bool) then
    op ← onAzure (CreateDeployment (azureRole (azPassword st) name size cloudConfig) name);
    match op with
    | None => _ ← azureInstanceDel name; mret (Some errAzure)
    | Some op =>
        ok ← onAzure (WaitForOperation op);
        if (ok : bool) then mret None else _ ← azureInstanceDel name; mret (Some errAzure)
    end
  else mret (Some errAzure).

(** ** The provider *)

Fixpoint azureBoot (bootSet : list CloudMachine) : Z_ (option azErr) :=
  match bootSet with
  | [] => mret None
  | m :: rest =>
      uuid ← onAzure AzureUUID;
      e ← azureInstanceNew ("di-" ++ uuid)%string (cmSize m) (cloudConfigUbuntu (elems (cmSSHKeys m)) "wily");
      match e with Some e => mret (Some e) | None => azureBoot rest end
  end.

Fixpoint azureStop (machines : list CloudMachine) : Z_ (option azErr) :=
  match machines with
  | [] => mret None
  | m :: rest =>
      e ← azureInstanceDel (cmID m);
      match e with Some e => mret (Some e) | None => azureStop rest end
  end.

(** The loop of [Get] over the hosted services. *)
Fixpoint serviceMachines (services : list hostedService) : Z_ (azErr + list CloudMachine) :=
  match services with
  | [] => mret (inr [])
  | hs :: rest =>
      st ← (getS : Z_ (azure W));
      if decide (hsDescription hs ≠ azNamespace st) then serviceMachines rest
      else
        deploymentName ← onAzure (GetDeploymentName (hsName hs));
        match deploymentName with
        | None => mret (inl errAzure)
        | Some deploymentName =>
            if decide (deploymentName = ""%string) then _ ← azureInstanceDel (hsName hs); serviceMachines rest
            else
              deployment ← onAzure (GetDeployment (hsName hs) deploymentName);
              match deployment with
              | None => mret (inl errAzure)
              | Some roles =>
                  role ← firstOf roles;
                  vip ← firstOf (riVips role);
                  let m := mkCloud (hsName hs) vip (riIPAddress role) (riSize role) 0 None "Azure" "" in
                  r ← serviceMachines rest;
                  mret match r with inl e => inl e | inr ms => inr (m :: ms) end
              end
        end
  end.

Definition azureGet : Z_ (azErr + list CloudMachine) :=
  services ← onAzure ListHostedServices;
  match services with
  | None => mret (inl errAzure)
  | Some services => serviceMachines services
  end.

End Azure.

(** ** What [Boot] achieves *)

(** The deployments of a subscription: one is there when the operation that makes it is
    done, and identifiers are new. *)
Class AzureLaws (W : Type) `{AzureService W} : Type := {
  deployed : W → gmap string vmRole;
  service_deployed : ∀ p w, deployed (CreateHostedService p w).2 = deployed w;
  deployment_done : ∀ role name op w, (CreateDeployment role name w).1 = Some op →
    let w1 := (CreateDeployment role name w).2 in
    (WaitForOperation op w1).1 = true → deployed (WaitForOperation op w1).2 = <[name := role]> (deployed w);
  uuid_deployed : ∀ w, deployed (AzureUUID w).2 = deployed w;
  uuid_fresh : ∀ w, deployed w !! ("di-" ++ (AzureUUID w).1)%string = None
}.

Section Boot.
Context {W : Type} `{AL : AzureLaws W}.
Implicit Types st : azure W.

(** The state has the same configuration. *)
Definition sameConfig st st' : Prop := azNamespace st' = azNamespace st ∧ azPassword st' = azPassword st.

Lemma azureInstanceDel_returns name st : ∃ e st', azureInstanceDel name st = Ok (e, st').
Proof.
  unfold azureInstanceDel, onAzure, mbind, M_bind. destruct (DeleteHostedService _ _ _) as [[op|] w]; cbn; [|eauto].
  destruct (WaitForOperation op w) as [ok w']. eauto.
Qed.

Lemma azureInstanceNew_run name size cfg st :
  ∃ e st', azureInstanceNew name size cfg st = Ok (e, st') ∧
    (e = None → sameConfig st st' ∧
       deployed (azWorld st') = <[name := azureRole (azPassword st) name size cfg]> (deployed (azWorld st))).
Proof.
  unfold azureInstanceNew, getS. unfold mbind at 1 2 3, M_bind at 1 2 3. unfold onAzure at 1.
  set (params := mkServiceParams _ _ _ _). pose proof (service_deployed params (azWorld st)) as Hserv.
  destruct (CreateHostedService params (azWorld st)) as [[] w]; [|by eexists _, _]. cbn [fst snd] in Hserv.
  unfold onAzure at 1. cbn [azWorld azNamespace azPassword]. set (role := azureRole _ _ _ _).
  pose proof (deployment_done role name) as Hdone. specialize (λ op, Hdone op w).
  destruct (CreateDeployment role name w) as [[op|] w1]; cbn [fst snd] in Hdone.
  - specialize (Hdone op eq_refl). cbn zeta in Hdone. unfold mbind at 1, M_bind at 1. unfold onAzure at 1. cbn [azWorld].
    destruct (WaitForOperation op w1) as [[] w2]; cbn [fst snd] in Hdone.
    + eexists _, _. split; [done|]. intros _. split; [done|]. cbn. by rewrite Hdone, Hserv.
    + set (st2 := mkAzure _ _ w2). destruct (azureInstanceDel_returns name st2) as (e & st' & Hdel).
      unfold mbind, M_bind. rewrite Hdel. by eexists _, _.
  - set (st2 := mkAzure _ _ w1). destruct (azureInstanceDel_returns name st2) as (e & st' & Hdel).
    unfold mbind, M_bind. rewrite Hdel. by eexists _, _.
Qed.

(** The deployment of a machine. *)
Definition deploys st (name : string) (m : CloudMachine) : Prop :=
  deployed (azWorld st) !! name =
    Some (azureRole (azPassword st) name (cmSize m) (cloudConfigUbuntu (elems (cmSSHKeys m)) "wily")).

Lemma azureBoot_run bootSet st :
  ∃ e st', azureBoot bootSet st = Ok (e, st') ∧
    (e = None → ∃ names, sameConfig st st' ∧ deployed (azWorld st) ⊆ deployed (azWorld st') ∧
       Forall2 (deploys st') names bootSet ∧ NoDup names ∧
       Forall (λ name, deployed (azWorld st) !! name = None) names).
Proof.
  revert st. induction bootSet as [|m bootSet IH]; intros st.
  { eexists _, _. split; [done|]. intros _. exists []. split_and!; try done; constructor. }
  cbn [azureBoot]. unfold onAzure at 1. unfold mbind at 1, M_bind at 1.
  pose proof (uuid_deployed (azWorld st)) as Hsame. pose proof (uuid_fresh (azWorld st)) as Hfresh.
  destruct (AzureUUID (azWorld st)) as [uuid w]. cbn [fst snd] in Hsame, Hfresh. set (st1 := mkAzure _ _ w).
  set (name := ("di-" ++ uuid)%string) in *.
  destruct (azureInstanceNew_run name (cmSize m) (cloudConfigUbuntu (elems (cmSSHKeys m)) "wily") st1) as (e & st2 & Hrun & He).
  unfold mbind at 1, M_bind at 1. rewrite Hrun. destruct e as [e|]; [by eexists _, _|].
  destruct (He eq_refl) as [[Hns Hpw] Hdep]. destruct (IH st2) as (e & st' & Hrun' & He'). exists e, st'. split; [done|].
  intros Hnone. destruct (He' Hnone) as (names & [Hns' Hpw'] & Hsub & Hall & Hnd & Hnew).
  change (deployed (azWorld st1)) with (deployed w) in Hdep. rewrite Hsame in Hdep.
  exists (name :: names). split_and!.
  - split; [by rewrite Hns', Hns|by rewrite Hpw', Hpw].
  - etransitivity; [|exact Hsub]. rewrite Hdep. by apply insert_subseteq.
  - constructor; [|done]. unfold deploys. apply (lookup_weaken _ _ _ _) with (2 := Hsub). rewrite Hdep, Hpw', Hpw.
    by rewrite lookup_insert_eq.
  - constructor; [|done]. intros Hin. eapply Forall_forall in Hnew; [|done]. by rewrite Hdep, lookup_insert_eq in Hnew.
  - constructor; [done|]. eapply Forall_impl; [exact Hnew|]. cbn. intros n Hn. rewrite Hdep in Hn.
    by apply lookup_insert_None in Hn as [? _].
Qed.

End Boot.
