(* ===== verification/Inspect.v ===== *)
(** * inspect: the graph of the connections of a specification

    Model of [src/inspect]: the graph, the nodes reachable from a node, the paths between
    two nodes, and the text for graphviz. The slices of [paths] share their arrays, as
    [append] makes them. *)

From stdpp Require Import base gmap list strings pretty.
From Stdlib Require Import ZArith Lia.
From S2P Require Import Prelude.

Local Open Scope Z_scope.

(** ** Graphs *)

(** A node is its label and the labels of its connections; all copies of a node share the
    map of its connections. *)
Record Graph : Type := mkGraphOf {
  gNodes : gmap string (gset string);
  gConnections : list (string * string)
}.

Definition makeGraph : Graph := mkGraphOf ∅ [].

Definition getNode (label : string) (g : Graph) : Graph :=
  match gNodes g !! label with
  | Some _ => g
  | None => mkGraphOf (<[label := ∅]> (gNodes g)) (gConnections g)
  end.

Definition addConnection (from to : string) (g : Graph) : Graph :=
  let g := getNode to (getNode from g) in
  mkGraphOf (alter (λ s, {[to]} ∪ s) from (gNodes g)) (gConnections g ++ [(from, to)]).

Definition connectionsOf (g : Graph) (t : string) : gset string := default ∅ (gNodes g !! t).

(** ** The reachable nodes *)

Section Reach.
Context `{MapRange} (g : Graph).

(** The nodes reached, and the number of loops over maps. *)
Record dfsState : Type := mkDfs { reached : gset string; dfsLoops : nat }.

Abbreviation D := (M Empty_set dfsState).

Definition rangeConnections (t : string) : D (list (string * unit)) := λ s,
  Ok (rangeOrder (dfsLoops s) (gset_to_gmap tt (connectionsOf g t)), mkDfs (reached s) (S (dfsLoops s))).

Definition visit (explore : string → D unit) (n label : string) : D unit := λ s,
  if decide (label = n) then Ok (tt, s)
  else if decide (label ∈ reached s) then Ok (tt, s)
  else explore label (mkDfs ({[label]} ∪ reached s) (dfsLoops s)).

Fixpoint explore (fuel : nat) (n t : string) : D unit :=
  match fuel with
  | O => outOfFuel
  | S fuel' =>
      l ← rangeConnections t;
      forEach (λ e, visit (explore fuel' n) n e.1) l
  end.

(** The depth is at most the number of nodes. *)
Definition dfs (n : string) : outcome Empty_set (list string) :=
  match explore (S (size (gNodes g))) n n (mkDfs ∅ 0) with
  | Ok (_, s) => Ok ((rangeOrder (dfsLoops s) (gset_to_gmap tt (reached s))).*1)
  | Err e => Err e
  | Panic w => Panic w
  | OutOfFuel => OutOfFuel
  end.

(** ** The paths between two nodes *)

(** A slice of labels: the number of its array, and its length. The capacity of a slice
    is the length of its array. *)
Abbreviation pathSlice := (nat * nat)%type.

Record pathState : Type := mkPaths {
  arrays : gmap nat (list string);
  found : list pathSlice;
  pathLoops : nat
}.

Abbreviation P := (M Empty_set pathState).

Definition readPath (arrays : gmap nat (list string)) (p : pathSlice) : list string :=
  take p.2 (default [] (arrays !! p.1)).

(** [append(p, x)]: in place if there is room, otherwise in a new array of twice the
    capacity. *)
Definition appendPath (p : pathSlice) (x : string) : P pathSlice := λ s,
  let array := default [] (arrays s !! p.1) in
  if decide (p.2 < length array)%nat then
    Ok ((p.1, S p.2), mkPaths (<[p.1 := <[p.2 := x]> array]> (arrays s)) (found s) (pathLoops s))
  else
    let k := fresh (dom (arrays s)) in
    let array' := take p.2 array ++ x :: replicate (p.2 - 1) ""%string in
    Ok ((k, S p.2), mkPaths (<[k := array']> (arrays s)) (found s) (pathLoops s)).

Fixpoint contains (ls : list string) (it : string) : bool :=
  match ls with
  | [] => false
  | a :: ls' => if decide (a = it) then true else contains ls' it
  end.

Definition rangePaths (t : string) : P (list (string * unit)) := λ s,
  Ok (rangeOrder (pathLoops s) (gset_to_gmap tt (connectionsOf g t)), mkPaths (arrays s) (found s) (S (pathLoops s))).

Fixpoint explorePaths (fuel : nat) (end_ t : string) (p : pathSlice) : P unit :=
  match fuel with
  | O => outOfFuel
  | S fuel' =>
      if decide (t = end_) then modifyS (λ s, mkPaths (arrays s) (found s ++ [p]) (pathLoops s))
      else
        l ← rangePaths t;
        forEach (λ e s,
          if contains (readPath (arrays s) p) e.1 then Ok (tt, s)
          else (p' ← appendPath p e.1; explorePaths fuel' end_ e.1 p') s) l
  end.

(** [None] is the result [nil, false]. *)
Definition paths (start end_ : string) : outcome Empty_set (option (list (list string))) :=
  match dfs start with
  | Ok reach =>
      if contains reach end_ then
        match explorePaths (S (size (gNodes g))) end_ start (O, 1%nat) (mkPaths {[O := [start]]} [] 0) with
        | Ok (_, s) => Ok (Some (readPath (arrays s) <$> found s))
        | Err e => Err e
        | Panic w => Panic w
        | OutOfFuel => OutOfFuel
        end
      else Ok None
  | Err e => Err e
  | Panic w => Panic w
  | OutOfFuel => OutOfFuel
  end.

End Reach.

(** ** The text for graphviz *)

Section Graphviz.
Context `{MapRange}.
Local Open Scope string_scope.

Definition dq : string := String (Ascii.ascii_of_nat 34) "".

(** The images of the containers of a label, counted. *)
Definition imageGroup (images : list string) : gmap string Z :=
  foldl (λ m i, match m !! i with Some count => <[i := (count + 1)%Z]> m | None => <[i := 1%Z]> m end) ∅ images.

(** [containerLabels] is given by the images of the containers of each label; the result
    has the number of loops over maps as well. *)
Definition getImageNamesForLabel (containerLabels : gmap string (list string)) (label : string) (loops : nat)
    : string * nat :=
  match default [] (containerLabels !! label) with
  | [image] => (dq ++ label ++ ": " ++ image ++ dq, loops)
  | images =>
      let entries := rangeOrder loops (imageGroup images) in
      (dq ++ " " ++ label ++ ": [ " ++ String.concat "" ((λ e, pretty e.2 ++ " " ++ e.1 ++ " ") <$> entries) ++ "]" ++ dq,
       S loops)
  end.

Fixpoint dotEdges (containerLabels : gmap string (list string)) (edges : list (string * string)) (loops : nat) : string :=
  match edges with
  | [] => ""
  | (from, to) :: rest =>
      let '(from, loops) := getImageNamesForLabel containerLabels from loops in
      let '(to, loops) := getImageNamesForLabel containerLabels to loops in
      "    " ++ from ++ " -> " ++ to ++ String (Ascii.ascii_of_nat 10) "" ++ dotEdges containerLabels rest loops
  end.

Definition dotfile (g : Graph) (containerLabels : gmap string (list string)) : string :=
  "strict digraph {" ++ String (Ascii.ascii_of_nat 10) "" ++ dotEdges containerLabels (gConnections g) 0 ++
  "}" ++ String (Ascii.ascii_of_nat 10) "".

End Graphviz.

(** ** A path that is overwritten *)

Definition forkGraph : Graph :=
  foldl (λ g e, addConnection e.1 e.2 g) makeGraph
    [("a", "b"); ("b", "c"); ("c", "d"); ("c", "e"); ("e", "d"); ("c", "f")]%string.

(** From [c] both [d] and [e] are appended to the same array of four labels: the path to
    [e] that was found first is overwritten by the label [d], which is not its end. *)
Lemma paths_overwritten :
  paths (H := mapToListRange) forkGraph "a" "e" = Ok (Some [["a"; "b"; "c"; "d"]])%string.
Proof. by vm_compute. Qed.

(** ** What [dfs] returns *)

Definition edge (g : Graph) (a b : string) : Prop := b ∈ connectionsOf g a.

(** A graph that the program has built. *)
Inductive built : Graph → Prop :=
| built_make : built makeGraph
| built_add g from to : built g → built (addConnection from to g).

Lemma getNode_nodes label g : is_Some (gNodes (getNode label g) !! label) ∧
  ∀ l, is_Some (gNodes g !! l) → is_Some (gNodes (getNode label g) !! l).
Proof.
  unfold getNode. destruct (gNodes g !! label) eqn:Hl; [by rewrite Hl; eauto|]. cbn. rewrite lookup_insert_eq.
  split; [eauto|]. intros l Hs. destruct (decide (l = label)) as [-> |?]; [rewrite lookup_insert_eq; eauto|].
  by rewrite lookup_insert_ne.
Qed.

Lemma getNode_edges label g a b : edge (getNode label g) a b → edge g a b.
Proof.
  unfold edge, connectionsOf, getNode. destruct (gNodes g !! label) eqn:Hl; [done|]. cbn.
  destruct (decide (a = label)) as [-> |?]; [rewrite lookup_insert_eq; set_solver|by rewrite lookup_insert_ne].
Qed.

(** Every connection leads to a node. *)
Lemma built_nodes g a b : built g → edge g a b → is_Some (gNodes g !! b).
Proof.
  intros Hg. revert a b. induction Hg as [|g from to Hg IH]; intros a b Hab.
  { unfold edge, connectionsOf, makeGraph in Hab. cbn in Hab. rewrite lookup_empty in Hab. set_solver. }
  set (g' := getNode to (getNode from g)).
  assert (b = to ∨ edge g' a b) as Hb.
  { unfold edge, connectionsOf, addConnection in Hab. cbn in Hab. fold g' in Hab.
    destruct (decide (a = from)) as [-> |Hne]; [|rewrite lookup_alter_ne in Hab by done; by right].
    rewrite lookup_alter_eq in Hab. unfold edge, connectionsOf. destruct (gNodes g' !! from); cbn in *; set_solver. }
  assert (is_Some (gNodes g' !! b)) as [s Hs].
  { destruct (getNode_nodes to (getNode from g)) as [Hto Hold].
    destruct Hb as [-> |Hb]; [done|]. apply Hold, getNode_nodes, (IH a). by do 2 apply getNode_edges in Hb. }
  unfold addConnection. cbn. fold g'. destruct (decide (b = from)) as [-> |Hne].
  - rewrite lookup_alter_eq, Hs. eauto.
  - rewrite lookup_alter_ne by done. eauto.
Qed.

Section Dfs.
Context `{MapRange} (g : Graph) (n : string).
Hypothesis Hg : built g.

Abbreviation nodes := (dom (gNodes g)).

(** What exploring from [t] adds to the nodes reached. *)
Record explored (t : string) (R R' : gset string) : Prop := {
  explored_more : R ⊆ R';
  explored_nodes : R' ⊆ R ∪ nodes ∖ {[n]};
  explored_closed : ∀ x y, x ∈ R' ∖ R → edge g x y → y = n ∨ y ∈ R';
  explored_sound : ∀ x, x ∈ R' ∖ R → tc (edge g) t x
}.

Definition exploring (c : dfsState → outcome Empty_set (unit * dfsState)) (t : string) (R : gset string) (Q : gset string → Prop) : Prop :=
  ∀ k, ∃ R' k', c (mkDfs R k) = Ok (tt, mkDfs R' k') ∧ explored t R R' ∧ Q R'.

(** The loop over the connections of [t]. *)
Lemma forEach_explored f t (l : list (string * unit)) R :
  (∀ e, e ∈ l → edge g t e.1) → R ⊆ nodes →
  (∀ b S, edge g t b → R ⊆ S → S ⊆ nodes → b ∉ S → b ≠ n → exploring (f b) b ({[b]} ∪ S) (λ R', ∀ y, edge g b y → y = n ∨ y ∈ R')) →
  exploring (forEach (λ e, visit f n e.1) l) t R (λ R', ∀ e, e ∈ l → e.1 = n ∨ e.1 ∈ R').
Proof.
  revert R. induction l as [|[b []] l IH]; intros R Hl HR Hf k.
  { exists R, k. split; [done|]. split; [split; set_solver|]. set_solver. }
  assert (edge g t b) as Hb by (apply (Hl (b, tt)); left).
  assert (∃ R1 k1, visit f n b (mkDfs R k) = Ok (tt, mkDfs R1 k1) ∧ explored t R R1 ∧ (b = n ∨ b ∈ R1)) as (R1 & k1 & Hrun & Hex & HbR).
  { unfold visit. case_decide as Hbn; [exists R, k; split; [done|]; split; [split; set_solver|by left]|]. cbn [reached].
    case_decide as HbR; [exists R, k; split; [done|]; split; [split; set_solver|by right]|].
    destruct (Hf b R Hb (reflexivity R) HR HbR Hbn k) as (R1 & k1 & Hrun & [Hmore Hnodes Hclosed Hsound] & Hsucc).
    exists R1, k1. split; [done|]. split; [|right; set_solver]. split.
    - set_solver.
    - destruct (built_nodes g t b Hg Hb) as [s Hs]. assert (b ∈ nodes) as Hbd by (by apply elem_of_dom_2 in Hs). set_solver.
    - intros x y Hx Hxy. destruct (decide (x = b)) as [-> |Hne]; [by apply Hsucc|]. apply (Hclosed x); [set_solver|done].
    - intros x Hx. destruct (decide (x = b)) as [-> |Hne]; [by apply tc_once|].
      eapply tc_l; [exact Hb|]. apply Hsound. set_solver. }
  destruct (IH R1) with (k := k1) as (R2 & k2 & Hrun2 & Hex2 & Hin).
  { intros e He. apply Hl. by right. }
  { destruct Hex. set_solver. }
  { intros b' S Hb' HS. apply Hf; [done|]. etransitivity; [apply Hex|done]. }
  exists R2, k2. cbn [forEach fst]. unfold mbind, M_bind. rewrite Hrun. split; [done|].
  destruct Hex as [H1 H2 H3 H4], Hex2 as [K1 K2 K3 K4]. split.
  - split; [set_solver|set_solver| |].
    + intros x y Hx Hxy. destruct (decide (x ∈ R1)) as [Hx1|Hx1].
      * destruct (H3 x y) as [|]; [set_solver|done|by left|right; set_solver].
      * apply (K3 x); [set_solver|done].
    + intros x Hx. destruct (decide (x ∈ R1)); [apply H4|apply K4]; set_solver.
  - intros e [-> |He]%elem_of_cons; [cbn; set_solver|by apply Hin].
Qed.

Lemma explore_run fuel t R :
  R ⊆ nodes → (size (nodes ∖ R) < fuel)%nat →
  exploring (explore g fuel n t) t R (λ R', ∀ y, edge g t y → y = n ∨ y ∈ R').
Proof.
  revert t R. induction fuel as [|fuel IH]; intros t R HR Hfuel; [lia|]. intros k. cbn [explore].
  unfold rangeConnections, mbind, M_bind. cbn [reached dfsLoops].
  set (l := rangeOrder k (gset_to_gmap tt (connectionsOf g t))).
  assert (∀ e, e ∈ l ↔ edge g t e.1) as Hl.
  { intros [b []]. unfold l. rewrite elem_of_range, lookup_gset_to_gmap_Some. unfold edge. naive_solver. }
  destruct (forEach_explored (explore g fuel n) t l R) with (k := S k) as (R' & k' & Hrun & Hex & Hin).
  - intros e He. by apply Hl.
  - done.
  - intros b S Hb HRS HS HbS Hbn. destruct (built_nodes g t b Hg Hb) as [s Hs]. apply elem_of_dom_2 in Hs.
    apply IH; [set_solver|]. assert (nodes ∖ ({[b]} ∪ S) ⊂ nodes ∖ R) as Hsub by set_solver.
    apply subset_size in Hsub. lia.
  - exists R', k'. split; [done|]. split; [done|]. intros y Hy. apply (Hin (y, tt)). by apply Hl.
Qed.

End Dfs.

(** C40: On a graph that the program built, [dfs] returns, and it returns, once each, exactly
    the other nodes that connections lead to from the node, whatever the order of
    the maps; the depth of the search is at most the number of nodes. *)
Theorem dfs_reachable `{MapRange} (g : Graph) (n : string) :
  built g → ∃ l, dfs g n = Ok l ∧ NoDup l ∧ ∀ x, x ∈ l ↔ x ≠ n ∧ tc (edge g) n x.
Proof.
  intros Hg. destruct (explore_run g n Hg (S (size (gNodes g))) n ∅) with (k := O) as (R & k & Hrun & [_ Hnodes Hclosed Hsound] & Hsucc).
  { set_solver. }
  { rewrite difference_empty_L, size_dom. lia. }
  unfold dfs. rewrite Hrun. eexists. split; [done|]. split; [rewrite rangeOrder_perm; apply NoDup_fst_map_to_list|].
  intros x. cbn [reached]. rewrite list_elem_of_fmap. split.
  - intros ([x' []] & -> & [Hx _]%elem_of_range%lookup_gset_to_gmap_Some). split; [set_solver|]. apply Hsound. set_solver.
  - intros [Hne Hx]. exists (x, tt). split; [done|]. apply elem_of_range, lookup_gset_to_gmap_Some. split; [|done].
    enough (x = n ∨ x ∈ R) as [|] by done. clear Hne. apply tc_rtc in Hx.
    revert x Hx. apply rtc_ind_r; [by left|]. intros y z _ Hyz IH.
    destruct IH as [-> |IH]; [by apply Hsucc|]. apply (Hclosed y); [set_solver|done].
Qed.

Lemma dfs_reachable_witness :
  ∃ l, dfs (H := mapToListRange) forkGraph "c" = Ok l ∧ "e"%string ∈ l ∧ "b"%string ∉ l.
Proof.
  destruct (dfs_reachable (H := mapToListRange) forkGraph "c") as (l & Hl & _ & Hin).
  { repeat constructor. }
  exists l. split; [exact Hl|]. split.
  - apply Hin. split; [done|]. apply tc_once. vm_compute. set_solver.
  - vm_compute in Hl. injection Hl as <-. vm_compute. set_solver.
Defined.
